(** * A segregated-list allocator with footer elision: model and verification

    Shallow embedding of [mm_allocator.c].  The heap is a byte-addressed
    memory; headers and footers are 32-bit little-endian words, free-list
    links are 64-bit words stored at the start of a free block's payload,
    [size_t] arithmetic wraps modulo 2^64.  Loops over in-memory lists take
    fuel; a list walk that exhausts it stands for a walk that never ends. *)

From Stdlib Require Import String ZArith List Lia Bool.
Import ListNotations.
Open Scope Z_scope.

(* ================================================================= *)
(** ** Byte-addressed memory *)

Definition mem := Z -> Z.

Definition byte_at (m : mem) (a : Z) : Z := m a mod 256.

Definition upd (m : mem) (a v : Z) : mem :=
  fun x => if x =? a then v else m x.

(** Little-endian read of [n] bytes at [a]. *)
Fixpoint load (n : nat) (m : mem) (a : Z) : Z :=
  match n with
  | O => 0
  | S k => byte_at m a + 256 * load k m (a + 1)
  end.

(** Little-endian write of the [n] low bytes of [v] at [a]. *)
Fixpoint store (n : nat) (m : mem) (a v : Z) : mem :=
  match n with
  | O => m
  | S k => store k (upd m a (v mod 256)) (a + 1) (v / 256)
  end.

(** [memcpy]/[memset] bodies: byte-wise, source bytes read from [src]. *)
Fixpoint copy_bytes (n : nat) (src m : mem) (d s : Z) : mem :=
  match n with
  | O => m
  | S k => copy_bytes k src (upd m d (byte_at src s)) (d + 1) (s + 1)
  end.

Fixpoint fill_bytes (n : nat) (m : mem) (d c : Z) : mem :=
  match n with
  | O => m
  | S k => fill_bytes k (upd m d (c mod 256)) (d + 1) c
  end.

Arguments load : simpl never.
Arguments store : simpl never.
Arguments copy_bytes : simpl never.
Arguments fill_bytes : simpl never.

(* ================================================================= *)
(** ** Constants and macros of the source *)

Definition WSIZE : Z := 4.
Definition DSIZE : Z := 8.
Definition CHUNKSIZE : Z := 4096.   (* 1 << 12 *)

Definition num01 : Z := 12.
Definition num02 : Z := 16.
Definition num03 : Z := 20.
Definition num04 : Z := 64.
Definition num05 : Z := 112.
Definition num06 : Z := 120.
Definition num07 : Z := 256.
Definition num08 : Z := 448.
Definition num09 : Z := 512.
Definition num10 : Z := 1024.
Definition num11 : Z := 2048.
Definition num12 : Z := 3072.
Definition num13 : Z := 4096.
Definition num14 : Z := 8192.

(** [size_t] is 64 bits wide, [unsigned int] 32. *)
Definition SIZE_MAX : Z := 2 ^ 64 - 1.
Definition wrap64 (z : Z) : Z := z mod 2 ^ 64.

Definition MAX (x y : Z) : Z := if x >? y then x else y.

(** [ALIGN(p)]: [((size_t)(p) + 7) & ~0x7]. *)
Definition ALIGN (p : Z) : Z := Z.land (wrap64 (p + 7)) (2 ^ 64 - 8).

(** [PACK(size, prex, alloc)]: [(size) | (prex) | (alloc)]. *)
Definition PACK (size prex alloc : Z) : Z := Z.lor (Z.lor size prex) alloc.

(** [GET(p)] and [PUT(p, val)] access an [unsigned int]; the link word of a
    free block is a [size_t]. *)
Definition GET (m : mem) (p : Z) : Z := load 4 m p.
Definition PUT (m : mem) (p v : Z) : mem := store 4 m p v.
Definition GETL (m : mem) (p : Z) : Z := load 8 m p.
Definition PUTL (m : mem) (p v : Z) : mem := store 8 m p v.

(** [~0x7] is the [int] -8, converted to [unsigned int] next to [GET(p)]. *)
Definition GET_SIZE (m : mem) (p : Z) : Z := Z.land (GET m p) 4294967288.
Definition GET_ALLOC (m : mem) (p : Z) : Z := Z.land (GET m p) 1.
Definition PREVX (m : mem) (p : Z) : Z := Z.land (GET m p) 4.

Definition HDRP (bp : Z) : Z := bp - WSIZE.
Definition FTRP (m : mem) (bp : Z) : Z := bp + GET_SIZE m (HDRP bp) - DSIZE.
Definition NEXT_BLKP (m : mem) (bp : Z) : Z := bp + GET_SIZE m (bp - WSIZE).
Definition PREV_BLKP (m : mem) (bp : Z) : Z := bp - GET_SIZE m (bp - DSIZE).

(* ================================================================= *)
(** ** Outcomes *)

Inductive error : Type :=
| Diverges   (* a list or block walk that does not end *)
| SegFault.  (* a libc bulk access outside the provider's arena *)

Inductive result (A : Type) : Type :=
| Ok (a : A)
| Err (e : error).
Arguments Ok {A} a.
Arguments Err {A} e.

Definition bind {A B : Type} (r : result A) (k : A -> result B) : result B :=
  match r with
  | Ok a => k a
  | Err e => Err e
  end.

Notation "x <- c ;; k" := (bind c (fun x => k))
  (at level 61, c at next level, right associativity).
Notation "' pat <- c ;; k" := (bind c (fun x => match x with pat => k end))
  (at level 61, pat pattern, c at next level, right associativity).

(* ================================================================= *)
(** ** Allocator state *)

Record state : Type := mkState {
  heap : mem;            (* the bytes of the arena *)
  mem_start : Z;         (* mem_heap_lo() *)
  mem_brk : Z;           (* one past the last heap byte *)
  mem_max_addr : Z;      (* end of the provider's arena *)
  heap_listp : Z;        (* the start of the heap *)
  lhead : nat -> Z       (* l01 .. l15 at indices 1 .. 15 (0: list_start) *)
}.

Definition set_heap (st : state) (m : mem) : state :=
  mkState m (mem_start st) (mem_brk st) (mem_max_addr st) (heap_listp st) (lhead st).

Definition set_lhead (st : state) (c : nat) (v : Z) : state :=
  mkState (heap st) (mem_start st) (mem_brk st) (mem_max_addr st) (heap_listp st)
          (fun k => if Nat.eqb k c then v else lhead st k).

Definition set_heap_listp (st : state) (v : Z) : state :=
  mkState (heap st) (mem_start st) (mem_brk st) (mem_max_addr st) v (lhead st).

Definition clear_lists (st : state) : state :=
  mkState (heap st) (mem_start st) (mem_brk st) (mem_max_addr st) (heap_listp st)
          (fun _ => 0).

(** Modelled from the spec: the page provider (memlib's [mem_sbrk],
    [mem_heap_lo], [mem_heap_hi]) is not part of the source file.  Section 6
    of the specification: [extend(n)] grows the heap by [n] bytes and returns
    the start of the newly added range, which is adjacent to the previous end
    of the heap, or a failure sentinel; [lo()] and [hi()] are the current
    bounds of the region [[lo, hi)].  The provider refuses when the arena
    [[mem_start, mem_max_addr)] would be exceeded. *)
Definition mem_sbrk (st : state) (incr : Z) : state * Z :=
  if mem_brk st + incr <=? mem_max_addr st
  then (mkState (heap st) (mem_start st) (mem_brk st + incr) (mem_max_addr st)
                (heap_listp st) (lhead st),
        mem_brk st)
  else (st, SIZE_MAX).   (* (void * )-1 *)

Definition mem_heap_lo (st : state) : Z := mem_start st.
Definition mem_heap_hi (st : state) : Z := mem_brk st.

(** Walks over in-memory lists are bounded by the number of heap bytes. *)
Definition fuel_of (st : state) : nat := S (Z.to_nat (mem_brk st - mem_start st)).

(* ================================================================= *)
(** ** The segregated index: [insertx], [deletex], [find_fit] *)

(** The source unrolls one test per list: [asize <= numNN] for ordinary
    classes, [asize == num04] and [asize == num05] for the two singleton
    classes, and no test for the last list. *)
Inductive guard : Type :=
| UpTo (b : Z)
| Exactly (b : Z)
| Rest.

Definition passes (g : guard) (asize : Z) : bool :=
  match g with
  | UpTo b => asize <=? b
  | Exactly b => asize =? b
  | Rest => true
  end.

Definition cascade : list (nat * guard) :=
  [ (1%nat, UpTo num01); (2%nat, UpTo num02); (3%nat, UpTo num03);
    (4%nat, Exactly num04); (5%nat, Exactly num05); (6%nat, UpTo num06);
    (7%nat, UpTo num07); (8%nat, UpTo num08); (9%nat, UpTo num09);
    (10%nat, UpTo num10); (11%nat, UpTo num11); (12%nat, UpTo num12);
    (13%nat, UpTo num13); (14%nat, UpTo num14); (15%nat, Rest) ].

(** The list [insertx] chooses: the first test that succeeds, each branch
    ending in [return]. *)
Fixpoint class_from (cs : list (nat * guard)) (asize : Z) : nat :=
  match cs with
  | [] => 15%nat
  | (c, g) :: rest => if passes g asize then c else class_from rest asize
  end.

Definition class_of (asize : Z) : nat := class_from cascade asize.

(** [insertx]: the link word of [bp] receives the former head. *)
Definition insertx (st : state) (bp asize : Z) : state :=
  let c := class_of asize in
  set_lhead (set_heap st (PUTL (heap st) bp (lhead st c))) c bp.

(** The [while (nowx)] loop of [deletex]: [Some m'] when the predecessor of
    [bp] was found and spliced, [None] when the list ended without it. *)
Fixpoint unlink (fuel : nat) (m : mem) (nowx bp nextk : Z) : result (option mem) :=
  match fuel with
  | O => Err Diverges
  | S f =>
      if nowx =? 0 then Ok None
      else if GETL m nowx =? bp then Ok (Some (PUTL m nowx nextk))
      else unlink f m (GETL m nowx) bp nextk
  end.

(** [deletex]: every block whose test succeeds is tried in turn; only a
    successful removal returns, a miss falls through to the next test. *)
Fixpoint deletex_from (cs : list (nat * guard)) (st : state)
         (bp nextk asize : Z) : result state :=
  match cs with
  | [] => Ok st
  | (c, g) :: rest =>
      if passes g asize then
        if lhead st c =? bp then
          Ok (set_lhead st c (if negb (nextk =? 0) then nextk else 0))
        else
          r <- unlink (fuel_of st) (heap st) (lhead st c) bp nextk ;;
          match r with
          | Some m' => Ok (set_heap st m')
          | None => deletex_from rest st bp nextk asize
          end
      else deletex_from rest st bp nextk asize
  end.

Definition deletex (st : state) (bp asize : Z) : result state :=
  deletex_from cascade st bp (GETL (heap st) bp) asize.

(** The scan of one list in [find_fit]; 0 when the list has no fit. *)
Fixpoint scan (fuel : nat) (m : mem) (now_list_start asize : Z) : result Z :=
  match fuel with
  | O => Err Diverges
  | S f =>
      if now_list_start =? 0 then Ok 0
      else if asize <=? GET_SIZE m (HDRP now_list_start) then Ok now_list_start
      else if negb (GETL m now_list_start =? 0)
           then scan f m (GETL m now_list_start) asize
           else Ok 0
  end.

Fixpoint find_fit_from (cs : list (nat * guard)) (st : state) (asize : Z) : result Z :=
  match cs with
  | [] => Ok 0
  | (c, g) :: rest =>
      if passes g asize then
        bp <- scan (fuel_of st) (heap st) (lhead st c) asize ;;
        if negb (bp =? 0) then Ok bp else find_fit_from rest st asize
      else find_fit_from rest st asize
  end.

Definition find_fit (st : state) (asize : Z) : result Z :=
  find_fit_from cascade st asize.

(* ================================================================= *)
(** ** [coalesce], [place], [extend_heap], [mm_init] *)

Definition coalesce (st : state) (bp : Z) : result (state * Z) :=
  let m := heap st in
  let prev_alloc := PREVX m (HDRP bp) in
  let next_alloc := GET_ALLOC m (HDRP (NEXT_BLKP m bp)) in
  let size := GET_SIZE m (HDRP bp) in
  if (prev_alloc =? 4) && negb (next_alloc =? 0) then          (* Case 1 *)
    Ok (insertx st bp size, bp)
  else if (prev_alloc =? 4) && (next_alloc =? 0) then          (* Case 2 *)
    let k := GET_SIZE m (HDRP (NEXT_BLKP m bp)) in
    st1 <- deletex st (NEXT_BLKP m bp) k ;;
    let size := wrap64 (size + k) in
    let m1 := PUT (heap st1) (HDRP bp) (PACK size 4 0) in
    let m2 := PUT m1 (FTRP m1 bp) (PACK size 4 0) in
    Ok (insertx (set_heap st1 m2) bp size, bp)
  else if negb (prev_alloc =? 4) && negb (next_alloc =? 0) then (* Case 3 *)
    let k := GET_SIZE m (HDRP (PREV_BLKP m bp)) in
    st1 <- deletex st (PREV_BLKP m bp) k ;;
    let size := wrap64 (size + k) in
    let m1 := PUT (heap st1) (FTRP (heap st1) bp) (PACK size 4 0) in
    let m2 := PUT m1 (HDRP (PREV_BLKP m1 bp)) (PACK size 4 0) in
    let bp' := PREV_BLKP m2 bp in
    Ok (insertx (set_heap st1 m2) bp' size, bp')
  else                                                         (* Case 4 *)
    let t1 := GET_SIZE m (HDRP (PREV_BLKP m bp)) in
    let t2 := GET_SIZE m (FTRP m (NEXT_BLKP m bp)) in
    st1 <- deletex st (PREV_BLKP m bp) t1 ;;
    st2 <- deletex st1 (NEXT_BLKP (heap st1) bp) t2 ;;
    let size := wrap64 (size + (t1 + t2)) in
    let m1 := PUT (heap st2) (HDRP (PREV_BLKP (heap st2) bp)) (PACK size 4 0) in
    let m2 := PUT m1 (FTRP m1 (NEXT_BLKP m1 bp)) (PACK size 4 0) in
    let bp' := PREV_BLKP m2 bp in
    Ok (insertx (set_heap st2 m2) bp' size, bp').

(** The refresh of the block that follows an allocation: its prev-allocated
    bit is set, in its footer too when it is free. *)
Definition mark_next_prev_allocated (m : mem) (bp : Z) : mem :=
  let m1 := PUT m (HDRP (NEXT_BLKP m bp))
                (PACK (GET_SIZE m (HDRP (NEXT_BLKP m bp))) 4
                      (GET_ALLOC m (HDRP (NEXT_BLKP m bp)))) in
  if GET_ALLOC m1 (HDRP (NEXT_BLKP m1 bp)) =? 0 then
    PUT m1 (FTRP m1 (NEXT_BLKP m1 bp))
        (PACK (GET_SIZE m1 (HDRP (NEXT_BLKP m1 bp))) 4
              (GET_ALLOC m1 (HDRP (NEXT_BLKP m1 bp))))
  else m1.

Definition place (st : state) (bp asize : Z) : result (state * Z) :=
  let csize := GET_SIZE (heap st) (HDRP bp) in
  let checkprev := PREVX (heap st) (HDRP bp) in
  st1 <- deletex st bp asize ;;
  if 2 * DSIZE <=? wrap64 (csize - asize) then
    if asize <? 120 then
      let m1 := PUT (heap st1) (HDRP bp) (PACK asize checkprev 1) in
      let xxx := NEXT_BLKP m1 bp in
      let m2 := PUT m1 (HDRP xxx) (PACK (wrap64 (csize - asize)) 4 0) in
      let m3 := PUT m2 (FTRP m2 xxx) (PACK (wrap64 (csize - asize)) 4 0) in
      Ok (insertx (set_heap st1 m3) xxx (wrap64 (csize - asize)), bp)
    else
      let m1 := PUT (heap st1) (HDRP bp) (PACK (wrap64 (csize - asize)) checkprev 0) in
      let m2 := PUT m1 (FTRP m1 bp) (PACK (wrap64 (csize - asize)) checkprev 0) in
      let st2 := insertx (set_heap st1 m2) bp (wrap64 (csize - asize)) in
      let bp' := NEXT_BLKP (heap st2) bp in
      let m3 := PUT (heap st2) (HDRP bp') (PACK asize 0 1) in
      Ok (set_heap st2 (mark_next_prev_allocated m3 bp'), bp')
  else
    let m1 := PUT (heap st1) (HDRP bp) (PACK csize checkprev 1) in
    let m2 := PUT m1 (FTRP m1 bp) (PACK csize checkprev 1) in
    Ok (set_heap st1 (mark_next_prev_allocated m2 bp), bp).

Definition extend_heap (st : state) (words : Z) : result (state * Z) :=
  let size := if negb (words mod 2 =? 0)
              then wrap64 ((words + 1) * WSIZE)
              else wrap64 (words * WSIZE) in
  let (st1, bp) := mem_sbrk st size in
  if bp =? SIZE_MAX then Ok (st1, 0)
  else
    let checkprev := PREVX (heap st1) (HDRP bp) in
    let m1 := PUT (heap st1) (HDRP bp) (PACK size checkprev 0) in
    let m2 := PUT m1 (FTRP m1 bp) (PACK size checkprev 0) in
    let m3 := PUT m2 (HDRP (NEXT_BLKP m2 bp)) (PACK 0 0 1) in
    coalesce (set_heap st1 m3) bp.

(** [mm_init] returns 0 on success and -1 on error. *)
Definition mm_init (st : state) : result (state * Z) :=
  let st0 := clear_lists st in
  let (st1, p) := mem_sbrk st0 (4 * WSIZE) in
  let st2 := set_heap_listp st1 p in
  if p =? SIZE_MAX then Ok (st2, -1)
  else
    let m1 := PUT (heap st2) p 0 in
    let m2 := PUT m1 (p + 1 * WSIZE) (PACK DSIZE 4 1) in
    let m3 := PUT m2 (p + 2 * WSIZE) (PACK DSIZE 4 1) in
    let m4 := PUT m3 (p + 3 * WSIZE) (PACK 0 4 1) in
    let st3 := set_heap_listp (set_heap st2 m4) (p + 2 * WSIZE) in
    '(st4, r) <- extend_heap st3 (CHUNKSIZE / WSIZE) ;;
    if r =? 0 then Ok (st4, -1) else Ok (st4, 0).

(* ================================================================= *)
(** ** The entry points *)

(** [if (heap_listp == 0) mm_init();] with the result ignored. *)
Definition ensure_init (st : state) : result state :=
  if heap_listp st =? 0 then '(st', _) <- mm_init st ;; Ok st' else Ok st.

(** The adjusted block size of [malloc]. *)
Definition adjust (size : Z) : Z :=
  if size <=? DSIZE then 2 * DSIZE
  else wrap64 (DSIZE * (wrap64 (WSIZE + size + (DSIZE - 1)) / DSIZE)).

Definition malloc (st : state) (size : Z) : result (state * Z) :=
  st1 <- ensure_init st ;;
  if size <=? 0 then Ok (st1, 0)
  else
    let asize := adjust size in
    bp <- find_fit st1 asize ;;
    if negb (bp =? 0) then place st1 bp asize
    else
      let extendsize := MAX asize CHUNKSIZE in
      '(st2, bp2) <- extend_heap st1 (extendsize / WSIZE) ;;
      if bp2 =? 0 then Ok (st2, 0) else place st2 bp2 asize.

Definition free (st : state) (ptr : Z) : result state :=
  if ptr =? 0 then Ok st
  else
    st1 <- ensure_init st ;;
    let m := heap st1 in
    let size := GET_SIZE m (HDRP ptr) in
    let checkprev := PREVX m (HDRP ptr) in
    let m1 := PUT m (HDRP ptr) (PACK size checkprev 0) in
    let m2 := PUT m1 (FTRP m1 ptr) (PACK size checkprev 0) in
    if negb (GET_ALLOC m2 (HDRP (NEXT_BLKP m2 ptr)) =? 0) then
      let m3 := PUT m2 (HDRP (NEXT_BLKP m2 ptr))
                    (PACK (GET_SIZE m2 (HDRP (NEXT_BLKP m2 ptr))) 0 1) in
      '(st2, _) <- coalesce (set_heap st1 m3) ptr ;;
      Ok st2
    else
      let m3 := PUT m2 (HDRP (NEXT_BLKP m2 ptr))
                    (PACK (GET_SIZE m2 (HDRP (NEXT_BLKP m2 ptr))) 0 0) in
      let m4 := PUT m3 (FTRP m3 (NEXT_BLKP m3 ptr))
                    (PACK (GET_SIZE m3 (HDRP (NEXT_BLKP m3 ptr))) 0 0) in
      '(st2, _) <- coalesce (set_heap st1 m4) ptr ;;
      Ok st2.

(** libc's [memcpy] and [memset]: a transfer of [n > 0] bytes touches
    [[p, p + n)], which must lie in the provider's arena. *)
Definition in_arena (st : state) (p n : Z) : bool :=
  (mem_start st <=? p) && (p + n <=? mem_max_addr st).

Definition memcpy (st : state) (dst src n : Z) : result state :=
  if n =? 0 then Ok st
  else if in_arena st dst n && in_arena st src n
  then Ok (set_heap st (copy_bytes (Z.to_nat n) (heap st) (heap st) dst src))
  else Err SegFault.

Definition memset (st : state) (dst c n : Z) : result state :=
  if n =? 0 then Ok st
  else if in_arena st dst n
  then Ok (set_heap st (fill_bytes (Z.to_nat n) (heap st) dst c))
  else Err SegFault.

Definition realloc (st : state) (oldptr size : Z) : result (state * Z) :=
  if size =? 0 then st1 <- free st oldptr ;; Ok (st1, 0)
  else if oldptr =? 0 then malloc st size
  else
    '(st1, newptr) <- malloc st size ;;
    if newptr =? 0 then Ok (st1, 0)
    else
      let oldsize := GET_SIZE (heap st1) (HDRP oldptr) in
      let oldsize := if size <? oldsize then size else oldsize in
      st2 <- memcpy st1 newptr oldptr oldsize ;;
      st3 <- free st2 oldptr ;;
      Ok (st3, newptr).

Definition calloc (st : state) (nmemb size : Z) : result (state * Z) :=
  let bytes := wrap64 (nmemb * size) in
  '(st1, newptr) <- malloc st bytes ;;
  st2 <- memset st1 newptr 0 bytes ;;
  Ok (st2, newptr).

(* ================================================================= *)
(** * Memory lemmas *)

Lemma upd_same : forall m a v, upd m a v a = v.
Proof. intros; unfold upd; now rewrite Z.eqb_refl. Qed.

Lemma upd_other : forall m a v x, x <> a -> upd m a v x = m x.
Proof. intros; unfold upd; destruct (Z.eqb_spec x a); congruence. Qed.

Lemma store_outside : forall n m a v x,
  x < a \/ a + Z.of_nat n <= x -> store n m a v x = m x.
Proof.
  induction n as [|k IH]; intros m a v x Hx; [reflexivity|].
  change (store (S k) m a v) with (store k (upd m a (v mod 256)) (a + 1) (v / 256)).
  rewrite IH by lia. apply upd_other; lia.
Qed.

Lemma load_ext : forall n m1 m2 a,
  (forall x, a <= x < a + Z.of_nat n -> m1 x = m2 x) ->
  load n m1 a = load n m2 a.
Proof.
  induction n as [|k IH]; intros m1 m2 a H; [reflexivity|].
  change (load (S k) m1 a) with (byte_at m1 a + 256 * load k m1 (a + 1)).
  change (load (S k) m2 a) with (byte_at m2 a + 256 * load k m2 (a + 1)).
  unfold byte_at. rewrite (H a) by lia. rewrite (IH m1 m2 (a + 1)); [reflexivity|].
  intros; apply H; lia.
Qed.

Lemma load_range : forall n m a, 0 <= load n m a < 256 ^ Z.of_nat n.
Proof.
  induction n as [|k IH]; intros m a.
  - change (load 0 m a) with 0. cbn; lia.
  - change (load (S k) m a) with (byte_at m a + 256 * load k m (a + 1)).
    replace (Z.of_nat (S k)) with (Z.of_nat k + 1) by lia.
    rewrite Z.pow_add_r by lia. specialize (IH m (a + 1)).
    unfold byte_at. pose proof (Z.mod_pos_bound (m a) 256). lia.
Qed.

Lemma load_store_same : forall n m a v, load n (store n m a v) a = v mod 256 ^ Z.of_nat n.
Proof.
  induction n as [|k IH]; intros m a v.
  - change (load 0 (store 0 m a v) a) with 0. cbn. now rewrite Z.mod_1_r.
  - change (store (S k) m a v) with (store k (upd m a (v mod 256)) (a + 1) (v / 256)).
    change (load (S k) ?mm a) with (byte_at mm a + 256 * load k mm (a + 1)).
    rewrite IH. unfold byte_at. rewrite store_outside by lia. rewrite upd_same.
    replace (Z.of_nat (S k)) with (1 + Z.of_nat k) by lia.
    rewrite Z.pow_add_r by lia. rewrite Z.rem_mul_r by lia.
    rewrite Z.mod_mod by lia. reflexivity.
Qed.

Lemma load_store_other : forall n' n m a v b,
  b + Z.of_nat n' <= a \/ a + Z.of_nat n <= b ->
  load n' (store n m a v) b = load n' m b.
Proof.
  intros. apply load_ext. intros x Hx. apply store_outside. lia.
Qed.

Lemma copy_bytes_outside : forall n src m d s x,
  x < d \/ d + Z.of_nat n <= x -> copy_bytes n src m d s x = m x.
Proof.
  induction n as [|k IH]; intros src m d s x Hx; [reflexivity|].
  change (copy_bytes (S k) src m d s)
    with (copy_bytes k src (upd m d (byte_at src s)) (d + 1) (s + 1)).
  rewrite IH by lia. apply upd_other; lia.
Qed.

Lemma copy_bytes_inside : forall n src m d s i,
  0 <= i < Z.of_nat n -> copy_bytes n src m d s (d + i) = byte_at src (s + i).
Proof.
  induction n as [|k IH]; intros src m d s i Hi; [lia|].
  change (copy_bytes (S k) src m d s)
    with (copy_bytes k src (upd m d (byte_at src s)) (d + 1) (s + 1)).
  destruct (Z.eq_dec i 0) as [->|Hne].
  - rewrite copy_bytes_outside by lia. rewrite !Z.add_0_r. apply upd_same.
  - replace (d + i) with (d + 1 + (i - 1)) by lia.
    rewrite IH by lia. f_equal; lia.
Qed.

Lemma fill_bytes_outside : forall n m d c x,
  x < d \/ d + Z.of_nat n <= x -> fill_bytes n m d c x = m x.
Proof.
  induction n as [|k IH]; intros m d c x Hx; [reflexivity|].
  change (fill_bytes (S k) m d c) with (fill_bytes k (upd m d (c mod 256)) (d + 1) c).
  rewrite IH by lia. apply upd_other; lia.
Qed.

Lemma fill_bytes_inside : forall n m d c i,
  0 <= i < Z.of_nat n -> fill_bytes n m d c (d + i) = c mod 256.
Proof.
  induction n as [|k IH]; intros m d c i Hi; [lia|].
  change (fill_bytes (S k) m d c) with (fill_bytes k (upd m d (c mod 256)) (d + 1) c).
  destruct (Z.eq_dec i 0) as [->|Hne].
  - rewrite fill_bytes_outside by lia. rewrite Z.add_0_r. apply upd_same.
  - replace (d + i) with (d + 1 + (i - 1)) by lia. apply IH; lia.
Qed.

(** Two memories that agree outside the byte range [[a, b)]. *)
Definition same_outside (a b : Z) (m m' : mem) : Prop :=
  forall x, x < a \/ b <= x -> m' x = m x.

Lemma same_outside_refl : forall a b m, same_outside a b m m.
Proof. intros a b m x _; reflexivity. Qed.

Lemma same_outside_PUT : forall m p v, same_outside p (p + 4) m (PUT m p v).
Proof. intros m p v x Hx. unfold PUT. apply store_outside. lia. Qed.

Lemma same_outside_PUTL : forall m p v, same_outside p (p + 8) m (PUTL m p v).
Proof. intros m p v x Hx. unfold PUTL. apply store_outside. lia. Qed.

Lemma same_outside_GET : forall a b m m' q,
  same_outside a b m m' -> q + 4 <= a \/ b <= q -> GET m' q = GET m q.
Proof. intros a b m m' q H Hq. unfold GET. apply load_ext. intros x Hx. apply H. lia. Qed.

Lemma same_outside_GETL : forall a b m m' q,
  same_outside a b m m' -> q + 8 <= a \/ b <= q -> GETL m' q = GETL m q.
Proof. intros a b m m' q H Hq. unfold GETL. apply load_ext. intros x Hx. apply H. lia. Qed.

Lemma GET_ext : forall m m' q, (forall x, q <= x < q + 4 -> m' x = m x) -> GET m' q = GET m q.
Proof. intros. unfold GET. apply load_ext. assumption. Qed.

Lemma GETL_ext : forall m m' q, (forall x, q <= x < q + 8 -> m' x = m x) -> GETL m' q = GETL m q.
Proof. intros. unfold GETL. apply load_ext. assumption. Qed.

Lemma GET_range : forall m p, 0 <= GET m p < 2 ^ 32.
Proof. intros. unfold GET. pose proof (load_range 4 m p) as H.
  change (256 ^ Z.of_nat 4) with (2 ^ 32) in H. exact H. Qed.

Lemma GETL_range : forall m p, 0 <= GETL m p < 2 ^ 64.
Proof. intros. unfold GETL. pose proof (load_range 8 m p) as H.
  change (256 ^ Z.of_nat 8) with (2 ^ 64) in H. exact H. Qed.

Lemma GET_PUT_same : forall m p v, GET (PUT m p v) p = v mod 2 ^ 32.
Proof. intros. unfold GET, PUT. rewrite load_store_same. reflexivity. Qed.

Lemma GET_PUT_other : forall m p v q,
  q + 4 <= p \/ p + 4 <= q -> GET (PUT m p v) q = GET m q.
Proof. intros. unfold GET, PUT. apply load_store_other. lia. Qed.

Lemma GET_PUTL_other : forall m p v q,
  q + 4 <= p \/ p + 8 <= q -> GET (PUTL m p v) q = GET m q.
Proof. intros. unfold GET, PUTL. apply load_store_other. lia. Qed.

Lemma GETL_PUTL_same : forall m p v, GETL (PUTL m p v) p = v mod 2 ^ 64.
Proof. intros. unfold GETL, PUTL. rewrite load_store_same. reflexivity. Qed.

Lemma GETL_PUTL_other : forall m p v q,
  q + 8 <= p \/ p + 8 <= q -> GETL (PUTL m p v) q = GETL m q.
Proof. intros. unfold GETL, PUTL. apply load_store_other. lia. Qed.

Lemma GETL_PUT_other : forall m p v q,
  q + 8 <= p \/ p + 4 <= q -> GETL (PUT m p v) q = GETL m q.
Proof. intros. unfold GETL, PUT. apply load_store_other. lia. Qed.

(* ================================================================= *)
(** * Header words *)

Definition b2z4 (b : bool) : Z := if b then 4 else 0.
Definition b2z1 (b : bool) : Z := if b then 1 else 0.

(** The header of a block of size [s] whose predecessor has allocation
    state [pa] and whose own state is [a]. *)
Definition hdr (s : Z) (pa a : bool) : Z := s + b2z4 pa + b2z1 a.

Lemma land_low3 : forall w, Z.land w 7 = w mod 8.
Proof. intros. change 7 with (Z.ones 3). now rewrite Z.land_ones by lia. Qed.

Lemma land_size_mask : forall w, 0 <= w < 2 ^ 32 -> Z.land w 4294967288 = w - w mod 8.
Proof.
  intros w Hw.
  assert (Hsum : Z.land w 4294967288 + Z.land w 7 = w).
  { rewrite Z.add_nocarry_lxor, Z.lxor_lor.
    - rewrite <- Z.land_lor_distr_r. change (Z.lor 4294967288 7) with (Z.ones 32).
      rewrite Z.land_ones by lia. apply Z.mod_small. lia.
    - rewrite (Z.land_comm w 7), Z.land_assoc, <- (Z.land_assoc w 4294967288 7).
      change (Z.land 4294967288 7) with 0. now rewrite Z.land_0_r, Z.land_0_l.
    - rewrite (Z.land_comm w 7), Z.land_assoc, <- (Z.land_assoc w 4294967288 7).
      change (Z.land 4294967288 7) with 0. now rewrite Z.land_0_r, Z.land_0_l. }
  rewrite land_low3 in Hsum. lia.
Qed.

Lemma land_bit_of_low3 : forall w k, Z.land 7 k = k -> Z.land w k = Z.land (w mod 8) k.
Proof. intros w k Hk. rewrite <- land_low3, <- Z.land_assoc, Hk. reflexivity. Qed.

Lemma hdr_mod8 : forall s pa a, s mod 8 = 0 -> hdr s pa a mod 8 = b2z4 pa + b2z1 a.
Proof.
  intros s pa a Hs. unfold hdr. rewrite <- Z.add_assoc, <- Z.add_mod_idemp_l, Hs by lia.
  destruct pa, a; reflexivity.
Qed.

Lemma hdr_range : forall s pa a, 0 <= s -> s mod 8 = 0 -> s < 2 ^ 32 -> 0 <= hdr s pa a < 2 ^ 32.
Proof.
  intros s pa a H0 Hs Hlt. unfold hdr.
  assert (s <= 2 ^ 32 - 8).
  { pose proof (Z.div_mod s 8 ltac:(lia)) as E. rewrite Hs in E.
    change (2 ^ 32) with 4294967296 in *. lia. }
  destruct pa, a; cbn; lia.
Qed.

Lemma size_of_hdr : forall s pa a, 0 <= s -> s mod 8 = 0 -> s < 2 ^ 32 ->
  Z.land (hdr s pa a) 4294967288 = s.
Proof.
  intros s pa a H0 Hs Hlt. rewrite land_size_mask by (apply hdr_range; assumption).
  rewrite hdr_mod8 by assumption. unfold hdr. lia.
Qed.

Lemma prev_of_hdr : forall s pa a, s mod 8 = 0 -> Z.land (hdr s pa a) 4 = b2z4 pa.
Proof.
  intros s pa a Hs. rewrite land_bit_of_low3 by reflexivity.
  rewrite hdr_mod8 by assumption. destruct pa, a; reflexivity.
Qed.

Lemma alloc_of_hdr : forall s pa a, s mod 8 = 0 -> Z.land (hdr s pa a) 1 = b2z1 a.
Proof.
  intros s pa a Hs. rewrite land_bit_of_low3 by reflexivity.
  rewrite hdr_mod8 by assumption. destruct pa, a; reflexivity.
Qed.

Lemma PACK_hdr : forall s pa a, 0 <= s -> s mod 8 = 0 -> PACK s (b2z4 pa) (b2z1 a) = hdr s pa a.
Proof.
  intros s pa a H0 Hs. unfold PACK, hdr.
  rewrite <- Z.lor_assoc, <- Z.add_assoc.
  assert (Hlow : Z.land 7 (Z.lor (b2z4 pa) (b2z1 a)) = Z.lor (b2z4 pa) (b2z1 a))
    by (destruct pa, a; reflexivity).
  assert (Hdis : Z.land s (Z.lor (b2z4 pa) (b2z1 a)) = 0).
  { rewrite land_bit_of_low3 by exact Hlow. rewrite Hs. apply Z.land_0_l. }
  rewrite <- Z.lxor_lor, <- Z.add_nocarry_lxor by exact Hdis.
  destruct pa, a; reflexivity.
Qed.

Lemma PACK_00 : forall s, 0 <= s -> s mod 8 = 0 -> PACK s 0 0 = hdr s false false.
Proof. intros. exact (PACK_hdr s false false ltac:(assumption) ltac:(assumption)). Qed.

Lemma PACK_01 : forall s, 0 <= s -> s mod 8 = 0 -> PACK s 0 1 = hdr s false true.
Proof. intros. exact (PACK_hdr s false true ltac:(assumption) ltac:(assumption)). Qed.

Lemma PACK_40 : forall s, 0 <= s -> s mod 8 = 0 -> PACK s 4 0 = hdr s true false.
Proof. intros. exact (PACK_hdr s true false ltac:(assumption) ltac:(assumption)). Qed.

Lemma PACK_41 : forall s, 0 <= s -> s mod 8 = 0 -> PACK s 4 1 = hdr s true true.
Proof. intros. exact (PACK_hdr s true true ltac:(assumption) ltac:(assumption)). Qed.

(** What the three field readers return on a header word in memory. *)
Lemma fields_of_GET : forall m q s pa a,
  GET m q = hdr s pa a -> 0 <= s -> s mod 8 = 0 -> s < 2 ^ 32 ->
  GET_SIZE m q = s /\ PREVX m q = b2z4 pa /\ GET_ALLOC m q = b2z1 a.
Proof.
  intros m q s pa a E H0 Hs Hlt. unfold GET_SIZE, PREVX, GET_ALLOC. rewrite E.
  auto using size_of_hdr, prev_of_hdr, alloc_of_hdr.
Qed.

Lemma GET_PUT_hdr : forall m q s pa a, 0 <= s -> s mod 8 = 0 -> s < 2 ^ 32 ->
  GET (PUT m q (PACK s (b2z4 pa) (b2z1 a))) q = hdr s pa a.
Proof.
  intros. rewrite GET_PUT_same, PACK_hdr by assumption.
  apply Z.mod_small. apply hdr_range; assumption.
Qed.

Lemma GET_SIZE_range : forall m q, 0 <= GET_SIZE m q < 2 ^ 32 /\ GET_SIZE m q mod 8 = 0.
Proof.
  intros. unfold GET_SIZE. pose proof (GET_range m q) as R.
  rewrite land_size_mask by assumption.
  generalize dependent (GET m q). intros w R.
  change (2 ^ 32) with 4294967296 in *.
  pose proof (Z.mod_pos_bound w 8 ltac:(lia)).
  pose proof (Z.div_mod w 8 ltac:(lia)) as E.
  split; [lia|].
  replace (w - w mod 8) with ((w / 8) * 8) by lia.
  apply Z.mod_mul. lia.
Qed.

Ltac pow2 :=
  change (2 ^ 32) with 4294967296 in *;
  change (2 ^ 64) with 18446744073709551616 in *.

Ltac unfold_consts :=
  unfold HDRP, WSIZE, DSIZE, CHUNKSIZE in *.

(* ================================================================= *)
(** * The block sequence described by a heap *)

(** A block is described by its size and its allocation state. *)
Definition block : Type := (Z * bool)%type.

Fixpoint total (bs : list block) : Z :=
  match bs with
  | [] => 0
  | (s, _) :: r => s + total r
  end.

Fixpoint last_alloc (pa : bool) (bs : list block) : bool :=
  match bs with
  | [] => pa
  | (_, a) :: r => last_alloc a r
  end.

(** [seg_ok m p pa bs]: starting at payload address [p], memory holds the
    boundary tags of the blocks [bs], the first one preceded by a block of
    allocation state [pa]. Free blocks carry a footer equal to their header. *)
Fixpoint seg_ok (m : mem) (p : Z) (pa : bool) (bs : list block) : Prop :=
  match bs with
  | [] => True
  | (s, a) :: r =>
      16 <= s /\ s mod 8 = 0 /\
      GET m (p - 4) = hdr s pa a /\
      (a = false -> GET m (p + s - 8) = hdr s pa false) /\
      seg_ok m (p + s) a r
  end.

(** Payload addresses and sizes of the free, and of the allocated, blocks. *)
Fixpoint frees (p : Z) (bs : list block) : list (Z * Z) :=
  match bs with
  | [] => []
  | (s, a) :: r => if a then frees (p + s) r else (p, s) :: frees (p + s) r
  end.

Fixpoint allocs (p : Z) (bs : list block) : list (Z * Z) :=
  match bs with
  | [] => []
  | (s, a) :: r => if a then (p, s) :: allocs (p + s) r else allocs (p + s) r
  end.

(** No two neighbours are both free. *)
Fixpoint adj_ok (bs : list block) : Prop :=
  match bs with
  | [] => True
  | (_, a1) :: r =>
      match r with
      | [] => True
      | (_, a2) :: _ => (a1 = true \/ a2 = true) /\ adj_ok r
      end
  end.

Definition sizes_ok (bs : list block) : Prop :=
  Forall (fun b : block => 16 <= fst b /\ fst b mod 8 = 0) bs.

Lemma total_app : forall l1 l2, total (l1 ++ l2) = total l1 + total l2.
Proof. induction l1 as [|[s a] r IH]; intros; cbn; [lia|]. rewrite IH; lia. Qed.

Lemma last_alloc_app : forall l1 l2 pa,
  last_alloc pa (l1 ++ l2) = last_alloc (last_alloc pa l1) l2.
Proof. induction l1 as [|[s a] r IH]; intros; cbn; auto. Qed.

Lemma sizes_ok_total : forall bs, sizes_ok bs -> 0 <= total bs.
Proof.
  induction 1 as [|[s a] r [H1 H2] _ IH]; cbn in *; lia.
Qed.

Lemma sizes_ok_cons : forall s a r,
  sizes_ok ((s, a) :: r) <-> (16 <= s /\ s mod 8 = 0) /\ sizes_ok r.
Proof.
  intros. unfold sizes_ok. split.
  - intros H. split; [apply (Forall_inv H)|apply (Forall_inv_tail H)].
  - intros [H1 H2]. constructor; assumption.
Qed.

Lemma sizes_ok_app : forall l1 l2, sizes_ok (l1 ++ l2) <-> sizes_ok l1 /\ sizes_ok l2.
Proof. intros. apply Forall_app. Qed.

Lemma sizes_ok_total_mod : forall bs, sizes_ok bs -> total bs mod 8 = 0.
Proof.
  induction 1 as [|[s a] r [H1 H2] _ IH]; cbn in *; [reflexivity|].
  rewrite Z.add_mod, H2, IH by lia. reflexivity.
Qed.

Lemma sizes_ok_length : forall bs, sizes_ok bs -> 16 * Z.of_nat (length bs) <= total bs.
Proof.
  induction 1 as [|[s a] r [H1 H2] _ IH]; cbn [length total fst] in *; lia.
Qed.

Lemma seg_ok_sizes : forall m bs p pa, seg_ok m p pa bs -> sizes_ok bs.
Proof.
  induction bs as [|[s a] r IH]; intros p pa H; [constructor|].
  destruct H as (H1 & H2 & _ & _ & H5).
  constructor; [cbn; auto | eapply IH; eauto].
Qed.

Lemma seg_ok_app : forall m l1 l2 p pa,
  seg_ok m p pa (l1 ++ l2) <->
  seg_ok m p pa l1 /\ seg_ok m (p + total l1) (last_alloc pa l1) l2.
Proof.
  induction l1 as [|[s a] r IH]; intros l2 p pa; cbn [app seg_ok total last_alloc].
  - rewrite Z.add_0_r. tauto.
  - rewrite IH. replace (p + (s + total r)) with (p + s + total r) by lia. tauto.
Qed.

(** Tags of a segment live in [[p - 4, p + total bs - 4)]. *)
Lemma seg_ok_frame : forall m m' a b bs p pa,
  seg_ok m p pa bs -> same_outside a b m m' ->
  b <= p - 4 \/ p + total bs - 4 <= a ->
  seg_ok m' p pa bs.
Proof.
  induction bs as [|[s al] r IH]; intros p pa H Hs Hr; [exact I|].
  pose proof (seg_ok_sizes _ _ _ _ H) as Hsz. inversion Hsz as [|? ? [Hs1 Hs2] Hsr]; subst.
  pose proof (sizes_ok_total _ Hsr) as Ht. cbn [fst] in *.
  destruct H as (H1 & H2 & H3 & H4 & H5). cbn [total] in Hr.
  repeat split; try assumption.
  - rewrite (same_outside_GET a b m m') by (assumption || lia). exact H3.
  - intros E. rewrite (same_outside_GET a b m m') by (assumption || lia). auto.
  - apply IH; [assumption|assumption|lia].
Qed.

Lemma frees_app : forall l1 l2 p,
  frees p (l1 ++ l2) = frees p l1 ++ frees (p + total l1) l2.
Proof.
  induction l1 as [|[s a] r IH]; intros l2 p; cbn [app frees total].
  - now rewrite Z.add_0_r.
  - rewrite IH. replace (p + (s + total r)) with (p + s + total r) by lia.
    destruct a; reflexivity.
Qed.

Lemma allocs_app : forall l1 l2 p,
  allocs p (l1 ++ l2) = allocs p l1 ++ allocs (p + total l1) l2.
Proof.
  induction l1 as [|[s a] r IH]; intros l2 p; cbn [app allocs total].
  - now rewrite Z.add_0_r.
  - rewrite IH. replace (p + (s + total r)) with (p + s + total r) by lia.
    destruct a; reflexivity.
Qed.

Lemma frees_range : forall bs p q s, sizes_ok bs -> In (q, s) (frees p bs) ->
  p <= q /\ q + s <= p + total bs /\ 16 <= s /\ s mod 8 = 0.
Proof.
  induction bs as [|[s0 a] r IH]; intros p q s Hsz Hin; [contradiction|].
  inversion Hsz as [|? ? [H1 H2] Hr]; subst. cbn [fst] in *.
  pose proof (sizes_ok_total _ Hr). cbn [frees total] in *.
  destruct a.
  - apply IH in Hin; [lia|assumption].
  - destruct Hin as [E|Hin]; [inversion E; subst; lia|].
    apply IH in Hin; [lia|assumption].
Qed.

Lemma allocs_range : forall bs p q s, sizes_ok bs -> In (q, s) (allocs p bs) ->
  p <= q /\ q + s <= p + total bs /\ 16 <= s /\ s mod 8 = 0.
Proof.
  induction bs as [|[s0 a] r IH]; intros p q s Hsz Hin; [contradiction|].
  inversion Hsz as [|? ? [H1 H2] Hr]; subst. cbn [fst] in *.
  pose proof (sizes_ok_total _ Hr). cbn [allocs total] in *.
  destruct a.
  - destruct Hin as [E|Hin]; [inversion E; subst; lia|].
    apply IH in Hin; [lia|assumption].
  - apply IH in Hin; [lia|assumption].
Qed.

Lemma frees_aligned : forall bs p q s, sizes_ok bs -> p mod 8 = 0 ->
  In (q, s) (frees p bs) -> q mod 8 = 0.
Proof.
  induction bs as [|[s0 a] r IH]; intros p q s Hsz Hp Hin; [contradiction|].
  inversion Hsz as [|? ? [H1 H2] Hr]; subst. cbn [fst frees] in *.
  assert (Hn : (p + s0) mod 8 = 0) by (rewrite Z.add_mod, Hp, H2 by lia; reflexivity).
  destruct a.
  - eapply IH; eauto.
  - destruct Hin as [E|Hin]; [inversion E; subst; assumption|]. eapply IH; eauto.
Qed.

Lemma allocs_aligned : forall bs p q s, sizes_ok bs -> p mod 8 = 0 ->
  In (q, s) (allocs p bs) -> q mod 8 = 0.
Proof.
  induction bs as [|[s0 a] r IH]; intros p q s Hsz Hp Hin; [contradiction|].
  inversion Hsz as [|? ? [H1 H2] Hr]; subst. cbn [fst allocs] in *.
  assert (Hn : (p + s0) mod 8 = 0) by (rewrite Z.add_mod, Hp, H2 by lia; reflexivity).
  destruct a.
  - destruct Hin as [E|Hin]; [inversion E; subst; assumption|]. eapply IH; eauto.
  - eapply IH; eauto.
Qed.

(** A free (allocated) block sits between a prefix and a suffix. *)
Lemma frees_split : forall bs p q s, In (q, s) (frees p bs) ->
  exists l1 l2, bs = l1 ++ (s, false) :: l2 /\ q = p + total l1.
Proof.
  induction bs as [|[s0 a] r IH]; intros p q s Hin; [contradiction|].
  cbn [frees] in Hin. destruct a.
  - apply IH in Hin. destruct Hin as (l1 & l2 & -> & ->).
    exists ((s0, true) :: l1), l2. cbn [app total]. split; [reflexivity|lia].
  - destruct Hin as [E|Hin].
    + inversion E; subst. exists [], r. cbn. split; [reflexivity|lia].
    + apply IH in Hin. destruct Hin as (l1 & l2 & -> & ->).
      exists ((s0, false) :: l1), l2. cbn [app total]. split; [reflexivity|lia].
Qed.

Lemma allocs_split : forall bs p q s, In (q, s) (allocs p bs) ->
  exists l1 l2, bs = l1 ++ (s, true) :: l2 /\ q = p + total l1.
Proof.
  induction bs as [|[s0 a] r IH]; intros p q s Hin; [contradiction|].
  cbn [allocs] in Hin. destruct a.
  - destruct Hin as [E|Hin].
    + inversion E; subst. exists [], r. cbn. split; [reflexivity|lia].
    + apply IH in Hin. destruct Hin as (l1 & l2 & -> & ->).
      exists ((s0, true) :: l1), l2. cbn [app total]. split; [reflexivity|lia].
  - apply IH in Hin. destruct Hin as (l1 & l2 & -> & ->).
    exists ((s0, false) :: l1), l2. cbn [app total]. split; [reflexivity|lia].
Qed.

(** Membership in [frees]/[allocs] of a sequence cut around one block. *)
Lemma in_frees_cut : forall l1 b l2 p q s,
  In (q, s) (frees p (l1 ++ b :: l2)) <->
  In (q, s) (frees p l1) \/
  (snd b = false /\ q = p + total l1 /\ s = fst b) \/
  In (q, s) (frees (p + total l1 + fst b) l2).
Proof.
  intros l1 [s0 a] l2 p q s. rewrite frees_app, in_app_iff. cbn [frees fst snd].
  destruct a; cbn [In]; split; intros H.
  - destruct H as [H|H]; auto.
  - destruct H as [H|[(H & _)|H]]; auto; discriminate.
  - destruct H as [H|[H|H]]; auto. inversion H; subst; auto.
  - destruct H as [H|[(_ & -> & ->)|H]]; auto.
Qed.

Lemma in_allocs_cut : forall l1 b l2 p q s,
  In (q, s) (allocs p (l1 ++ b :: l2)) <->
  In (q, s) (allocs p l1) \/
  (snd b = true /\ q = p + total l1 /\ s = fst b) \/
  In (q, s) (allocs (p + total l1 + fst b) l2).
Proof.
  intros l1 [s0 a] l2 p q s. rewrite allocs_app, in_app_iff. cbn [allocs fst snd].
  destruct a; cbn [In]; split; intros H.
  - destruct H as [H|[H|H]]; auto. inversion H; subst; auto.
  - destruct H as [H|[(_ & -> & ->)|H]]; auto.
  - destruct H as [H|H]; auto.
  - destruct H as [H|[(H & _)|H]]; auto; discriminate.
Qed.

Lemma adj_ok_app_l : forall l1 l2, adj_ok (l1 ++ l2) -> adj_ok l1.
Proof.
  induction l1 as [|[s a] r IH]; intros l2 H; [exact I|].
  destruct r as [|[s' a'] r']; [exact I|].
  cbn in H |- *. destruct H as (H1 & H2). split; [assumption|]. apply (IH l2). exact H2.
Qed.

Lemma adj_ok_app_r : forall l1 l2, adj_ok (l1 ++ l2) -> adj_ok l2.
Proof.
  induction l1 as [|[s a] r IH]; intros l2 H; [exact H|].
  apply IH. cbn [app] in H. destruct (r ++ l2) as [|[s' a'] r'] eqn:E; [exact I|].
  cbn in H. tauto.
Qed.

(** Joining two admissible sequences: only the seam matters. *)
Lemma adj_ok_join : forall l1 l2,
  adj_ok l1 -> adj_ok l2 ->
  (last_alloc true l1 = true \/ match l2 with [] => True | (_, a) :: _ => a = true end) ->
  adj_ok (l1 ++ l2).
Proof.
  induction l1 as [|[s a] r IH]; intros l2 H1 H2 Hs; [exact H2|].
  cbn [app]. destruct r as [|[s' a'] r'].
  - cbn [app]. destruct l2 as [|[s2 a2] r2]; [exact I|].
    cbn in Hs |- *. split; [tauto|exact H2].
  - cbn in H1. destruct H1 as (H1a & H1b).
    change (adj_ok ((s, a) :: (s', a') :: (r' ++ l2))).
    cbn. split; [assumption|]. apply (IH l2); assumption.
Qed.

Lemma adj_ok_seam : forall l1 l2, adj_ok (l1 ++ l2) -> l1 <> [] ->
  last_alloc true l1 = true \/ match l2 with [] => True | (_, a) :: _ => a = true end.
Proof.
  induction l1 as [|[s a] r IH]; intros l2 H Hne; [congruence|].
  destruct r as [|[s' a'] r'].
  - cbn in *. destruct l2 as [|[s2 a2] r2]; [auto|]. cbn in H. tauto.
  - change (last_alloc true ((s, a) :: (s', a') :: r')) with (last_alloc true ((s', a') :: r')).
    apply IH; [|discriminate].
    simpl in H. simpl. exact (proj2 H).
Qed.

Lemma last_alloc_free_split : forall l pa, last_alloc pa l = false -> pa = true ->
  exists l' k, l = l' ++ [(k, false)].
Proof.
  induction l as [|[s a] r IH]; intros pa H Hpa; [cbn in H; congruence|].
  cbn in H. destruct r as [|b r'].
  - cbn in H. subst. exists [], s. reflexivity.
  - destruct a.
    + destruct (IH true H eq_refl) as (l' & k & E). exists ((s, true) :: l'), k.
      cbn. now rewrite E.
    + (* an inner free block: the tail still ends free *)
      clear IH. revert H. generalize (b :: r'). intros l0 H.
      assert (G : forall l pa0, last_alloc pa0 l = false -> l <> [] ->
                  exists l' k, l = l' ++ [(k, false)]).
      { clear. induction l as [|[s a] r IH]; intros pa0 H Hne; [congruence|].
        destruct r as [|b r'].
        - cbn in H. subst. exists [], s. reflexivity.
        - cbn [last_alloc] in H. destruct (IH a H ltac:(discriminate)) as (l' & k & E).
          exists ((s, a) :: l'), k. cbn. now rewrite E. }
      destruct l0 as [|b0 l0'].
      * cbn in H. exists [], s. reflexivity.
      * destruct (G (b0 :: l0') false H ltac:(discriminate)) as (l' & k & E).
        exists ((s, false) :: l'), k. cbn. now rewrite E.
Qed.

(* ================================================================= *)
(** * Free lists threaded through memory *)

(** [flist m h ps]: following link words from the head [h] visits exactly
    the addresses [ps] and then reaches NULL. *)
Fixpoint flist (m : mem) (h : Z) (ps : list Z) : Prop :=
  match ps with
  | [] => h = 0
  | p :: r => h = p /\ p <> 0 /\ flist m (GETL m p) r
  end.

(** The content of a list as a walk computes it. *)
Fixpoint list_of (fuel : nat) (m : mem) (h : Z) : list Z :=
  match fuel with
  | O => []
  | S f => if h =? 0 then [] else h :: list_of f m (GETL m h)
  end.

Definition members (st : state) (c : nat) : list Z :=
  list_of (fuel_of st) (heap st) (lhead st c).

(** The first block of [ps] whose stored size is at least [asize]; 0 if none. *)
Definition fits (m : mem) (asize : Z) (q : Z) : bool := asize <=? GET_SIZE m (HDRP q).

Definition first_fit (m : mem) (asize : Z) (ps : list Z) : Z :=
  match find (fits m asize) ps with
  | Some q => q
  | None => 0
  end.

Definition aligned8 (ps : list Z) : Prop := forall q, In q ps -> q mod 8 = 0.

Lemma aligned_apart : forall x y, x mod 8 = 0 -> y mod 8 = 0 -> x <> y ->
  x + 8 <= y \/ y + 8 <= x.
Proof.
  intros x y Hx Hy Hne.
  pose proof (Z.div_mod x 8 ltac:(lia)). pose proof (Z.div_mod y 8 ltac:(lia)). lia.
Qed.

Lemma flist_frame : forall m m' ps h,
  flist m h ps -> (forall q, In q ps -> GETL m' q = GETL m q) -> flist m' h ps.
Proof.
  induction ps as [|p r IH]; intros h H Hf; [exact H|].
  destruct H as (H1 & H2 & H3). repeat split; try assumption.
  rewrite Hf by (left; reflexivity). apply IH; [assumption|]. intros; apply Hf; now right.
Qed.

Lemma flist_nonzero : forall m ps h q, flist m h ps -> In q ps -> q <> 0.
Proof.
  induction ps as [|p r IH]; intros h q H Hin; [contradiction|].
  destruct H as (H1 & H2 & H3). destruct Hin as [<-|Hin]; [assumption|]. eauto.
Qed.

Lemma flist_head : forall m ps h, flist m h ps ->
  (h = 0 /\ ps = []) \/ (h <> 0 /\ exists r, ps = h :: r).
Proof.
  intros m [|p r] h H; [left; auto|]. destruct H as (-> & H2 & _). right; eauto.
Qed.

Lemma flist_zero : forall m ps, flist m 0 ps -> ps = [].
Proof. intros m ps H. destruct (flist_head _ _ _ H) as [[_ E]|[E _]]; congruence. Qed.

Lemma list_of_flist : forall m ps h fuel,
  flist m h ps -> (length ps < fuel)%nat -> list_of fuel m h = ps.
Proof.
  induction ps as [|p r IH]; intros h fuel H Hf.
  - cbn in H; subst. destruct fuel; [reflexivity|]. reflexivity.
  - destruct H as (-> & H2 & H3). destruct fuel as [|f]; [cbn in Hf; lia|].
    cbn [list_of]. destruct (Z.eqb_spec p 0); [contradiction|].
    f_equal. apply IH; [assumption|cbn in Hf; lia].
Qed.

Lemma scan_flist : forall m asize ps h fuel,
  flist m h ps -> (length ps < fuel)%nat ->
  scan fuel m h asize = Ok (first_fit m asize ps).
Proof.
  induction ps as [|p r IH]; intros h fuel H Hf.
  - cbn in H; subst. destruct fuel; [cbn in Hf; lia|]. reflexivity.
  - destruct H as (-> & H2 & H3). destruct fuel as [|f]; [cbn in Hf; lia|].
    cbn [scan]. destruct (Z.eqb_spec p 0); [contradiction|].
    unfold first_fit. cbn [find]. unfold fits at 1.
    destruct (asize <=? GET_SIZE m (HDRP p)); [reflexivity|].
    destruct (Z.eqb_spec (GETL m p) 0) as [E|E]; cbn [negb].
    + rewrite E in H3. apply flist_zero in H3. subst. reflexivity.
    + apply IH; [assumption|cbn in Hf; lia].
Qed.

Lemma first_fit_spec : forall m asize ps,
  (first_fit m asize ps = 0 /\ forall q, In q ps -> fits m asize q = false) \/
  (exists l1 l2, ps = l1 ++ first_fit m asize ps :: l2 /\
                 fits m asize (first_fit m asize ps) = true /\
                 forall q, In q l1 -> fits m asize q = false).
Proof.
  intros m asize. unfold first_fit. induction ps as [|p r IH]; [left; split; [reflexivity|contradiction]|].
  cbn [find]. destruct (fits m asize p) eqn:E.
  - right. exists [], r. repeat split; auto. contradiction.
  - destruct IH as [[H1 H2]|(l1 & l2 & H1 & H2 & H3)].
    + left. split; [assumption|]. intros q [<-|Hq]; auto.
    + right. exists (p :: l1), l2. repeat split; auto.
      * cbn. now rewrite <- H1.
      * intros q [<-|Hq]; auto.
Qed.

Lemma unlink_miss : forall m bp nextk ps h fuel,
  flist m h ps -> ~ In bp ps -> bp <> 0 -> (length ps < fuel)%nat ->
  unlink fuel m h bp nextk = Ok None.
Proof.
  induction ps as [|p r IH]; intros h fuel H Hn Hbp Hf.
  - cbn in H; subst. destruct fuel; [cbn in Hf; lia|]. reflexivity.
  - destruct H as (-> & H2 & H3). destruct fuel as [|f]; [cbn in Hf; lia|].
    cbn [unlink]. destruct (Z.eqb_spec p 0); [contradiction|].
    destruct (Z.eqb_spec (GETL m p) bp) as [E|E].
    + exfalso. destruct (flist_head _ _ _ H3) as [[E0 _]|[_ (r' & ->)]]; [congruence|].
      apply Hn. right. left. assumption.
    + apply IH; [assumption| |assumption|cbn in Hf; lia].
      intros Hin. apply Hn. now right.
Qed.

Lemma remove_notin : forall (x : Z) l, ~ In x l -> remove Z.eq_dec x l = l.
Proof. intros. apply notin_remove. assumption. Qed.

Lemma NoDup_remove_Z : forall (x : Z) l, NoDup l -> NoDup (remove Z.eq_dec x l).
Proof.
  induction 1 as [|y l Hy Hl IH]; cbn; [constructor|].
  destruct (Z.eq_dec x y); [assumption|]. constructor; [|assumption].
  intros Hin. apply in_remove in Hin. tauto.
Qed.

Lemma in_remove_Z : forall (x y : Z) l, In y (remove Z.eq_dec x l) <-> In y l /\ y <> x.
Proof.
  intros. split.
  - apply in_remove.
  - intros [H1 H2]. apply in_in_remove; assumption.
Qed.

Lemma unlink_hit : forall m bp ps h fuel,
  flist m h ps -> NoDup ps -> aligned8 ps -> In bp ps -> h <> bp ->
  (length ps < fuel)%nat ->
  exists y, In y ps /\ y <> bp /\
    unlink fuel m h bp (GETL m bp) = Ok (Some (PUTL m y (GETL m bp))) /\
    flist (PUTL m y (GETL m bp)) h (remove Z.eq_dec bp ps).
Proof.
  induction ps as [|p r IH]; intros h fuel H Hnd Hal Hin Hne Hf; [contradiction|].
  destruct H as (-> & H2 & H3). destruct fuel as [|f]; [cbn in Hf; lia|].
  destruct Hin as [E|Hin]; [congruence|].
  apply NoDup_cons_iff in Hnd. destruct Hnd as [Hp Hr].
  cbn [unlink]. destruct (Z.eqb_spec p 0); [contradiction|].
  assert (Hsep : forall q, In q r -> GETL (PUTL m p (GETL m bp)) q = GETL m q).
  { intros q Hq. apply GETL_PUTL_other.
    destruct (aligned_apart p q); try lia.
    - apply Hal; now left.
    - apply Hal; now right.
    - intros ->. contradiction. }
  destruct (Z.eqb_spec (GETL m p) bp) as [E|E].
  - exists p. split; [now left|]. split; [assumption|]. split; [reflexivity|].
    destruct r as [|x r']; [contradiction|]. destruct H3 as (Ex & Hx & H3).
    assert (Hxb : x = bp) by congruence. clear Ex. subst x.
    apply NoDup_cons_iff in Hr. destruct Hr as [Hbr Hr'].
    cbn [remove]. destruct (Z.eq_dec bp p); [congruence|].
    destruct (Z.eq_dec bp bp); [|congruence].
    rewrite remove_notin by assumption.
    cbn [flist]. split; [reflexivity|]. split; [assumption|].
    rewrite GETL_PUTL_same. rewrite Z.mod_small by apply GETL_range.
    apply flist_frame with (m := m); [assumption|].
    intros q Hq. apply Hsep. now right.
  - destruct (IH (GETL m p) f H3 Hr) as (y & Hy1 & Hy2 & Hy3 & Hy4).
    + intros q Hq. apply Hal. now right.
    + assumption.
    + congruence.
    + cbn in Hf; lia.
    + exists y. split; [now right|]. split; [assumption|]. split; [assumption|].
      cbn [remove]. destruct (Z.eq_dec bp p); [congruence|].
      cbn [flist]. split; [reflexivity|]. split; [assumption|].
      assert (Hpy : p <> y) by (intros ->; contradiction).
      rewrite GETL_PUTL_other; [assumption|].
      destruct (aligned_apart p y); try lia.
      * apply Hal; now left.
      * apply Hal; right; assumption.
Qed.

Lemma flist_cons_PUTL : forall m h ps bp,
  flist m h ps -> ~ In bp ps -> aligned8 ps -> bp mod 8 = 0 -> bp <> 0 ->
  0 <= h < 2 ^ 64 ->
  flist (PUTL m bp h) bp (bp :: ps).
Proof.
  intros m h ps bp H Hn Hal Hbp Hnz Hh. cbn [flist].
  split; [reflexivity|]. split; [assumption|].
  rewrite GETL_PUTL_same, Z.mod_small by assumption.
  apply flist_frame with (m := m); [assumption|].
  intros q Hq. apply GETL_PUTL_other.
  destruct (aligned_apart bp q); try lia; auto. intros ->. contradiction.
Qed.

Lemma flist_head_range : forall m h ps, flist m h ps ->
  (forall q, In q ps -> 0 <= q < 2 ^ 64) -> 0 <= h < 2 ^ 64.
Proof.
  intros m h ps H Hr. destruct (flist_head _ _ _ H) as [[-> _]|[_ (r & ->)]].
  - pow2; lia.
  - apply Hr. now left.
Qed.

(* ================================================================= *)
(** * Representation invariant *)

(** Payload address of the first block after the prologue. *)
Definition first_bp (st : state) : Z := mem_start st + 16.

(** [shape st bs]: the arena is sane, the prologue is in place, the heap
    holds exactly the blocks [bs] and ends with the epilogue header. *)
Record shape (st : state) (bs : list block) : Prop := {
  sh_lo : 0 < mem_start st;
  sh_al : mem_start st mod 8 = 0;
  sh_max : mem_max_addr st < 18446744073709551616;
  sh_span : mem_max_addr st - mem_start st < 4294967296;
  sh_brk : mem_brk st <= mem_max_addr st;
  sh_hlp : heap_listp st = mem_start st + 8;
  sh_pro : GET (heap st) (mem_start st + 4) = hdr 8 true true;
  sh_seg : seg_ok (heap st) (first_bp st) true bs;
  sh_end : first_bp st + total bs = mem_brk st;
  sh_epi : GET (heap st) (mem_brk st - 4) = hdr 0 (last_alloc true bs) true
}.

(** [lists_ok st bs fl skip]: list [c] holds the addresses [fl c]; the lists
    hold exactly the free blocks of [bs] outside [skip], each in the list of
    its size class. *)
Record lists_ok (st : state) (bs : list block) (fl : nat -> list Z)
       (skip : list Z) : Prop := {
  lo_chain : forall c, flist (heap st) (lhead st c) (fl c);
  lo_nodup : forall c, NoDup (fl c);
  lo_sound : forall c q, In q (fl c) ->
             ~ In q skip /\ exists s, In (q, s) (frees (first_bp st) bs) /\ class_of s = c;
  lo_complete : forall q s, In (q, s) (frees (first_bp st) bs) -> ~ In q skip ->
                In q (fl (class_of s))
}.

Definition good (st : state) (bs : list block) (fl : nat -> list Z) : Prop :=
  shape st bs /\ adj_ok bs /\ lists_ok st bs fl [].

Definition fl_add (fl : nat -> list Z) (c : nat) (q : Z) : nat -> list Z :=
  fun k => if Nat.eqb k c then q :: fl c else fl k.

Definition fl_del (fl : nat -> list Z) (c : nat) (q : Z) : nat -> list Z :=
  fun k => if Nat.eqb k c then remove Z.eq_dec q (fl c) else fl k.

Lemma frees_fun : forall bs p q s s', sizes_ok bs ->
  In (q, s) (frees p bs) -> In (q, s') (frees p bs) -> s = s'.
Proof.
  induction bs as [|[s0 a] r IH]; intros p q s s' Hsz H1 H2; [contradiction|].
  inversion Hsz as [|? ? [Ha Hb] Hr]; subst. cbn [fst frees] in *.
  destruct a; [eauto|].
  destruct H1 as [E1|H1], H2 as [E2|H2].
  - congruence.
  - inversion E1; subst. apply frees_range in H2; [lia|assumption].
  - inversion E2; subst. apply frees_range in H1; [lia|assumption].
  - eauto.
Qed.

Lemma frees_not_alloc : forall bs p q s s', sizes_ok bs ->
  In (q, s) (frees p bs) -> In (q, s') (allocs p bs) -> False.
Proof.
  induction bs as [|[s0 a] r IH]; intros p q s s' Hsz H1 H2; [contradiction|].
  inversion Hsz as [|? ? [Ha Hb] Hr]; subst. cbn [fst frees allocs] in *.
  destruct a.
  - destruct H2 as [E2|H2]; [|eauto].
    inversion E2; subst. apply frees_range in H1; [lia|assumption].
  - destruct H1 as [E1|H1]; [|eauto].
    inversion E1; subst. apply allocs_range in H2; [lia|assumption].
Qed.

Lemma frees_length : forall bs p, (length (frees p bs) <= length bs)%nat.
Proof.
  induction bs as [|[s a] r IH]; intros p; cbn [frees length]; [lia|].
  destruct a; cbn [length]; specialize (IH (p + s)); lia.
Qed.

(** Two states over the same arena, with the same heap start. *)
Definition same_arena (st st' : state) : Prop :=
  mem_start st' = mem_start st /\ mem_brk st' = mem_brk st /\
  mem_max_addr st' = mem_max_addr st /\ heap_listp st' = heap_listp st.

Lemma same_arena_refl : forall st, same_arena st st.
Proof. intros; repeat split. Qed.

Lemma same_arena_trans : forall a b c, same_arena a b -> same_arena b c -> same_arena a c.
Proof. unfold same_arena; intros a b c (?&?&?&?) (?&?&?&?); repeat split; congruence. Qed.

(** The part of [shape] that does not read memory: where the blocks lie. *)
Record geom (st : state) (bs : list block) : Prop := {
  ge_lo : 0 < mem_start st;
  ge_al : mem_start st mod 8 = 0;
  ge_max : mem_max_addr st < 18446744073709551616;
  ge_span : mem_max_addr st - mem_start st < 4294967296;
  ge_brk : mem_brk st <= mem_max_addr st;
  ge_sizes : sizes_ok bs;
  ge_end : first_bp st + total bs = mem_brk st
}.

Lemma shape_sizes : forall st bs, shape st bs -> sizes_ok bs.
Proof. intros st bs H. eapply seg_ok_sizes. apply (sh_seg _ _ H). Qed.

Lemma shape_geom : forall st bs, shape st bs -> geom st bs.
Proof.
  intros st bs H. pose proof (shape_sizes _ _ H). destruct H. constructor; assumption.
Qed.

Lemma geom_same_arena : forall st st' bs, geom st bs -> same_arena st st' -> geom st' bs.
Proof.
  intros st st' bs [] (E1 & E2 & E3 & E4).
  constructor; unfold first_bp; rewrite ?E1, ?E2, ?E3; assumption.
Qed.

Section ListFacts.
Variables (st : state) (bs : list block) (fl : nat -> list Z) (skip : list Z).
Hypothesis Hsh : geom st bs.
Hypothesis Hl : lists_ok st bs fl skip.

Lemma first_bp_aligned : first_bp st mod 8 = 0.
Proof.
  unfold first_bp. rewrite Z.add_mod, (ge_al _ _ Hsh) by lia. reflexivity.
Qed.

Lemma free_block_facts : forall q s, In (q, s) (frees (first_bp st) bs) ->
  first_bp st <= q /\ q + s <= mem_brk st /\ 16 <= s /\ s mod 8 = 0 /\
  q mod 8 = 0 /\ 0 < q /\ q < 18446744073709551616 /\ s < 4294967296.
Proof.
  intros q s H. pose proof (ge_sizes _ _ Hsh) as Hsz.
  pose proof (frees_range _ _ _ _ Hsz H) as (R1 & R2 & R3 & R4).
  assert (Hq : q mod 8 = 0).
  { apply (frees_aligned bs (first_bp st) q s Hsz first_bp_aligned H). }
  destruct Hsh. unfold first_bp in *. repeat split; try assumption; lia.
Qed.

Lemma alloc_block_facts : forall q s, In (q, s) (allocs (first_bp st) bs) ->
  first_bp st <= q /\ q + s <= mem_brk st /\ 16 <= s /\ s mod 8 = 0 /\
  q mod 8 = 0 /\ 0 < q /\ q < 18446744073709551616 /\ s < 4294967296.
Proof.
  intros q s H. pose proof (ge_sizes _ _ Hsh) as Hsz.
  pose proof (allocs_range _ _ _ _ Hsz H) as (R1 & R2 & R3 & R4).
  assert (Hq : q mod 8 = 0).
  { apply (allocs_aligned bs (first_bp st) q s Hsz first_bp_aligned H). }
  destruct Hsh. unfold first_bp in *. repeat split; try assumption; lia.
Qed.

Lemma listed_facts : forall c q, In q (fl c) ->
  q mod 8 = 0 /\ 0 < q /\ q < 18446744073709551616 /\ first_bp st <= q /\ q + 16 <= mem_brk st.
Proof.
  intros c q H. destruct (lo_sound _ _ _ _ Hl _ _ H) as (_ & s & Hs & _).
  pose proof (free_block_facts _ _ Hs). lia.
Qed.

Lemma listed_aligned : forall c, aligned8 (fl c).
Proof. intros c q H. apply (listed_facts c q H). Qed.

Lemma listed_unique : forall c c' q, In q (fl c) -> In q (fl c') -> c = c'.
Proof.
  intros c c' q H H'.
  destruct (lo_sound _ _ _ _ Hl _ _ H) as (_ & s & Hs & <-).
  destruct (lo_sound _ _ _ _ Hl _ _ H') as (_ & s' & Hs' & <-).
  f_equal. pose proof (ge_sizes _ _ Hsh). eapply frees_fun; eauto.
Qed.

Lemma listed_length : forall c, (length (fl c) < fuel_of st)%nat.
Proof.
  intros c. pose proof (ge_sizes _ _ Hsh) as Hsz.
  assert (H1 : (length (fl c) <= length (map fst (frees (first_bp st) bs)))%nat).
  { apply NoDup_incl_length; [apply (lo_nodup _ _ _ _ Hl)|].
    intros q Hq. destruct (lo_sound _ _ _ _ Hl _ _ Hq) as (_ & s & Hs & _).
    apply in_map_iff. exists (q, s). auto. }
  rewrite length_map in H1. pose proof (frees_length bs (first_bp st)).
  pose proof (sizes_ok_length _ Hsz). pose proof (ge_end _ _ Hsh).
  unfold fuel_of, first_bp in *. lia.
Qed.

Lemma head_range : forall c, 0 <= lhead st c < 2 ^ 64.
Proof.
  intros c. eapply flist_head_range; [apply (lo_chain _ _ _ _ Hl)|].
  intros q Hq. pose proof (listed_facts c q Hq). pow2. lia.
Qed.

(** A walk has fuel for one member more than any list holds. *)
Lemma listed_room : forall c, (S (length (fl c)) < fuel_of st)%nat.
Proof.
  intros c. pose proof (ge_sizes _ _ Hsh) as Hsz.
  assert (H1 : (length (fl c) <= length (map fst (frees (first_bp st) bs)))%nat).
  { apply NoDup_incl_length; [apply (lo_nodup _ _ _ _ Hl)|].
    intros q Hq. destruct (lo_sound _ _ _ _ Hl _ _ Hq) as (_ & s & Hs & _).
    apply in_map_iff. exists (q, s). auto. }
  rewrite length_map in H1. pose proof (frees_length bs (first_bp st)).
  pose proof (sizes_ok_length _ Hsz). pose proof (ge_end _ _ Hsh).
  unfold fuel_of, first_bp in *. lia.
Qed.
End ListFacts.

(** Bytes of [m'] differ from [m] at most inside the link words of the free
    blocks of [bs]. *)
Definition only_links (p : Z) (bs : list block) (m m' : mem) : Prop :=
  forall x, (forall q s, In (q, s) (frees p bs) -> ~ (q <= x < q + 8)) -> m' x = m x.

Lemma only_links_refl : forall p bs m, only_links p bs m m.
Proof. intros p bs m x _. reflexivity. Qed.

Lemma only_links_trans : forall p bs m1 m2 m3,
  only_links p bs m1 m2 -> only_links p bs m2 m3 -> only_links p bs m1 m3.
Proof. intros p bs m1 m2 m3 H1 H2 x Hx. rewrite H2, H1; auto. Qed.

Lemma only_links_PUTL : forall p bs m q s v,
  In (q, s) (frees p bs) -> only_links p bs m (PUTL m q v).
Proof.
  intros p bs m q s v Hin x Hx. specialize (Hx q s Hin).
  apply same_outside_PUTL. lia.
Qed.

(** A write that stays inside the payload of one block (before its footer
    when it is free) leaves every tag in place. *)
Lemma seg_ok_inner_frame : forall m m' lo hi l1 s a l2 p pa,
  seg_ok m p pa (l1 ++ (s, a) :: l2) ->
  same_outside lo hi m m' ->
  p + total l1 <= lo -> hi <= p + total l1 + s - (if a then 4 else 8) ->
  seg_ok m' p pa (l1 ++ (s, a) :: l2).
Proof.
  intros m m' lo hi l1 s a l2 p pa H Hs Hlo Hhi.
  pose proof (seg_ok_sizes _ _ _ _ H) as Hsz. apply sizes_ok_app in Hsz.
  destruct Hsz as [Hz1 Hz2]. inversion Hz2 as [|? ? [Hs1 Hs2] Hz3]; subst. cbn [fst] in *.
  pose proof (sizes_ok_total _ Hz1) as Ht1. pose proof (sizes_ok_total _ Hz3) as Ht3.
  apply seg_ok_app in H. destruct H as [G1 G2]. apply seg_ok_app. split.
  - eapply seg_ok_frame; eauto. lia.
  - destruct G2 as (A & B & C & D & E). repeat split; try assumption.
    + rewrite (same_outside_GET lo hi m m') by (assumption || lia). exact C.
    + intros ->. rewrite (same_outside_GET lo hi m m') by (assumption || lia). auto.
    + eapply seg_ok_frame; eauto. destruct a; lia.
Qed.

Lemma shape_inner_frame : forall st m' lo hi l1 s a l2,
  shape st (l1 ++ (s, a) :: l2) ->
  same_outside lo hi (heap st) m' ->
  first_bp st + total l1 <= lo ->
  hi <= first_bp st + total l1 + s - (if a then 4 else 8) ->
  shape (set_heap st m') (l1 ++ (s, a) :: l2).
Proof.
  intros st m' lo hi l1 s a l2 H Hs Hlo Hhi.
  pose proof (shape_sizes _ _ H) as Hsz. apply sizes_ok_app in Hsz.
  destruct Hsz as [Hz1 Hz2]. inversion Hz2 as [|? ? [Hs1 Hs2] Hz3]; subst. cbn [fst] in *.
  pose proof (sizes_ok_total _ Hz1). pose proof (sizes_ok_total _ Hz3).
  destruct H. rewrite total_app in *. cbn [total] in *. unfold first_bp in *.
  constructor; cbn [heap mem_start mem_brk mem_max_addr heap_listp set_heap]; try assumption.
  - rewrite (same_outside_GET lo hi (heap st) m') by (assumption || lia). assumption.
  - eapply seg_ok_inner_frame; eauto.
  - rewrite total_app. cbn [total]. assumption.
  - rewrite (same_outside_GET lo hi (heap st) m') by (assumption || destruct a; lia). assumption.
Qed.

(** Writing the link word of a free block keeps the shape. *)
Lemma shape_link_write : forall st bs q s v,
  shape st bs -> In (q, s) (frees (first_bp st) bs) ->
  shape (set_heap st (PUTL (heap st) q v)) bs.
Proof.
  intros st bs q s v H Hin.
  pose proof (free_block_facts _ _ (shape_geom _ _ H) _ _ Hin) as F.
  apply frees_split in Hin. destruct Hin as (l1 & l2 & -> & ->).
  eapply shape_inner_frame; [eassumption|apply same_outside_PUTL| |]; lia.
Qed.

Lemma negb_zero_ite : forall x, (if negb (x =? 0) then x else 0) = x.
Proof. intros x. destruct (Z.eqb_spec x 0); cbn; congruence. Qed.

Lemma shape_set_lhead : forall st bs c v, shape st bs -> shape (set_lhead st c v) bs.
Proof. intros st bs c v []. constructor; assumption. Qed.

Section IndexOps.
Variables (st : state) (bs : list block) (fl : nat -> list Z) (skip : list Z).
Hypothesis Hsh : geom st bs.
Hypothesis Hl : lists_ok st bs fl skip.

Lemma insertx_ok : forall q s,
  In (q, s) (frees (first_bp st) bs) -> In q skip ->
  lists_ok (insertx st q s) bs (fl_add fl (class_of s) q) (remove Z.eq_dec q skip) /\
  same_arena st (insertx st q s) /\
  only_links (first_bp st) bs (heap st) (heap (insertx st q s)).
Proof.
  intros q s Hin Hsk.
  pose proof (free_block_facts _ _ Hsh _ _ Hin) as Fq.
  assert (Hnl : forall c, ~ In q (fl c)).
  { intros c Hc. destruct (lo_sound _ _ _ _ Hl _ _ Hc) as [Hn _]. contradiction. }
  unfold insertx. set (c0 := class_of s).
  split; [|split].
  - constructor; cbn [heap lhead set_lhead set_heap mem_start first_bp].
    + intros c. unfold fl_add. destruct (Nat.eqb_spec c c0) as [->|Hc].
      * apply flist_cons_PUTL; try apply Hnl; try lia.
        -- apply (lo_chain _ _ _ _ Hl).
        -- eapply listed_aligned; eauto.
        -- eapply head_range; eauto.
      * apply flist_frame with (m := heap st); [apply (lo_chain _ _ _ _ Hl)|].
        intros q' Hq'. apply GETL_PUTL_other.
        pose proof (listed_facts _ _ _ _ Hsh Hl _ _ Hq') as Fq'.
        destruct (aligned_apart q q'); try lia. intros ->. exact (Hnl _ Hq').
    + intros c. unfold fl_add. destruct (Nat.eqb_spec c c0) as [->|Hc].
      * constructor; [apply Hnl|apply (lo_nodup _ _ _ _ Hl)].
      * apply (lo_nodup _ _ _ _ Hl).
    + intros c q' Hq'. unfold fl_add in Hq'. rewrite in_remove_Z.
      destruct (Nat.eqb_spec c c0) as [->|Hc].
      * destruct Hq' as [<-|Hq'].
        -- split; [tauto|]. exists s. auto.
        -- destruct (lo_sound _ _ _ _ Hl _ _ Hq') as [Hn Hs]. split; [tauto|assumption].
      * destruct (lo_sound _ _ _ _ Hl _ _ Hq') as [Hn Hs]. split; [tauto|assumption].
    + intros q' s' Hin' Hn'. rewrite in_remove_Z in Hn'. unfold fl_add.
      destruct (Z.eq_dec q' q) as [->|Hne].
      * pose proof (ge_sizes _ _ Hsh) as Hsz.
        assert (s' = s) by (eapply frees_fun; eauto). subst s'.
        fold c0. rewrite Nat.eqb_refl. now left.
      * assert (Hns : ~ In q' skip) by tauto.
        pose proof (lo_complete _ _ _ _ Hl _ _ Hin' Hns) as Hc.
        destruct (Nat.eqb_spec (class_of s') c0) as [E|E]; [|assumption].
        right. rewrite <- E. assumption.
  - repeat split.
  - cbn [heap set_lhead set_heap]. eapply only_links_PUTL; eauto.
Qed.

Lemma deletex_from_ok : forall asize q s cs,
  In (q, s) (frees (first_bp st) bs) -> ~ In q skip ->
  NoDup (map fst cs) ->
  (exists g, In (class_of s, g) cs /\ passes g asize = true) ->
  exists st',
    deletex_from cs st q (GETL (heap st) q) asize = Ok st' /\
    (shape st bs -> shape st' bs) /\
    lists_ok st' bs (fl_del fl (class_of s) q) (q :: skip) /\
    same_arena st st' /\
    only_links (first_bp st) bs (heap st) (heap st').
Proof.
  intros asize q s cs Hin Hsk. set (c0 := class_of s).
  pose proof (free_block_facts _ _ Hsh _ _ Hin) as Fq.
  assert (Hq0 : In q (fl c0)) by (apply (lo_complete _ _ _ _ Hl); assumption).
  assert (Hfin : forall st',
    same_arena st st' ->
    (forall c, flist (heap st') (lhead st' c) (fl_del fl c0 q c)) ->
    lists_ok st' bs (fl_del fl c0 q) (q :: skip)).
  { intros st' (E1 & _) Hch. constructor.
    - assumption.
    - intros c. unfold fl_del. destruct (Nat.eqb c c0);
        [apply NoDup_remove_Z|]; apply (lo_nodup _ _ _ _ Hl).
    - intros c q' Hq'. unfold first_bp. rewrite E1. fold (first_bp st).
      unfold fl_del in Hq'. destruct (Nat.eqb_spec c c0) as [->|Hc].
      + apply in_remove_Z in Hq'. destruct Hq' as [Hq' Hne].
        destruct (lo_sound _ _ _ _ Hl _ _ Hq') as [Hn Hs].
        split; [|assumption]. cbn [In]. intros [?|?]; [congruence|contradiction].
      + destruct (lo_sound _ _ _ _ Hl _ _ Hq') as [Hn Hs].
        split; [|assumption]. cbn [In]. intros [<-|?]; [|contradiction].
        apply Hc. eapply listed_unique; eauto.
    - intros q' s'. unfold first_bp. rewrite E1. fold (first_bp st).
      intros Hin' Hn'. cbn [In] in Hn'.
      assert (Hns : ~ In q' skip) by tauto.
      pose proof (lo_complete _ _ _ _ Hl _ _ Hin' Hns) as Hc. unfold fl_del.
      destruct (Nat.eqb_spec (class_of s') c0) as [E|E]; [|assumption].
      apply in_remove_Z. rewrite <- E. split; [assumption|]. intros ->. tauto. }
  induction cs as [|[c g] rest IH]; intros Hnd (g0 & Hg0 & Hp0); [contradiction|].
  cbn [map fst] in Hnd. apply NoDup_cons_iff in Hnd. destruct Hnd as [Hc Hnd].
  cbn [deletex_from].
  assert (Hmiss : c <> c0 ->
    exists st', deletex_from rest st q (GETL (heap st) q) asize = Ok st' /\
      (shape st bs -> shape st' bs) /\ lists_ok st' bs (fl_del fl c0 q) (q :: skip) /\
      same_arena st st' /\ only_links (first_bp st) bs (heap st) (heap st')).
  { intros Hne. apply IH; [assumption|]. exists g0. split; [|assumption].
    destruct Hg0 as [E|?]; [inversion E; congruence|assumption]. }
  destruct (passes g asize) eqn:Hp.
  - destruct (Nat.eq_dec c c0) as [->|Hne].
    + clear Hmiss IH. pose proof (lo_chain _ _ _ _ Hl c0) as Hch.
      destruct (Z.eqb_spec (lhead st c0) q) as [Eh|Eh].
      * rewrite negb_zero_ite. eexists. split; [reflexivity|].
        split; [apply shape_set_lhead|].
        split; [|split; [repeat split|apply only_links_refl]].
        apply Hfin; [repeat split|].
        intros c. cbn [heap lhead set_lhead]. unfold fl_del.
        destruct (Nat.eqb_spec c c0) as [->|Hc']; [|apply (lo_chain _ _ _ _ Hl)].
        destruct (fl c0) as [|x r] eqn:Efl; [contradiction|].
        destruct Hch as (Ex & Hx & Hr). assert (Hxq : x = q) by congruence.
        clear Ex. subst x.
        pose proof (lo_nodup _ _ _ _ Hl c0) as Hnd0. rewrite Efl in Hnd0.
        apply NoDup_cons_iff in Hnd0. destruct Hnd0 as [Hnq _].
        cbn [remove]. destruct (Z.eq_dec q q); [|congruence].
        rewrite remove_notin by assumption. assumption.
      * destruct (unlink_hit (heap st) q (fl c0) (lhead st c0) (fuel_of st))
          as (y & Hy1 & Hy2 & Hy3 & Hy4); try assumption.
        -- apply (lo_nodup _ _ _ _ Hl).
        -- eapply listed_aligned; eauto.
        -- eapply listed_length; eauto.
        -- rewrite Hy3. cbn [bind]. eexists. split; [reflexivity|].
           destruct (lo_sound _ _ _ _ Hl _ _ Hy1) as (_ & sy & Hsy & _).
           split; [intros; eapply shape_link_write; eauto|].
           split; [|split; [repeat split|cbn [heap set_heap]; eapply only_links_PUTL; eauto]].
           apply Hfin; [repeat split|].
           intros c. cbn [heap lhead set_heap]. unfold fl_del.
           destruct (Nat.eqb_spec c c0) as [->|Hc']; [assumption|].
           apply flist_frame with (m := heap st); [apply (lo_chain _ _ _ _ Hl)|].
           intros q' Hq'. apply GETL_PUTL_other.
           pose proof (listed_facts _ _ _ _ Hsh Hl _ _ Hq') as Fq'.
           pose proof (listed_facts _ _ _ _ Hsh Hl _ _ Hy1) as Fy.
           destruct (aligned_apart y q'); try lia. intros ->.
           apply Hc'. eapply listed_unique; eauto.
    + assert (Hnq : ~ In q (fl c)).
      { intros Hc'. apply Hne. eapply listed_unique; eauto. }
      destruct (Z.eqb_spec (lhead st c) q) as [Eh|Eh].
      * exfalso. apply Hnq.
        destruct (flist_head _ _ _ (lo_chain _ _ _ _ Hl c)) as [[E0 _]|[_ (r & Er)]].
        -- lia.
        -- rewrite Er, Eh. now left.
      * rewrite (unlink_miss (heap st) q (GETL (heap st) q) (fl c)).
        -- cbn [bind]. apply Hmiss; assumption.
        -- apply (lo_chain _ _ _ _ Hl).
        -- assumption.
        -- lia.
        -- eapply listed_length; eauto.
  - apply Hmiss. intros ->. destruct Hg0 as [E|Hin0].
    + inversion E; subst. congruence.
    + apply Hc. apply in_map_iff. exists (c0, g0). auto.
Qed.
End IndexOps.

Lemma shape_insertx : forall st bs q s,
  shape st bs -> In (q, s) (frees (first_bp st) bs) -> shape (insertx st q s) bs.
Proof.
  intros. unfold insertx. apply shape_set_lhead. eapply shape_link_write; eauto.
Qed.

(* ================================================================= *)
(** * Tails of the heap: a run of blocks closed by the epilogue *)

Definition tail_ok (m : mem) (p : Z) (pa : bool) (bs : list block) (e : Z) : Prop :=
  seg_ok m p pa bs /\ p + total bs = e /\ GET m (e - 4) = hdr 0 (last_alloc pa bs) true.

Lemma tail_ok_app : forall m l1 l2 p pa e,
  tail_ok m p pa (l1 ++ l2) e <->
  seg_ok m p pa l1 /\ tail_ok m (p + total l1) (last_alloc pa l1) l2 e.
Proof.
  intros. unfold tail_ok. rewrite seg_ok_app, total_app, last_alloc_app.
  replace (p + total l1 + total l2) with (p + (total l1 + total l2)) by lia. tauto.
Qed.

Lemma tail_ok_frame : forall m m' bs p pa e,
  tail_ok m p pa bs e -> (forall x, p - 4 <= x -> m' x = m x) -> tail_ok m' p pa bs e.
Proof.
  intros m m' bs p pa e (H1 & H2 & H3) Hf.
  pose proof (sizes_ok_total _ (seg_ok_sizes _ _ _ _ H1)) as Ht.
  repeat split; try assumption.
  - clear H2 H3. revert p pa H1 Hf Ht.
    induction bs as [|[s a] r IH]; intros p pa H1 Hf Ht; [exact I|].
    pose proof (seg_ok_sizes _ _ _ _ H1) as Hsz. inversion Hsz as [|? ? [Hs1 Hs2] Hsr]; subst.
    cbn [fst] in *. destruct H1 as (A & B & C & D & E). repeat split; try assumption.
    + rewrite <- C. apply GET_ext. intros x Hx. apply Hf. lia.
    + intros Ea. rewrite <- (D Ea). apply GET_ext. intros x Hx. apply Hf. lia.
    + apply IH; [assumption| |apply sizes_ok_total; assumption].
      intros x Hx. apply Hf. lia.
  - rewrite <- H3. apply GET_ext. intros x Hx. apply Hf. lia.
Qed.

Lemma shape_tail : forall st bs, shape st bs ->
  tail_ok (heap st) (first_bp st) true bs (mem_brk st).
Proof. intros st bs []. repeat split; assumption. Qed.

Lemma shape_of_tail : forall st st' bs bs',
  shape st bs -> same_arena st st' ->
  GET (heap st') (mem_start st + 4) = hdr 8 true true ->
  tail_ok (heap st') (first_bp st) true bs' (mem_brk st) ->
  shape st' bs'.
Proof.
  intros st st' bs bs' [] (E1 & E2 & E3 & E4) Hp (T1 & T2 & T3).
  unfold first_bp in *.
  constructor; unfold first_bp; rewrite ?E1, ?E2, ?E3, ?E4; assumption.
Qed.

Lemma PUT_outside : forall m p v x, x < p \/ p + 4 <= x -> PUT m p v x = m x.
Proof. intros. apply same_outside_PUT. assumption. Qed.

Lemma PUTL_outside : forall m p v x, x < p \/ p + 8 <= x -> PUTL m p v x = m x.
Proof. intros. apply same_outside_PUTL. assumption. Qed.

(** The head of a tail: the header that follows the block before it. *)
Lemma tail_head : forall m p pa bs e, tail_ok m p pa bs e -> e - p < 4294967296 ->
  exists s a, GET m (p - 4) = hdr s pa a /\ 0 <= s < 4294967296 /\ s mod 8 = 0 /\
    ((bs = [] /\ s = 0 /\ a = true /\ p = e) \/
     (exists r, bs = (s, a) :: r /\ 16 <= s)).
Proof.
  intros m p pa bs e (H1 & H2 & H3) Hlt.
  destruct bs as [|[s a] r].
  - cbn in *. exists 0, true. replace p with e by lia.
    repeat split; try assumption; try lia. left. repeat split; lia.
  - pose proof (seg_ok_sizes _ _ _ _ H1) as Hsz. inversion Hsz as [|? ? [Hs1 Hs2] Hsr]; subst.
    pose proof (sizes_ok_total _ Hsr). cbn [fst total] in *.
    destruct H1 as (A & B & C & D & E). exists s, a.
    repeat split; try assumption; try lia. right. eauto.
Qed.

(** Rewriting the prev-allocated bit of the block at [nx] (and of its footer
    when that block is free), as [place] and [free] do for the block that
    follows the one they change. *)
Definition retag (m : mem) (nx pa4 : Z) : mem :=
  let m1 := PUT m (nx - 4) (PACK (GET_SIZE m (nx - 4)) pa4 (GET_ALLOC m (nx - 4))) in
  if GET_ALLOC m1 (nx - 4) =? 0
  then PUT m1 (nx + GET_SIZE m1 (nx - 4) - 8)
           (PACK (GET_SIZE m1 (nx - 4)) pa4 (GET_ALLOC m1 (nx - 4)))
  else m1.

Lemma retag_ok : forall m nx pa pa' l2 e,
  tail_ok m nx pa l2 e -> e - nx < 4294967296 ->
  tail_ok (retag m nx (b2z4 pa')) nx pa' l2 e /\
  (forall x, x < nx - 4 -> retag m nx (b2z4 pa') x = m x) /\
  (forall x, nx <= x ->
     (forall s r, l2 = (s, false) :: r -> x < nx + s - 8 \/ nx + s - 4 <= x) ->
     retag m nx (b2z4 pa') x = m x).
Proof.
  intros m nx pa pa' l2 e HT Hlt.
  destruct (tail_head _ _ _ _ _ HT Hlt) as (s & a & Hh & Hs & Hs8 & Hcase).
  destruct (fields_of_GET _ _ _ _ _ Hh ltac:(lia) Hs8 ltac:(pow2; lia)) as (F1 & F2 & F3).
  unfold retag. rewrite F1, F3.
  assert (G1 : GET (PUT m (nx - 4) (PACK s (b2z4 pa') (b2z1 a))) (nx - 4) = hdr s pa' a)
    by (apply GET_PUT_hdr; pow2; lia).
  destruct (fields_of_GET _ _ _ _ _ G1 ltac:(lia) Hs8 ltac:(pow2; lia)) as (K1 & K2 & K3).
  rewrite K1, K3. destruct HT as (T1 & T2 & T3).
  destruct Hcase as [(El & Es & Ea & Ee)|(r & El & H16)]; rewrite El in *.
  - rewrite Ea in *. change (b2z1 true =? 0) with false. cbn iota.
    split; [|split; intros; apply PUT_outside; lia].
    repeat split; [lia|]. cbn [last_alloc]. rewrite <- Es, <- Ee. exact G1.
  - pose proof (seg_ok_sizes _ _ _ _ T1) as Hsz. apply sizes_ok_cons in Hsz.
    destruct Hsz as [_ Hsr].
    pose proof (sizes_ok_total _ Hsr) as Htr. cbn [total last_alloc] in *.
    destruct T1 as (A & B & C & D & E).
    destruct a.
    + change (b2z1 true =? 0) with false. cbn iota.
      split; [|split; intros; apply PUT_outside; lia].
      repeat split; try assumption; try discriminate.
      * eapply seg_ok_frame; [eassumption|apply same_outside_PUT|lia].
      * rewrite GET_PUT_other by lia. assumption.
    + change (b2z1 false =? 0) with true. cbn iota.
      split; [|split].
      * repeat split; try assumption.
        -- rewrite GET_PUT_other by lia. exact G1.
        -- intros _. apply GET_PUT_hdr; pow2; lia.
        -- eapply seg_ok_frame; [|apply same_outside_PUT|lia].
           eapply seg_ok_frame; [eassumption|apply same_outside_PUT|lia].
        -- rewrite !GET_PUT_other by lia. assumption.
      * intros x Hx. rewrite !PUT_outside by lia. reflexivity.
      * intros x Hx Hc. specialize (Hc s r eq_refl). rewrite !PUT_outside by lia. reflexivity.
Qed.

Lemma mark_next_retag : forall m bp sz,
  GET_SIZE m (bp - 4) = sz -> 8 <= sz ->
  mark_next_prev_allocated m bp = retag m (bp + sz) 4.
Proof.
  intros m bp sz Hs H8. unfold mark_next_prev_allocated, retag, NEXT_BLKP, FTRP. unfold_consts.
  rewrite Hs.
  assert (E : GET_SIZE (PUT m (bp + sz - 4)
                (PACK (GET_SIZE m (bp + sz - 4)) 4 (GET_ALLOC m (bp + sz - 4)))) (bp - 4) = sz).
  { unfold GET_SIZE in *. rewrite GET_PUT_other by lia. assumption. }
  rewrite E. reflexivity.
Qed.

(** The refresh performed by [free]: both branches clear the bit. *)
Definition unmark_next (m : mem) (ptr : Z) : mem :=
  if negb (GET_ALLOC m (HDRP (NEXT_BLKP m ptr)) =? 0) then
    PUT m (HDRP (NEXT_BLKP m ptr)) (PACK (GET_SIZE m (HDRP (NEXT_BLKP m ptr))) 0 1)
  else
    let m3 := PUT m (HDRP (NEXT_BLKP m ptr))
                  (PACK (GET_SIZE m (HDRP (NEXT_BLKP m ptr))) 0 0) in
    PUT m3 (FTRP m3 (NEXT_BLKP m3 ptr))
        (PACK (GET_SIZE m3 (HDRP (NEXT_BLKP m3 ptr))) 0 0).

Lemma land1_cases : forall w, Z.land w 1 = 0 \/ Z.land w 1 = 1.
Proof.
  intros w. assert (E : Z.land w 1 = w mod 2).
  { change 1 with (Z.ones 1). rewrite Z.land_ones by lia. reflexivity. }
  rewrite E. pose proof (Z.mod_pos_bound w 2 ltac:(lia)). lia.
Qed.

Lemma unmark_next_retag : forall m ptr sz,
  GET_SIZE m (ptr - 4) = sz -> 8 <= sz ->
  unmark_next m ptr = retag m (ptr + sz) 0.
Proof.
  intros m ptr sz Hs H8. unfold unmark_next, retag, NEXT_BLKP, FTRP. unfold_consts.
  rewrite Hs. set (nx := ptr + sz).
  pose proof (GET_SIZE_range m (nx - 4)) as [R1 R2].
  assert (E0 : GET_ALLOC m (nx - 4) = 0 \/ GET_ALLOC m (nx - 4) = 1)
    by apply land1_cases.
  destruct E0 as [E0|E0]; rewrite !E0; cbn [negb Z.eqb].
  - assert (E' : GET_SIZE (PUT m (nx - 4) (PACK (GET_SIZE m (nx - 4)) 0 0)) (ptr - 4) = sz).
    { unfold GET_SIZE in *. rewrite GET_PUT_other by (unfold nx; lia). assumption. }
    rewrite E'. fold nx.
    assert (E1 : GET_ALLOC (PUT m (nx - 4) (PACK (GET_SIZE m (nx - 4)) 0 0)) (nx - 4) = 0).
    { unfold GET_ALLOC. rewrite GET_PUT_same.
      rewrite PACK_00 by lia. rewrite Z.mod_small by (apply hdr_range; lia).
      now rewrite alloc_of_hdr. }
    rewrite !E1. reflexivity.
  - assert (E1 : GET_ALLOC (PUT m (nx - 4) (PACK (GET_SIZE m (nx - 4)) 0 1)) (nx - 4) = 1).
    { unfold GET_ALLOC. rewrite GET_PUT_same.
      rewrite PACK_01 by lia. rewrite Z.mod_small by (apply hdr_range; lia).
      now rewrite alloc_of_hdr. }
    rewrite !E1. reflexivity.
Qed.

(* ================================================================= *)
(** * Re-reading the lists after the tags have changed *)

Lemma lists_reframe : forall st st' bs bs' fl skip skip',
  lists_ok st bs fl skip ->
  mem_start st' = mem_start st -> (forall c, lhead st' c = lhead st c) ->
  (forall q s, In (q, s) (frees (first_bp st) bs) -> ~ In q skip ->
     forall x, q <= x < q + 8 -> heap st' x = heap st x) ->
  (forall q s, (In (q, s) (frees (first_bp st) bs') /\ ~ In q skip') <->
               (In (q, s) (frees (first_bp st) bs) /\ ~ In q skip)) ->
  lists_ok st' bs' fl skip'.
Proof.
  intros st st' bs bs' fl skip skip' Hl E1 E2 Hf Hiff.
  assert (Ef : first_bp st' = first_bp st) by (unfold first_bp; congruence).
  constructor; rewrite ?Ef.
  - intros c. rewrite E2. apply flist_frame with (m := heap st); [apply (lo_chain _ _ _ _ Hl)|].
    intros q Hq. destruct (lo_sound _ _ _ _ Hl _ _ Hq) as (Hn & s & Hs & _).
    apply GETL_ext. intros x Hx. eapply Hf; eauto.
  - apply (lo_nodup _ _ _ _ Hl).
  - intros c q Hq. destruct (lo_sound _ _ _ _ Hl _ _ Hq) as (Hn & s & Hs & Hc).
    destruct (proj2 (Hiff q s) (conj Hs Hn)) as [Hs' Hn']. split; [assumption|]. eauto.
  - intros q s Hs' Hn'. destruct (proj1 (Hiff q s) (conj Hs' Hn')) as [Hs Hn].
    apply (lo_complete _ _ _ _ Hl); assumption.
Qed.

(** The lists see only the middle of the sequence change. *)
Lemma frees_mid_iff : forall p l1 mid mid' l2 skip skip',
  sizes_ok l1 -> sizes_ok mid -> sizes_ok mid' -> sizes_ok l2 ->
  total mid' = total mid ->
  (forall q, In q skip -> p + total l1 <= q < p + total l1 + total mid) ->
  (forall q, In q skip' -> p + total l1 <= q < p + total l1 + total mid) ->
  (forall q s, (In (q, s) (frees (p + total l1) mid') /\ ~ In q skip') <->
               (In (q, s) (frees (p + total l1) mid) /\ ~ In q skip)) ->
  forall q s, (In (q, s) (frees p (l1 ++ mid' ++ l2)) /\ ~ In q skip') <->
              (In (q, s) (frees p (l1 ++ mid ++ l2)) /\ ~ In q skip).
Proof.
  intros p l1 mid mid' l2 skip skip' Z1 Zm Zm' Z2 Et Hs Hs' Hmid q s.
  rewrite !frees_app, !in_app_iff, Et.
  specialize (Hmid q s).
  assert (A1 : In (q, s) (frees p l1) -> ~ In q skip /\ ~ In q skip').
  { intros H. apply frees_range in H; [|assumption].
    split; intros Hq; [apply Hs in Hq|apply Hs' in Hq]; lia. }
  assert (A2 : In (q, s) (frees (p + total l1 + total mid) l2) -> ~ In q skip /\ ~ In q skip').
  { intros H. apply frees_range in H; [|assumption].
    split; intros Hq; [apply Hs in Hq|apply Hs' in Hq]; lia. }
  tauto.
Qed.

Lemma allocs_mid_iff : forall p l1 mid l2 q s,
  In (q, s) (allocs p (l1 ++ mid ++ l2)) <->
  In (q, s) (allocs p l1) \/ In (q, s) (allocs (p + total l1) mid) \/
  In (q, s) (allocs (p + total l1 + total mid) l2).
Proof. intros. rewrite !allocs_app, !in_app_iff. tauto. Qed.

Lemma seg_ok_ext : forall m m' bs p pa,
  seg_ok m p pa bs ->
  (forall x, p - 4 <= x < p + total bs - 4 -> m' x = m x) ->
  seg_ok m' p pa bs.
Proof.
  induction bs as [|[s a] r IH]; intros p pa H Hf; [exact I|].
  pose proof (seg_ok_sizes _ _ _ _ H) as Hsz. apply sizes_ok_cons in Hsz.
  destruct Hsz as [[Hs1 Hs2] Hsr]. pose proof (sizes_ok_total _ Hsr) as Ht.
  cbn [total] in Hf. destruct H as (A & B & C & D & E). repeat split; try assumption.
  - rewrite <- C. apply GET_ext. intros x Hx. apply Hf. lia.
  - intros Ea. rewrite <- (D Ea). apply GET_ext. intros x Hx. apply Hf. lia.
  - apply IH; [assumption|]. intros x Hx. apply Hf. lia.
Qed.

(** What a shape says around one block. *)
Lemma shape_cut : forall st l1 s a l2,
  shape st (l1 ++ (s, a) :: l2) ->
  let m := heap st in
  let bp := first_bp st + total l1 in
  seg_ok m (first_bp st) true l1 /\
  GET m (bp - 4) = hdr s (last_alloc true l1) a /\
  (a = false -> GET m (bp + s - 8) = hdr s (last_alloc true l1) false) /\
  tail_ok m (bp + s) a l2 (mem_brk st) /\
  16 <= s /\ s mod 8 = 0 /\ s < 4294967296 /\
  0 <= total l1 /\ 0 <= total l2 /\ bp + s + total l2 = mem_brk st /\
  mem_brk st - mem_start st < 4294967296 /\
  sizes_ok l1 /\ sizes_ok l2.
Proof.
  intros st l1 s a l2 H m bp.
  pose proof (shape_sizes _ _ H) as Hsz. apply sizes_ok_app in Hsz.
  destruct Hsz as [Hz1 Hz2]. apply sizes_ok_cons in Hz2. destruct Hz2 as [[Hs1 Hs2] Hz3].
  pose proof (sizes_ok_total _ Hz1) as Ht1. pose proof (sizes_ok_total _ Hz3) as Ht3.
  pose proof (shape_tail _ _ H) as HT. apply tail_ok_app in HT.
  destruct HT as [S1 (S2 & S3 & S4)]. fold m bp in S1, S2, S3, S4.
  destruct S2 as (A & B & C & D & E). cbn [total last_alloc] in *.
  destruct H. unfold first_bp in *. rewrite total_app in *. cbn [total] in *.
  subst bp. repeat split; try assumption; try lia.
Qed.

(* ================================================================= *)
(** * The class cascade *)

(** Whether the cascade entered with [asize] tries list [c]. *)
Definition visits (asize : Z) (c : nat) : Prop :=
  exists g, In (c, g) cascade /\ passes g asize = true.

Lemma cascade_nodup : NoDup (map fst cascade).
Proof.
  cbn. repeat (constructor; [cbn; intros H; repeat (destruct H as [H|H]; [discriminate|]); exact H|]).
  constructor.
Qed.

Lemma class_from_passes : forall cs s,
  (exists c g, In (c, g) cs /\ passes g s = true) ->
  exists g, In (class_from cs s, g) cs /\ passes g s = true.
Proof.
  induction cs as [|[c g] r IH]; intros s (c0 & g0 & Hin & Hp); [contradiction|].
  cbn [class_from]. destruct (passes g s) eqn:E.
  - exists g. split; [now left|assumption].
  - destruct Hin as [Heq|Hin]; [inversion Heq; congruence|].
    destruct (IH s) as (g1 & H1 & H2); [eauto|]. exists g1. split; [now right|assumption].
Qed.

Lemma class_from_le : forall cs asize s, asize <= s ->
  (forall c b, In (c, Exactly b) cs -> s <> b) ->
  (exists c g, In (c, g) cs /\ passes g s = true) ->
  exists g, In (class_from cs s, g) cs /\ passes g asize = true.
Proof.
  induction cs as [|[c g] r IH]; intros asize s Hle Hex (c0 & g0 & Hin & Hp); [contradiction|].
  cbn [class_from]. destruct (passes g s) eqn:E.
  - exists g. split; [now left|]. destruct g as [b|b|]; cbn in *.
    + apply Z.leb_le in E. apply Z.leb_le. lia.
    + apply Z.eqb_eq in E. exfalso. apply (Hex c b); [now left|assumption].
    + reflexivity.
  - destruct Hin as [Heq|Hin]; [inversion Heq; congruence|].
    destruct (IH asize s Hle) as (g1 & H1 & H2); [|eauto|].
    + intros c' b Hc'. apply (Hex c' b). now right.
    + exists g1. split; [now right|assumption].
Qed.

Lemma cascade_has_rest : forall s, exists c g, In (c, g) cascade /\ passes g s = true.
Proof. intros s. exists 15%nat, Rest. split; [|reflexivity]. unfold cascade. cbn. tauto. Qed.

Lemma class_of_visits : forall s, visits s (class_of s).
Proof. intros s. apply class_from_passes. apply cascade_has_rest. Qed.

(** A block of stored size [s] is reached by the cascade of any request
    that it can satisfy, unless it sits in a singleton list. *)
Lemma visits_le : forall asize s, asize <= s -> s <> num04 -> s <> num05 ->
  visits asize (class_of s).
Proof.
  intros asize s Hle H4 H5. apply class_from_le; [assumption| |apply cascade_has_rest].
  intros c b Hin. unfold cascade in Hin. cbn in Hin.
  repeat (destruct Hin as [Hin|Hin]; [inversion Hin; subst; assumption || discriminate|]).
  contradiction.
Qed.

Lemma class_of_range : forall s, (1 <= class_of s <= 15)%nat.
Proof.
  intros s. destruct (class_of_visits s) as (g & Hin & _).
  generalize dependent (class_of s). intros c Hin.
  unfold cascade in Hin. cbn in Hin.
  repeat (destruct Hin as [Hin|Hin]; [inversion Hin; lia|]). contradiction.
Qed.

(* ================================================================= *)
(** * [place] *)

Lemma frees_position : forall p l1 cs a l2 q s,
  sizes_ok l1 -> sizes_ok l2 ->
  In (q, s) (frees p (l1 ++ (cs, a) :: l2)) ->
  (p <= q /\ q + 16 <= p + total l1) \/
  (q = p + total l1 /\ s = cs /\ a = false) \/
  (p + total l1 + cs <= q /\ In (q, s) (frees (p + total l1 + cs) l2)).
Proof.
  intros p l1 cs a l2 q s Z1 Z2 H. apply in_frees_cut in H. cbn [fst snd] in H.
  destruct H as [H|[H|H]].
  - left. apply frees_range in H; [lia|assumption].
  - right. left. tauto.
  - right. right. split; [|assumption]. apply frees_range in H; [lia|assumption].
Qed.

(** Link words of free blocks in a tail avoid the tags [retag] rewrites. *)
Lemma tail_link_clear : forall nx l2 q s x,
  sizes_ok l2 -> In (q, s) (frees nx l2) -> q <= x < q + 8 ->
  nx <= x /\ forall s2 r, l2 = (s2, false) :: r -> x < nx + s2 - 8 \/ nx + s2 - 4 <= x.
Proof.
  intros nx l2 q s x Z2 Hin Hx. pose proof (frees_range _ _ _ _ Z2 Hin) as R.
  split; [lia|]. intros s2 r ->. apply sizes_ok_cons in Z2. destruct Z2 as [[A B] Zr].
  cbn [frees] in Hin. destruct Hin as [E|Hin].
  - inversion E; subst. lia.
  - apply frees_range in Hin; [lia|assumption].
Qed.

(** [kept A m m']: the payload bytes of the blocks [A] (address and stored
    size; the header is the word before the address) are the same in [m']
    as in [m]. *)
Definition kept (A : list (Z * Z)) (m m' : mem) : Prop :=
  forall q s, In (q, s) A -> forall x, q <= x < q + s - 4 -> m' x = m x.

Lemma kept_refl : forall A m, kept A m m.
Proof. intros A m q s _ x _. reflexivity. Qed.

Lemma kept_trans : forall A m1 m2 m3, kept A m1 m2 -> kept A m2 m3 -> kept A m1 m3.
Proof. intros A m1 m2 m3 H1 H2 q s Hin x Hx. rewrite (H2 q s Hin x Hx). exact (H1 q s Hin x Hx). Qed.

Lemma kept_incl : forall A B m m', (forall q s, In (q, s) B -> In (q, s) A) ->
  kept A m m' -> kept B m m'.
Proof. intros A B m m' Hi H q s Hin. apply H. apply Hi. exact Hin. Qed.

Lemma alloc_free_apart : forall bs p q s q' s', sizes_ok bs ->
  In (q, s) (allocs p bs) -> In (q', s') (frees p bs) ->
  q + s <= q' \/ q' + s' <= q.
Proof.
  induction bs as [|[s0 a] r IH]; intros p q s q' s' Hsz H1 H2; [contradiction|].
  apply sizes_ok_cons in Hsz. destruct Hsz as [[S1 S2] Zr].
  cbn [allocs frees] in H1, H2. destruct a.
  - destruct H1 as [E|H1]; [|exact (IH _ _ _ _ _ Zr H1 H2)].
    inversion E; subst. apply frees_range in H2; [left; lia|assumption].
  - destruct H2 as [E|H2]; [|exact (IH _ _ _ _ _ Zr H1 H2)].
    inversion E; subst. apply allocs_range in H1; [right; lia|assumption].
Qed.

Lemma allocs_apart : forall bs p q1 s1 q2 s2, sizes_ok bs ->
  In (q1, s1) (allocs p bs) -> In (q2, s2) (allocs p bs) -> q1 <> q2 ->
  q1 + s1 <= q2 \/ q2 + s2 <= q1.
Proof.
  induction bs as [|[s a] r IH]; intros p q1 s1 q2 s2 Hsz H1 H2 Hne; [contradiction|].
  apply sizes_ok_cons in Hsz. destruct Hsz as [[S1 S2] Zr].
  cbn [allocs] in H1, H2. destruct a.
  - destruct H1 as [E1|H1], H2 as [E2|H2].
    + inversion E1; inversion E2; subst. contradiction.
    + inversion E1; subst. apply allocs_range in H2; [left; lia|assumption].
    + inversion E2; subst. apply allocs_range in H1; [right; lia|assumption].
    + exact (IH _ _ _ _ _ Zr H1 H2 Hne).
  - exact (IH _ _ _ _ _ Zr H1 H2 Hne).
Qed.

(** Writes into link words leave every allocated payload alone. *)
Lemma only_links_kept : forall p bs m m', sizes_ok bs ->
  only_links p bs m m' -> kept (allocs p bs) m m'.
Proof.
  intros p bs m m' Hsz Ho q s Hin x Hx. apply Ho. intros q' s' Hf Hx'.
  pose proof (frees_range _ _ _ _ Hsz Hf) as R.
  destruct (alloc_free_apart _ _ _ _ _ _ Hsz Hin Hf); lia.
Qed.

(** A payload byte of the tail is not in a tag that [retag] rewrites. *)
Lemma tail_payload_clear : forall nx l2 q s x,
  sizes_ok l2 -> In (q, s) (allocs nx l2) -> q <= x < q + s - 4 ->
  nx <= x /\ forall s2 r, l2 = (s2, false) :: r -> x < nx + s2 - 8 \/ nx + s2 - 4 <= x.
Proof.
  intros nx l2 q s x Z2 Hin Hx. pose proof (allocs_range _ _ _ _ Z2 Hin) as R.
  split; [lia|]. intros s2 r ->. apply sizes_ok_cons in Z2. destruct Z2 as [[A B] Zr].
  cbn [allocs] in Hin. apply allocs_range in Hin; [lia|assumption].
Qed.

(** The allocated blocks around one block of the sequence. *)
Lemma allocs_position : forall p l1 cs a l2 q s,
  sizes_ok l1 -> sizes_ok l2 ->
  In (q, s) (allocs p (l1 ++ (cs, a) :: l2)) ->
  (p <= q /\ q + s <= p + total l1 /\ In (q, s) (allocs p l1)) \/
  (q = p + total l1 /\ s = cs /\ a = true) \/
  (p + total l1 + cs <= q /\ In (q, s) (allocs (p + total l1 + cs) l2)).
Proof.
  intros p l1 cs a l2 q s Z1 Z2 H. apply in_allocs_cut in H. cbn [fst snd] in H.
  destruct H as [H|[H|H]].
  - left. pose proof (allocs_range _ _ _ _ Z1 H). repeat split; try lia. exact H.
  - right. left. tauto.
  - right. right. split; [|assumption]. apply allocs_range in H; [lia|assumption].
Qed.

(** An allocated block lies wholly before or wholly after a run of free
    blocks. *)
Lemma allocs_around : forall p l1 mid l2 q s,
  sizes_ok l1 -> sizes_ok l2 -> allocs (p + total l1) mid = [] ->
  In (q, s) (allocs p (l1 ++ mid ++ l2)) ->
  q + s <= p + total l1 \/ p + total l1 + total mid <= q.
Proof.
  intros p l1 mid l2 q s Z1 Z2 E H. apply allocs_mid_iff in H. rewrite E in H.
  destruct H as [H|[[]|H]].
  - left. apply allocs_range in H; [lia|assumption].
  - right. apply allocs_range in H; [lia|assumption].
Qed.

(** The three outcomes of [place] on the block sequence. *)
Inductive placed (l1 : list block) (cs : Z) (l2 : list block) (asize bp : Z)
  : list block -> Z -> Prop :=
| placed_whole : cs - asize < 16 ->
    placed l1 cs l2 asize bp (l1 ++ (cs, true) :: l2) bp
| placed_head : 16 <= cs - asize -> asize < 120 ->
    placed l1 cs l2 asize bp (l1 ++ (asize, true) :: (cs - asize, false) :: l2) bp
| placed_tail : 16 <= cs - asize -> 120 <= asize ->
    placed l1 cs l2 asize bp (l1 ++ (cs - asize, false) :: (asize, true) :: l2)
           (bp + (cs - asize)).

Lemma remove_single : forall q : Z, remove Z.eq_dec q [q] = [].
Proof. intros. cbn. destruct (Z.eq_dec q q); congruence. Qed.

Lemma lists_ok_fl_ext : forall st bs fl fl' skip,
  lists_ok st bs fl skip -> (forall c, fl' c = fl c) -> lists_ok st bs fl' skip.
Proof.
  intros st bs fl fl' skip H E. constructor.
  - intros c. rewrite E. apply (lo_chain _ _ _ _ H).
  - intros c. rewrite E. apply (lo_nodup _ _ _ _ H).
  - intros c q. rewrite E. apply (lo_sound _ _ _ _ H).
  - intros q s. rewrite E. apply (lo_complete _ _ _ _ H).
Qed.

Section PlaceCases.
Variables (st1 : state) (l1 : list block) (cs : Z) (l2 : list block)
          (fl1 : nat -> list Z) (asize : Z).
Let bp := first_bp st1 + total l1.
Let bs := l1 ++ (cs, false) :: l2.
Let pa := last_alloc true l1.
Hypothesis Hsh1 : shape st1 bs.
Hypothesis Hl1 : lists_ok st1 bs fl1 [bp].
Hypothesis Has : 16 <= asize <= cs.
Hypothesis Ha8 : asize mod 8 = 0.

Lemma place_whole_ok :
  let m1 := PUT (heap st1) (bp - 4) (PACK cs (b2z4 pa) 1) in
  let m2 := PUT m1 (FTRP m1 bp) (PACK cs (b2z4 pa) 1) in
  let st' := set_heap st1 (mark_next_prev_allocated m2 bp) in
  shape st' (l1 ++ (cs, true) :: l2) /\ lists_ok st' (l1 ++ (cs, true) :: l2) fl1 [] /\
  kept (allocs (first_bp st1) bs) (heap st1) (heap st').
Proof.
  intros m1 m2 st'.
  destruct (shape_cut _ _ _ _ _ Hsh1)
    as (S1 & S2 & S3 & S4 & C1 & C2 & C3 & C4 & C5 & C6 & C7 & Z1 & Z2).
  fold bp pa in S1, S2, S3, S4, C6.
  assert (E1 : GET m1 (bp - 4) = hdr cs pa true).
  { subst m1. apply (GET_PUT_hdr _ _ cs pa true); lia. }
  destruct (fields_of_GET _ _ _ _ _ E1 ltac:(lia) C2 C3) as (F1 & _ & _).
  assert (EF : FTRP m1 bp = bp + cs - 8).
  { unfold FTRP. unfold_consts. rewrite F1. reflexivity. }
  assert (Hm2 : forall x, x < bp - 4 \/ bp + cs - 4 <= x -> m2 x = heap st1 x).
  { intros x Hx. subst m2 m1. rewrite EF. rewrite !PUT_outside by lia. reflexivity. }
  assert (E2 : GET m2 (bp - 4) = hdr cs pa true).
  { subst m2. rewrite EF. rewrite GET_PUT_other by lia. exact E1. }
  destruct (fields_of_GET _ _ _ _ _ E2 ltac:(lia) C2 C3) as (G1 & _ & _).
  assert (T2 : tail_ok m2 (bp + cs) false l2 (mem_brk st1)).
  { eapply tail_ok_frame; [exact S4|]. intros x Hx. apply Hm2. lia. }
  destruct (retag_ok m2 (bp + cs) false true l2 (mem_brk st1) T2 ltac:(destruct Hsh1; unfold first_bp in *; lia))
    as (T3 & R1 & R2).
  assert (Emf : heap st' = retag m2 (bp + cs) 4).
  { subst st'. cbn [heap set_heap]. apply mark_next_retag; [exact G1|lia]. }
  change (b2z4 true) with 4 in T3, R1, R2.
  assert (Hlow : forall x, x < bp - 4 -> heap st' x = heap st1 x).
  { intros x Hx. rewrite Emf, R1 by lia. apply Hm2. lia. }
  split; [|split].
  - eapply shape_of_tail; [exact Hsh1|repeat split| |].
    + rewrite <- (sh_pro _ _ Hsh1). apply GET_ext. intros x Hx. apply Hlow.
      unfold bp, first_bp. lia.
    + apply tail_ok_app. split.
      * eapply seg_ok_ext; [exact S1|]. intros x Hx. apply Hlow. fold bp in Hx. lia.
      * fold bp. rewrite Emf. destruct T3 as (T3a & T3b & T3c).
        repeat split; try assumption; try discriminate.
        -- fold pa. rewrite <- E2. apply GET_ext. intros x Hx. apply R1. lia.
        -- cbn [total] in *. lia.
  - eapply lists_reframe; [exact Hl1|reflexivity|reflexivity| |].
    + intros q s Hq Hn x Hx.
      destruct (frees_position _ _ _ _ _ _ _ Z1 Z2 Hq) as [P|[P|P]]; fold bp in P.
      * apply Hlow. lia.
      * exfalso. apply Hn. left. symmetry. tauto.
      * destruct P as [P1 P2].
        destruct (tail_link_clear _ _ _ _ _ Z2 P2 Hx) as [K1 K2].
        rewrite Emf, R2 by assumption. apply Hm2. lia.
    + apply (frees_mid_iff (first_bp st1) l1 [(cs, false)] [(cs, true)] l2 [bp] []);
        try assumption.
      * repeat constructor; cbn; lia.
      * repeat constructor; cbn; lia.
      * reflexivity.
      * intros q [<-|[]]. fold bp. cbn [total]. lia.
      * intros q [].
      * intros q s. fold bp. cbn [frees In]. intuition congruence.
  - intros q s Hq x Hx.
    destruct (allocs_position _ _ _ _ _ _ _ Z1 Z2 Hq) as [P|[P|P]]; fold bp in P.
    + apply Hlow. lia.
    + destruct P as (_ & _ & P). discriminate.
    + destruct P as [P1 P2].
      destruct (tail_payload_clear _ _ _ _ _ Z2 P2 Hx) as [K1 K2].
      rewrite Emf, R2 by assumption. apply Hm2. lia.
Qed.

Lemma geom_resize : forall mid',
  sizes_ok mid' -> total mid' = cs -> forall st', same_arena st1 st' ->
  geom st' (l1 ++ mid' ++ l2).
Proof.
  intros mid' Zm Et st' Har.
  destruct (shape_cut _ _ _ _ _ Hsh1)
    as (S1 & S2 & S3 & S4 & C1 & C2 & C3 & C4 & C5 & C6 & C7 & Z1 & Z2).
  eapply geom_same_arena; [|exact Har].
  pose proof (shape_geom _ _ Hsh1) as G. destruct G.
  constructor; try assumption.
  - apply sizes_ok_app. split; [assumption|]. apply sizes_ok_app. split; assumption.
  - rewrite !total_app, Et. unfold bs in ge_end0. rewrite total_app in ge_end0.
    cbn [total] in ge_end0. lia.
Qed.

Lemma place_head_ok : 16 <= cs - asize ->
  let m1 := PUT (heap st1) (bp - 4) (PACK asize (b2z4 pa) 1) in
  let xxx := NEXT_BLKP m1 bp in
  let m2 := PUT m1 (HDRP xxx) (PACK (cs - asize) 4 0) in
  let m3 := PUT m2 (FTRP m2 xxx) (PACK (cs - asize) 4 0) in
  let st' := insertx (set_heap st1 m3) xxx (cs - asize) in
  let bs' := l1 ++ (asize, true) :: (cs - asize, false) :: l2 in
  shape st' bs' /\
  lists_ok st' bs' (fl_add fl1 (class_of (cs - asize)) (bp + asize)) [] /\
  kept (allocs (first_bp st1) bs) (heap st1) (heap st').
Proof.
  intros Hsp m1 xxx m2 m3 st' bs'.
  destruct (shape_cut _ _ _ _ _ Hsh1)
    as (S1 & S2 & S3 & S4 & C1 & C2 & C3 & C4 & C5 & C6 & C7 & Z1 & Z2).
  fold bp pa in S1, S2, S3, S4, C6.
  assert (Hr8 : (cs - asize) mod 8 = 0).
  { rewrite Zminus_mod, C2, Ha8. reflexivity. }
  assert (E1 : GET m1 (bp - 4) = hdr asize pa true).
  { subst m1. apply (GET_PUT_hdr _ _ asize pa true); lia. }
  destruct (fields_of_GET _ _ _ _ _ E1 ltac:(lia) Ha8 ltac:(lia)) as (F1 & _ & _).
  assert (Ex : xxx = bp + asize).
  { subst xxx. unfold NEXT_BLKP. unfold_consts. rewrite F1. reflexivity. }
  assert (E2 : GET m2 (bp + asize - 4) = hdr (cs - asize) true false).
  { subst m2. rewrite Ex. unfold_consts. apply (GET_PUT_hdr _ _ (cs - asize) true false); lia. }
  destruct (fields_of_GET _ _ _ _ _ E2 ltac:(lia) Hr8 ltac:(lia)) as (G1 & _ & _).
  assert (EF : FTRP m2 xxx = bp + cs - 8).
  { unfold FTRP. rewrite Ex. unfold_consts. rewrite G1. lia. }
  assert (Hm3 : forall x, x < bp - 4 \/ bp + cs - 4 <= x -> m3 x = heap st1 x).
  { intros x Hx. subst m3 m2 m1. rewrite EF, Ex. unfold_consts.
    rewrite !PUT_outside by lia. reflexivity. }
  assert (Hsh3 : shape (set_heap st1 m3) bs').
  { eapply shape_of_tail; [exact Hsh1|repeat split| |].
    - rewrite <- (sh_pro _ _ Hsh1). apply GET_ext. intros x Hx. apply Hm3.
      unfold bp, first_bp. lia.
    - apply tail_ok_app. split.
      + eapply seg_ok_ext; [exact S1|]. intros x Hx. apply Hm3. fold bp in Hx. lia.
      + fold bp pa. unfold tail_ok. cbn [seg_ok total last_alloc heap set_heap mem_brk].
        replace (bp + asize + (cs - asize)) with (bp + cs) by lia.
        destruct S4 as (T1 & T2 & T3).
        repeat split; try assumption; try discriminate; try lia.
        * subst m3 m2. rewrite EF, Ex. unfold_consts.
          rewrite !GET_PUT_other by lia. exact E1.
        * subst m3. rewrite EF. rewrite GET_PUT_other by lia. exact E2.
        * intros _. subst m3. rewrite EF.
          replace (bp + asize + (cs - asize) - 8) with (bp + cs - 8) by lia.
          apply (GET_PUT_hdr _ _ (cs - asize) true false); lia.
        * eapply seg_ok_ext; [exact T1|]. intros x Hx. apply Hm3. lia.
        * rewrite <- T3. apply GET_ext. intros x Hx. apply Hm3. lia. }
  assert (Hl3 : lists_ok (set_heap st1 m3) bs' fl1 [bp + asize]).
  { eapply lists_reframe; [exact Hl1|reflexivity|reflexivity| |].
    - intros q s Hq Hn x Hx. cbn [heap set_heap].
      destruct (frees_position _ _ _ _ _ _ _ Z1 Z2 Hq) as [P|[P|P]]; fold bp in P.
      + apply Hm3. lia.
      + exfalso. apply Hn. left. symmetry. tauto.
      + apply Hm3. lia.
    - apply (frees_mid_iff (first_bp st1) l1 [(cs, false)]
               [(asize, true); (cs - asize, false)] l2 [bp] [bp + asize]);
        try assumption.
      + repeat constructor; cbn; lia.
      + repeat constructor; cbn; lia.
      + cbn [total]. lia.
      + intros q [<-|[]]. fold bp. cbn [total]. lia.
      + intros q [<-|[]]. fold bp. cbn [total]. lia.
      + intros q s. fold bp. cbn [frees In]. intuition congruence. }
  assert (Hin : In (bp + asize, cs - asize) (frees (first_bp (set_heap st1 m3)) bs')).
  { change (first_bp (set_heap st1 m3)) with (first_bp st1). unfold bs'.
    change (l1 ++ (asize, true) :: (cs - asize, false) :: l2)
      with (l1 ++ (asize, true) :: ((cs - asize, false) :: l2)).
    apply in_frees_cut. right. right. cbn [fst frees]. fold bp. now left. }
  subst st'. rewrite Ex. split; [|split].
  - apply shape_insertx; assumption.
  - destruct (insertx_ok _ _ _ _ (shape_geom _ _ Hsh3) Hl3 _ _ Hin ltac:(now left))
      as (K1 & _). rewrite remove_single in K1. exact K1.
  - intros q s Hq x Hx. unfold insertx. cbn [heap set_heap set_lhead].
    assert (Hout : x < bp - 4 \/ bp + cs <= x).
    { destruct (allocs_position _ _ _ _ _ _ _ Z1 Z2 Hq) as [P|[P|P]]; fold bp in P;
        [lia|destruct P as (_ & _ & P); discriminate|lia]. }
    rewrite PUTL_outside by lia. apply Hm3. lia.
Qed.

Lemma place_tail_ok : 16 <= cs - asize ->
  let m1 := PUT (heap st1) (bp - 4) (PACK (cs - asize) (b2z4 pa) 0) in
  let m2 := PUT m1 (FTRP m1 bp) (PACK (cs - asize) (b2z4 pa) 0) in
  let st2 := insertx (set_heap st1 m2) bp (cs - asize) in
  let bp' := NEXT_BLKP (heap st2) bp in
  let m3 := PUT (heap st2) (HDRP bp') (PACK asize 0 1) in
  let st' := set_heap st2 (mark_next_prev_allocated m3 bp') in
  let bs' := l1 ++ (cs - asize, false) :: (asize, true) :: l2 in
  bp' = bp + (cs - asize) /\
  shape st' bs' /\
  lists_ok st' bs' (fl_add fl1 (class_of (cs - asize)) bp) [] /\
  kept (allocs (first_bp st1) bs) (heap st1) (heap st').
Proof.
  intros Hsp m1 m2 st2 bp' m3 st' bs'.
  destruct (shape_cut _ _ _ _ _ Hsh1)
    as (S1 & S2 & S3 & S4 & C1 & C2 & C3 & C4 & C5 & C6 & C7 & Z1 & Z2).
  fold bp pa in S1, S2, S3, S4, C6.
  assert (Hr8 : (cs - asize) mod 8 = 0).
  { rewrite Zminus_mod, C2, Ha8. reflexivity. }
  assert (E1 : GET m1 (bp - 4) = hdr (cs - asize) pa false).
  { subst m1. apply (GET_PUT_hdr _ _ (cs - asize) pa false); lia. }
  destruct (fields_of_GET _ _ _ _ _ E1 ltac:(lia) Hr8 ltac:(lia)) as (F1 & _ & _).
  assert (EF : FTRP m1 bp = bp + (cs - asize) - 8).
  { unfold FTRP. unfold_consts. rewrite F1. reflexivity. }
  assert (Hm2 : forall x, x < bp - 4 \/ bp <= x < bp + (cs - asize) - 8 \/
                          bp + (cs - asize) - 4 <= x -> m2 x = heap st1 x).
  { intros x Hx. subst m2 m1. rewrite EF. rewrite !PUT_outside by lia. reflexivity. }
  assert (E2 : GET m2 (bp - 4) = hdr (cs - asize) pa false).
  { subst m2. rewrite EF. rewrite GET_PUT_other by lia. exact E1. }
  assert (E2f : GET m2 (bp + (cs - asize) - 8) = hdr (cs - asize) pa false).
  { subst m2. rewrite EF. apply (GET_PUT_hdr _ _ (cs - asize) pa false); lia. }
  assert (Zm : sizes_ok [(cs - asize, false); (asize, true)])
    by (repeat constructor; cbn; lia).
  assert (Hl2 : lists_ok (set_heap st1 m2) bs' fl1 [bp]).
  { eapply lists_reframe; [exact Hl1|reflexivity|reflexivity| |].
    - intros q s Hq Hn x Hx. cbn [heap set_heap].
      destruct (frees_position _ _ _ _ _ _ _ Z1 Z2 Hq) as [P|[P|P]]; fold bp in P.
      + apply Hm2. lia.
      + exfalso. apply Hn. left. symmetry. tauto.
      + apply Hm2. lia.
    - apply (frees_mid_iff (first_bp st1) l1 [(cs, false)]
               [(cs - asize, false); (asize, true)] l2 [bp] [bp]);
        try assumption.
      + repeat constructor; cbn; lia.
      + cbn [total]. lia.
      + intros q [<-|[]]. fold bp. cbn [total]. lia.
      + intros q [<-|[]]. fold bp. cbn [total]. lia.
      + intros q s. fold bp. cbn [frees In]. intuition congruence. }
  assert (Hg2 : geom (set_heap st1 m2) bs').
  { apply (geom_resize [(cs - asize, false); (asize, true)]); [assumption|cbn; lia|repeat split]. }
  assert (Hin : In (bp, cs - asize) (frees (first_bp (set_heap st1 m2)) bs')).
  { change (first_bp (set_heap st1 m2)) with (first_bp st1). unfold bs'.
    apply in_frees_cut. right. left. cbn [fst snd]. fold bp. auto. }
  destruct (insertx_ok _ _ _ _ Hg2 Hl2 _ _ Hin ltac:(now left)) as (K1 & _ & _).
  rewrite remove_single in K1. fold st2 in K1.
  assert (Hst2 : heap st2 = PUTL m2 bp (lhead st1 (class_of (cs - asize)))) by reflexivity.
  assert (E3 : GET (heap st2) (bp - 4) = hdr (cs - asize) pa false).
  { rewrite Hst2, GET_PUTL_other by lia. exact E2. }
  destruct (fields_of_GET _ _ _ _ _ E3 ltac:(lia) Hr8 ltac:(lia)) as (G1 & _ & _).
  assert (Eb : bp' = bp + (cs - asize)).
  { subst bp'. unfold NEXT_BLKP. unfold_consts. rewrite G1. reflexivity. }
  assert (E4 : GET m3 (bp' - 4) = hdr asize false true).
  { subst m3. unfold_consts. apply (GET_PUT_hdr _ _ asize false true); lia. }
  destruct (fields_of_GET _ _ _ _ _ E4 ltac:(lia) Ha8 ltac:(lia)) as (G2 & _ & _).
  assert (Hm3 : forall x, x < bp - 4 \/ bp + cs - 4 <= x -> m3 x = heap st1 x).
  { intros x Hx. subst m3. rewrite Eb, Hst2. unfold_consts.
    rewrite PUT_outside, PUTL_outside by lia. apply Hm2. lia. }
  assert (T2 : tail_ok m3 (bp + cs) false l2 (mem_brk st1)).
  { eapply tail_ok_frame; [exact S4|]. intros x Hx. apply Hm3. lia. }
  destruct (retag_ok m3 (bp + cs) false true l2 (mem_brk st1) T2
              ltac:(destruct Hsh1; unfold first_bp in *; lia)) as (T3 & R1 & R2).
  change (b2z4 true) with 4 in T3, R1, R2.
  assert (Emf : heap st' = retag m3 (bp + cs) 4).
  { subst st'. cbn [heap set_heap]. rewrite (mark_next_retag m3 bp' asize G2 ltac:(lia)).
    rewrite Eb. f_equal. lia. }
  assert (Hlow : forall x, x < bp - 4 -> heap st' x = heap st1 x).
  { intros x Hx. rewrite Emf, R1 by lia. apply Hm3. lia. }
  split; [exact Eb|]. split; [|split].
  - eapply shape_of_tail; [exact Hsh1|repeat split| |].
    + rewrite <- (sh_pro _ _ Hsh1). apply GET_ext. intros x Hx. apply Hlow.
      unfold bp, first_bp. lia.
    + apply tail_ok_app. split.
      * eapply seg_ok_ext; [exact S1|]. intros x Hx. apply Hlow. fold bp in Hx. lia.
      * fold bp pa. unfold tail_ok. cbn [seg_ok total last_alloc].
        replace (bp + (cs - asize) + asize) with (bp + cs) by lia.
        destruct T3 as (T3a & T3b & T3c). rewrite Emf.
        repeat split; try assumption; try discriminate; try lia.
        -- rewrite <- E3. apply GET_ext. intros x Hx. rewrite R1 by lia.
           subst m3. rewrite Eb. unfold_consts. rewrite PUT_outside by lia. reflexivity.
        -- intros _. rewrite <- E2f. apply GET_ext. intros x Hx. rewrite R1 by lia.
           subst m3. rewrite Eb, Hst2. unfold_consts.
           rewrite PUT_outside, PUTL_outside by lia. reflexivity.
        -- rewrite <- E4, Eb. apply GET_ext. intros x Hx. rewrite R1 by lia. reflexivity.
  - eapply lists_reframe; [exact K1|reflexivity|reflexivity| |tauto].
    intros q s Hq Hn x Hx.
    change (first_bp st2) with (first_bp st1) in Hq. unfold bs' in Hq.
    assert (Z2' : sizes_ok ((asize, true) :: l2))
      by (apply sizes_ok_cons; repeat split; (assumption || lia)).
    destruct (frees_position _ _ _ _ _ _ _ Z1 Z2' Hq) as [P|[P|P]]; fold bp in P.
    + rewrite Emf, R1 by lia. subst m3. rewrite Eb. unfold_consts.
      rewrite PUT_outside by lia. reflexivity.
    + rewrite Emf, R1 by lia. subst m3. rewrite Eb. unfold_consts.
      rewrite PUT_outside by lia. reflexivity.
    + destruct P as [P1 P2]. cbn [frees] in P2.
      replace (bp + (cs - asize) + asize) with (bp + cs) in P2 by lia.
      destruct (tail_link_clear _ _ _ _ _ Z2 P2 Hx) as [K2 K3].
      rewrite Emf, R2 by assumption. subst m3. rewrite Eb. unfold_consts.
      rewrite PUT_outside by lia. reflexivity.
  - intros q s Hq x Hx.
    destruct (allocs_position _ _ _ _ _ _ _ Z1 Z2 Hq) as [P|[P|P]]; fold bp in P.
    + apply Hlow. lia.
    + destruct P as (_ & _ & P). discriminate.
    + destruct P as [P1 P2].
      destruct (tail_payload_clear _ _ _ _ _ Z2 P2 Hx) as [K2 K3].
      rewrite Emf, R2 by assumption. apply Hm3. lia.
Qed.

(** The writes of [place] that hand out the head of the block leave the
    link word of every free block alone, that of [bp] included: whether
    [bp] is still on a list is up to [deletex]. *)
Lemma place_whole_links :
  let m1 := PUT (heap st1) (bp - 4) (PACK cs (b2z4 pa) 1) in
  let m2 := PUT m1 (FTRP m1 bp) (PACK cs (b2z4 pa) 1) in
  let st' := set_heap st1 (mark_next_prev_allocated m2 bp) in
  GET_ALLOC (heap st') (bp - 4) = 1 /\
  forall q s, In (q, s) (frees (first_bp st1) bs) ->
    forall x, q <= x < q + 8 -> heap st' x = heap st1 x.
Proof.
  intros m1 m2 st'.
  destruct (shape_cut _ _ _ _ _ Hsh1)
    as (S1 & S2 & S3 & S4 & C1 & C2 & C3 & C4 & C5 & C6 & C7 & Z1 & Z2).
  fold bp pa in S1, S2, S3, S4, C6.
  assert (E1 : GET m1 (bp - 4) = hdr cs pa true).
  { subst m1. apply (GET_PUT_hdr _ _ cs pa true); lia. }
  destruct (fields_of_GET _ _ _ _ _ E1 ltac:(lia) C2 C3) as (F1 & _ & _).
  assert (EF : FTRP m1 bp = bp + cs - 8).
  { unfold FTRP. unfold_consts. rewrite F1. reflexivity. }
  assert (Hm2 : forall x, x < bp - 4 \/ bp + cs - 4 <= x -> m2 x = heap st1 x).
  { intros x Hx. subst m2 m1. rewrite EF. rewrite !PUT_outside by lia. reflexivity. }
  assert (E2 : GET m2 (bp - 4) = hdr cs pa true).
  { subst m2. rewrite EF. rewrite GET_PUT_other by lia. exact E1. }
  destruct (fields_of_GET _ _ _ _ _ E2 ltac:(lia) C2 C3) as (G1 & _ & _).
  assert (T2 : tail_ok m2 (bp + cs) false l2 (mem_brk st1)).
  { eapply tail_ok_frame; [exact S4|]. intros x Hx. apply Hm2. lia. }
  destruct (retag_ok m2 (bp + cs) false true l2 (mem_brk st1) T2 ltac:(destruct Hsh1; unfold first_bp in *; lia))
    as (T3 & R1 & R2).
  assert (Emf : heap st' = retag m2 (bp + cs) 4).
  { subst st'. cbn [heap set_heap]. apply mark_next_retag; [exact G1|lia]. }
  change (b2z4 true) with 4 in T3, R1, R2.
  split.
  - assert (E3 : GET (heap st') (bp - 4) = hdr cs pa true).
    { rewrite Emf, <- E2. apply GET_ext. intros x Hx. apply R1. lia. }
    destruct (fields_of_GET _ _ _ _ _ E3 ltac:(lia) C2 C3) as (_ & _ & F). exact F.
  - intros q s Hq x Hx.
    destruct (frees_position _ _ _ _ _ _ _ Z1 Z2 Hq) as [P|[P|P]]; fold bp in P.
    + rewrite Emf, R1 by lia. apply Hm2. lia.
    + destruct P as (P & _ & _). rewrite Emf, R1 by lia.
      subst m2 m1. rewrite EF. rewrite !PUT_outside by lia. reflexivity.
    + destruct P as [P1 P2].
      destruct (tail_link_clear _ _ _ _ _ Z2 P2 Hx) as [K1 K2].
      rewrite Emf, R2 by assumption. apply Hm2. lia.
Qed.

Lemma place_head_links : 16 <= cs - asize ->
  let m1 := PUT (heap st1) (bp - 4) (PACK asize (b2z4 pa) 1) in
  let xxx := NEXT_BLKP m1 bp in
  let m2 := PUT m1 (HDRP xxx) (PACK (cs - asize) 4 0) in
  let m3 := PUT m2 (FTRP m2 xxx) (PACK (cs - asize) 4 0) in
  xxx = bp + asize /\
  GET_ALLOC m3 (bp - 4) = 1 /\
  forall q s, In (q, s) (frees (first_bp st1) bs) ->
    forall x, q <= x < q + 8 -> m3 x = heap st1 x.
Proof.
  intros Hsp m1 xxx m2 m3.
  destruct (shape_cut _ _ _ _ _ Hsh1)
    as (S1 & S2 & S3 & S4 & C1 & C2 & C3 & C4 & C5 & C6 & C7 & Z1 & Z2).
  fold bp pa in S1, S2, S3, S4, C6.
  assert (Hr8 : (cs - asize) mod 8 = 0).
  { rewrite Zminus_mod, C2, Ha8. reflexivity. }
  assert (E1 : GET m1 (bp - 4) = hdr asize pa true).
  { subst m1. apply (GET_PUT_hdr _ _ asize pa true); lia. }
  destruct (fields_of_GET _ _ _ _ _ E1 ltac:(lia) Ha8 ltac:(lia)) as (F1 & _ & _).
  assert (Ex : xxx = bp + asize).
  { subst xxx. unfold NEXT_BLKP. unfold_consts. rewrite F1. reflexivity. }
  assert (E2 : GET m2 (bp + asize - 4) = hdr (cs - asize) true false).
  { subst m2. rewrite Ex. unfold_consts. apply (GET_PUT_hdr _ _ (cs - asize) true false); lia. }
  destruct (fields_of_GET _ _ _ _ _ E2 ltac:(lia) Hr8 ltac:(lia)) as (G1 & _ & _).
  assert (EF : FTRP m2 xxx = bp + cs - 8).
  { unfold FTRP. rewrite Ex. unfold_consts. rewrite G1. lia. }
  assert (Hm3 : forall x, x < bp - 4 \/ bp <= x < bp + asize - 4 \/ bp + cs - 4 <= x ->
                          m3 x = heap st1 x).
  { intros x Hx. subst m3 m2 m1. rewrite EF, Ex. unfold_consts.
    rewrite !PUT_outside by lia. reflexivity. }
  split; [exact Ex|]. split.
  - assert (E3 : GET m3 (bp - 4) = hdr asize pa true).
    { subst m3 m2. rewrite EF, Ex. unfold_consts.
      rewrite !GET_PUT_other by lia. exact E1. }
    destruct (fields_of_GET _ _ _ _ _ E3 ltac:(lia) Ha8 ltac:(lia)) as (_ & _ & F). exact F.
  - intros q s Hq x Hx.
    destruct (frees_position _ _ _ _ _ _ _ Z1 Z2 Hq) as [P|[P|P]]; fold bp in P;
      apply Hm3; lia.
Qed.
End PlaceCases.


Lemma wrap64_small : forall z, 0 <= z < 18446744073709551616 -> wrap64 z = z.
Proof. intros. unfold wrap64. apply Z.mod_small. pow2. assumption. Qed.

Lemma place_frame_ok : forall st l1 cs l2 fl asize,
  shape st (l1 ++ (cs, false) :: l2) ->
  lists_ok st (l1 ++ (cs, false) :: l2) fl [] ->
  16 <= asize <= cs -> asize mod 8 = 0 -> visits asize (class_of cs) ->
  exists st' r bs' fl',
    place st (first_bp st + total l1) asize = Ok (st', r) /\
    shape st' bs' /\ lists_ok st' bs' fl' [] /\ same_arena st st' /\
    placed l1 cs l2 asize (first_bp st + total l1) bs' r /\
    kept (allocs (first_bp st) (l1 ++ (cs, false) :: l2)) (heap st) (heap st').
Proof.
  intros st l1 cs l2 fl asize Hsh Hl Has Ha8 Hv.
  set (bp := first_bp st + total l1). set (bs := l1 ++ (cs, false) :: l2) in *.
  assert (Hin : In (bp, cs) (frees (first_bp st) bs)).
  { apply in_frees_cut. right. left. auto. }
  destruct (deletex_from_ok st bs fl [] (shape_geom _ _ Hsh) Hl asize bp cs cascade
              Hin (fun H => H) cascade_nodup Hv) as (st1 & Hd & Hsh1 & Hl1 & Har1 & Hol).
  specialize (Hsh1 Hsh).
  apply (only_links_kept _ _ _ _ (shape_sizes _ _ Hsh)) in Hol.
  destruct (shape_cut _ _ _ _ _ Hsh)
    as (S1 & S2 & S3 & S4 & C1 & C2 & C3 & C4 & C5 & C6 & C7 & Z1 & Z2).
  fold bp in S2, S3, S4, C6.
  destruct (fields_of_GET _ _ _ _ _ S2 ltac:(lia) C2 C3) as (F1 & F2 & _).
  assert (Efb : first_bp st1 = first_bp st).
  { unfold first_bp. destruct Har1 as (E & _). rewrite E. reflexivity. }
  assert (Ebp : first_bp st1 + total l1 = bp) by (unfold bp; rewrite Efb; reflexivity).
  unfold place. unfold_consts. rewrite F1, F2.
  change (deletex st bp asize) with (deletex_from cascade st bp (GETL (heap st) bp) asize).
  rewrite Hd. cbn [bind].
  rewrite (wrap64_small (cs - asize)) by lia.
  change (2 * 8) with 16.
  destruct (Z.leb_spec 16 (cs - asize)) as [Hsp|Hsp].
  - destruct (Z.ltb_spec asize 120) as [H120|H120].
    + pose proof (place_head_ok st1 l1 cs l2 _ asize Hsh1 ltac:(rewrite Ebp; exact Hl1)
                    Has Ha8 Hsp) as K.
      cbv zeta in K. rewrite Ebp in K. unfold_consts. destruct K as (K1 & K2 & K3).
      rewrite Efb in K3.
      eexists _, bp, _, _. split; [reflexivity|].
      split; [exact K1|]. split; [exact K2|].
      split; [eapply same_arena_trans; [exact Har1|repeat split]|].
      split; [apply placed_head; assumption|].
      exact (kept_trans _ _ _ _ Hol K3).
    + pose proof (place_tail_ok st1 l1 cs l2 _ asize Hsh1 ltac:(rewrite Ebp; exact Hl1)
                    Has Ha8 Hsp) as K.
      cbv zeta in K. rewrite Ebp in K. unfold_consts. destruct K as (K0 & K1 & K2 & K3).
      rewrite Efb in K3.
      eexists _, _, _, _. split; [reflexivity|].
      split; [exact K1|]. split; [exact K2|].
      split; [eapply same_arena_trans; [exact Har1|repeat split]|].
      split; [rewrite K0; apply placed_tail; assumption|].
      exact (kept_trans _ _ _ _ Hol K3).
  - pose proof (place_whole_ok st1 l1 cs l2 _ asize Hsh1 ltac:(rewrite Ebp; exact Hl1)
                  Has) as K.
    cbv zeta in K. rewrite Ebp in K. unfold_consts. destruct K as (K1 & K2 & K3).
    rewrite Efb in K3.
    eexists _, bp, _, _. split; [reflexivity|].
    split; [exact K1|]. split; [exact K2|].
    split; [eapply same_arena_trans; [exact Har1|repeat split]|].
    split; [apply placed_whole; lia|].
    exact (kept_trans _ _ _ _ Hol K3).
Qed.

Lemma place_ok : forall st l1 cs l2 fl asize,
  shape st (l1 ++ (cs, false) :: l2) ->
  lists_ok st (l1 ++ (cs, false) :: l2) fl [] ->
  16 <= asize <= cs -> asize mod 8 = 0 -> visits asize (class_of cs) ->
  exists st' r bs' fl',
    place st (first_bp st + total l1) asize = Ok (st', r) /\
    shape st' bs' /\ lists_ok st' bs' fl' [] /\ same_arena st st' /\
    placed l1 cs l2 asize (first_bp st + total l1) bs' r.
Proof.
  intros st l1 cs l2 fl asize Hsh Hl Has Ha8 Hv.
  destruct (place_frame_ok st l1 cs l2 fl asize Hsh Hl Has Ha8 Hv)
    as (st' & r & bs' & fl' & A & B & C & D & E & _).
  exists st', r, bs', fl'. auto.
Qed.

(* ================================================================= *)
(** * [coalesce] *)

(** A tail that starts with an allocated block, or is only the epilogue. *)
Definition starts_allocated (bs : list block) : Prop :=
  match bs with
  | [] => True
  | (_, a) :: _ => a = true
  end.

Lemma tail_alloc_head : forall m nx pa lB e,
  tail_ok m nx pa lB e -> e - nx < 4294967296 -> starts_allocated lB ->
  GET_ALLOC m (nx - 4) = 1.
Proof.
  intros m nx pa lB e HT Hlt Hs.
  destruct (tail_head _ _ _ _ _ HT Hlt) as (s & a & Hh & Hr & H8 & Hc).
  destruct (fields_of_GET _ _ _ _ _ Hh ltac:(lia) H8 ltac:(lia)) as (_ & _ & F).
  rewrite F. destruct Hc as [(_ & _ & -> & _)|(r & -> & _)]; [reflexivity|].
  cbn in Hs. subst a. reflexivity.
Qed.

Lemma tail_free_head : forall m nx pa k lB e,
  tail_ok m nx pa ((k, false) :: lB) e -> e - nx < 4294967296 ->
  GET m (nx - 4) = hdr k pa false /\ GET m (nx + k - 8) = hdr k pa false /\
  GET_SIZE m (nx - 4) = k /\ GET_ALLOC m (nx - 4) = 0 /\ GET_SIZE m (nx + k - 8) = k /\
  16 <= k /\ k mod 8 = 0 /\ k < 4294967296 /\ sizes_ok lB /\ 0 <= total lB /\
  tail_ok m (nx + k) false lB e.
Proof.
  intros m nx pa k lB e (T1 & T2 & T3) Hlt.
  pose proof (seg_ok_sizes _ _ _ _ T1) as Hsz. apply sizes_ok_cons in Hsz.
  destruct Hsz as [[A1 A2] Zr]. pose proof (sizes_ok_total _ Zr) as Ht.
  cbn [total last_alloc] in *. destruct T1 as (_ & _ & C & D & E). specialize (D eq_refl).
  destruct (fields_of_GET _ _ _ _ _ C ltac:(lia) A2 ltac:(lia)) as (F1 & _ & F3).
  destruct (fields_of_GET _ _ _ _ _ D ltac:(lia) A2 ltac:(lia)) as (G1 & _ & _).
  repeat split; try assumption; try lia.
Qed.

Section CoalesceCases.
Variables (st : state) (lA lB : list block) (fl : nat -> list Z) (s : Z).
Hypothesis HA : last_alloc true lA = true.
Hypothesis HB : starts_allocated lB.

(** Case 1: both neighbours allocated. *)
Lemma coalesce_case1 :
  let bp := first_bp st + total lA in
  let bs := lA ++ (s, false) :: lB in
  shape st bs -> lists_ok st bs fl [bp] ->
  coalesce st bp = Ok (insertx st bp s, bp) /\
  shape (insertx st bp s) bs /\
  lists_ok (insertx st bp s) bs (fl_add fl (class_of s) bp) [] /\
  kept (allocs (first_bp st) bs) (heap st) (heap (insertx st bp s)).
Proof.
  intros bp bs Hsh Hl.
  destruct (shape_cut _ _ _ _ _ Hsh)
    as (S1 & S2 & S3 & S4 & C1 & C2 & C3 & C4 & C5 & C6 & C7 & Z1 & Z2).
  fold bp in S2, S3, S4, C6. rewrite HA in S2, S3.
  destruct (fields_of_GET _ _ _ _ _ S2 ltac:(lia) C2 C3) as (F1 & F2 & F3).
  assert (Hna : GET_ALLOC (heap st) (bp + s - 4) = 1).
  { eapply tail_alloc_head; [exact S4| |exact HB]. unfold first_bp in *. lia. }
  assert (Hin : In (bp, s) (frees (first_bp st) bs)).
  { apply in_frees_cut. right. left. auto. }
  split; [|split; [|split]].
  - unfold coalesce, NEXT_BLKP. unfold_consts. rewrite F1, F2, Hna. reflexivity.
  - apply shape_insertx; assumption.
  - destruct (insertx_ok _ _ _ _ (shape_geom _ _ Hsh) Hl _ _ Hin ltac:(now left))
      as (K & _). rewrite remove_single in K. exact K.
  - destruct (insertx_ok _ _ _ _ (shape_geom _ _ Hsh) Hl _ _ Hin ltac:(now left))
      as (_ & _ & K). exact (only_links_kept _ _ _ _ (shape_sizes _ _ Hsh) K).
Qed.

(** Case 2: the next block is free. *)
Lemma coalesce_case2 : forall k,
  let bp := first_bp st + total lA in
  let bs := lA ++ (s, false) :: (k, false) :: lB in
  let bs' := lA ++ (s + k, false) :: lB in
  shape st bs -> lists_ok st bs fl [bp] ->
  exists st' fl',
    coalesce st bp = Ok (st', bp) /\ shape st' bs' /\ lists_ok st' bs' fl' [] /\
    same_arena st st' /\ kept (allocs (first_bp st) bs) (heap st) (heap st') /\
    forall c, fl' c = fl_add (fl_del fl (class_of k) (bp + s)) (class_of (s + k)) bp c.
Proof.
  intros k bp bs bs' Hsh Hl.
  destruct (shape_cut _ _ _ _ _ Hsh)
    as (S1 & S2 & S3 & S4 & C1 & C2 & C3 & C4 & C5 & C6 & C7 & Z1 & Z2).
  fold bp in S2, S3, S4, C6. rewrite HA in S2, S3.
  destruct (fields_of_GET _ _ _ _ _ S2 ltac:(lia) C2 C3) as (F1 & F2 & F3).
  assert (Hspan : mem_brk st - (bp + s) < 4294967296) by (unfold bp, first_bp in *; lia).
  destruct (tail_free_head _ _ _ _ _ _ S4 Hspan)
    as (N1 & N2 & N3 & N4 & N5 & N6 & N7 & N8 & ZB & TB & N9).
  cbn [total] in C5, C6.
  set (nx := bp + s) in *.
  assert (Enx : nx = bp + s) by reflexivity.
  assert (Ebp : bp = mem_start st + 16 + total lA) by reflexivity.
  assert (Hinx : In (nx, k) (frees (first_bp st) bs)).
  { unfold bs. apply in_frees_cut. right. right. cbn [fst frees]. fold bp nx. now left. }
  destruct (deletex_from_ok st bs fl [bp] (shape_geom _ _ Hsh) Hl k nx k cascade Hinx
              ltac:(intros [E|[]]; unfold nx in E; lia) cascade_nodup (class_of_visits k))
    as (st1 & Hd & Hsh1 & Hl1 & Har1 & Hol).
  specialize (Hsh1 Hsh).
  apply (only_links_kept _ _ _ _ (shape_sizes _ _ Hsh)) in Hol.
  assert (Efb : first_bp st1 = first_bp st).
  { unfold first_bp. destruct Har1 as (E & _). rewrite E. reflexivity. }
  destruct (shape_cut _ _ _ _ _ Hsh1)
    as (S1' & S2' & S3' & S4' & _). rewrite Efb in S1', S2', S3', S4'.
  fold bp in S2', S3', S4'. rewrite HA in S2', S3'.
  destruct Har1 as (A1 & A2 & A3 & A4). rewrite A2 in S4'.
  destruct (tail_free_head _ _ _ _ _ _ S4' Hspan)
    as (N1' & N2' & _ & _ & _ & _ & _ & _ & _ & _ & N9'). fold nx in N1', N2', N9'.
  set (m1 := PUT (heap st1) (bp - 4) (PACK (s + k) 4 0)).
  assert (Hk8 : (s + k) mod 8 = 0) by (rewrite Z.add_mod, C2, N7 by lia; reflexivity).
  assert (E1 : GET m1 (bp - 4) = hdr (s + k) true false).
  { subst m1. apply (GET_PUT_hdr _ _ (s + k) true false); lia. }
  destruct (fields_of_GET _ _ _ _ _ E1 ltac:(lia) Hk8 ltac:(lia)) as (G1 & _ & _).
  assert (EF : FTRP m1 bp = nx + k - 8).
  { unfold FTRP. unfold_consts. rewrite G1. unfold nx. lia. }
  set (m2 := PUT m1 (nx + k - 8) (PACK (s + k) 4 0)).
  assert (Hm2 : forall x, x < bp - 4 \/ bp <= x < nx + k - 8 \/ nx + k - 4 <= x ->
                          m2 x = heap st1 x).
  { intros x Hx. subst m2 m1. rewrite !PUT_outside by lia. reflexivity. }
  assert (Hco : coalesce st bp = Ok (insertx (set_heap st1 m2) bp (s + k), bp)).
  { unfold coalesce, NEXT_BLKP. unfold_consts. rewrite F1, F2. fold nx. rewrite N4, N3.
    cbn [Z.eqb andb negb b2z4].
    change (deletex st nx k) with (deletex_from cascade st nx (GETL (heap st) nx) k).
    rewrite Hd. cbn [bind]. rewrite (wrap64_small (s + k)) by lia.
    fold m1. rewrite EF. fold m2. reflexivity. }
  assert (Hsh2 : shape (set_heap st1 m2) bs').
  { eapply shape_of_tail; [exact Hsh1|repeat split| |].
    - rewrite A1. rewrite <- (sh_pro _ _ Hsh1), A1. apply GET_ext. intros x Hx. apply Hm2.
      unfold bp, first_bp. lia.
    - rewrite Efb, A2. apply tail_ok_app. split.
      + eapply seg_ok_ext; [exact S1'|]. intros x Hx. apply Hm2. fold bp in Hx. lia.
      + fold bp. rewrite HA. unfold tail_ok.
        cbn [seg_ok total last_alloc heap set_heap].
        replace (bp + (s + k)) with (nx + k) by (unfold nx; lia).
        destruct N9' as (T1 & T2 & T3).
        repeat split; try assumption; try lia.
        * subst m2. rewrite GET_PUT_other by lia. exact E1.
        * intros _. subst m2. apply (GET_PUT_hdr _ _ (s + k) true false); lia.
        * eapply seg_ok_ext; [exact T1|]. intros x Hx. apply Hm2. lia.
        * rewrite <- T3. apply GET_ext. intros x Hx. apply Hm2. lia. }
  assert (Hl2 : lists_ok (set_heap st1 m2) bs' (fl_del fl (class_of k) nx) [bp]).
  { eapply lists_reframe; [exact Hl1|reflexivity|reflexivity| |].
    - intros q s0 Hq Hn x Hx. cbn [heap set_heap]. rewrite Efb in Hq.
      assert (Z2' : sizes_ok ((k, false) :: lB))
        by (apply sizes_ok_cons; repeat split; (assumption || lia)).
      destruct (frees_position _ _ _ _ _ _ _ Z1 Z2' Hq) as [P|[P|P]]; fold bp in P.
      + apply Hm2. lia.
      + exfalso. apply Hn. right. left. symmetry. tauto.
      + destruct P as [P1 P2]. fold nx in P1, P2. cbn [frees] in P2.
        destruct P2 as [E|P2].
        * exfalso. apply Hn. left. congruence.
        * apply frees_range in P2; [|assumption]. apply Hm2. lia.
    - rewrite Efb.
      apply (frees_mid_iff (first_bp st) lA [(s, false); (k, false)]
               [(s + k, false)] lB [nx; bp] [bp]); try assumption.
      + repeat constructor; cbn; lia.
      + repeat constructor; cbn; lia.
      + cbn [total]. lia.
      + intros q [<-|[<-|[]]]; fold bp; cbn [total]; unfold nx; lia.
      + intros q [<-|[]]. fold bp. cbn [total]. lia.
      + intros q s0. fold bp. cbn [frees In]. fold nx. intuition congruence. }
  assert (Hin : In (bp, s + k) (frees (first_bp (set_heap st1 m2)) bs')).
  { change (first_bp (set_heap st1 m2)) with (first_bp st1). rewrite Efb. unfold bs'.
    apply in_frees_cut. right. left. cbn [fst snd]. fold bp. auto. }
  destruct (insertx_ok _ _ _ _ (shape_geom _ _ Hsh2) Hl2 _ _ Hin ltac:(now left))
    as (K & _). rewrite remove_single in K.
  eexists _, _. split; [exact Hco|]. split; [apply shape_insertx; assumption|].
  split; [exact K|]. split; [repeat split; assumption|].
  split; [|intros c; reflexivity].
  apply (kept_trans _ _ _ _ Hol). intros q s0 Hq x Hx.
  unfold insertx. cbn [heap set_heap set_lhead].
  destruct (allocs_around (first_bp st) lA [(s, false); (k, false)] lB q s0 Z1 ZB
              eq_refl Hq) as [P|P]; fold bp in P; cbn [total] in P;
    (rewrite PUTL_outside by lia; apply Hm2; lia).
Qed.
(** Case 3: the previous block is free. *)
Lemma coalesce_case3 : forall k,
  let pv := first_bp st + total lA in
  let bp := pv + k in
  let bs := lA ++ (k, false) :: (s, false) :: lB in
  let bs' := lA ++ (s + k, false) :: lB in
  shape st bs -> lists_ok st bs fl [bp] ->
  exists st' fl',
    coalesce st bp = Ok (st', pv) /\ shape st' bs' /\ lists_ok st' bs' fl' [] /\
    same_arena st st' /\ kept (allocs (first_bp st) bs) (heap st) (heap st') /\
    forall c, fl' c = fl_add (fl_del fl (class_of k) pv) (class_of (s + k)) pv c.
Proof.
  intros k pv bp bs bs' Hsh Hl.
  destruct (shape_cut _ _ _ _ _ Hsh)
    as (_ & _ & _ & S4 & C1 & C2 & C3 & C4 & C5 & C6 & C7 & Z1 & Z2).
  fold pv in C6. apply sizes_ok_cons in Z2. destruct Z2 as [[D1 D2] ZB].
  cbn [total] in C5, C6. pose proof (sizes_ok_total _ ZB) as TB.
  assert (Ebp : bp = pv + k) by reflexivity.
  assert (Epv : pv = mem_start st + 16 + total lA) by reflexivity.
  assert (Reads : forall stx, shape stx bs -> same_arena st stx ->
    seg_ok (heap stx) (first_bp st) true lA /\
    GET (heap stx) (pv - 4) = hdr k true false /\
    GET (heap stx) (bp - 8) = hdr k true false /\
    GET (heap stx) (bp - 4) = hdr s false false /\
    tail_ok (heap stx) (bp + s) false lB (mem_brk st)).
  { intros stx Hx (A1 & A2 & A3 & A4).
    assert (Efx : first_bp stx = first_bp st) by (unfold first_bp; rewrite A1; reflexivity).
    destruct (shape_cut _ _ _ _ _ Hx) as (S1 & S2 & S3 & S4x & _).
    rewrite Efx, ?A2 in *. fold pv in S2, S3, S4x. rewrite HA in S2, S3. fold bp in S4x.
    destruct (tail_free_head _ _ _ _ _ _ S4x ltac:(lia))
      as (N1 & _ & _ & _ & _ & _ & _ & _ & _ & _ & N9).
    split; [exact S1|]. split; [exact S2|]. split; [|split; [exact N1|exact N9]].
    replace (bp - 8) with (pv + k - 8) by (unfold bp; lia). auto. }
  assert (Hk8 : (s + k) mod 8 = 0) by (rewrite Z.add_mod, C2, D2 by lia; reflexivity).
  destruct (Reads st Hsh (same_arena_refl st)) as (R1 & R2 & R3 & R4 & R5).
  destruct (fields_of_GET _ _ _ _ _ R2 ltac:(lia) C2 C3) as (F1 & _ & _).
  destruct (fields_of_GET _ _ _ _ _ R3 ltac:(lia) C2 C3) as (F2 & _ & _).
  destruct (fields_of_GET _ _ _ _ _ R4 ltac:(lia) D2 ltac:(lia)) as (F3 & F4 & _).
  assert (Hna : GET_ALLOC (heap st) (bp + s - 4) = 1).
  { eapply tail_alloc_head; [exact R5|lia|exact HB]. }
  assert (Hinp : In (pv, k) (frees (first_bp st) bs)).
  { unfold bs. apply in_frees_cut. right. left. cbn [fst snd]. fold pv. auto. }
  destruct (deletex_from_ok st bs fl [bp] (shape_geom _ _ Hsh) Hl k pv k cascade Hinp
              ltac:(intros [E|[]]; lia) cascade_nodup (class_of_visits k))
    as (st1 & Hd & Hsh1 & Hl1 & Har1 & Hol).
  specialize (Hsh1 Hsh).
  apply (only_links_kept _ _ _ _ (shape_sizes _ _ Hsh)) in Hol.
  destruct (Reads st1 Hsh1 Har1) as (R1' & R2' & R3' & R4' & R5').
  destruct (fields_of_GET _ _ _ _ _ R3' ltac:(lia) C2 C3) as (F2' & _ & _).
  destruct (fields_of_GET _ _ _ _ _ R4' ltac:(lia) D2 ltac:(lia)) as (F3' & _ & _).
  assert (Efb : first_bp st1 = first_bp st).
  { unfold first_bp. destruct Har1 as (E & _). rewrite E. reflexivity. }
  destruct Har1 as (A1 & A2 & A3 & A4).
  set (m1 := PUT (heap st1) (bp + s - 8) (PACK (s + k) 4 0)).
  set (m2 := PUT m1 (pv - 4) (PACK (s + k) 4 0)).
  assert (G1 : GET_SIZE m1 (bp - 8) = k).
  { unfold GET_SIZE in *. subst m1. rewrite GET_PUT_other by lia. exact F2'. }
  assert (G2 : GET_SIZE m2 (bp - 8) = k).
  { unfold GET_SIZE in *. subst m2. rewrite GET_PUT_other by lia. exact G1. }
  assert (Hm2 : forall x, x < pv - 4 \/ pv <= x < bp + s - 8 \/ bp + s - 4 <= x ->
                          m2 x = heap st1 x).
  { intros x Hx. subst m2 m1. rewrite !PUT_outside by lia. reflexivity. }
  assert (Hco : coalesce st bp = Ok (insertx (set_heap st1 m2) pv (s + k), pv)).
  { unfold coalesce, NEXT_BLKP, PREV_BLKP, FTRP. unfold_consts.
    rewrite F3, F4, Hna, F2. cbn [Z.eqb andb negb b2z4].
    replace (bp - k) with pv by lia. rewrite F1.
    change (deletex st pv k) with (deletex_from cascade st pv (GETL (heap st) pv) k).
    rewrite Hd. cbn [bind]. rewrite (wrap64_small (s + k)) by lia.
    rewrite F3'. fold m1. rewrite G1. replace (bp - k) with pv by lia.
    fold m2. rewrite G2. replace (bp - k) with pv by lia. reflexivity. }
  assert (Hsh2 : shape (set_heap st1 m2) bs').
  { eapply shape_of_tail; [exact Hsh1|repeat split| |].
    - rewrite A1. rewrite <- (sh_pro _ _ Hsh1), A1. apply GET_ext. intros x Hx. apply Hm2. lia.
    - rewrite Efb, A2. apply tail_ok_app. split.
      + eapply seg_ok_ext; [exact R1'|]. intros x Hx. apply Hm2. fold pv in Hx. lia.
      + fold pv. rewrite HA. unfold tail_ok.
        cbn [seg_ok total last_alloc heap set_heap].
        replace (pv + (s + k)) with (bp + s) by lia.
        destruct R5' as (T1 & T2 & T3).
        repeat split; try assumption; try lia.
        * subst m2. apply (GET_PUT_hdr _ _ (s + k) true false); lia.
        * intros _. subst m2 m1. rewrite GET_PUT_other by lia.
          apply (GET_PUT_hdr _ _ (s + k) true false); lia.
        * eapply seg_ok_ext; [exact T1|]. intros x Hx. apply Hm2. lia.
        * rewrite <- T3. apply GET_ext. intros x Hx. apply Hm2. lia. }
  assert (Hl2 : lists_ok (set_heap st1 m2) bs' (fl_del fl (class_of k) pv) [pv]).
  { eapply lists_reframe; [exact Hl1|reflexivity|reflexivity| |].
    - intros q s0 Hq Hn x Hx. cbn [heap set_heap]. rewrite Efb in Hq.
      assert (Z2' : sizes_ok ((s, false) :: lB))
        by (apply sizes_ok_cons; repeat split; (assumption || lia)).
      destruct (frees_position _ _ _ _ _ _ _ Z1 Z2' Hq) as [P|[P|P]]; fold pv in P.
      + apply Hm2. lia.
      + exfalso. apply Hn. left. symmetry. tauto.
      + destruct P as [P1 P2]. fold bp in P1, P2. cbn [frees] in P2.
        destruct P2 as [E|P2].
        * exfalso. apply Hn. right. left. congruence.
        * apply frees_range in P2; [|assumption]. apply Hm2. lia.
    - rewrite Efb.
      apply (frees_mid_iff (first_bp st) lA [(k, false); (s, false)]
               [(s + k, false)] lB [pv; bp] [pv]); try assumption.
      + repeat constructor; cbn; lia.
      + repeat constructor; cbn; lia.
      + cbn [total]. lia.
      + intros q [<-|[<-|[]]]; fold pv; cbn [total]; lia.
      + intros q [<-|[]]. fold pv. cbn [total]. lia.
      + intros q s0. fold pv. cbn [frees In]. fold bp. intuition congruence. }
  assert (Hin : In (pv, s + k) (frees (first_bp (set_heap st1 m2)) bs')).
  { change (first_bp (set_heap st1 m2)) with (first_bp st1). rewrite Efb. unfold bs'.
    apply in_frees_cut. right. left. cbn [fst snd]. fold pv. auto. }
  destruct (insertx_ok _ _ _ _ (shape_geom _ _ Hsh2) Hl2 _ _ Hin ltac:(now left))
    as (K & _). rewrite remove_single in K.
  eexists _, _. split; [exact Hco|]. split; [apply shape_insertx; assumption|].
  split; [exact K|]. split; [repeat split; assumption|].
  split; [|intros c; reflexivity].
  apply (kept_trans _ _ _ _ Hol). intros q s0 Hq x Hx.
  unfold insertx. cbn [heap set_heap set_lhead].
  destruct (allocs_around (first_bp st) lA [(k, false); (s, false)] lB q s0 Z1 ZB
              eq_refl Hq) as [P|P]; fold pv in P; cbn [total] in P;
    (rewrite PUTL_outside by lia; apply Hm2; lia).
Qed.
(** Case 4: both neighbours are free. *)
Lemma coalesce_case4 : forall t1 t2,
  let pv := first_bp st + total lA in
  let bp := pv + t1 in
  let bs := lA ++ (t1, false) :: (s, false) :: (t2, false) :: lB in
  let bs' := lA ++ (s + (t1 + t2), false) :: lB in
  shape st bs -> lists_ok st bs fl [bp] ->
  exists st' fl',
    coalesce st bp = Ok (st', pv) /\ shape st' bs' /\ lists_ok st' bs' fl' [] /\
    same_arena st st' /\ kept (allocs (first_bp st) bs) (heap st) (heap st') /\
    forall c, fl' c = fl_add (fl_del (fl_del fl (class_of t1) pv) (class_of t2) (bp + s))
                        (class_of (s + (t1 + t2))) pv c.
Proof.
  intros t1 t2 pv bp bs bs' Hsh Hl.
  destruct (shape_cut _ _ _ _ _ Hsh)
    as (_ & _ & _ & S4 & C1 & C2 & C3 & C4 & C5 & C6 & C7 & Z1 & Z2).
  fold pv in C6. apply sizes_ok_cons in Z2. destruct Z2 as [[D1 D2] Z3].
  apply sizes_ok_cons in Z3. destruct Z3 as [[D3 D4] ZB].
  cbn [total] in C5, C6. pose proof (sizes_ok_total _ ZB) as TB.
  set (nx := bp + s).
  assert (Ebp : bp = pv + t1) by reflexivity.
  assert (Enx : nx = bp + s) by reflexivity.
  assert (Epv : pv = mem_start st + 16 + total lA) by reflexivity.
  assert (Reads : forall stx, shape stx bs -> same_arena st stx ->
    seg_ok (heap stx) (first_bp st) true lA /\
    GET (heap stx) (pv - 4) = hdr t1 true false /\
    GET (heap stx) (bp - 8) = hdr t1 true false /\
    GET (heap stx) (bp - 4) = hdr s false false /\
    GET (heap stx) (nx - 4) = hdr t2 false false /\
    GET (heap stx) (nx + t2 - 8) = hdr t2 false false /\
    tail_ok (heap stx) (nx + t2) false lB (mem_brk st)).
  { intros stx Hx (A1 & A2 & A3 & A4).
    assert (Efx : first_bp stx = first_bp st) by (unfold first_bp; rewrite A1; reflexivity).
    destruct (shape_cut _ _ _ _ _ Hx) as (S1 & S2 & S3 & S4x & _).
    rewrite Efx, ?A2 in *. fold pv in S2, S3, S4x. rewrite HA in S2, S3. fold bp in S4x.
    destruct (tail_free_head _ _ _ _ _ _ S4x ltac:(lia))
      as (N1 & _ & _ & _ & _ & _ & _ & _ & _ & _ & N9). fold nx in N9.
    destruct (tail_free_head _ _ _ _ _ _ N9 ltac:(lia))
      as (M1 & M2 & _ & _ & _ & _ & _ & _ & _ & _ & M9).
    split; [exact S1|]. split; [exact S2|]. split; [|auto].
    replace (bp - 8) with (pv + t1 - 8) by (unfold bp; lia). auto. }
  assert (Hk8 : (s + (t1 + t2)) mod 8 = 0).
  { rewrite Z.add_mod, (Z.add_mod t1 t2), C2, D2, D4 by lia. reflexivity. }
  destruct (Reads st Hsh (same_arena_refl st)) as (R1 & R2 & R3 & R4 & R5 & R6 & R7).
  destruct (fields_of_GET _ _ _ _ _ R2 ltac:(lia) C2 C3) as (F1 & _ & _).
  destruct (fields_of_GET _ _ _ _ _ R3 ltac:(lia) C2 C3) as (F2 & _ & _).
  destruct (fields_of_GET _ _ _ _ _ R4 ltac:(lia) D2 ltac:(lia)) as (F3 & F4 & _).
  destruct (fields_of_GET _ _ _ _ _ R5 ltac:(lia) D4 ltac:(lia)) as (F5 & _ & F6).
  destruct (fields_of_GET _ _ _ _ _ R6 ltac:(lia) D4 ltac:(lia)) as (F7 & _ & _).
  assert (Hinp : In (pv, t1) (frees (first_bp st) bs)).
  { unfold bs. apply in_frees_cut. right. left. cbn [fst snd]. fold pv. auto. }
  destruct (deletex_from_ok st bs fl [bp] (shape_geom _ _ Hsh) Hl t1 pv t1 cascade Hinp
              ltac:(intros [E|[]]; lia) cascade_nodup (class_of_visits t1))
    as (st1 & Hd & Hsh1 & Hl1 & Har1 & Hol).
  specialize (Hsh1 Hsh).
  apply (only_links_kept _ _ _ _ (shape_sizes _ _ Hsh)) in Hol.
  destruct (Reads st1 Hsh1 Har1) as (_ & _ & _ & R4' & _).
  destruct (fields_of_GET _ _ _ _ _ R4' ltac:(lia) D2 ltac:(lia)) as (F3' & _ & _).
  assert (Efb1 : first_bp st1 = first_bp st).
  { unfold first_bp. destruct Har1 as (E & _). rewrite E. reflexivity. }
  assert (Hinn : In (nx, t2) (frees (first_bp st1) bs)).
  { rewrite Efb1. unfold bs.
    change (lA ++ (t1, false) :: (s, false) :: (t2, false) :: lB)
      with (lA ++ (t1, false) :: ((s, false) :: (t2, false) :: lB)).
    apply in_frees_cut. right. right. cbn [fst frees]. fold pv bp nx. right. now left. }
  destruct (deletex_from_ok st1 bs _ [pv; bp] (shape_geom _ _ Hsh1) Hl1 t2 nx t2 cascade
              Hinn ltac:(intros [E|[E|[]]]; lia) cascade_nodup (class_of_visits t2))
    as (st2 & Hd2 & Hsh2 & Hl2 & Har2 & Hol2).
  specialize (Hsh2 Hsh1). rewrite Efb1 in Hol2.
  apply (only_links_kept _ _ _ _ (shape_sizes _ _ Hsh)) in Hol2.
  pose proof (same_arena_trans _ _ _ Har1 Har2) as Har.
  destruct (Reads st2 Hsh2 Har) as (Q1 & Q2 & Q3 & Q4 & Q5 & Q6 & Q7).
  destruct (fields_of_GET _ _ _ _ _ Q3 ltac:(lia) C2 C3) as (H2 & _ & _).
  destruct (fields_of_GET _ _ _ _ _ Q4 ltac:(lia) D2 ltac:(lia)) as (H3 & _ & _).
  destruct (fields_of_GET _ _ _ _ _ Q5 ltac:(lia) D4 ltac:(lia)) as (H5 & _ & _).
  assert (Efb : first_bp st2 = first_bp st).
  { unfold first_bp. destruct Har as (E & _). rewrite E. reflexivity. }
  destruct Har as (A1 & A2 & A3 & A4).
  set (sz := s + (t1 + t2)) in *.
  assert (Esz : sz = s + (t1 + t2)) by reflexivity.
  set (m1 := PUT (heap st2) (pv - 4) (PACK sz 4 0)).
  set (m2 := PUT m1 (nx + t2 - 8) (PACK sz 4 0)).
  assert (G1 : GET_SIZE m1 (bp - 4) = s).
  { unfold GET_SIZE in *. subst m1. rewrite GET_PUT_other by lia. exact H3. }
  assert (G2 : GET_SIZE m1 (nx - 4) = t2).
  { unfold GET_SIZE in *. subst m1. rewrite GET_PUT_other by lia. exact H5. }
  assert (G3 : GET_SIZE m2 (bp - 8) = t1).
  { unfold GET_SIZE in *. subst m2 m1. rewrite !GET_PUT_other by lia. exact H2. }
  assert (Hm2 : forall x, x < pv - 4 \/ pv <= x < nx + t2 - 8 \/ nx + t2 - 4 <= x ->
                          m2 x = heap st2 x).
  { intros x Hx. subst m2 m1. rewrite !PUT_outside by lia. reflexivity. }
  assert (Hco : coalesce st bp = Ok (insertx (set_heap st2 m2) pv sz, pv)).
  { unfold coalesce, NEXT_BLKP, PREV_BLKP, FTRP. unfold_consts.
    rewrite F3, F4. fold nx. rewrite F6, F2, F5, F7. cbn [Z.eqb andb negb b2z4].
    replace (bp - t1) with pv by lia. rewrite F1.
    change (deletex st pv t1) with (deletex_from cascade st pv (GETL (heap st) pv) t1).
    rewrite Hd. cbn [bind]. rewrite F3'. fold nx.
    change (deletex st1 nx t2) with (deletex_from cascade st1 nx (GETL (heap st1) nx) t2).
    rewrite Hd2. cbn [bind]. rewrite (wrap64_small (s + (t1 + t2))) by lia. fold sz.
    rewrite H2. replace (bp - t1) with pv by lia. fold m1.
    rewrite G1. fold nx. rewrite G2. fold m2. rewrite G3.
    replace (bp - t1) with pv by lia. reflexivity. }
  assert (HshF : shape (set_heap st2 m2) bs').
  { eapply shape_of_tail; [exact Hsh2|repeat split| |].
    - rewrite A1. rewrite <- (sh_pro _ _ Hsh2), A1. apply GET_ext. intros x Hx. apply Hm2. lia.
    - rewrite Efb, A2. apply tail_ok_app. split.
      + eapply seg_ok_ext; [exact Q1|]. intros x Hx. apply Hm2. fold pv in Hx. lia.
      + fold pv. rewrite HA. unfold tail_ok.
        cbn [seg_ok total last_alloc heap set_heap]. fold sz.
        replace (pv + sz) with (nx + t2) by lia.
        destruct Q7 as (T1 & T2 & T3).
        repeat split; try assumption; try lia.
        * subst m2 m1. rewrite GET_PUT_other by lia.
          apply (GET_PUT_hdr _ _ sz true false); lia.
        * intros _. subst m2. apply (GET_PUT_hdr _ _ sz true false); lia.
        * eapply seg_ok_ext; [exact T1|]. intros x Hx. apply Hm2. lia.
        * rewrite <- T3. apply GET_ext. intros x Hx. apply Hm2. lia. }
  assert (HlF : lists_ok (set_heap st2 m2) bs'
                  (fl_del (fl_del fl (class_of t1) pv) (class_of t2) nx) [pv]).
  { eapply lists_reframe; [exact Hl2|reflexivity|reflexivity| |].
    - intros q s0 Hq Hn x Hx. cbn [heap set_heap]. rewrite Efb in Hq.
      assert (Z2' : sizes_ok ((s, false) :: (t2, false) :: lB)).
      { apply sizes_ok_cons. split; [split; assumption|].
        apply sizes_ok_cons. split; [split; assumption|assumption]. }
      destruct (frees_position _ _ _ _ _ _ _ Z1 Z2' Hq) as [P|[P|P]]; fold pv in P.
      + apply Hm2. lia.
      + exfalso. apply Hn. right. left. symmetry. tauto.
      + destruct P as [P1 P2]. fold bp in P1, P2. cbn [frees] in P2.
        destruct P2 as [E|[E|P2]].
        * exfalso. apply Hn. right. right. left. congruence.
        * exfalso. apply Hn. left. fold nx in E. congruence.
        * apply frees_range in P2; [|assumption]. fold nx in P2. apply Hm2. lia.
    - rewrite Efb.
      apply (frees_mid_iff (first_bp st) lA [(t1, false); (s, false); (t2, false)]
               [(sz, false)] lB [nx; pv; bp] [pv]); try assumption.
      + repeat constructor; cbn; lia.
      + repeat constructor; cbn; lia.
      + cbn [total]. lia.
      + intros q [<-|[<-|[<-|[]]]]; fold pv; cbn [total]; lia.
      + intros q [<-|[]]. fold pv. cbn [total]. lia.
      + intros q s0. fold pv. cbn [frees In]. fold bp nx. intuition congruence. }
  assert (Hin : In (pv, sz) (frees (first_bp (set_heap st2 m2)) bs')).
  { change (first_bp (set_heap st2 m2)) with (first_bp st2). rewrite Efb. unfold bs'.
    apply in_frees_cut. right. left. cbn [fst snd]. fold pv. auto. }
  destruct (insertx_ok _ _ _ _ (shape_geom _ _ HshF) HlF _ _ Hin ltac:(now left))
    as (K & _). rewrite remove_single in K.
  eexists _, _. split; [exact Hco|]. split; [apply shape_insertx; assumption|].
  split; [exact K|]. split; [repeat split; assumption|].
  split; [|intros c; reflexivity].
  apply (kept_trans _ _ _ _ (kept_trans _ _ _ _ Hol Hol2)). intros q s0 Hq x Hx.
  unfold insertx. cbn [heap set_heap set_lhead].
  destruct (allocs_around (first_bp st) lA [(t1, false); (s, false); (t2, false)] lB q s0
              Z1 ZB eq_refl Hq) as [P|P]; fold pv in P; cbn [total] in P;
    (rewrite PUTL_outside by lia; apply Hm2; lia).
Qed.
End CoalesceCases.



(* ================================================================= *)
(** * Adjacency bookkeeping *)

Lemma adj_ok_cons_inv : forall b l, adj_ok (b :: l) -> adj_ok l.
Proof. intros b l H. exact (adj_ok_app_r [b] l H). Qed.

Lemma adj_around_free : forall l1 s l2, adj_ok (l1 ++ (s, false) :: l2) ->
  adj_ok l1 /\ adj_ok l2 /\ last_alloc true l1 = true /\ starts_allocated l2.
Proof.
  intros l1 s l2 H. pose proof (adj_ok_app_l _ _ H) as H1.
  pose proof (adj_ok_app_r _ _ H) as H2. pose proof (adj_ok_cons_inv _ _ H2) as H3.
  repeat split; try assumption.
  - destruct l1 as [|b r]; [reflexivity|].
    destruct (adj_ok_seam (b :: r) ((s, false) :: l2) H ltac:(discriminate)) as [E|E];
      [assumption|discriminate].
  - destruct l2 as [|[s2 a2] r]; [exact I|]. cbn in H2 |- *. destruct H2 as [[E|E] _];
      [discriminate|assumption].
Qed.

Lemma adj_around_alloc : forall l1 s l2, adj_ok (l1 ++ (s, true) :: l2) ->
  adj_ok l1 /\ adj_ok l2.
Proof.
  intros l1 s l2 H. split; [exact (adj_ok_app_l _ _ H)|].
  exact (adj_ok_cons_inv _ _ (adj_ok_app_r _ _ H)).
Qed.

Lemma adj_ok_alloc_mid : forall l1 s l2, adj_ok l1 -> adj_ok l2 ->
  adj_ok (l1 ++ (s, true) :: l2).
Proof.
  intros l1 s l2 H1 H2. apply adj_ok_join; [assumption| |right; reflexivity].
  exact (adj_ok_join [(s, true)] l2 I H2 (or_introl eq_refl)).
Qed.

Lemma adj_ok_free_mid : forall l1 s l2, adj_ok l1 -> adj_ok l2 ->
  last_alloc true l1 = true -> starts_allocated l2 ->
  adj_ok (l1 ++ (s, false) :: l2).
Proof.
  intros l1 s l2 H1 H2 HA HB. apply adj_ok_join; [assumption| |left; assumption].
  apply (adj_ok_join [(s, false)] l2 I H2). right. destruct l2 as [|[? ?] ?]; exact HB.
Qed.

(** The neighbours of a block about to be coalesced. *)
Lemma prev_cases : forall l1, adj_ok l1 ->
  last_alloc true l1 = true \/
  exists lA k, l1 = lA ++ [(k, false)] /\ last_alloc true lA = true /\ adj_ok lA.
Proof.
  intros l1 H. destruct (last_alloc true l1) eqn:E; [left; reflexivity|right].
  destruct (last_alloc_free_split _ _ E eq_refl) as (lA & k & ->).
  exists lA, k. split; [reflexivity|]. split; [|exact (adj_ok_app_l _ _ H)].
  destruct lA as [|b r]; [reflexivity|].
  destruct (adj_ok_seam (b :: r) [(k, false)] H ltac:(discriminate)) as [G|G];
    [assumption|discriminate].
Qed.

Lemma next_cases : forall l2, adj_ok l2 ->
  starts_allocated l2 \/
  exists k lB, l2 = (k, false) :: lB /\ starts_allocated lB /\ adj_ok lB.
Proof.
  intros [|[k a] lB] H; [left; exact I|]. destruct a; [left; reflexivity|right].
  exists k, lB. split; [reflexivity|]. split; [|exact (adj_ok_cons_inv _ _ H)].
  destruct lB as [|[s2 a2] r]; [exact I|]. cbn in H |- *. destruct H as [[E|E] _];
    [discriminate|assumption].
Qed.

Lemma allocs_free_mid : forall p lA mid mid' lB,
  allocs (p + total lA) mid = [] -> allocs (p + total lA) mid' = [] ->
  total mid = total mid' ->
  allocs p (lA ++ mid' ++ lB) = allocs p (lA ++ mid ++ lB).
Proof.
  intros p lA mid mid' lB E1 E2 Et. rewrite !allocs_app, E1, E2, Et. reflexivity.
Qed.

(** [coalesce] on a block that has just been marked free. *)
Lemma coalesce_frame_ok : forall st l1 s l2 fl,
  let bp := first_bp st + total l1 in
  let bs := l1 ++ (s, false) :: l2 in
  shape st bs -> lists_ok st bs fl [bp] -> adj_ok (l1 ++ (s, true) :: l2) ->
  exists st' r bs' fl',
    coalesce st bp = Ok (st', r) /\
    shape st' bs' /\ lists_ok st' bs' fl' [] /\ adj_ok bs' /\ same_arena st st' /\
    kept (allocs (first_bp st) bs) (heap st) (heap st') /\
    allocs (first_bp st) bs' = allocs (first_bp st) bs /\
    exists lA s' lB, bs' = lA ++ (s', false) :: lB /\ r = first_bp st + total lA /\ s <= s'.
Proof.
  intros st l1 s l2 fl bp bs Hsh Hl Hadj.
  destruct (adj_around_alloc _ _ _ Hadj) as [Ha1 Ha2].
  pose proof (shape_sizes _ _ Hsh) as Hsz.
  destruct (prev_cases l1 Ha1) as [HA|(lA & k & E1 & HA & HaA)];
    destruct (next_cases l2 Ha2) as [HB|(k2 & lB & E2 & HB & HaB)].
  - (* case 1 *)
    destruct (coalesce_case1 st l1 l2 fl s HA HB Hsh Hl) as (K1 & K2 & K3 & K5).
    eexists _, _, bs, _. split; [exact K1|]. split; [exact K2|]. split; [exact K3|].
    split; [apply adj_ok_free_mid; assumption|]. split; [repeat split|].
    split; [exact K5|].
    split; [reflexivity|]. exists l1, s, l2. repeat split. lia.
  - (* case 2 *)
    subst l2.
    destruct (coalesce_case2 st l1 lB fl s HA k2 Hsh Hl)
      as (st' & fl' & K1 & K2 & K3 & K4 & K5 & _).
    eexists st', _, _, fl'. split; [exact K1|]. split; [exact K2|]. split; [exact K3|].
    split; [apply adj_ok_free_mid; assumption|]. split; [exact K4|].
    split; [exact K5|].
    split.
    + apply (allocs_free_mid (first_bp st) l1 [(s, false); (k2, false)] [(s + k2, false)] lB);
        cbn; try reflexivity; lia.
    + exists l1, (s + k2), lB. repeat split.
      apply sizes_ok_app in Hsz. destruct Hsz as [_ Hsz]. apply sizes_ok_cons in Hsz.
      destruct Hsz as [_ Hsz]. apply sizes_ok_cons in Hsz. lia.
  - (* case 3 *)
    subst l1. unfold bs in *. rewrite <- app_assoc in Hsh, Hl, Hsz. cbn [app] in Hsh, Hl, Hsz.
    assert (Ebp : bp = first_bp st + total lA + k).
    { unfold bp. rewrite total_app. cbn [total]. lia. }
    rewrite Ebp in *.
    destruct (coalesce_case3 st lA l2 fl s HA HB k Hsh Hl)
      as (st' & fl' & K1 & K2 & K3 & K4 & K5 & _).
    eexists st', _, _, fl'. split; [exact K1|]. split; [exact K2|]. split; [exact K3|].
    split; [apply adj_ok_free_mid; assumption|]. split; [exact K4|].
    split; [rewrite <- app_assoc; exact K5|].
    split.
    + rewrite <- app_assoc. cbn [app].
      apply (allocs_free_mid (first_bp st) lA [(k, false); (s, false)] [(s + k, false)] l2);
        cbn; try reflexivity; lia.
    + exists lA, (s + k), l2. repeat split.
      apply sizes_ok_app in Hsz. destruct Hsz as [_ Hsz]. apply sizes_ok_cons in Hsz. lia.
  - (* case 4 *)
    subst l1 l2. unfold bs in *. rewrite <- app_assoc in Hsh, Hl, Hsz.
    cbn [app] in Hsh, Hl, Hsz.
    assert (Ebp : bp = first_bp st + total lA + k).
    { unfold bp. rewrite total_app. cbn [total]. lia. }
    rewrite Ebp in *.
    destruct (coalesce_case4 st lA lB fl s HA k k2 Hsh Hl)
      as (st' & fl' & K1 & K2 & K3 & K4 & K5 & _).
    eexists st', _, _, fl'. split; [exact K1|]. split; [exact K2|]. split; [exact K3|].
    split; [apply adj_ok_free_mid; assumption|]. split; [exact K4|].
    split; [rewrite <- app_assoc; exact K5|].
    split.
    + rewrite <- app_assoc. cbn [app].
      apply (allocs_free_mid (first_bp st) lA [(k, false); (s, false); (k2, false)]
               [(s + (k + k2), false)] lB); cbn; try reflexivity; lia.
    + exists lA, (s + (k + k2)), lB. repeat split.
      apply sizes_ok_app in Hsz. destruct Hsz as [_ Hsz]. apply sizes_ok_cons in Hsz.
      destruct Hsz as [[? ?] Hsz]. apply sizes_ok_cons in Hsz.
      destruct Hsz as [_ Hsz]. apply sizes_ok_cons in Hsz. lia.
Qed.

Lemma coalesce_ok : forall st l1 s l2 fl,
  let bp := first_bp st + total l1 in
  let bs := l1 ++ (s, false) :: l2 in
  shape st bs -> lists_ok st bs fl [bp] -> adj_ok (l1 ++ (s, true) :: l2) ->
  exists st' r bs' fl',
    coalesce st bp = Ok (st', r) /\
    shape st' bs' /\ lists_ok st' bs' fl' [] /\ adj_ok bs' /\ same_arena st st' /\
    allocs (first_bp st) bs' = allocs (first_bp st) bs /\
    exists lA s' lB, bs' = lA ++ (s', false) :: lB /\ r = first_bp st + total lA /\ s <= s'.
Proof.
  intros st l1 s l2 fl bp bs Hsh Hl Hadj.
  destruct (coalesce_frame_ok st l1 s l2 fl Hsh Hl Hadj)
    as (st' & r & bs' & fl' & Q1 & Q2 & Q3 & Q4 & Q5 & _ & Q6 & Q7).
  exists st', r, bs', fl'. auto 10.
Qed.

(* ================================================================= *)
(** * [free] *)

Lemma free_unfold : forall st ptr,
  ptr <> 0 -> heap_listp st <> 0 ->
  free st ptr =
  (let m := heap st in
   let size := GET_SIZE m (HDRP ptr) in
   let checkprev := PREVX m (HDRP ptr) in
   let m1 := PUT m (HDRP ptr) (PACK size checkprev 0) in
   let m2 := PUT m1 (FTRP m1 ptr) (PACK size checkprev 0) in
   '(st2, _) <- coalesce (set_heap st (unmark_next m2 ptr)) ptr ;; Ok st2).
Proof.
  intros st ptr Hp Hh. unfold free, ensure_init, unmark_next.
  destruct (Z.eqb_spec ptr 0); [contradiction|].
  destruct (Z.eqb_spec (heap_listp st) 0); [contradiction|].
  cbn [bind]. cbv zeta.
  match goal with |- (if ?c then _ else _) = _ => destruct c end; reflexivity.
Qed.

Lemma free_prepare : forall st l1 s l2 fl,
  let ptr := first_bp st + total l1 in
  let pa := last_alloc true l1 in
  shape st (l1 ++ (s, true) :: l2) -> lists_ok st (l1 ++ (s, true) :: l2) fl [] ->
  let m1 := PUT (heap st) (ptr - 4) (PACK s (b2z4 pa) 0) in
  let m2 := PUT m1 (FTRP m1 ptr) (PACK s (b2z4 pa) 0) in
  let st' := set_heap st (unmark_next m2 ptr) in
  shape st' (l1 ++ (s, false) :: l2) /\ lists_ok st' (l1 ++ (s, false) :: l2) fl [ptr] /\
  kept (allocs (first_bp st) (l1 ++ (s, false) :: l2)) (heap st) (heap st').
Proof.
  intros st l1 s l2 fl ptr pa Hsh Hl m1 m2 st'.
  destruct (shape_cut _ _ _ _ _ Hsh)
    as (S1 & S2 & S3 & S4 & C1 & C2 & C3 & C4 & C5 & C6 & C7 & Z1 & Z2).
  fold ptr pa in S1, S2, S3, S4, C6.
  assert (Eptr : ptr = mem_start st + 16 + total l1) by reflexivity.
  assert (E1 : GET m1 (ptr - 4) = hdr s pa false).
  { subst m1. apply (GET_PUT_hdr _ _ s pa false); lia. }
  destruct (fields_of_GET _ _ _ _ _ E1 ltac:(lia) C2 C3) as (F1 & _ & _).
  assert (EF : FTRP m1 ptr = ptr + s - 8).
  { unfold FTRP. unfold_consts. rewrite F1. reflexivity. }
  assert (Hm2 : forall x, x < ptr - 4 \/ ptr + s - 4 <= x -> m2 x = heap st x).
  { intros x Hx. subst m2 m1. rewrite EF. rewrite !PUT_outside by lia. reflexivity. }
  assert (E2 : GET m2 (ptr - 4) = hdr s pa false).
  { subst m2. rewrite EF. rewrite GET_PUT_other by lia. exact E1. }
  assert (E2f : GET m2 (ptr + s - 8) = hdr s pa false).
  { subst m2. rewrite EF. apply (GET_PUT_hdr _ _ s pa false); lia. }
  destruct (fields_of_GET _ _ _ _ _ E2 ltac:(lia) C2 C3) as (G1 & _ & _).
  assert (T2 : tail_ok m2 (ptr + s) true l2 (mem_brk st)).
  { eapply tail_ok_frame; [exact S4|]. intros x Hx. apply Hm2. lia. }
  destruct (retag_ok m2 (ptr + s) true false l2 (mem_brk st) T2 ltac:(lia)) as (T3 & R1 & R2).
  change (b2z4 false) with 0 in T3, R1, R2.
  assert (Emf : heap st' = retag m2 (ptr + s) 0).
  { subst st'. cbn [heap set_heap]. apply unmark_next_retag; [exact G1|lia]. }
  assert (Hlow : forall x, x < ptr + s - 4 -> heap st' x = m2 x).
  { intros x Hx. rewrite Emf, R1 by lia. reflexivity. }
  split; [|split].
  - eapply shape_of_tail; [exact Hsh|repeat split| |].
    + rewrite <- (sh_pro _ _ Hsh). apply GET_ext. intros x Hx.
      rewrite Hlow by lia. apply Hm2. lia.
    + apply tail_ok_app. split.
      * eapply seg_ok_ext; [exact S1|]. intros x Hx. fold ptr in Hx.
        rewrite Hlow by lia. apply Hm2. lia.
      * fold ptr pa. destruct T3 as (T3a & T3b & T3c). rewrite Emf.
        repeat split; try assumption.
        -- rewrite <- E2. apply GET_ext. intros x Hx. apply R1. lia.
        -- intros _. rewrite <- E2f. apply GET_ext. intros x Hx. apply R1. lia.
        -- cbn [total] in *. lia.
  - eapply lists_reframe; [exact Hl|reflexivity|reflexivity| |].
    + intros q s0 Hq Hn x Hx.
      destruct (frees_position _ _ _ _ _ _ _ Z1 Z2 Hq) as [P|[P|P]]; fold ptr in P.
      * rewrite Hlow by lia. apply Hm2. lia.
      * destruct P as (_ & _ & P). discriminate.
      * destruct P as [P1 P2].
        destruct (tail_link_clear _ _ _ _ _ Z2 P2 Hx) as [K1 K2].
        rewrite Emf, R2 by assumption. apply Hm2. lia.
    + apply (frees_mid_iff (first_bp st) l1 [(s, true)] [(s, false)] l2 [] [ptr]);
        try assumption.
      * repeat constructor; cbn; lia.
      * repeat constructor; cbn; lia.
      * reflexivity.
      * intros q [].
      * intros q [<-|[]]. fold ptr. cbn [total]. lia.
      * intros q s0. fold ptr. cbn [frees In]. intuition congruence.
  - intros q s0 Hq x Hx.
    destruct (allocs_position _ _ _ _ _ _ _ Z1 Z2 Hq) as [P|[P|P]]; fold ptr in P.
    + rewrite Hlow by lia. apply Hm2. lia.
    + destruct P as (_ & _ & P). discriminate.
    + destruct P as [P1 P2].
      destruct (tail_payload_clear _ _ _ _ _ Z2 P2 Hx) as [K1 K2].
      rewrite Emf, R2 by assumption. apply Hm2. lia.
Qed.

Lemma free_frame_ok : forall st l1 s l2 fl,
  good st (l1 ++ (s, true) :: l2) fl ->
  exists st' bs' fl',
    free st (first_bp st + total l1) = Ok st' /\
    good st' bs' fl' /\ same_arena st st' /\
    allocs (first_bp st) bs' =
      allocs (first_bp st) l1 ++ allocs (first_bp st + total l1 + s) l2 /\
    kept (allocs (first_bp st) bs') (heap st) (heap st').
Proof.
  intros st l1 s l2 fl (Hsh & Hadj & Hl).
  set (ptr := first_bp st + total l1).
  destruct (shape_cut _ _ _ _ _ Hsh)
    as (S1 & S2 & S3 & S4 & C1 & C2 & C3 & C4 & C5 & C6 & C7 & Z1 & Z2).
  fold ptr in S2, S3, S4, C6.
  destruct (fields_of_GET _ _ _ _ _ S2 ltac:(lia) C2 C3) as (F1 & F2 & _).
  pose proof (free_prepare st l1 s l2 fl Hsh Hl) as K. cbv zeta in K. fold ptr in K.
  destruct K as (K1 & K2 & K3).
  rewrite free_unfold.
  - cbv zeta. unfold_consts. rewrite F1, F2.
    destruct (coalesce_frame_ok _ l1 s l2 fl K1 K2 Hadj)
      as (st' & r & bs' & fl' & Q1 & Q2 & Q3 & Q4 & Q5 & Q8 & Q6 & _).
    change (first_bp (set_heap st _)) with (first_bp st) in Q1, Q6, Q8. fold ptr in Q1.
    rewrite Q1. cbn [bind].
    exists st', bs', fl'. split; [reflexivity|].
    split; [split; [exact Q2|split; [exact Q4|exact Q3]]|].
    split; [exact Q5|].
    split; [rewrite Q6, allocs_app; cbn [allocs]; reflexivity|].
    rewrite Q6. exact (kept_trans _ _ _ _ K3 Q8).
  - unfold ptr, first_bp. pose proof (sh_lo _ _ Hsh). lia.
  - rewrite (sh_hlp _ _ Hsh). pose proof (sh_lo _ _ Hsh). lia.
Qed.

Lemma free_ok : forall st l1 s l2 fl,
  good st (l1 ++ (s, true) :: l2) fl ->
  exists st' bs' fl',
    free st (first_bp st + total l1) = Ok st' /\
    good st' bs' fl' /\ same_arena st st' /\
    allocs (first_bp st) bs' =
      allocs (first_bp st) l1 ++ allocs (first_bp st + total l1 + s) l2.
Proof.
  intros st l1 s l2 fl G.
  destruct (free_frame_ok st l1 s l2 fl G) as (st' & bs' & fl' & A & B & C & D & _).
  exists st', bs', fl'. auto.
Qed.

(* ================================================================= *)
(** * [extend_heap] and [mm_init] *)

(** The byte count [extend_heap] asks the provider for. *)
Definition ext_size (words : Z) : Z :=
  if negb (words mod 2 =? 0) then wrap64 ((words + 1) * WSIZE) else wrap64 (words * WSIZE).

Definition grow (st : state) (n : Z) : state :=
  mkState (heap st) (mem_start st) (mem_brk st + n) (mem_max_addr st)
          (heap_listp st) (lhead st).

Lemma extend_heap_fail : forall st words,
  mem_max_addr st < mem_brk st + ext_size words ->
  extend_heap st words = Ok (st, 0).
Proof.
  intros st words H. unfold extend_heap. fold (ext_size words). unfold mem_sbrk.
  destruct (Z.leb_spec (mem_brk st + ext_size words) (mem_max_addr st)); [lia|].
  reflexivity.
Qed.

Lemma shape_brk_aligned : forall st bs, shape st bs -> mem_brk st mod 8 = 0.
Proof.
  intros st bs H. rewrite <- (sh_end _ _ H). unfold first_bp.
  pose proof (sizes_ok_total_mod _ (shape_sizes _ _ H)) as Ht.
  pose proof (sh_al _ _ H) as Ha.
  pose proof (Z.div_mod (mem_start st) 8 ltac:(lia)) as E1.
  pose proof (Z.div_mod (total bs) 8 ltac:(lia)) as E2.
  replace (mem_start st + 16 + total bs)
    with ((mem_start st / 8 + 2 + total bs / 8) * 8) by lia.
  apply Z.mod_mul. lia.
Qed.

Lemma extend_prepare : forall st bs fl n,
  shape st bs -> lists_ok st bs fl [] ->
  16 <= n -> n mod 8 = 0 -> mem_brk st + n <= mem_max_addr st ->
  let bp := mem_brk st in
  let st1 := grow st n in
  let checkprev := PREVX (heap st1) (HDRP bp) in
  let m1 := PUT (heap st1) (HDRP bp) (PACK n checkprev 0) in
  let m2 := PUT m1 (FTRP m1 bp) (PACK n checkprev 0) in
  let m3 := PUT m2 (HDRP (NEXT_BLKP m2 bp)) (PACK 0 0 1) in
  let st' := set_heap st1 m3 in
  shape st' (bs ++ [(n, false)]) /\ lists_ok st' (bs ++ [(n, false)]) fl [bp] /\
  kept (allocs (first_bp st) bs) (heap st) (heap st').
Proof.
  intros st bs fl n Hsh Hl Hn Hn8 Hfit bp st1 checkprev m1 m2 m3 st'.
  pose proof (shape_sizes _ _ Hsh) as Hsz. pose proof (sizes_ok_total _ Hsz) as Ht.
  pose proof Hsh as Hsh0. destruct Hsh.
  assert (Ebp : bp = mem_start st + 16 + total bs) by (unfold bp, first_bp in *; lia).
  set (pa := last_alloc true bs) in *.
  assert (Hn32 : n < 4294967296) by lia.
  destruct (fields_of_GET _ _ 0 pa true sh_epi0 ltac:(lia) eq_refl ltac:(lia)) as (_ & F2 & _).
  fold bp in F2.
  assert (Ecp : checkprev = b2z4 pa).
  { subst checkprev st1. cbn [heap grow]. unfold_consts. exact F2. }
  assert (E1 : GET m1 (bp - 4) = hdr n pa false).
  { subst m1. rewrite Ecp. unfold_consts. apply (GET_PUT_hdr _ _ n pa false); lia. }
  destruct (fields_of_GET _ _ _ _ _ E1 ltac:(lia) Hn8 Hn32) as (F1 & _ & _).
  assert (EF : FTRP m1 bp = bp + n - 8).
  { unfold FTRP. unfold_consts. rewrite F1. reflexivity. }
  assert (E2 : GET m2 (bp - 4) = hdr n pa false).
  { subst m2. rewrite EF. rewrite GET_PUT_other by lia. exact E1. }
  destruct (fields_of_GET _ _ _ _ _ E2 ltac:(lia) Hn8 Hn32) as (G1 & _ & _).
  assert (EN : NEXT_BLKP m2 bp = bp + n).
  { unfold NEXT_BLKP. unfold_consts. rewrite G1. reflexivity. }
  assert (Hm3 : forall x, x < bp - 4 -> m3 x = heap st x).
  { intros x Hx. subst m3 m2 m1. rewrite EN, EF. unfold_consts.
    rewrite !PUT_outside by lia. reflexivity. }
  assert (Efb : first_bp st' = first_bp st) by reflexivity.
  assert (Ehp : heap st' = m3) by reflexivity.
  split; [|split].
  - constructor; rewrite ?Efb, ?Ehp;
      change (mem_start st') with (mem_start st);
      change (mem_brk st') with (mem_brk st + n);
      change (mem_max_addr st') with (mem_max_addr st);
      change (heap_listp st') with (heap_listp st);
      try assumption; try lia.
    + rewrite <- sh_pro0. apply GET_ext. intros x Hx. apply Hm3. lia.
    + unfold first_bp. apply seg_ok_app. split.
      * eapply seg_ok_ext; [exact sh_seg0|]. intros x Hx. apply Hm3.
        unfold first_bp in *. lia.
      * fold pa. cbn [seg_ok]. replace (mem_start st + 16 + total bs) with bp by lia.
        repeat split; try assumption.
        -- subst m3. rewrite EN. unfold_consts. rewrite GET_PUT_other by lia. exact E2.
        -- intros _. subst m3 m2. rewrite EN, EF. unfold_consts.
           rewrite GET_PUT_other by lia. rewrite Ecp.
           apply (GET_PUT_hdr _ _ n pa false); lia.
    + unfold first_bp. rewrite total_app. cbn [total]. unfold first_bp in *. lia.
    + rewrite last_alloc_app. cbn [last_alloc]. subst m3. rewrite EN. unfold_consts.
      fold bp. apply (GET_PUT_hdr _ _ 0 false true); (reflexivity || lia).
  - eapply lists_reframe; [exact Hl|reflexivity|reflexivity| |].
    + intros q s Hq Hn0 x Hx. rewrite Ehp. apply Hm3.
      apply frees_range in Hq; [|assumption]. unfold first_bp in *. lia.
    + intros q s. rewrite frees_app, in_app_iff. cbn [frees In].
      split.
      * intros [[H|[H|[]]] Hq]; [tauto|]. injection H as Eq1 Eq2. exfalso. apply Hq. left.
        unfold first_bp in *. lia.
      * intros [H _]. split; [tauto|]. intros [E|[]].
        apply frees_range in H; [|assumption]. unfold first_bp in *. lia.
  - intros q s Hq x Hx. rewrite Ehp. apply Hm3.
    apply allocs_range in Hq; [|assumption]. unfold first_bp in *. lia.
Qed.

Lemma extend_heap_frame_ok : forall st bs fl words,
  good st bs fl ->
  16 <= ext_size words -> ext_size words mod 8 = 0 ->
  mem_brk st + ext_size words <= mem_max_addr st ->
  exists st' r bs' fl',
    extend_heap st words = Ok (st', r) /\
    good st' bs' fl' /\
    same_arena (grow st (ext_size words)) st' /\
    kept (allocs (first_bp st) bs) (heap st) (heap st') /\
    allocs (first_bp st) bs' = allocs (first_bp st) bs /\
    exists lA s' lB, bs' = lA ++ (s', false) :: lB /\ r = first_bp st + total lA /\
                     ext_size words <= s'.
Proof.
  intros st bs fl words (Hsh & Hadj & Hl) Hn Hn8 Hfit.
  pose proof (extend_prepare st bs fl _ Hsh Hl Hn Hn8 Hfit) as K. cbv zeta in K.
  destruct K as (K1 & K2 & K3).
  pose proof (shape_brk_aligned _ _ Hsh) as Hal.
  assert (Hb : mem_brk st = first_bp st + total bs) by (symmetry; apply (sh_end _ _ Hsh)).
  set (stp := set_heap (grow st (ext_size words)) _) in K1, K2, K3.
  assert (K2' : lists_ok stp (bs ++ [(ext_size words, false)]) fl [first_bp stp + total bs]).
  { change (first_bp stp) with (first_bp st). rewrite <- Hb. exact K2. }
  destruct (coalesce_frame_ok stp bs (ext_size words) [] fl K1 K2'
              (adj_ok_alloc_mid bs (ext_size words) [] Hadj I))
    as (st' & r & bs' & fl' & Q1 & Q2 & Q3 & Q4 & Q5 & Q8 & Q6 & Q7).
  change (first_bp stp) with (first_bp st) in Q1, Q6, Q7, Q8.
  assert (Eal : allocs (first_bp st) (bs ++ [(ext_size words, false)]) =
                allocs (first_bp st) bs).
  { rewrite allocs_app. cbn [allocs]. apply app_nil_r. }
  rewrite Eal in Q8.
  rewrite <- Hb in Q1. unfold stp in Q1.
  unfold extend_heap. fold (ext_size words). unfold mem_sbrk.
  destruct (Z.leb_spec (mem_brk st + ext_size words) (mem_max_addr st)); [|lia].
  fold (grow st (ext_size words)).
  destruct (Z.eqb_spec (mem_brk st) SIZE_MAX) as [E|_].
  { exfalso. rewrite E in Hal. unfold SIZE_MAX in Hal. cbn in Hal. discriminate. }
  rewrite Q1. exists st', r, bs', fl'. split; [reflexivity|].
  split; [split; [exact Q2|split; [exact Q4|exact Q3]]|].
  split; [exact Q5|]. split; [exact (kept_trans _ _ _ _ K3 Q8)|]. split; [|exact Q7].
  rewrite Q6. exact Eal.
Qed.

Lemma extend_heap_ok : forall st bs fl words,
  good st bs fl ->
  16 <= ext_size words -> ext_size words mod 8 = 0 ->
  mem_brk st + ext_size words <= mem_max_addr st ->
  exists st' r bs' fl',
    extend_heap st words = Ok (st', r) /\
    good st' bs' fl' /\
    same_arena (grow st (ext_size words)) st' /\
    allocs (first_bp st) bs' = allocs (first_bp st) bs /\
    exists lA s' lB, bs' = lA ++ (s', false) :: lB /\ r = first_bp st + total lA /\
                     ext_size words <= s'.
Proof.
  intros st bs fl words G Hn Hn8 Hfit.
  destruct (extend_heap_frame_ok st bs fl words G Hn Hn8 Hfit)
    as (st' & r & bs' & fl' & Q1 & Q2 & Q3 & _ & Q4 & Q5).
  exists st', r, bs', fl'. auto.
Qed.

(** A freshly started provider: nothing handed out, the allocator's
    globals still zero. *)
Definition fresh (m0 : mem) (lo max : Z) : state :=
  mkState m0 lo lo max 0 (fun _ => 0).

Definition arena_ok (lo max : Z) : Prop :=
  0 < lo /\ lo mod 8 = 0 /\ max < 18446744073709551616 /\ max - lo < 4294967296.

Lemma ext_size_even : forall n, 0 <= n < 18446744073709551616 -> n mod 8 = 0 ->
  ext_size (n / WSIZE) = n.
Proof.
  intros n Hn H8. unfold ext_size. unfold_consts.
  pose proof (Z.div_mod n 8 ltac:(lia)) as E. rewrite H8 in E.
  assert (E4 : n / 4 = 2 * (n / 8)).
  { symmetry. apply Z.div_unique_exact; lia. }
  rewrite E4. replace (2 * (n / 8)) with ((n / 8) * 2) by lia.
  rewrite Z.mod_mul by lia. cbn [Z.eqb negb]. rewrite wrap64_small by lia. lia.
Qed.

(** The state [mm_init] reaches before it extends the heap. *)
Lemma init_frame_good : forall m0 lo max,
  arena_ok lo max -> lo + 16 <= max ->
  let st2 := set_heap_listp (grow (clear_lists (fresh m0 lo max)) (4 * WSIZE)) lo in
  let m1 := PUT (heap st2) lo 0 in
  let m2 := PUT m1 (lo + 1 * WSIZE) (PACK DSIZE 4 1) in
  let m3 := PUT m2 (lo + 2 * WSIZE) (PACK DSIZE 4 1) in
  let m4 := PUT m3 (lo + 3 * WSIZE) (PACK 0 4 1) in
  good (set_heap_listp (set_heap st2 m4) (lo + 2 * WSIZE)) [] (fun _ => []).
Proof.
  intros m0 lo max (A1 & A2 & A3 & A4) Hfit st2 m1 m2 m3 m4. unfold_consts.
  split; [|split; [exact I|]].
  - constructor; unfold first_bp, st2, grow, clear_lists, fresh, set_heap_listp, set_heap;
      cbn [heap mem_start mem_brk mem_max_addr heap_listp total last_alloc seg_ok];
      try assumption; try lia; try exact I.
    + subst m4 m3. rewrite GET_PUT_other by lia. rewrite GET_PUT_other by lia.
      subst m2. replace (lo + 1 * 4) with (lo + 4) by lia.
      apply (GET_PUT_hdr _ _ 8 true true); (reflexivity || lia).
    + subst m4. replace (lo + 4 * 4 - 4) with (lo + 3 * 4) by lia.
      apply (GET_PUT_hdr _ _ 0 true true); (reflexivity || lia).
  - constructor; unfold st2, grow, clear_lists, fresh, set_heap_listp, set_heap;
      cbn [heap lhead frees].
    + intros c. reflexivity.
    + intros c. constructor.
    + intros c q [].
    + intros q s [].
Qed.

Lemma mm_init_ok : forall m0 lo max,
  arena_ok lo max -> lo + 16 + CHUNKSIZE <= max ->
  exists st' fl',
    mm_init (fresh m0 lo max) = Ok (st', 0) /\
    good st' [(CHUNKSIZE, false)] fl' /\
    mem_start st' = lo /\ mem_max_addr st' = max.
Proof.
  intros m0 lo max Har Hfit. pose proof Har as (A1 & A2 & A3 & A4).
  unfold CHUNKSIZE in Hfit.
  pose proof (init_frame_good m0 lo max Har ltac:(lia)) as G. cbv zeta in G.
  assert (Hes : ext_size (CHUNKSIZE / WSIZE) = 4096).
  { apply (ext_size_even 4096); [lia|reflexivity]. }
  destruct (extend_heap_ok _ _ _ (CHUNKSIZE / WSIZE) G) as
    (st' & r & bs' & fl' & Q1 & Q2 & Q3 & Q4 & lA & s' & lB & Q5 & Q6 & Q7).
  { rewrite Hes. lia. }
  { rewrite Hes. reflexivity. }
  { rewrite Hes. cbn [mem_brk mem_max_addr set_heap_listp set_heap grow clear_lists fresh].
    unfold_consts. lia. }
  unfold mm_init. unfold mem_sbrk.
  cbn [mem_brk mem_max_addr clear_lists fresh]. unfold_consts.
  destruct (Z.leb_spec (lo + 4 * 4) max); [|lia].
  destruct (Z.eqb_spec lo SIZE_MAX) as [E|_].
  { exfalso. rewrite E in A2. unfold SIZE_MAX in A2. cbn in A2. discriminate. }
  unfold_consts. unfold grow, clear_lists, fresh, set_heap_listp, set_heap in Q1 |- *.
  cbn [heap mem_start mem_brk mem_max_addr heap_listp lhead] in Q1 |- *.
  rewrite Q1. cbn [bind].
  assert (Hr : r <> 0).
  { rewrite Q6. unfold first_bp, grow, clear_lists, fresh, set_heap_listp, set_heap.
    cbn [mem_start].
    pose proof (sizes_ok_total lA) as Hl.
    destruct Q2 as (Hsh & _). pose proof (shape_sizes _ _ Hsh) as Hsz. rewrite Q5 in Hsz.
    apply sizes_ok_app in Hsz. specialize (Hl (proj1 Hsz)). lia. }
  destruct (Z.eqb_spec r 0); [contradiction|].
  (* the new block is the only one: total size and allocation list pin it down *)
  destruct Q2 as (Hsh & Hadj & Hl).
  pose proof (sh_end _ _ Hsh) as He. destruct Q3 as (B1 & B2 & B3 & B4).
  cbn [mem_start mem_brk mem_max_addr heap_listp grow set_heap_listp set_heap clear_lists fresh]
    in B1, B2, B3, B4.
  rewrite Hes in B2, Q7. unfold first_bp in He. rewrite B1, B2 in He.
  pose proof (shape_sizes _ _ Hsh) as Hsz. rewrite Q5 in Hsz, He.
  apply sizes_ok_app in Hsz. destruct Hsz as [ZA ZB]. apply sizes_ok_cons in ZB.
  destruct ZB as [[Z1 Z2] ZB]. rewrite total_app in He. cbn [total] in He.
  pose proof (sizes_ok_total _ ZA) as TA. pose proof (sizes_ok_total _ ZB) as TB.
  pose proof (sizes_ok_length _ ZA) as LA. pose proof (sizes_ok_length _ ZB) as LB.
  assert (s' = 4096) by lia. assert (total lA = 0) by lia. assert (total lB = 0) by lia.
  destruct lA; [|cbn [length] in LA; lia]. destruct lB; [|cbn [length] in LB; lia].
  subst s'. cbn [app] in Q5. subst bs'.
  exists st', fl'. split; [reflexivity|].
  split; [split; [exact Hsh|split; [exact Hadj|exact Hl]]|].
  split; assumption.
Qed.

(* ================================================================= *)
(** * [find_fit] *)

(** The tags of the block at a given position of the sequence. *)
Lemma block_hdr : forall st l1 s a l2,
  shape st (l1 ++ (s, a) :: l2) ->
  let bp := first_bp st + total l1 in
  GET (heap st) (HDRP bp) = hdr s (last_alloc true l1) a /\
  GET_SIZE (heap st) (HDRP bp) = s /\
  GET_ALLOC (heap st) (HDRP bp) = b2z1 a /\
  PREVX (heap st) (HDRP bp) = b2z4 (last_alloc true l1).
Proof.
  intros st l1 s a l2 H bp.
  destruct (shape_cut _ _ _ _ _ H) as (_ & C & _ & _ & S1 & S2 & S3 & _).
  fold bp in C. unfold HDRP, WSIZE. split; [exact C|].
  destruct (fields_of_GET _ _ _ _ _ C ltac:(lia) S2 ltac:(pow2; lia)) as (F1 & F2 & F3).
  repeat split; assumption.
Qed.

Lemma free_hdr : forall st bs q s,
  shape st bs -> In (q, s) (frees (first_bp st) bs) ->
  GET_SIZE (heap st) (HDRP q) = s /\ GET_ALLOC (heap st) (HDRP q) = 0.
Proof.
  intros st bs q s H Hin. apply frees_split in Hin. destruct Hin as (l1 & l2 & -> & ->).
  destruct (block_hdr _ _ _ _ _ H) as (_ & F1 & F2 & _). split; assumption.
Qed.

Lemma alloc_hdr : forall st bs q s,
  shape st bs -> In (q, s) (allocs (first_bp st) bs) ->
  GET_SIZE (heap st) (HDRP q) = s /\ GET_ALLOC (heap st) (HDRP q) = 1.
Proof.
  intros st bs q s H Hin. apply allocs_split in Hin. destruct Hin as (l1 & l2 & -> & ->).
  destruct (block_hdr _ _ _ _ _ H) as (_ & F1 & F2 & _). split; assumption.
Qed.

(** The addresses the cascade entered with [asize] looks at, in order. *)
Fixpoint candidates (cs : list (nat * guard)) (fl : nat -> list Z) (asize : Z) : list Z :=
  match cs with
  | [] => []
  | (c, g) :: rest =>
      if passes g asize then fl c ++ candidates rest fl asize
      else candidates rest fl asize
  end.

Lemma first_fit_app : forall m asize l1 l2,
  (forall q, In q l1 -> q <> 0) ->
  first_fit m asize (l1 ++ l2) =
  if negb (first_fit m asize l1 =? 0) then first_fit m asize l1 else first_fit m asize l2.
Proof.
  intros m asize l1 l2. unfold first_fit. induction l1 as [|p r IH]; intros Hnz; [reflexivity|].
  cbn [app find]. destruct (fits m asize p).
  - destruct (Z.eqb_spec p 0) as [E|E]; [|reflexivity].
    exfalso. apply (Hnz p); [now left|exact E].
  - apply IH. intros q Hq. apply Hnz. now right.
Qed.

Lemma find_fit_from_ok : forall st bs fl asize,
  geom st bs -> lists_ok st bs fl [] ->
  forall cs, find_fit_from cs st asize = Ok (first_fit (heap st) asize (candidates cs fl asize)).
Proof.
  intros st bs fl asize Hg Hl. induction cs as [|[c g] rest IH]; [reflexivity|].
  cbn [find_fit_from candidates]. destruct (passes g asize); [|exact IH].
  rewrite (scan_flist (heap st) asize (fl c));
    [|apply (lo_chain _ _ _ _ Hl)|apply (listed_length st bs fl [] Hg Hl)].
  cbn [bind]. rewrite first_fit_app.
  - destruct (negb (first_fit (heap st) asize (fl c) =? 0)); [reflexivity|exact IH].
  - intros q Hq. pose proof (listed_facts st bs fl [] Hg Hl c q Hq). lia.
Qed.

Lemma in_candidates : forall fl asize q cs,
  In q (candidates cs fl asize) <->
  exists c g, In (c, g) cs /\ passes g asize = true /\ In q (fl c).
Proof.
  intros fl asize q. induction cs as [|[c g] rest IH].
  - cbn. split; [contradiction|]. intros (c & g & [] & _).
  - cbn [candidates]. destruct (passes g asize) eqn:E.
    + rewrite in_app_iff, IH. split.
      * intros [H|(c' & g' & H1 & H2 & H3)].
        -- exists c, g. split; [now left|auto].
        -- exists c', g'. split; [now right|auto].
      * intros (c' & g' & [H1|H1] & H2 & H3).
        -- inversion H1; subst. now left.
        -- right. eauto.
    + rewrite IH. split.
      * intros (c' & g' & H1 & H2 & H3). exists c', g'. split; [now right|auto].
      * intros (c' & g' & [H1|H1] & H2 & H3); [inversion H1; subst; congruence|eauto].
Qed.

(** What [find_fit] returns on a well-formed heap: NULL when no list the
    cascade enters has a block large enough, else a free block of stored size
    [cs >= asize] whose list the cascade entered. *)
Lemma find_fit_ok : forall st bs fl asize,
  shape st bs -> lists_ok st bs fl [] ->
  exists r, find_fit st asize = Ok r /\
    ((r = 0 /\ forall q s, In (q, s) (frees (first_bp st) bs) ->
                 visits asize (class_of s) -> s < asize) \/
     (exists s, In (r, s) (frees (first_bp st) bs) /\ asize <= s /\
                visits asize (class_of s))).
Proof.
  intros st bs fl asize Hsh Hl. pose proof (shape_geom _ _ Hsh) as Hg.
  unfold find_fit. rewrite (find_fit_from_ok st bs fl asize Hg Hl).
  eexists. split; [reflexivity|].
  destruct (first_fit_spec (heap st) asize (candidates cascade fl asize))
    as [[E Hno]|(l1 & l2 & E & Hfit & _)].
  - left. split; [exact E|]. intros q s Hin (g & Hc & Hp).
    assert (Hq : In q (candidates cascade fl asize)).
    { apply in_candidates. exists (class_of s), g. repeat split; try assumption.
      apply (lo_complete _ _ _ _ Hl); [assumption|intros []]. }
    specialize (Hno q Hq). unfold fits in Hno.
    destruct (free_hdr _ _ _ _ Hsh Hin) as (F & _). rewrite F in Hno.
    apply Z.leb_gt in Hno. exact Hno.
  - right. set (r := first_fit (heap st) asize (candidates cascade fl asize)) in *.
    assert (Hr : In r (candidates cascade fl asize)).
    { rewrite E. apply in_app_iff. right. now left. }
    apply in_candidates in Hr. destruct Hr as (c & g & Hc & Hp & Hin).
    destruct (lo_sound _ _ _ _ Hl _ _ Hin) as (_ & s & Hs & Hcl).
    exists s. split; [exact Hs|]. destruct (free_hdr _ _ _ _ Hsh Hs) as (F & _).
    unfold fits in Hfit. rewrite F in Hfit. apply Z.leb_le in Hfit.
    split; [exact Hfit|]. exists g. rewrite Hcl. split; assumption.
Qed.

(* ================================================================= *)
(** * [malloc] *)

Lemma placed_adj : forall l1 cs l2 asize bp bs' r,
  adj_ok (l1 ++ (cs, false) :: l2) -> placed l1 cs l2 asize bp bs' r -> adj_ok bs'.
Proof.
  intros l1 cs l2 asize bp bs' r H P.
  destruct (adj_around_free _ _ _ H) as (A1 & A2 & A3 & A4).
  destruct P.
  - apply adj_ok_alloc_mid; assumption.
  - apply adj_ok_alloc_mid; [assumption|].
    exact (adj_ok_free_mid [] (cs - asize) l2 I A2 eq_refl A4).
  - apply adj_ok_free_mid; [assumption| |assumption|reflexivity].
    exact (adj_ok_alloc_mid [] asize l2 I A2).
Qed.

Lemma placed_allocs : forall l1 cs l2 asize p bs' r,
  asize <= cs ->
  placed l1 cs l2 asize (p + total l1) bs' r ->
  exists sz, asize <= sz <= cs /\
    forall q s, In (q, s) (allocs p bs') <->
                (q = r /\ s = sz) \/ In (q, s) (allocs p (l1 ++ (cs, false) :: l2)).
Proof.
  intros l1 cs l2 asize p bs' r Hle P. destruct P as [Hw|Hh1 Hh2|Ht1 Ht2].
  - exists cs. split; [lia|]. intros q s. rewrite !in_allocs_cut. cbn [fst snd].
    split; intros H.
    + destruct H as [H|[(_ & H1 & H2)|H]]; auto.
    + destruct H as [(H1 & H2)|[H|[(H & _)|H]]]; auto; discriminate.
  - exists asize. split; [lia|]. intros q s. rewrite !in_allocs_cut. cbn [fst snd allocs].
    replace (p + total l1 + asize + (cs - asize)) with (p + total l1 + cs) by lia.
    split; intros H.
    + destruct H as [H|[(_ & H1 & H2)|H]]; auto.
    + destruct H as [(H1 & H2)|[H|[(H & _)|H]]]; auto; discriminate.
  - exists asize. split; [lia|]. intros q s. rewrite !in_allocs_cut. cbn [fst snd allocs In].
    replace (p + total l1 + (cs - asize) + asize) with (p + total l1 + cs) by lia.
    split; intros H.
    + destruct H as [H|[(H & _)|[H|H]]]; auto; [discriminate|].
      inversion H; subst. left. split; [lia|reflexivity].
    + destruct H as [(H1 & H2)|[H|[(H & _)|H]]]; auto; [|discriminate].
      right. right. left. subst. f_equal. 
Qed.

Lemma placed_fresh : forall l1 cs l2 asize p bs' r,
  sizes_ok l1 -> sizes_ok l2 -> 16 <= asize <= cs ->
  placed l1 cs l2 asize (p + total l1) bs' r ->
  forall s, ~ In (r, s) (allocs p (l1 ++ (cs, false) :: l2)).
Proof.
  intros l1 cs l2 asize p bs' r Z1 Z2 Has P s Hin.
  assert (Hr : p + total l1 <= r < p + total l1 + cs) by (destruct P; lia).
  apply in_allocs_cut in Hin. cbn [fst snd] in Hin.
  destruct Hin as [H|[(H & _)|H]]; [|discriminate|].
  - apply allocs_range in H; [lia|assumption].
  - apply allocs_range in H; [lia|assumption].
Qed.

(** Requests for which [WSIZE + size + (DSIZE - 1)] does not wrap. *)
Definition max_request : Z := SIZE_MAX - 11.

Lemma adjust_small : forall size, size <= 8 -> adjust size = 16.
Proof.
  intros size H. unfold adjust. unfold_consts.
  destruct (Z.leb_spec size 8); [reflexivity|lia].
Qed.

Lemma adjust_large : forall size, 8 < size <= max_request ->
  adjust size = 8 * ((size + 11) / 8).
Proof.
  intros size H. unfold max_request, SIZE_MAX in H. pow2.
  unfold adjust. unfold_consts. destruct (Z.leb_spec size 8); [lia|].
  replace (4 + size + (8 - 1)) with (size + 11) by lia.
  rewrite (wrap64_small (size + 11)) by lia.
  pose proof (Z.div_mod (size + 11) 8 ltac:(lia)) as E.
  pose proof (Z.mod_pos_bound (size + 11) 8 ltac:(lia)) as B.
  apply wrap64_small. lia.
Qed.

Lemma adjust_facts : forall size, 0 < size <= max_request ->
  16 <= adjust size /\ adjust size mod 8 = 0 /\ size + 4 <= adjust size /\
  adjust size <= size + 15 /\ adjust size < 18446744073709551616.
Proof.
  intros size H. pose proof H as H'. unfold max_request, SIZE_MAX in H'. pow2.
  destruct (Z_le_gt_dec size 8) as [Hs|Hs].
  - rewrite adjust_small by assumption. repeat split; try lia. 
  - rewrite adjust_large by lia.
    pose proof (Z.div_mod (size + 11) 8 ltac:(lia)) as E.
    pose proof (Z.mod_pos_bound (size + 11) 8 ltac:(lia)) as B.
    repeat split; try lia.
    rewrite Z.mul_comm. apply Z.mod_mul. lia.
Qed.

Lemma ensure_init_done : forall st bs, shape st bs -> ensure_init st = Ok st.
Proof.
  intros st bs H. unfold ensure_init. rewrite (sh_hlp _ _ H).
  pose proof (sh_lo _ _ H). destruct (Z.eqb_spec (mem_start st + 8) 0); [lia|reflexivity].
Qed.

(** The provider has handed out more, and nothing else about it changed. *)
Definition grown (st st' : state) : Prop :=
  mem_start st' = mem_start st /\ mem_max_addr st' = mem_max_addr st /\
  heap_listp st' = heap_listp st /\ mem_brk st <= mem_brk st'.

Lemma grown_refl : forall st, grown st st.
Proof. intros st. repeat split. lia. Qed.

Lemma grown_trans : forall a b c, grown a b -> grown b c -> grown a c.
Proof.
  intros a b c (A1 & A2 & A3 & A4) (B1 & B2 & B3 & B4). unfold grown.
  rewrite B1, B2, B3. repeat split; try assumption. lia.
Qed.

Lemma same_arena_grown : forall st st', same_arena st st' -> grown st st'.
Proof. intros st st' (E1 & E2 & E3 & E4). unfold grown. repeat split; try assumption. lia. Qed.

Lemma grown_first_bp : forall st st', grown st st' -> first_bp st' = first_bp st.
Proof. intros st st' (E & _). unfold first_bp. now rewrite E. Qed.

Lemma MAX_chunk : forall a, 16 <= a -> a mod 8 = 0 ->
  4096 <= MAX a CHUNKSIZE /\ a <= MAX a CHUNKSIZE /\ MAX a CHUNKSIZE mod 8 = 0 /\
  (MAX a CHUNKSIZE = a \/ MAX a CHUNKSIZE = 4096).
Proof.
  intros a H1 H2. unfold MAX, CHUNKSIZE. destruct (Z.gtb_spec a 4096).
  - repeat split; try lia; assumption.
  - repeat split; try lia; reflexivity.
Qed.

Lemma malloc_frame_ok : forall st bs fl size,
  good st bs fl -> 0 < size <= max_request ->
  exists st' r, malloc st size = Ok (st', r) /\
    ((r = 0 /\ st' = st) \/
     (exists bs' fl' sz, good st' bs' fl' /\ grown st st' /\
        adjust size <= sz /\
        (forall s, ~ In (r, s) (allocs (first_bp st) bs)) /\
        (forall q s, In (q, s) (allocs (first_bp st) bs') <->
                     (q = r /\ s = sz) \/ In (q, s) (allocs (first_bp st) bs)) /\
        kept (allocs (first_bp st) bs) (heap st) (heap st'))).
Proof.
  intros st bs fl size (Hsh & Hadj & Hl) Hsz.
  destruct (adjust_facts size Hsz) as (A1 & A2 & A3 & A4 & A5).
  unfold malloc. rewrite (ensure_init_done _ _ Hsh). cbn [bind].
  destruct (Z.leb_spec size 0); [lia|].
  destruct (find_fit_ok st bs fl (adjust size) Hsh Hl) as (r & Hf & Hr).
  rewrite Hf. cbn [bind].
  destruct Hr as [(-> & Hno)|(s & Hin & Hle & Hv)].
  - (* no fit: the heap is extended *)
    cbn [Z.eqb negb].
    destruct (MAX_chunk (adjust size) A1 A2) as (M1 & M2 & M3 & M4).
    assert (Hes : ext_size (MAX (adjust size) CHUNKSIZE / WSIZE) = MAX (adjust size) CHUNKSIZE).
    { apply ext_size_even; [|assumption]. destruct M4 as [-> | ->]; lia. }
    destruct (Z_lt_le_dec (mem_max_addr st) (mem_brk st + MAX (adjust size) CHUNKSIZE))
      as [Hfull|Hroom].
    + rewrite extend_heap_fail by (rewrite Hes; assumption). cbn [bind Z.eqb].
      exists st, 0. split; [reflexivity|]. left. split; reflexivity.
    + destruct (extend_heap_frame_ok st bs fl (MAX (adjust size) CHUNKSIZE / WSIZE)
                  (conj Hsh (conj Hadj Hl))) as
        (st2 & r2 & bs2 & fl2 & Q1 & Q2 & Q3 & Q8 & Q4 & lA & s' & lB & Q5 & Q6 & Q7);
        [rewrite Hes; lia|rewrite Hes; assumption|rewrite Hes; assumption|].
      rewrite Q1. cbn [bind]. rewrite Hes in Q7, Q3.
      destruct Q2 as (Hsh2 & Hadj2 & Hl2). subst bs2.
      destruct Q3 as (E1 & E2 & E3 & E4). cbn [grow mem_start mem_brk mem_max_addr heap_listp] in *.
      assert (Hfb : first_bp st2 = first_bp st).
      { unfold first_bp. rewrite E1. reflexivity. }
      assert (Hr2 : r2 <> 0).
      { pose proof (shape_sizes _ _ Hsh2) as Z0. apply sizes_ok_app in Z0.
        pose proof (sizes_ok_total _ (proj1 Z0)). pose proof (sh_lo _ _ Hsh).
        unfold first_bp in Q6. lia. }
      destruct (Z.eqb_spec r2 0); [contradiction|].
      destruct (place_frame_ok st2 lA s' lB fl2 (adjust size) Hsh2 Hl2)
        as (st3 & r3 & bs3 & fl3 & P1 & P2 & P3 & P4 & P5 & P6);
        [lia|assumption|apply visits_le; unfold num04, num05; lia|].
      rewrite Hfb in P1, P5, P6. rewrite Q4 in P6. rewrite <- Q6 in P1. rewrite P1.
      exists st3, r3. split; [reflexivity|]. right.
      assert (Hle' : adjust size <= s') by lia.
      destruct (placed_allocs _ _ _ _ _ _ _ Hle' P5) as (sz & Z1 & Z2).
      exists bs3, fl3, sz.
      split; [split; [exact P2|split; [eapply placed_adj; eassumption|exact P3]]|].
      destruct P4 as (F1 & F2 & F3 & F4).
      split; [unfold grown; rewrite F1, F2, F3, F4, E1, E2, E3, E4; repeat split; lia|].
      split; [lia|].
      pose proof (shape_sizes _ _ Hsh2) as Z0. apply sizes_ok_app in Z0.
      destruct Z0 as [Z0a Z0b]. apply sizes_ok_cons in Z0b. destruct Z0b as [_ Z0b].
      assert (Has' : 16 <= adjust size <= s') by lia.
      split; [rewrite <- Q4; apply (placed_fresh _ _ _ _ _ _ _ Z0a Z0b Has' P5)|].
      split; [intros q s0; rewrite <- Q4; apply Z2|].
      exact (kept_trans _ _ _ _ Q8 P6).
  - (* a fit *)
    assert (Hr : r <> 0).
    { pose proof (free_block_facts _ _ (shape_geom _ _ Hsh) _ _ Hin). lia. }
    destruct (Z.eqb_spec r 0); [contradiction|]. cbn [negb].
    apply frees_split in Hin. destruct Hin as (l1 & l2 & -> & ->).
    pose proof (shape_sizes _ _ Hsh) as Z0. apply sizes_ok_app in Z0.
    destruct Z0 as [Z0a Z0b]. apply sizes_ok_cons in Z0b. destruct Z0b as [_ Z0b].
    destruct (place_frame_ok st l1 s l2 fl (adjust size) Hsh Hl)
      as (st3 & r3 & bs3 & fl3 & P1 & P2 & P3 & P4 & P5 & P6);
      [lia|assumption|assumption|].
    rewrite P1. exists st3, r3. split; [reflexivity|]. right.
    destruct (placed_allocs _ _ _ _ _ _ _ Hle P5) as (sz & Z1 & Z2).
    exists bs3, fl3, sz.
    split; [split; [exact P2|split; [eapply placed_adj; eassumption|exact P3]]|].
    split; [apply same_arena_grown; exact P4|].
    split; [lia|].
    assert (Has' : 16 <= adjust size <= s) by lia.
    split; [apply (placed_fresh _ _ _ _ _ _ _ Z0a Z0b Has' P5)|].
    split; [exact Z2|exact P6].
Qed.

Lemma malloc_ok : forall st bs fl size,
  good st bs fl -> 0 < size <= max_request ->
  exists st' r, malloc st size = Ok (st', r) /\
    ((r = 0 /\ st' = st) \/
     (exists bs' fl' sz, good st' bs' fl' /\ grown st st' /\
        adjust size <= sz /\
        (forall s, ~ In (r, s) (allocs (first_bp st) bs)) /\
        (forall q s, In (q, s) (allocs (first_bp st) bs') <->
                     (q = r /\ s = sz) \/ In (q, s) (allocs (first_bp st) bs)))).
Proof.
  intros st bs fl size G Hsz.
  destruct (malloc_frame_ok st bs fl size G Hsz) as (st' & r & M1 & M2).
  exists st', r. split; [exact M1|].
  destruct M2 as [M2|(bs' & fl' & sz & A & B & C & D & E & _)]; [left; exact M2|right].
  exists bs', fl', sz. auto.
Qed.

Lemma malloc_zero : forall st bs, shape st bs -> malloc st 0 = Ok (st, 0).
Proof.
  intros st bs H. unfold malloc. rewrite (ensure_init_done _ _ H). reflexivity.
Qed.

(* ================================================================= *)
(** * [free] and [realloc] on a live pointer *)

Lemma freed_allocs : forall l1 s l2 p q s0,
  sizes_ok l1 -> sizes_ok l2 -> 16 <= s ->
  (In (q, s0) (allocs p l1 ++ allocs (p + total l1 + s) l2) <->
   q <> p + total l1 /\ In (q, s0) (allocs p (l1 ++ (s, true) :: l2))).
Proof.
  intros l1 s l2 p q s0 Z1 Z2 Hs. rewrite in_app_iff, in_allocs_cut. cbn [fst snd].
  split.
  - intros [H|H].
    + split; [|now left]. apply allocs_range in H; [lia|assumption].
    + split; [|now right; right]. apply allocs_range in H; [lia|assumption].
  - intros (Hne & [H|[(_ & H & _)|H]]); [now left|contradiction|now right].
Qed.

Lemma free_live_frame : forall st bs fl p s,
  good st bs fl -> In (p, s) (allocs (first_bp st) bs) ->
  exists st' bs' fl',
    free st p = Ok st' /\ good st' bs' fl' /\ same_arena st st' /\
    (forall q s0, In (q, s0) (allocs (first_bp st) bs') <->
                  q <> p /\ In (q, s0) (allocs (first_bp st) bs)) /\
    kept (allocs (first_bp st) bs') (heap st) (heap st').
Proof.
  intros st bs fl p s G Hin. apply allocs_split in Hin.
  destruct Hin as (l1 & l2 & -> & ->).
  destruct (free_frame_ok st l1 s l2 fl G) as (st' & bs' & fl' & F1 & F2 & F3 & F4 & F5).
  assert (Z0 : sizes_ok l1 /\ sizes_ok l2 /\ 16 <= s).
  { destruct G as (Hsh & _). pose proof (shape_sizes _ _ Hsh) as Z0.
    apply sizes_ok_app in Z0. destruct Z0 as [Z0a Z0b].
    apply sizes_ok_cons in Z0b. tauto. }
  destruct Z0 as (Z0a & Z0b & Z0c).
  exists st', bs', fl'. split; [exact F1|]. split; [exact F2|]. split; [exact F3|].
  split; [|exact F5].
  intros q s0. rewrite F4. apply freed_allocs; assumption.
Qed.

Lemma free_live : forall st bs fl p s,
  good st bs fl -> In (p, s) (allocs (first_bp st) bs) ->
  exists st' bs' fl',
    free st p = Ok st' /\ good st' bs' fl' /\ same_arena st st' /\
    forall q s0, In (q, s0) (allocs (first_bp st) bs') <->
                 q <> p /\ In (q, s0) (allocs (first_bp st) bs).
Proof.
  intros st bs fl p s G Hin.
  destruct (free_live_frame st bs fl p s G Hin) as (st' & bs' & fl' & A & B & C & D & _).
  exists st', bs', fl'. auto.
Qed.

(** A write into the payload of an allocated block keeps the heap well
    formed. *)
Lemma payload_write_good : forall st bs fl m' q s lo hi,
  good st bs fl -> In (q, s) (allocs (first_bp st) bs) ->
  same_outside lo hi (heap st) m' -> q <= lo -> hi <= q + s - 4 ->
  good (set_heap st m') bs fl.
Proof.
  intros st bs fl m' q s lo hi (Hsh & Hadj & Hl) Hin Hs Hlo Hhi.
  apply allocs_split in Hin. destruct Hin as (l1 & l2 & -> & ->).
  pose proof (shape_sizes _ _ Hsh) as Z0. apply sizes_ok_app in Z0.
  destruct Z0 as [Z1 Z2]. apply sizes_ok_cons in Z2. destruct Z2 as [_ Z2].
  split; [eapply shape_inner_frame; eassumption|]. split; [exact Hadj|].
  apply (lists_reframe st (set_heap st m') (l1 ++ (s, true) :: l2)
           (l1 ++ (s, true) :: l2) fl [] []);
    [exact Hl|reflexivity|reflexivity| |tauto].
  intros q0 s0 Hq _ x Hx. cbn [heap set_heap]. apply Hs.
  destruct (frees_position _ _ _ _ _ _ _ Z1 Z2 Hq) as [H|[(_ & _ & H)|(H & _)]];
    [lia|discriminate|lia].
Qed.

Lemma grown_geom_brk : forall st st' bs', grown st st' -> shape st' bs' ->
  mem_start st' = mem_start st /\ mem_brk st' <= mem_max_addr st.
Proof.
  intros st st' bs' (E1 & E2 & _) H. pose proof (sh_brk _ _ H). split; [assumption|lia].
Qed.

(** [realloc] of a live pointer with what it leaves in memory: the first
    [min size (s - 4)] bytes of the new payload are those of the old one, and
    the payloads of the other allocated blocks are as before. *)
Lemma realloc_frame_ok : forall st bs fl p s size,
  good st bs fl -> In (p, s) (allocs (first_bp st) bs) -> 0 < size <= max_request ->
  exists st' r, realloc st p size = Ok (st', r) /\
   ((r = 0 /\ st' = st) \/
    (exists st1 st2 bs' fl' sz,
        malloc st size = Ok (st1, r) /\ r <> 0 /\ r <> p /\
        memcpy st1 r p (Z.min size s) = Ok st2 /\
        (forall i, 0 <= i < Z.min size s ->
                   heap st2 (r + i) = byte_at (heap st1) (p + i)) /\
        free st2 p = Ok st' /\
        good st' bs' fl' /\ grown st st' /\ adjust size <= sz /\
        (forall q s0, In (q, s0) (allocs (first_bp st) bs') <->
            q <> p /\ ((q = r /\ s0 = sz) \/ In (q, s0) (allocs (first_bp st) bs))) /\
        (forall i, 0 <= i < Z.min size (s - 4) ->
                   heap st' (r + i) = byte_at (heap st) (p + i)) /\
        (forall q s0, In (q, s0) (allocs (first_bp st) bs) -> q <> p ->
                      forall x, q <= x < q + s0 - 4 -> heap st' x = heap st x) /\
        (exists bs2 fl2, good st2 bs2 fl2 /\ In (p, s) (allocs (first_bp st2) bs2)))).
Proof.
  intros st bs fl p s size G Hin Hsz.
  destruct (adjust_facts size Hsz) as (A1 & A2 & A3 & A4 & A5).
  pose proof G as (Hsh & _).
  pose proof (alloc_block_facts _ _ (shape_geom _ _ Hsh) _ _ Hin)
    as (B1 & B2 & B3 & B4 & B5 & B6 & B7 & B8).
  unfold realloc. destruct (Z.eqb_spec size 0) as [|_]; [lia|].
  destruct (Z.eqb_spec p 0) as [|_]; [lia|].
  destruct (malloc_frame_ok st bs fl size G Hsz) as (st1 & r & M1 & M2).
  rewrite M1. cbn [bind].
  destruct M2 as [(-> & ->)|(bs1 & fl1 & sz & G1 & Hg & Hsz1 & Hfresh & Hal & Hk1)].
  { cbn [Z.eqb]. exists st, 0. split; [reflexivity|]. left. split; reflexivity. }
  pose proof G1 as (Hsh1 & _). pose proof (grown_first_bp _ _ Hg) as Hfb.
  assert (Hr1 : In (r, sz) (allocs (first_bp st1) bs1)).
  { rewrite Hfb. apply Hal. left. split; reflexivity. }
  assert (Hp1 : In (p, s) (allocs (first_bp st1) bs1)).
  { rewrite Hfb. apply Hal. right. exact Hin. }
  pose proof (alloc_block_facts _ _ (shape_geom _ _ Hsh1) _ _ Hr1)
    as (R1 & R2 & R3 & R4 & R5 & R6 & R7 & R8).
  pose proof (alloc_block_facts _ _ (shape_geom _ _ Hsh1) _ _ Hp1)
    as (P1 & P2 & _).
  destruct (Z.eqb_spec r 0) as [|Hr0]; [lia|].
  destruct (alloc_hdr _ _ _ _ Hsh1 Hp1) as (Hps & _). rewrite Hps.
  assert (Hmin : (if size <? s then size else s) = Z.min size s).
  { destruct (Z.ltb_spec size s); lia. }
  rewrite Hmin. set (n := Z.min size s) in *.
  assert (Hn : 0 < n <= size) by (unfold n; lia).
  assert (Hns : n <= s) by (unfold n; lia).
  pose proof (sh_brk _ _ Hsh1) as Hbrk. pose proof (sh_lo _ _ Hsh1) as Hlo.
  assert (Hcp : memcpy st1 r p n =
                Ok (set_heap st1 (copy_bytes (Z.to_nat n) (heap st1) (heap st1) r p))).
  { unfold memcpy, in_arena. destruct (Z.eqb_spec n 0) as [|_]; [lia|].
    unfold first_bp in R1, P1.
    destruct (Z.leb_spec (mem_start st1) r); [|lia].
    destruct (Z.leb_spec (r + n) (mem_max_addr st1)); [|lia].
    destruct (Z.leb_spec (mem_start st1) p); [|lia].
    destruct (Z.leb_spec (p + n) (mem_max_addr st1)); [|lia].
    reflexivity. }
  rewrite Hcp. cbn [bind].
  set (st2 := set_heap st1 (copy_bytes (Z.to_nat n) (heap st1) (heap st1) r p)) in *.
  assert (G2 : good st2 bs1 fl1).
  { apply (payload_write_good st1 bs1 fl1 _ r sz r (r + n) G1 Hr1); [|lia|lia].
    intros x Hx. apply copy_bytes_outside. rewrite Z2Nat.id by lia. exact Hx. }
  destruct (free_live_frame st2 bs1 fl1 p s G2 Hp1)
    as (st3 & bs3 & fl3 & F1 & F2 & F3 & F4 & F5).
  rewrite F1. cbn [bind].
  assert (Hrp : r <> p) by (intros ->; apply (Hfresh s); exact Hin).
  change (first_bp st2) with (first_bp st1) in F4, F5. rewrite Hfb in F4, F5.
  assert (Hst2 : forall x, x < r \/ r + n <= x -> heap st2 x = heap st1 x).
  { intros x Hx. unfold st2. cbn [heap set_heap].
    apply copy_bytes_outside. rewrite Z2Nat.id by lia. exact Hx. }
  exists st3, r. split; [reflexivity|]. right.
  exists st1, st2, bs3, fl3, sz.
  split; [reflexivity|]. split; [assumption|].
  split; [exact Hrp|].
  split; [exact Hcp|].
  split; [intros i Hi; unfold st2; cbn [heap set_heap];
          apply copy_bytes_inside; rewrite Z2Nat.id by lia; exact Hi|].
  split; [exact F1|]. split; [exact F2|].
  split; [eapply grown_trans; [exact Hg|apply same_arena_grown; exact F3]|].
  split; [exact Hsz1|].
  split; [intros q s0; rewrite F4; rewrite Hal; reflexivity|].
  split; [|split; [|exists bs1, fl1; split; [exact G2|exact Hp1]]].
  - intros i Hi.
    assert (Hr3 : In (r, sz) (allocs (first_bp st) bs3)).
    { apply F4. split; [exact Hrp|]. apply Hal. left. split; reflexivity. }
    rewrite (F5 r sz Hr3 (r + i)) by lia.
    unfold st2. cbn [heap set_heap].
    rewrite copy_bytes_inside by (rewrite Z2Nat.id by lia; lia).
    unfold byte_at. rewrite (Hk1 p s Hin (p + i)) by lia. reflexivity.
  - intros q s0 Hq Hqp x Hx.
    assert (Hq1 : In (q, s0) (allocs (first_bp st) bs1)) by (apply Hal; now right).
    assert (Hq3 : In (q, s0) (allocs (first_bp st) bs3)).
    { apply F4. split; assumption. }
    assert (Hqr : q <> r) by (intros ->; apply (Hfresh s0); exact Hq).
    rewrite <- Hfb in Hq1.
    pose proof (allocs_apart _ _ _ _ _ _ (shape_sizes _ _ Hsh1) Hq1 Hr1 Hqr) as Hap.
    rewrite (F5 q s0 Hq3 x Hx), Hst2 by lia.
    exact (Hk1 q s0 Hq x Hx).
Qed.

(** [realloc] of a live pointer to a positive size: a fresh block, a copy of
    [min size s] bytes where [s] is the stored size of the old block, and the
    release of the old block.  When the inner [malloc] fails nothing changes. *)
Lemma realloc_ok : forall st bs fl p s size,
  good st bs fl -> In (p, s) (allocs (first_bp st) bs) -> 0 < size <= max_request ->
  exists st' r, realloc st p size = Ok (st', r) /\
   ((r = 0 /\ st' = st) \/
    (exists st1 st2 bs' fl' sz,
        malloc st size = Ok (st1, r) /\ r <> 0 /\ r <> p /\
        memcpy st1 r p (Z.min size s) = Ok st2 /\
        (forall i, 0 <= i < Z.min size s ->
                   heap st2 (r + i) = byte_at (heap st1) (p + i)) /\
        free st2 p = Ok st' /\
        good st' bs' fl' /\ grown st st' /\ adjust size <= sz /\
        (forall q s0, In (q, s0) (allocs (first_bp st) bs') <->
            q <> p /\ ((q = r /\ s0 = sz) \/ In (q, s0) (allocs (first_bp st) bs))))).
Proof.
  intros st bs fl p s size G Hin Hsz.
  destruct (realloc_frame_ok st bs fl p s size G Hin Hsz) as (st' & r & R1 & R2).
  exists st', r. split; [exact R1|].
  destruct R2 as [R2|(st1 & st2 & bs' & fl' & sz & A & B & C & D & E & F & H & I & J & K & _)];
    [left; exact R2|right].
  exists st1, st2, bs', fl', sz. auto 12.
Qed.

(* ================================================================= *)
(** * Histories of calls *)

(** The provider before the first call: nothing handed out, [heap_listp]
    still 0.  The list heads may hold anything.  The arena starts at a
    positive 8-aligned address, ends below 2^64 and spans less than 2^32
    bytes ([arena_ok]): sizes are stored in the 32 bits of a header. *)
Definition uninitialized (st : state) : Prop :=
  heap_listp st = 0 /\ mem_brk st = mem_start st /\
  arena_ok (mem_start st) (mem_max_addr st).

Lemma mm_init_uninit : forall st, uninitialized st ->
  mm_init st = mm_init (fresh (heap st) (mem_start st) (mem_max_addr st)).
Proof.
  intros [m lo brk max hl lh] (E1 & E2 & _). cbn in E1, E2. subst hl brk. reflexivity.
Qed.

Lemma mm_init_good : forall st st', uninitialized st ->
  mm_init st = Ok (st', 0) ->
  exists bs fl, good st' bs fl /\ mem_start st' = mem_start st /\
                mem_max_addr st' = mem_max_addr st.
Proof.
  intros st st' Hu Hi. rewrite (mm_init_uninit _ Hu) in Hi. destruct Hu as (_ & _ & Har).
  set (lo := mem_start st) in *. set (max := mem_max_addr st) in *.
  destruct (Z_le_gt_dec (lo + 16 + CHUNKSIZE) max) as [Hroom|Hfull].
  - destruct (mm_init_ok (heap st) lo max Har Hroom) as (st1 & fl1 & I1 & I2 & I3 & I4).
    rewrite I1 in Hi. injection Hi as <-. eauto.
  - exfalso. unfold CHUNKSIZE in Hfull. pose proof Har as (A1 & A2 & A3 & A4).
    unfold mm_init, mem_sbrk in Hi. cbn [mem_brk mem_max_addr clear_lists fresh] in Hi.
    unfold_consts.
    destruct (Z.leb_spec (lo + 4 * 4) max) as [Hfit|Hno].
    + destruct (Z.eqb_spec lo SIZE_MAX) as [E|_]; [discriminate|].
      rewrite extend_heap_fail in Hi; [cbn in Hi; discriminate|].
      assert (Hes : ext_size (4096 / 4) = 4096) by (apply (ext_size_even 4096); [lia|reflexivity]).
      rewrite Hes. cbn [mem_brk mem_max_addr set_heap_listp set_heap]. lia.
    + cbn [Z.eqb SIZE_MAX] in Hi. discriminate.
Qed.

Definition add_live (r : Z) (L : list Z) : list Z := if r =? 0 then L else r :: L.
Definition del_live (p : Z) (L : list Z) : list Z := remove Z.eq_dec p L.

(** [reachable B st L]: [st] is reached from a successful [mm_init], on an
    arena that satisfies [arena_ok], by calls
    of [malloc], [free], [realloc] and [extend_heap]; [L] lists the pointers
    handed out and not yet released.  Requested sizes are at most [B];
    [free] and [realloc] receive NULL or a live pointer; [extend_heap] is
    asked for at least one minimal block. *)
Inductive reachable (B : Z) : state -> list Z -> Prop :=
| reach_init : forall st0 st,
    uninitialized st0 -> mm_init st0 = Ok (st, 0) -> reachable B st []
| reach_malloc : forall st L size st' r,
    reachable B st L -> 0 <= size <= B -> malloc st size = Ok (st', r) ->
    reachable B st' (add_live r L)
| reach_free : forall st L p st',
    reachable B st L -> p = 0 \/ In p L -> free st p = Ok st' ->
    reachable B st' (del_live p L)
| reach_realloc : forall st L p size st' r,
    reachable B st L -> p = 0 \/ In p L -> 0 <= size <= B ->
    realloc st p size = Ok (st', r) ->
    reachable B st'
      (if size =? 0 then del_live p L
       else if r =? 0 then L else r :: del_live p L)
| reach_extend : forall st L words st' r,
    reachable B st L -> 16 <= ext_size words ->
    extend_heap st words = Ok (st', r) -> reachable B st' L.

(** The representation invariant along a history. *)
Definition inv (st : state) (L : list Z) : Prop :=
  exists bs fl, good st bs fl /\
    forall p, In p L -> exists s, In (p, s) (allocs (first_bp st) bs).

Lemma ext_size_mod8 : forall words, ext_size words mod 8 = 0.
Proof.
  intros words. unfold ext_size, wrap64, WSIZE. pow2.
  pose proof (Z.div_mod words 2 ltac:(lia)) as E.
  pose proof (Z.mod_pos_bound words 2 ltac:(lia)) as B.
  destruct (Z.eqb_spec (words mod 2) 0) as [E0|E0]; cbn [negb].
  - rewrite E0 in E.
    pose proof (Z.div_mod (words * 4) 18446744073709551616 ltac:(lia)) as D.
    set (r := (words * 4) mod 18446744073709551616) in *.
    set (k := (words * 4) / 18446744073709551616) in *.
    replace r with ((words / 2 - 2305843009213693952 * k) * 8) by lia.
    apply Z.mod_mul. lia.
  - assert (E1 : words mod 2 = 1) by lia. rewrite E1 in E.
    pose proof (Z.div_mod ((words + 1) * 4) 18446744073709551616 ltac:(lia)) as D.
    set (r := ((words + 1) * 4) mod 18446744073709551616) in *.
    set (k := ((words + 1) * 4) / 18446744073709551616) in *.
    replace r with ((words / 2 + 1 - 2305843009213693952 * k) * 8) by lia.
    apply Z.mod_mul. lia.
Qed.

Lemma inv_live_nonzero : forall st L p, inv st L -> In p L -> p <> 0.
Proof.
  intros st L p (bs & fl & (Hsh & _) & HL) Hin. destruct (HL p Hin) as (s & Hs).
  pose proof (alloc_block_facts _ _ (shape_geom _ _ Hsh) _ _ Hs). lia.
Qed.

Lemma inv_malloc : forall st L size st' r,
  inv st L -> 0 <= size <= max_request -> malloc st size = Ok (st', r) ->
  inv st' (add_live r L).
Proof.
  intros st L size st' r (bs & fl & G & HL) Hsz Hm. pose proof G as (Hsh & _).
  destruct (Z.eq_dec size 0) as [->|Hne].
  - rewrite (malloc_zero _ _ Hsh) in Hm. injection Hm as <- <-.
    exists bs, fl. split; assumption.
  - destruct (malloc_ok st bs fl size G ltac:(lia)) as (st1 & r1 & M1 & M2).
    rewrite M1 in Hm. injection Hm as <- <-.
    destruct M2 as [(-> & ->)|(bs1 & fl1 & sz & G1 & Hg & _ & _ & Hal)].
    + exists bs, fl. split; assumption.
    + exists bs1, fl1. split; [exact G1|]. rewrite (grown_first_bp _ _ Hg).
      intros p Hp. unfold add_live in Hp.
      destruct (Z.eqb_spec r1 0) as [_|_]; [|destruct Hp as [<-|Hp]].
      * destruct (HL p Hp) as (s & Hs). exists s. apply Hal. now right.
      * exists sz. apply Hal. left. split; reflexivity.
      * destruct (HL p Hp) as (s & Hs). exists s. apply Hal. now right.
Qed.

Lemma inv_free : forall st L p st',
  inv st L -> p = 0 \/ In p L -> free st p = Ok st' -> inv st' (del_live p L).
Proof.
  intros st L p st' (bs & fl & G & HL) Hp Hf.
  destruct Hp as [->|Hp].
  - cbn in Hf. injection Hf as <-. exists bs, fl. split; [exact G|].
    intros q Hq. apply in_remove in Hq. apply HL. tauto.
  - destruct (HL p Hp) as (s & Hs).
    destruct (free_live st bs fl p s G Hs) as (st1 & bs1 & fl1 & F1 & F2 & F3 & F4).
    rewrite F1 in Hf. injection Hf as <-.
    exists bs1, fl1. split; [exact F2|]. rewrite (grown_first_bp _ _ (same_arena_grown _ _ F3)).
    intros q Hq. apply in_remove in Hq. destruct Hq as [Hq Hne].
    destruct (HL q Hq) as (s0 & Hs0). exists s0. apply F4. split; assumption.
Qed.

Lemma inv_realloc : forall st L p size st' r,
  inv st L -> p = 0 \/ In p L -> 0 <= size <= max_request ->
  realloc st p size = Ok (st', r) ->
  inv st' (if size =? 0 then del_live p L
           else if r =? 0 then L else r :: del_live p L).
Proof.
  intros st L p size st' r Hinv Hp Hsz Hr.
  destruct (Z.eqb_spec size 0) as [->|Hne].
  - unfold realloc in Hr. cbn [Z.eqb] in Hr.
    destruct (free st p) as [st1|e] eqn:Hf; [|discriminate]. cbn [bind] in Hr.
    injection Hr as <- <-. eapply inv_free; eassumption.
  - destruct Hp as [->|Hp].
    + unfold realloc in Hr. destruct (Z.eqb_spec size 0) as [|_]; [contradiction|].
      cbn [Z.eqb] in Hr. pose proof (inv_malloc _ _ _ _ _ Hinv Hsz Hr) as Hi.
      unfold add_live in Hi. destruct (Z.eqb_spec r 0); [exact Hi|].
      destruct Hi as (bs & fl & G & HL). exists bs, fl. split; [exact G|].
      intros q [<-|Hq]; [apply HL; now left|].
      apply in_remove in Hq. apply HL. right. tauto.
    + destruct Hinv as (bs & fl & G & HL). destruct (HL p Hp) as (s & Hs).
      destruct (realloc_ok st bs fl p s size G Hs ltac:(lia)) as (st1 & r1 & R1 & R2).
      rewrite R1 in Hr. injection Hr as <- <-.
      destruct R2 as [(-> & ->)|(sa & sb & bs1 & fl1 & sz & _ & Hr0 & Hd & _ & _ & _ & G1 & Hg & _ & Hal)].
      * cbn [Z.eqb]. exists bs, fl. split; assumption.
      * destruct (Z.eqb_spec r1 0); [contradiction|].
        exists bs1, fl1. split; [exact G1|]. rewrite (grown_first_bp _ _ Hg).
        intros q [<-|Hq].
        -- exists sz. apply Hal. split; [|left; split; reflexivity].
           exact Hd.
        -- apply in_remove in Hq. destruct Hq as [Hq Hqp].
           destruct (HL q Hq) as (s0 & Hs0). exists s0. apply Hal. split; [assumption|now right].
Qed.

Lemma inv_extend : forall st L words st' r,
  inv st L -> 16 <= ext_size words -> extend_heap st words = Ok (st', r) -> inv st' L.
Proof.
  intros st L words st' r (bs & fl & G & HL) Hw He.
  destruct (Z_lt_le_dec (mem_max_addr st) (mem_brk st + ext_size words)) as [Hfull|Hroom].
  - rewrite extend_heap_fail in He by assumption. injection He as <- <-.
    exists bs, fl. split; assumption.
  - destruct (extend_heap_ok st bs fl words G Hw (ext_size_mod8 words) Hroom)
      as (st1 & r1 & bs1 & fl1 & Q1 & Q2 & Q3 & Q4 & _).
    rewrite Q1 in He. injection He as <- <-.
    exists bs1, fl1. split; [exact Q2|].
    assert (Hfb : first_bp st1 = first_bp st).
    { destruct Q3 as (E & _). unfold first_bp. rewrite E. reflexivity. }
    rewrite Hfb, Q4. exact HL.
Qed.

(** Every reachable state satisfies the representation invariant, as long
    as no requested size exceeds [max_request]. *)
Lemma reachable_inv : forall st L, reachable max_request st L -> inv st L.
Proof.
  intros st L H. induction H as
    [st0 st Hu Hi
    |st L size st' r _ IH Hsz Hm
    |st L p st' _ IH Hp Hf
    |st L p size st' r _ IH Hp Hsz Hr
    |st L words st' r _ IH Hw He].
  - destruct (mm_init_good _ _ Hu Hi) as (bs & fl & G & _).
    exists bs, fl. split; [exact G|]. intros p [].
  - eapply inv_malloc; eassumption.
  - eapply inv_free; eassumption.
  - eapply inv_realloc; eassumption.
  - eapply inv_extend; eassumption.
Qed.

(* ================================================================= *)
(** * The heap as a walk over its blocks *)

(** The traversal [for (bp = heap_listp; ...; bp = NEXT_BLKP(bp))]: payload
    addresses from the prologue up to and including the first block of size
    zero. *)
Fixpoint block_walk (fuel : nat) (m : mem) (bp : Z) : list Z :=
  match fuel with
  | O => []
  | S f => if GET_SIZE m (HDRP bp) =? 0 then [bp]
           else bp :: block_walk f m (NEXT_BLKP m bp)
  end.

Definition heap_blocks (st : state) : list Z :=
  block_walk (fuel_of st) (heap st) (heap_listp st).

(** A test on every pair of physically adjacent blocks of a walk. *)
Fixpoint each_pair (P : Z -> Z -> bool) (prev : Z) (l : list Z) : bool :=
  match l with
  | [] => true
  | b :: r => P prev b && each_pair P b r
  end.

Definition on_walk (P : Z -> Z -> bool) (st : state) : bool :=
  match heap_blocks st with
  | [] => true
  | b :: r => each_pair P b r
  end.

(** I3 for one block: a free block's footer repeats its header. *)
Definition footer_agrees (m : mem) (_ b : Z) : bool :=
  negb (GET_ALLOC m (HDRP b) =? 0) || (GET m (HDRP b) =? GET m (FTRP m b)).

(** I4 for one block: its prev-allocated bit is the allocated bit of the
    block before it. *)
Definition prev_bit_agrees (m : mem) (prev b : Z) : bool :=
  PREVX m (HDRP b) =? 4 * GET_ALLOC m (HDRP prev).

(** I5 for one pair: the two blocks are not both free. *)
Definition not_both_free (m : mem) (prev b : Z) : bool :=
  negb ((GET_ALLOC m (HDRP prev) =? 0) && (GET_ALLOC m (HDRP b) =? 0)).

Definition I3 (st : state) : bool := on_walk (footer_agrees (heap st)) st.
Definition I4 (st : state) : bool := on_walk (prev_bit_agrees (heap st)) st.
Definition I5 (st : state) : bool := on_walk (not_both_free (heap st)) st.

(** Payload addresses of a block sequence. *)
Fixpoint addrs (p : Z) (bs : list block) : list Z :=
  match bs with
  | [] => []
  | (s, _) :: r => p :: addrs (p + s) r
  end.

Lemma block_walk_tail : forall m bs p pa e fuel,
  tail_ok m p pa bs e -> e - p < 4294967296 -> (length bs < fuel)%nat ->
  block_walk fuel m p = addrs p bs ++ [e].
Proof.
  induction bs as [|[s a] r IH]; intros p pa e fuel HT Hlt Hf.
  - destruct (tail_head _ _ _ _ _ HT Hlt) as (s & a & Hh & Hr & H8 & Hc).
    destruct Hc as [(_ & -> & _ & ->)|(r & Hr' & _)]; [|discriminate].
    destruct (fields_of_GET _ _ _ _ _ Hh ltac:(lia) H8 ltac:(pow2; lia)) as (F & _).
    destruct fuel as [|f]; [cbn in Hf; lia|]. cbn [block_walk addrs app].
    unfold_consts. rewrite F. reflexivity.
  - pose proof HT as (T1 & T2 & T3).
    pose proof (seg_ok_sizes _ _ _ _ T1) as Hsz. apply sizes_ok_cons in Hsz.
    destruct Hsz as [[S1 S2] Zr]. pose proof (sizes_ok_total _ Zr) as Ht.
    cbn [total] in T2. destruct T1 as (_ & _ & C & D & E).
    destruct (fields_of_GET _ _ _ _ _ C ltac:(lia) S2 ltac:(pow2; lia)) as (F & _).
    destruct fuel as [|f]; [cbn in Hf; lia|]. cbn [block_walk addrs app].
    unfold NEXT_BLKP. unfold_consts. rewrite F.
    destruct (Z.eqb_spec s 0); [lia|]. f_equal.
    apply (IH (p + s) a e f); [|lia|cbn [length] in Hf; lia].
    repeat split; [exact E|lia|exact T3].
Qed.

Lemma heap_blocks_shape : forall st bs, shape st bs ->
  heap_blocks st = heap_listp st :: addrs (first_bp st) bs ++ [mem_brk st].
Proof.
  intros st bs H. unfold heap_blocks.
  pose proof (shape_tail _ _ H) as HT. pose proof (shape_sizes _ _ H) as Hsz.
  pose proof (sizes_ok_length _ Hsz) as Hlen. pose proof (sizes_ok_total _ Hsz) as Ht.
  destruct H. unfold first_bp in *.
  destruct (fields_of_GET _ _ _ _ _ sh_pro0 ltac:(lia) eq_refl ltac:(pow2; lia)) as (F & _).
  unfold fuel_of. rewrite sh_hlp0.
  cbn [block_walk]. unfold NEXT_BLKP. unfold_consts.
  replace (mem_start st + 8 - 4) with (mem_start st + 4) by lia. rewrite F.
  cbn [Z.eqb]. f_equal. replace (mem_start st + 8 + 8) with (mem_start st + 16) by lia.
  apply (block_walk_tail _ _ _ true); [exact HT|lia|lia].
Qed.

(** What the tags of a well-formed sequence give for each adjacent pair. *)
Definition pair_rule (m : mem) (P : Z -> Z -> bool) : Prop :=
  forall prev b pa s a,
    GET_ALLOC m (HDRP prev) = b2z1 pa -> GET m (HDRP b) = hdr s pa a ->
    0 <= s < 4294967296 -> s mod 8 = 0 ->
    (a = false -> GET m (b + s - 8) = hdr s pa false) ->
    (pa = true \/ a = true) -> P prev b = true.

Lemma each_pair_tail : forall m P, pair_rule m P ->
  forall bs p pa prev e,
  tail_ok m p pa bs e -> e - p < 4294967296 ->
  GET_ALLOC m (HDRP prev) = b2z1 pa -> adj_ok ((0, pa) :: bs) ->
  each_pair P prev (addrs p bs ++ [e]) = true.
Proof.
  intros m P HP. induction bs as [|[s a] r IH]; intros p pa prev e HT Hlt Hprev Hadj.
  - destruct HT as (_ & T2 & T3). cbn [total last_alloc] in T2, T3.
    cbn [addrs app each_pair]. rewrite andb_true_r.
    apply (HP prev e pa 0 true); try assumption; try lia; try reflexivity.
  - pose proof HT as (T1 & T2 & T3).
    pose proof (seg_ok_sizes _ _ _ _ T1) as Hsz. apply sizes_ok_cons in Hsz.
    destruct Hsz as [[S1 S2] Zr]. pose proof (sizes_ok_total _ Zr) as Ht.
    cbn [total] in T2. destruct T1 as (_ & _ & C & D & E).
    destruct (fields_of_GET _ _ _ _ _ C ltac:(lia) S2 ltac:(pow2; lia)) as (_ & _ & F).
    cbn [addrs app each_pair]. apply andb_true_intro. split.
    + apply (HP prev p pa s a); try assumption; try lia.
      cbn in Hadj. tauto.
    + apply (IH (p + s) a p e); [repeat split; [exact E|lia|exact T3]|lia|exact F|].
      cbn in Hadj. destruct Hadj as [_ Hadj]. destruct r as [|[s2 a2] r2]; [exact I|].
      cbn in Hadj |- *. exact Hadj.
Qed.

Lemma footer_rule : forall m, pair_rule m (footer_agrees m).
Proof.
  intros m prev b pa s a _ Hh Hs H8 Hf _. unfold footer_agrees.
  destruct (fields_of_GET _ _ _ _ _ Hh ltac:(lia) H8 ltac:(pow2; lia)) as (F1 & _ & F3).
  rewrite F3. destruct a; [reflexivity|]. cbn [b2z1 Z.eqb negb orb].
  unfold FTRP. rewrite F1. unfold DSIZE. rewrite Hh, (Hf eq_refl). apply Z.eqb_refl.
Qed.

Lemma prev_bit_rule : forall m, pair_rule m (prev_bit_agrees m).
Proof.
  intros m prev b pa s a Hp Hh Hs H8 _ _. unfold prev_bit_agrees.
  destruct (fields_of_GET _ _ _ _ _ Hh ltac:(lia) H8 ltac:(pow2; lia)) as (_ & F2 & _).
  rewrite F2, Hp. destruct pa; reflexivity.
Qed.

Lemma not_both_free_rule : forall m, pair_rule m (not_both_free m).
Proof.
  intros m prev b pa s a Hp Hh Hs H8 _ Hor. unfold not_both_free.
  destruct (fields_of_GET _ _ _ _ _ Hh ltac:(lia) H8 ltac:(pow2; lia)) as (_ & _ & F3).
  rewrite F3, Hp. destruct Hor as [-> | ->]; [reflexivity|].
  destruct pa; reflexivity.
Qed.

Lemma on_walk_good : forall st bs fl P,
  good st bs fl -> pair_rule (heap st) P -> on_walk P st = true.
Proof.
  intros st bs fl P (Hsh & Hadj & _) HP. unfold on_walk.
  rewrite (heap_blocks_shape _ _ Hsh).
  apply (each_pair_tail _ _ HP bs (first_bp st) true (heap_listp st) (mem_brk st)).
  - apply shape_tail. exact Hsh.
  - destruct Hsh. unfold first_bp. lia.
  - rewrite (sh_hlp _ _ Hsh). unfold_consts.
    replace (mem_start st + 8 - 4) with (mem_start st + 4) by lia.
    pose proof (sh_pro _ _ Hsh) as Hp.
    destruct (fields_of_GET _ _ _ _ _ Hp ltac:(lia) eq_refl ltac:(pow2; lia)) as (_ & _ & F).
    exact F.
  - destruct bs as [|[s a] r]; [exact I|]. split; [now left|exact Hadj].
Qed.

(** A heap that satisfies I1 to I8. *)
Definition valid_heap (st : state) : Prop := exists bs fl, good st bs fl.

(** What a well-formed heap says of the provider: the arena starts at a
    positive 8-aligned address, ends below 2^64 and spans less than 2^32
    bytes, the range of the size field of a header. *)
Lemma valid_heap_arena : forall st, valid_heap st ->
  0 < mem_start st /\ mem_start st mod 8 = 0 /\
  mem_max_addr st < 18446744073709551616 /\
  mem_max_addr st - mem_start st < 4294967296 /\
  mem_brk st <= mem_max_addr st.
Proof.
  intros st (bs & fl & Hsh & _). destruct Hsh. repeat split; assumption.
Qed.

Lemma reachable_valid : forall st L, reachable max_request st L -> valid_heap st.
Proof.
  intros st L H. destruct (reachable_inv _ _ H) as (bs & fl & G & _). exists bs, fl. exact G.
Qed.


(* ================================================================= *)
(** * Concrete histories *)

(** A provider with a zeroed arena of 20000 bytes at address 4096. *)
Definition arena0 : state := fresh (fun _ => 0) 4096 24096.

Definition is_ok {A : Type} (r : result A) : bool :=
  match r with Ok _ => true | Err _ => false end.

Definition state_of (r : result (state * Z)) : state :=
  match r with Ok (s, _) => s | Err _ => arena0 end.

Definition value_of (r : result (state * Z)) : Z :=
  match r with Ok (_, v) => v | Err _ => 0 end.

Definition state_after (r : result state) : state :=
  match r with Ok s => s | Err _ => arena0 end.

Lemma run_eq : forall r : result (state * Z),
  is_ok r = true -> r = Ok (state_of r, value_of r).
Proof. intros [[s v]|e] H; [reflexivity|discriminate]. Qed.

Lemma run_value_eq : forall (r : result (state * Z)) v,
  is_ok r = true -> value_of r = v -> r = Ok (state_of r, v).
Proof. intros [[s v0]|e] v H E; [cbn in E; subst; reflexivity|discriminate]. Qed.

Lemma run_state_eq : forall r : result state,
  is_ok r = true -> r = Ok (state_after r).
Proof. intros [s|e] H; [reflexivity|discriminate]. Qed.

(** The heap right after [mm_init] on the fresh arena.  The states of the
    histories below are written as the calls that produce them. *)
Abbreviation heap1 := (state_of (mm_init arena0)).

Lemma arena0_uninitialized : uninitialized arena0.
Proof.
  unfold uninitialized, arena_ok, arena0, fresh. cbn [heap_listp mem_brk mem_start mem_max_addr].
  repeat split; try reflexivity; lia.
Qed.

Lemma heap1_init : mm_init arena0 = Ok (heap1, 0).
Proof.
  apply (run_value_eq (mm_init arena0) 0); vm_compute; reflexivity.
Qed.

Lemma heap1_reachable : forall B, reachable B heap1 [].
Proof. intros B. exact (reach_init B arena0 heap1 arena0_uninitialized heap1_init). Qed.

(** A short well-behaved history: two allocations, then the release of the
    first. *)
Abbreviation hist_a := (malloc heap1 100).
Abbreviation hist_b := (malloc (state_of hist_a) 200).
Abbreviation hist_c := (free (state_of hist_b) (value_of hist_a)).
Abbreviation heap2 := (state_after hist_c).
Abbreviation live2 :=
  (del_live (value_of hist_a) (add_live (value_of hist_b) (add_live (value_of hist_a) []))).

Lemma small_request : forall n, 0 <= n <= 4294967296 -> 0 <= n <= max_request.
Proof. intros n H. unfold max_request, SIZE_MAX. pow2. lia. Qed.

Lemma heap2_reachable : reachable max_request heap2 live2.
Proof.
  assert (Ha : is_ok hist_a = true) by (vm_compute; reflexivity).
  assert (Hb : is_ok hist_b = true) by (vm_compute; reflexivity).
  assert (Hc : is_ok hist_c = true) by (vm_compute; reflexivity).
  assert (Hin : In (value_of hist_a) (add_live (value_of hist_b) (add_live (value_of hist_a) []))).
  { vm_compute. right. left. reflexivity. }
  exact (reach_free max_request (state_of hist_b)
           (add_live (value_of hist_b) (add_live (value_of hist_a) [])) (value_of hist_a) heap2
           (reach_malloc max_request (state_of hist_a) (add_live (value_of hist_a) []) 200
              (state_of hist_b) (value_of hist_b)
              (reach_malloc max_request heap1 [] 100 (state_of hist_a) (value_of hist_a)
                 (heap1_reachable max_request) (small_request 100 ltac:(lia)) (run_eq hist_a Ha))
              (small_request 200 ltac:(lia)) (run_eq hist_b Hb))
           (or_intror Hin) (run_state_eq hist_c Hc)).
Qed.

(** One more call of a history that has run so far. *)
Lemma reach_malloc_run : forall B st L size,
  reachable B st L -> 0 <= size <= B -> is_ok (malloc st size) = true ->
  reachable B (state_of (malloc st size)) (add_live (value_of (malloc st size)) L).
Proof.
  intros B st L size H Hs Hok.
  exact (reach_malloc B st L size _ _ H Hs (run_eq (malloc st size) Hok)).
Qed.

Lemma reach_free_run : forall B st L p,
  reachable B st L -> In p L -> is_ok (free st p) = true ->
  reachable B (state_after (free st p)) (del_live p L).
Proof.
  intros B st L p H Hp Hok.
  exact (reach_free B st L p _ H (or_intror Hp) (run_state_eq (free st p) Hok)).
Qed.

(** A fragmented heap: eight allocations of 64, 16, 112, 16, 24, 16, 104 and
    16 bytes (adjusted sizes), laid out one behind the other from 4112, then
    the release of the first, third, seventh and fifth.  The free blocks
    are 4112 (64 bytes, list 4), 4192 (112 bytes, list 5), 4320 (24 bytes)
    and 4360 (104 bytes), in this order on list 6, and the rest of the
    first chunk at 4480 (3728 bytes, list 13); 16-byte allocated blocks
    keep them apart. *)
Abbreviation frag_a := (malloc heap1 56).
Abbreviation frag_b := (malloc (state_of frag_a) 8).
Abbreviation frag_c := (malloc (state_of frag_b) 104).
Abbreviation frag_d := (malloc (state_of frag_c) 8).
Abbreviation frag_e := (malloc (state_of frag_d) 20).
Abbreviation frag_f := (malloc (state_of frag_e) 8).
Abbreviation frag_g := (malloc (state_of frag_f) 100).
Abbreviation frag_h := (malloc (state_of frag_g) 8).
Abbreviation frag_i := (free (state_of frag_h) (value_of frag_a)).
Abbreviation frag_j := (free (state_after frag_i) (value_of frag_c)).
Abbreviation frag_k := (free (state_after frag_j) (value_of frag_g)).
Abbreviation frag_l := (free (state_after frag_k) (value_of frag_e)).
Abbreviation heap3 := (state_after frag_l).

Abbreviation live_a := (add_live (value_of frag_a) []).
Abbreviation live_b := (add_live (value_of frag_b) live_a).
Abbreviation live_c := (add_live (value_of frag_c) live_b).
Abbreviation live_d := (add_live (value_of frag_d) live_c).
Abbreviation live_e := (add_live (value_of frag_e) live_d).
Abbreviation live_f := (add_live (value_of frag_f) live_e).
Abbreviation live_g := (add_live (value_of frag_g) live_f).
Abbreviation live_h := (add_live (value_of frag_h) live_g).
Abbreviation live_i := (del_live (value_of frag_a) live_h).
Abbreviation live_j := (del_live (value_of frag_c) live_i).
Abbreviation live_k := (del_live (value_of frag_g) live_j).
Abbreviation live3 := (del_live (value_of frag_e) live_k).

Lemma frag_a_reachable : reachable max_request (state_of frag_a) live_a.
Proof.
  exact (reach_malloc_run max_request heap1 [] 56 (heap1_reachable max_request)
           (small_request 56 ltac:(lia)) ltac:(vm_compute; reflexivity)).
Qed.

Lemma frag_b_reachable : reachable max_request (state_of frag_b) live_b.
Proof.
  exact (reach_malloc_run max_request (state_of frag_a) live_a 8 frag_a_reachable
           (small_request 8 ltac:(lia)) ltac:(vm_compute; reflexivity)).
Qed.

Lemma frag_c_reachable : reachable max_request (state_of frag_c) live_c.
Proof.
  exact (reach_malloc_run max_request (state_of frag_b) live_b 104 frag_b_reachable
           (small_request 104 ltac:(lia)) ltac:(vm_compute; reflexivity)).
Qed.

Lemma frag_d_reachable : reachable max_request (state_of frag_d) live_d.
Proof.
  exact (reach_malloc_run max_request (state_of frag_c) live_c 8 frag_c_reachable
           (small_request 8 ltac:(lia)) ltac:(vm_compute; reflexivity)).
Qed.

Lemma frag_e_reachable : reachable max_request (state_of frag_e) live_e.
Proof.
  exact (reach_malloc_run max_request (state_of frag_d) live_d 20 frag_d_reachable
           (small_request 20 ltac:(lia)) ltac:(vm_compute; reflexivity)).
Qed.

Lemma frag_f_reachable : reachable max_request (state_of frag_f) live_f.
Proof.
  exact (reach_malloc_run max_request (state_of frag_e) live_e 8 frag_e_reachable
           (small_request 8 ltac:(lia)) ltac:(vm_compute; reflexivity)).
Qed.

Lemma frag_g_reachable : reachable max_request (state_of frag_g) live_g.
Proof.
  exact (reach_malloc_run max_request (state_of frag_f) live_f 100 frag_f_reachable
           (small_request 100 ltac:(lia)) ltac:(vm_compute; reflexivity)).
Qed.

Lemma frag_h_reachable : reachable max_request (state_of frag_h) live_h.
Proof.
  exact (reach_malloc_run max_request (state_of frag_g) live_g 8 frag_g_reachable
           (small_request 8 ltac:(lia)) ltac:(vm_compute; reflexivity)).
Qed.

Lemma frag_i_reachable : reachable max_request (state_after frag_i) live_i.
Proof.
  assert (Hin : In (value_of frag_a) live_h) by (vm_compute; tauto).
  exact (reach_free_run max_request (state_of frag_h) live_h (value_of frag_a)
           frag_h_reachable Hin ltac:(vm_compute; reflexivity)).
Qed.

Lemma frag_j_reachable : reachable max_request (state_after frag_j) live_j.
Proof.
  assert (Hin : In (value_of frag_c) live_i) by (vm_compute; tauto).
  exact (reach_free_run max_request (state_after frag_i) live_i (value_of frag_c)
           frag_i_reachable Hin ltac:(vm_compute; reflexivity)).
Qed.

Lemma frag_k_reachable : reachable max_request (state_after frag_k) live_k.
Proof.
  assert (Hin : In (value_of frag_g) live_j) by (vm_compute; tauto).
  exact (reach_free_run max_request (state_after frag_j) live_j (value_of frag_g)
           frag_j_reachable Hin ltac:(vm_compute; reflexivity)).
Qed.

Lemma heap3_reachable : reachable max_request heap3 live3.
Proof.
  assert (Hin : In (value_of frag_e) live_k) by (vm_compute; tauto).
  exact (reach_free_run max_request (state_after frag_k) live_k (value_of frag_e)
           frag_k_reachable Hin ltac:(vm_compute; reflexivity)).
Qed.

(* ================================================================= *)
(** * I3, I4 and I5 along histories *)

(** C1.  In every state reached from a successful initialization, on a
    provider whose arena starts at a positive 8-aligned address, ends below
    2^64 and spans less than 2^32 bytes (every block size then fits the 32
    bits of a header), by calls of [malloc], [free], [realloc] and
    [extend_heap] whose requested sizes are at most [max_request]
    (2^64 - 12), [free] and [realloc] being given NULL or a live pointer and
    [extend_heap] being asked for at least 16 bytes: each block of the walk
    from the prologue to the epilogue carries a prev-allocated bit equal to
    the allocated bit of the block before it, and every free block carries
    a footer equal to its header: whatever an operation toggled, the tags of
    the following block were refreshed before it returned. *)
Theorem prev_allocated_bits_track_neighbours : forall st L,
  reachable max_request st L -> I4 st = true /\ I3 st = true.
Proof.
  intros st L H. destruct (reachable_valid _ _ H) as (bs & fl & G). split.
  - exact (on_walk_good st bs fl _ G (prev_bit_rule (heap st))).
  - exact (on_walk_good st bs fl _ G (footer_rule (heap st))).
Qed.

Lemma prev_allocated_bits_after_history :
  reachable max_request heap2 live2 /\ (I4 heap2 = true /\ I3 heap2 = true).
Proof.
  split; [exact heap2_reachable|].
  exact (prev_allocated_bits_track_neighbours heap2 live2 heap2_reachable).
Defined.

(** The history [p = malloc(1); realloc(p, SIZE_MAX)]: the adjusted size
    wraps to 8, the new block is carved with 4 payload bytes, and the copy of
    16 bytes runs over the header of the block behind it. *)
Abbreviation over_a := (malloc heap1 1).
Abbreviation over_b := (realloc (state_of over_a) (value_of over_a) SIZE_MAX).

Lemma oversized_realloc_reachable :
  reachable SIZE_MAX (state_of over_b) (value_of over_b :: del_live (value_of over_a) (add_live (value_of over_a) [])).
Proof.
  assert (Ha : is_ok over_a = true) by (vm_compute; reflexivity).
  assert (Hb : is_ok over_b = true) by (vm_compute; reflexivity).
  assert (Hin : In (value_of over_a) (add_live (value_of over_a) [])).
  { vm_compute. left. reflexivity. }
  assert (H1 : 0 <= 1 <= SIZE_MAX) by (unfold SIZE_MAX; pow2; lia).
  assert (H2 : 0 <= SIZE_MAX <= SIZE_MAX) by (unfold SIZE_MAX; pow2; lia).
  pose proof (reach_realloc SIZE_MAX (state_of over_a) (add_live (value_of over_a) [])
                (value_of over_a) SIZE_MAX (state_of over_b) (value_of over_b)
                (reach_malloc SIZE_MAX heap1 [] 1 (state_of over_a) (value_of over_a)
                   (heap1_reachable SIZE_MAX) H1 (run_eq over_a Ha))
                (or_intror Hin) H2 (run_eq over_b Hb)) as R.
  replace (SIZE_MAX =? 0) with false in R by (vm_compute; reflexivity).
  replace (value_of over_b =? 0) with false in R by (vm_compute; reflexivity).
  exact R.
Qed.

(** C1, as stated for any sequence of calls: a reachable state in which a
    block's prev-allocated bit differs from the allocated bit of the block
    before it. *)
Lemma prev_allocated_bit_wrong_after_oversized_realloc :
  reachable SIZE_MAX (state_of over_b)
    (value_of over_b :: del_live (value_of over_a) (add_live (value_of over_a) [])) /\
  I4 (state_of over_b) = false.
Proof.
  split; [exact oversized_realloc_reachable|]. vm_compute. reflexivity.
Qed.

(** X11.  In every state reached from a successful initialization, on a
    provider whose arena starts at a positive 8-aligned address, ends below
    2^64 and spans less than 2^32 bytes, by calls of [malloc], [free],
    [realloc] and [extend_heap] whose requested sizes are at most
    [max_request] (2^64 - 12), [free] and [realloc] being given NULL or a
    live pointer and [extend_heap] being asked for at least 16 bytes: no two
    physically adjacent blocks of the walk are both free; [coalesce] has
    merged each freed or newly added block with its free neighbours before
    inserting it. *)
Theorem no_adjacent_free_blocks : forall st L,
  reachable max_request st L -> I5 st = true.
Proof.
  intros st L H. destruct (reachable_valid _ _ H) as (bs & fl & G).
  exact (on_walk_good st bs fl _ G (not_both_free_rule (heap st))).
Qed.

Lemma no_adjacent_free_blocks_after_history :
  reachable max_request heap2 live2 /\ I5 heap2 = true.
Proof.
  split; [exact heap2_reachable|].
  exact (no_adjacent_free_blocks heap2 live2 heap2_reachable).
Defined.

(** The history [a = malloc(SIZE_MAX); b = malloc(1); free(a)]: block [a] has
    stored size 8, so the link word that [insertx] writes at [a] runs over
    the header of [b]. *)
Abbreviation wrap_a := (malloc heap1 SIZE_MAX).
Abbreviation wrap_b := (malloc (state_of wrap_a) 1).
Abbreviation wrap_c := (free (state_of wrap_b) (value_of wrap_a)).

Lemma oversized_malloc_reachable :
  reachable SIZE_MAX (state_after wrap_c)
    (del_live (value_of wrap_a) (add_live (value_of wrap_b) (add_live (value_of wrap_a) []))).
Proof.
  assert (Ha : is_ok wrap_a = true) by (vm_compute; reflexivity).
  assert (Hb : is_ok wrap_b = true) by (vm_compute; reflexivity).
  assert (Hc : is_ok wrap_c = true) by (vm_compute; reflexivity).
  assert (Hin : In (value_of wrap_a) (add_live (value_of wrap_b) (add_live (value_of wrap_a) []))).
  { vm_compute. right. left. reflexivity. }
  assert (H1 : 0 <= 1 <= SIZE_MAX) by (unfold SIZE_MAX; pow2; lia).
  assert (H2 : 0 <= SIZE_MAX <= SIZE_MAX) by (unfold SIZE_MAX; pow2; lia).
  exact (reach_free SIZE_MAX (state_of wrap_b)
           (add_live (value_of wrap_b) (add_live (value_of wrap_a) [])) (value_of wrap_a)
           (state_after wrap_c)
           (reach_malloc SIZE_MAX (state_of wrap_a) (add_live (value_of wrap_a) []) 1
              (state_of wrap_b) (value_of wrap_b)
              (reach_malloc SIZE_MAX heap1 [] SIZE_MAX (state_of wrap_a) (value_of wrap_a)
                 (heap1_reachable SIZE_MAX) H2 (run_eq wrap_a Ha))
              H1 (run_eq wrap_b Hb))
           (or_intror Hin) (run_state_eq wrap_c Hc)).
Qed.

(** With requests of any size this fails: a reachable state in which two
    physically adjacent blocks both have a clear allocated bit. *)
Lemma adjacent_free_blocks_after_oversized_malloc :
  reachable SIZE_MAX (state_after wrap_c)
    (del_live (value_of wrap_a) (add_live (value_of wrap_b) (add_live (value_of wrap_a) []))) /\
  I5 (state_after wrap_c) = false.
Proof.
  split; [exact oversized_malloc_reachable|]. vm_compute. reflexivity.
Qed.

(* ================================================================= *)
(** * The adjusted size of a request *)

(** The rounding rule in the words of the specification: 16 up to 8 bytes,
    else the least multiple of 8 that holds the request and a header. *)
Definition ceil_div (a b : Z) : Z := (a + b - 1) / b.

Definition adjusted_size (n : Z) : Z :=
  if n <=? 8 then 16 else 8 * ceil_div (n + 4) 8.

Lemma adjust_adjusted : forall n, 0 < n <= max_request -> adjust n = adjusted_size n.
Proof.
  intros n H. unfold adjusted_size, ceil_div. destruct (Z.leb_spec n 8).
  - apply adjust_small. assumption.
  - rewrite adjust_large by lia. do 2 f_equal. lia.
Qed.

(** X12.  On a well-formed heap, whose arena spans less than 2^32 bytes
    ([valid_heap]), for a request of [1 <= n <= max_request] bytes
    (2^64 - 12, the largest size whose adjustment does not wrap), [malloc]
    works with the adjusted size 16 when
    [n <= 8] and [8 * ceil((n + 4) / 8)] otherwise; it returns, and a non-NULL
    result heads a block whose stored size is at least the adjusted size and
    so at least [n + 4].  A request of 0 returns NULL and changes nothing. *)
Theorem malloc_adjusted_size : forall st n,
  valid_heap st -> 1 <= n <= max_request ->
  adjust n = adjusted_size n /\
  (exists st' r, malloc st n = Ok (st', r) /\
     (r = 0 \/
      (adjusted_size n <= GET_SIZE (heap st') (HDRP r) /\
       n + 4 <= GET_SIZE (heap st') (HDRP r) /\
       GET_ALLOC (heap st') (HDRP r) = 1))) /\
  malloc st 0 = Ok (st, 0).
Proof.
  intros st n (bs & fl & G) Hn. pose proof G as (Hsh & _).
  assert (Hn' : 0 < n <= max_request) by lia.
  pose proof (adjust_adjusted n Hn') as Ea.
  destruct (adjust_facts n Hn') as (A1 & A2 & A3 & A4 & A5).
  split; [exact Ea|]. split; [|exact (malloc_zero _ _ Hsh)].
  destruct (malloc_ok st bs fl n G Hn') as (st' & r & M1 & M2).
  exists st', r. split; [exact M1|].
  destruct M2 as [(-> & _)|(bs' & fl' & sz & G' & Hg & Hsz & _ & Hal)]; [now left|right].
  assert (Hin : In (r, sz) (allocs (first_bp st') bs')).
  { rewrite (grown_first_bp _ _ Hg). apply Hal. left. split; reflexivity. }
  destruct G' as (Hsh' & _). destruct (alloc_hdr _ _ _ _ Hsh' Hin) as (F1 & F2).
  rewrite F1, F2, <- Ea. repeat split; lia.
Qed.

Lemma heap2_valid : valid_heap heap2.
Proof. exact (reachable_valid heap2 live2 heap2_reachable). Qed.

Lemma heap1_valid : valid_heap heap1.
Proof. exact (reachable_valid heap1 [] (heap1_reachable max_request)). Qed.

Lemma heap3_valid : valid_heap heap3.
Proof. exact (reachable_valid heap3 live3 heap3_reachable). Qed.

Lemma malloc_adjusted_size_at_100 :
  adjust 100 = adjusted_size 100 /\
  (exists st' r, malloc heap2 100 = Ok (st', r) /\
     (r = 0 \/
      (adjusted_size 100 <= GET_SIZE (heap st') (HDRP r) /\
       100 + 4 <= GET_SIZE (heap st') (HDRP r) /\
       GET_ALLOC (heap st') (HDRP r) = 1))) /\
  malloc heap2 0 = Ok (heap2, 0).
Proof.
  apply (malloc_adjusted_size heap2 100 heap2_valid).
  unfold max_request, SIZE_MAX. pow2. lia.
Defined.

(** Beyond [max_request] the rule fails: for [n = SIZE_MAX] the sum
    [WSIZE + n + (DSIZE - 1)] wraps, the adjusted size is 8, and the block
    that [malloc] hands out on the initialized heap has stored size 8. *)
Lemma adjusted_size_wraps_at_size_max :
  adjust SIZE_MAX = 8 /\ adjusted_size SIZE_MAX = 18446744073709551624 /\
  is_ok wrap_a = true /\ value_of wrap_a = 4112 /\
  GET_SIZE (heap (state_of wrap_a)) (HDRP (value_of wrap_a)) = 8.
Proof. repeat split; vm_compute; reflexivity. Qed.

(* ================================================================= *)
(** * The lists [find_fit] scans *)

(** The scan order in the words of the specification: from the class of
    [asize] up through class 15, the singleton classes 4 and 5 only for
    requests of exactly 64 and 112 bytes. *)
Definition entered (asize : Z) (c : nat) : bool :=
  match c with
  | 4%nat => asize =? 64
  | 5%nat => asize =? 112
  | _ => true
  end.

Definition scanned (asize : Z) : list nat :=
  filter (entered asize) (seq (class_of asize) (16 - class_of asize)).

Ltac decide_cmp :=
  repeat match goal with
  | |- context [?a <=? ?b] =>
      first [ rewrite (proj2 (Z.leb_le a b)) by lia
            | rewrite (proj2 (Z.leb_gt a b)) by lia ]
  | |- context [?a =? ?b] =>
      first [ rewrite (proj2 (Z.eqb_eq a b)) by lia
            | rewrite (proj2 (Z.eqb_neq a b)) by lia ]
  end.

Lemma size_bands : forall a : Z,
  a <= 12 \/ 12 < a <= 16 \/ 16 < a <= 20 \/ 20 < a < 64 \/ a = 64 \/
  64 < a < 112 \/ a = 112 \/ 112 < a <= 120 \/ 120 < a <= 256 \/
  256 < a <= 448 \/ 448 < a <= 512 \/ 512 < a <= 1024 \/ 1024 < a <= 2048 \/
  2048 < a <= 3072 \/ 3072 < a <= 4096 \/ 4096 < a <= 8192 \/ 8192 < a.
Proof. intros a. lia. Qed.

Lemma candidates_scanned : forall fl asize,
  candidates cascade fl asize = concat (map fl (scanned asize)).
Proof.
  intros fl asize. unfold scanned, class_of, cascade.
  unfold num01, num02, num03, num04, num05, num06, num07, num08, num09, num10,
         num11, num12, num13, num14.
  cbn [candidates class_from passes].
  pose proof (size_bands asize) as B.
  repeat (destruct B as [B|B]; [decide_cmp; cbn; decide_cmp; reflexivity|]).
  decide_cmp; cbn; decide_cmp; reflexivity.
Qed.

Lemma members_fl : forall st bs fl c, good st bs fl -> members st c = fl c.
Proof.
  intros st bs fl c (Hsh & _ & Hl). unfold members. apply list_of_flist.
  - apply (lo_chain _ _ _ _ Hl).
  - apply (listed_length st bs fl [] (shape_geom _ _ Hsh) Hl).
Qed.

Lemma in_scanned_lists : forall (f : nat -> list Z) asize q,
  In q (concat (map f (scanned asize))) <->
  exists c, In c (scanned asize) /\ In q (f c).
Proof.
  intros f asize q. rewrite in_concat. split.
  - intros (l & Hl & Hq). apply in_map_iff in Hl. destruct Hl as (c & <- & Hc). eauto.
  - intros (c & Hc & Hq). exists (f c). split; [apply in_map; exact Hc|exact Hq].
Qed.

(** X13.  On a well-formed heap, whose arena spans less than 2^32 bytes
    ([valid_heap]), [find_fit asize] returns
    the first block, in the order of the lists from the class of [asize] up
    through class 15 and head to tail within a list, whose stored size is at
    least [asize]; it returns NULL exactly when none of the lists it scans
    holds such a block.  The singleton lists 4 and 5 are scanned only for
    [asize = 64] and [asize = 112], so a block of list 4 is returned only to
    a request of 64 bytes and a block of list 5 only to one of 112. *)
Theorem find_fit_scans_upward : forall st asize,
  valid_heap st ->
  exists r, find_fit st asize = Ok r /\
    r = first_fit (heap st) asize (concat (map (members st) (scanned asize))) /\
    (r = 0 ->
       forall c q, In c (scanned asize) -> In q (members st c) ->
                   GET_SIZE (heap st) (HDRP q) < asize) /\
    (r = 0 \/
       (asize <= GET_SIZE (heap st) (HDRP r) /\
        exists c, In c (scanned asize) /\ In r (members st c))) /\
    (In r (members st 4) -> asize = 64) /\
    (In r (members st 5) -> asize = 112).
Proof.
  intros st asize (bs & fl & G). pose proof G as (Hsh & _ & Hl).
  pose proof (shape_geom _ _ Hsh) as Hg.
  assert (Em : map (members st) (scanned asize) = map fl (scanned asize)).
  { apply map_ext. intros c. apply (members_fl st bs fl c G). }
  assert (Hnz : forall c q, In q (members st c) -> q <> 0).
  { intros c q Hq. rewrite (members_fl st bs fl c G) in Hq.
    pose proof (listed_facts st bs fl [] Hg Hl c q Hq). lia. }
  set (cand := concat (map (members st) (scanned asize))).
  assert (Hf : find_fit st asize = Ok (first_fit (heap st) asize cand)).
  { unfold find_fit, cand. rewrite (find_fit_from_ok st bs fl asize Hg Hl).
    rewrite candidates_scanned, Em. reflexivity. }
  exists (first_fit (heap st) asize cand). split; [exact Hf|]. split; [reflexivity|].
  assert (Hcase : (first_fit (heap st) asize cand = 0 /\
                   forall q, In q cand -> fits (heap st) asize q = false) \/
                  (In (first_fit (heap st) asize cand) cand /\
                   fits (heap st) asize (first_fit (heap st) asize cand) = true)).
  { destruct (first_fit_spec (heap st) asize cand) as [H|(l1 & l2 & E & Hfit & _)];
      [left; exact H|right]. split; [|exact Hfit].
    rewrite E at 2. apply in_app_iff. right. now left. }
  set (r := first_fit (heap st) asize cand) in *.
  assert (Hin : r = 0 \/ exists c, In c (scanned asize) /\ In r (members st c)).
  { destruct Hcase as [(E & _)|(Hr & _)]; [now left|right].
    apply in_scanned_lists in Hr. exact Hr. }
  assert (Hsingle : forall c, In r (members st c) -> In c (scanned asize)).
  { intros c Hc. destruct Hin as [E|(c' & Hc' & Hr')].
    - exfalso. apply (Hnz c r Hc E).
    - rewrite (members_fl st bs fl c G) in Hc. rewrite (members_fl st bs fl c' G) in Hr'.
      rewrite (listed_unique st bs fl [] Hg Hl c c' r Hc Hr'). exact Hc'. }
  repeat split.
  - intros E c q Hc Hq. destruct Hcase as [(_ & Hno)|(Hr & _)].
    + assert (Hq' : In q cand) by (apply in_scanned_lists; eauto).
      specialize (Hno q Hq'). unfold fits in Hno. apply Z.leb_gt in Hno. exact Hno.
    + exfalso. apply in_scanned_lists in Hr. destruct Hr as (c' & _ & Hr).
      apply (Hnz c' r Hr E).
  - destruct Hcase as [(E & _)|(Hr & Hfit)]; [now left|right].
    split; [unfold fits in Hfit; apply Z.leb_le in Hfit; exact Hfit|].
    apply in_scanned_lists in Hr. exact Hr.
  - intros H4. apply Hsingle in H4. unfold scanned in H4. apply filter_In in H4.
    destruct H4 as [_ H4]. cbn in H4. apply Z.eqb_eq in H4. exact H4.
  - intros H5. apply Hsingle in H5. unfold scanned in H5. apply filter_In in H5.
    destruct H5 as [_ H5]. cbn in H5. apply Z.eqb_eq in H5. exact H5.
Qed.

(** On the fragmented heap: a request of 64 bytes is served from list 4 and
    one of 112 from list 5; one of 32 passes the 24-byte head of list 6 and
    takes its second member; one of 16 finds lists 2 and 3 empty, does not
    enter lists 4 and 5 although their blocks would do, and takes the head
    of list 6; one of 120 finds nothing before list 13; one of 4000 finds
    nothing at all. *)
Lemma find_fit_scans_upward_on_heap3 :
  (members heap3 4 = [4112] /\ members heap3 5 = [4192] /\
   members heap3 6 = [4320; 4360] /\ members heap3 13 = [4480]) /\
  (GET_SIZE (heap heap3) (HDRP 4320) = 24 /\ GET_SIZE (heap heap3) (HDRP 4360) = 104) /\
  (find_fit heap3 64 = Ok 4112 /\ find_fit heap3 112 = Ok 4192 /\
   find_fit heap3 32 = Ok 4360 /\ find_fit heap3 16 = Ok 4320 /\
   find_fit heap3 120 = Ok 4480 /\ find_fit heap3 4000 = Ok 0) /\
  (exists r, find_fit heap3 64 = Ok r /\
     r = first_fit (heap heap3) 64 (concat (map (members heap3) (scanned 64))) /\
     (r = 0 ->
        forall c q, In c (scanned 64) -> In q (members heap3 c) ->
                    GET_SIZE (heap heap3) (HDRP q) < 64) /\
     (r = 0 \/
        (64 <= GET_SIZE (heap heap3) (HDRP r) /\
         exists c, In c (scanned 64) /\ In r (members heap3 c))) /\
     (In r (members heap3 4) -> 64 = 64) /\
     (In r (members heap3 5) -> 64 = 112)) /\
  (exists r, find_fit heap3 112 = Ok r /\
     r = first_fit (heap heap3) 112 (concat (map (members heap3) (scanned 112))) /\
     (r = 0 ->
        forall c q, In c (scanned 112) -> In q (members heap3 c) ->
                    GET_SIZE (heap heap3) (HDRP q) < 112) /\
     (r = 0 \/
        (112 <= GET_SIZE (heap heap3) (HDRP r) /\
         exists c, In c (scanned 112) /\ In r (members heap3 c))) /\
     (In r (members heap3 4) -> 112 = 64) /\
     (In r (members heap3 5) -> 112 = 112)) /\
  (exists r, find_fit heap3 32 = Ok r /\
     r = first_fit (heap heap3) 32 (concat (map (members heap3) (scanned 32))) /\
     (r = 0 ->
        forall c q, In c (scanned 32) -> In q (members heap3 c) ->
                    GET_SIZE (heap heap3) (HDRP q) < 32) /\
     (r = 0 \/
        (32 <= GET_SIZE (heap heap3) (HDRP r) /\
         exists c, In c (scanned 32) /\ In r (members heap3 c))) /\
     (In r (members heap3 4) -> 32 = 64) /\
     (In r (members heap3 5) -> 32 = 112)) /\
  (exists r, find_fit heap3 16 = Ok r /\
     r = first_fit (heap heap3) 16 (concat (map (members heap3) (scanned 16))) /\
     (r = 0 ->
        forall c q, In c (scanned 16) -> In q (members heap3 c) ->
                    GET_SIZE (heap heap3) (HDRP q) < 16) /\
     (r = 0 \/
        (16 <= GET_SIZE (heap heap3) (HDRP r) /\
         exists c, In c (scanned 16) /\ In r (members heap3 c))) /\
     (In r (members heap3 4) -> 16 = 64) /\
     (In r (members heap3 5) -> 16 = 112)) /\
  (exists r, find_fit heap3 120 = Ok r /\
     r = first_fit (heap heap3) 120 (concat (map (members heap3) (scanned 120))) /\
     (r = 0 ->
        forall c q, In c (scanned 120) -> In q (members heap3 c) ->
                    GET_SIZE (heap heap3) (HDRP q) < 120) /\
     (r = 0 \/
        (120 <= GET_SIZE (heap heap3) (HDRP r) /\
         exists c, In c (scanned 120) /\ In r (members heap3 c))) /\
     (In r (members heap3 4) -> 120 = 64) /\
     (In r (members heap3 5) -> 120 = 112)) /\
  (exists r, find_fit heap3 4000 = Ok r /\
     r = first_fit (heap heap3) 4000 (concat (map (members heap3) (scanned 4000))) /\
     (r = 0 ->
        forall c q, In c (scanned 4000) -> In q (members heap3 c) ->
                    GET_SIZE (heap heap3) (HDRP q) < 4000) /\
     (r = 0 \/
        (4000 <= GET_SIZE (heap heap3) (HDRP r) /\
         exists c, In c (scanned 4000) /\ In r (members heap3 c))) /\
     (In r (members heap3 4) -> 4000 = 64) /\
     (In r (members heap3 5) -> 4000 = 112)).
Proof.
  split; [vm_compute; repeat split; reflexivity|].
  split; [vm_compute; split; reflexivity|].
  split; [vm_compute; repeat split; reflexivity|].
  split; [exact (find_fit_scans_upward heap3 64 heap3_valid)|].
  split; [exact (find_fit_scans_upward heap3 112 heap3_valid)|].
  split; [exact (find_fit_scans_upward heap3 32 heap3_valid)|].
  split; [exact (find_fit_scans_upward heap3 16 heap3_valid)|].
  split; [exact (find_fit_scans_upward heap3 120 heap3_valid)|].
  exact (find_fit_scans_upward heap3 4000 heap3_valid).
Defined.

(* ================================================================= *)
(** * What [place] leaves in memory *)

(** The tags in memory of the block at one position of a well-formed heap,
    and of the block behind it. *)
Lemma block_facts : forall st fl l1 s a l2,
  good st (l1 ++ (s, a) :: l2) fl ->
  let m := heap st in
  let p := first_bp st + total l1 in
  GET_SIZE m (HDRP p) = s /\ GET_ALLOC m (HDRP p) = b2z1 a /\
  PREVX m (HDRP p) = b2z4 (last_alloc true l1) /\
  NEXT_BLKP m p = p + s /\
  (a = false -> GET m (FTRP m p) = GET m (HDRP p) /\ In p (members st (class_of s))) /\
  PREVX m (HDRP (p + s)) = b2z4 a /\
  (GET_ALLOC m (HDRP (p + s)) = 0 ->
     GET m (FTRP m (p + s)) = GET m (HDRP (p + s))).
Proof.
  intros st fl l1 s a l2 G m p. pose proof G as (Hsh & _ & Hl).
  destruct (block_hdr _ _ _ _ _ Hsh) as (H0 & F1 & F2 & F3). fold p m in H0, F1, F2, F3.
  destruct (shape_cut _ _ _ _ _ Hsh)
    as (S1 & S2 & S3 & S4 & C1 & C2 & C3 & C4 & C5 & C6 & C7 & Z1 & Z2).
  fold p m in S2, S3, S4, C6.
  assert (Hlt : mem_brk st - (p + s) < 4294967296).
  { destruct Hsh. unfold p, first_bp in *. lia. }
  split; [exact F1|]. split; [exact F2|]. split; [exact F3|].
  split; [unfold NEXT_BLKP; fold (HDRP p); rewrite F1; reflexivity|].
  split.
  - intros ->. split.
    + unfold FTRP. rewrite F1. unfold DSIZE. rewrite (S3 eq_refl). symmetry. exact H0.
    + rewrite (members_fl st _ fl _ G). apply (lo_complete _ _ _ _ Hl); [|intros []].
      apply in_frees_cut. right. left. cbn [fst snd]. repeat split; reflexivity.
  - destruct (tail_head _ _ _ _ _ S4 Hlt) as (s' & a' & Hh & Hr & H8 & Hc).
    unfold HDRP, WSIZE.
    destruct (fields_of_GET _ _ _ _ _ Hh ltac:(lia) H8 ltac:(pow2; lia)) as (G1 & G2 & G3).
    split; [exact G2|]. intros Hfree.
    destruct Hc as [(_ & _ & -> & _)|(r & -> & Hs')].
    + rewrite G3 in Hfree. discriminate.
    + destruct a'; [rewrite G3 in Hfree; discriminate|].
      destruct (tail_free_head _ _ _ _ _ _ S4 Hlt) as (T1 & T2 & T3 & _).
      unfold FTRP. unfold_consts. rewrite T3, T1, T2. reflexivity.
Qed.

(** A block on a free list is a free block of the sequence, of the size its
    header stores and of the class of its list. *)
Lemma listed_block : forall st bs fl c bp,
  good st bs fl -> In bp (members st c) ->
  exists l1 l2, bs = l1 ++ (GET_SIZE (heap st) (HDRP bp), false) :: l2 /\
                bp = first_bp st + total l1 /\
                c = class_of (GET_SIZE (heap st) (HDRP bp)).
Proof.
  intros st bs fl c bp G Hin. pose proof G as (Hsh & _ & Hl).
  rewrite (members_fl st bs fl c G) in Hin.
  destruct (lo_sound _ _ _ _ Hl _ _ Hin) as (_ & s & Hs & Hc).
  destruct (free_hdr _ _ _ _ Hsh Hs) as (F & _). rewrite F.
  apply frees_split in Hs. destruct Hs as (l1 & l2 & E1 & E2).
  exists l1, l2. repeat split; auto.
Qed.

(** [place] on a listed block: the outcome on the block sequence. *)
Lemma place_listed : forall st bp asize c,
  valid_heap st -> In bp (members st c) -> visits asize c ->
  16 <= asize <= GET_SIZE (heap st) (HDRP bp) -> asize mod 8 = 0 ->
  exists l1 l2 fl st' r bs' fl',
    good st (l1 ++ (GET_SIZE (heap st) (HDRP bp), false) :: l2) fl /\
    bp = first_bp st + total l1 /\
    place st bp asize = Ok (st', r) /\
    good st' bs' fl' /\ same_arena st st' /\
    placed l1 (GET_SIZE (heap st) (HDRP bp)) l2 asize bp bs' r.
Proof.
  intros st bp asize c (bs & fl & G) Hin Hv Has Ha8.
  destruct (listed_block st bs fl c bp G Hin) as (l1 & l2 & -> & Ebp & Ec).
  set (cs := GET_SIZE (heap st) (HDRP bp)) in *.
  pose proof G as (Hsh & Hadj & Hl). rewrite Ec in Hv.
  destruct (place_ok st l1 cs l2 fl asize Hsh Hl Has Ha8 Hv)
    as (st' & r & bs' & fl' & P1 & P2 & P3 & P4 & P5).
  rewrite <- Ebp in P1, P5.
  exists l1, l2, fl, st', r, bs', fl'.
  split; [exact G|]. split; [exact Ebp|]. split; [exact P1|].
  split; [split; [exact P2|split; [eapply placed_adj; eassumption|exact P3]]|].
  split; [exact P4|exact P5].
Qed.

Lemma total_snoc : forall l s a, total (l ++ [(s, a)]) = total l + s.
Proof. intros. rewrite total_app. cbn [total]. lia. Qed.

Lemma last_alloc_snoc : forall l s a pa, last_alloc pa (l ++ [(s, a)]) = a.
Proof. intros. rewrite last_alloc_app. reflexivity. Qed.

Lemma good_snoc : forall st fl l1 b1 b2 l2,
  good st (l1 ++ b1 :: b2 :: l2) fl -> good st ((l1 ++ [b1]) ++ b2 :: l2) fl.
Proof. intros st fl l1 b1 b2 l2 G. rewrite <- app_assoc. exact G. Qed.

(** The three outcomes of [place st bp asize] as [st'] and the returned
    pointer [r] show them in memory; [csize] is the size [bp] had. *)
Definition placed_in_memory (st : state) (bp asize : Z) (st' : state) (r : Z) : Prop :=
  let csize := GET_SIZE (heap st) (HDRP bp) in
  let m' := heap st' in
  (16 <= csize - asize -> asize < 120 ->
     r = bp /\
     GET_SIZE m' (HDRP bp) = asize /\ GET_ALLOC m' (HDRP bp) = 1 /\
     PREVX m' (HDRP bp) = PREVX (heap st) (HDRP bp) /\
     GET_SIZE m' (HDRP (bp + asize)) = csize - asize /\
     GET_ALLOC m' (HDRP (bp + asize)) = 0 /\ PREVX m' (HDRP (bp + asize)) = 4 /\
     GET m' (FTRP m' (bp + asize)) = GET m' (HDRP (bp + asize)) /\
     In (bp + asize) (members st' (class_of (csize - asize)))) /\
  (16 <= csize - asize -> 120 <= asize ->
     r = NEXT_BLKP m' bp /\ r = bp + (csize - asize) /\
     GET_SIZE m' (HDRP bp) = csize - asize /\ GET_ALLOC m' (HDRP bp) = 0 /\
     PREVX m' (HDRP bp) = PREVX (heap st) (HDRP bp) /\
     GET m' (FTRP m' bp) = GET m' (HDRP bp) /\
     In bp (members st' (class_of (csize - asize))) /\
     GET_SIZE m' (HDRP r) = asize /\ PREVX m' (HDRP r) = 0 /\
     GET_ALLOC m' (HDRP r) = 1 /\
     PREVX m' (HDRP (NEXT_BLKP m' r)) = 4 /\
     (GET_ALLOC m' (HDRP (NEXT_BLKP m' r)) = 0 ->
        GET m' (FTRP m' (NEXT_BLKP m' r)) = GET m' (HDRP (NEXT_BLKP m' r)))) /\
  (csize - asize < 16 ->
     r = bp /\ GET_SIZE m' (HDRP bp) = csize /\ GET_ALLOC m' (HDRP bp) = 1 /\
     PREVX m' (HDRP bp) = PREVX (heap st) (HDRP bp) /\
     PREVX m' (HDRP (NEXT_BLKP m' bp)) = 4).

(** X14.  [place] on a listed free block [bp] of stored size [csize], for a
    request [asize] that the cascade of [bp]'s list admits.  With
    [csize - asize >= 16] the block is split: for [asize < 120] the
    allocation is at the head ([bp] is returned, its header holds [asize]
    and the allocated bit, the prev-allocated bit is kept) and the residual
    of [csize - asize] bytes is a free block behind it, with header and
    footer and on the list of its class; for [asize >= 120] the residual
    stays free at [bp], on the list of its class, the returned pointer is
    the next block, whose header holds [asize], prev-allocated 0 and
    allocated 1, and the block behind that has its prev-allocated bit set
    (in its footer too when it is free).  With [csize - asize < 16] the
    whole block is handed out at [bp]. *)
Theorem place_splits_or_hands_out : forall st bp asize c,
  valid_heap st -> In bp (members st c) -> visits asize c ->
  16 <= asize <= GET_SIZE (heap st) (HDRP bp) -> asize mod 8 = 0 ->
  exists st' r, place st bp asize = Ok (st', r) /\ placed_in_memory st bp asize st' r.
Proof.
  intros st bp asize c Hv Hin Hvis Has Ha8.
  destruct (place_listed st bp asize c Hv Hin Hvis Has Ha8)
    as (l1 & l2 & fl & st' & r & bs' & fl' & G & Ebp & P1 & G' & Har & P).
  exists st', r. split; [exact P1|]. unfold placed_in_memory.
  set (csize := GET_SIZE (heap st) (HDRP bp)) in *. cbv zeta.
  destruct (block_facts st fl l1 csize false l2 G) as (_ & _ & Q3 & _).
  rewrite <- Ebp in Q3.
  assert (Efb : first_bp st' = first_bp st).
  { destruct Har as (E & _). unfold first_bp. rewrite E. reflexivity. }
  destruct P as [Hw|Hh1 Hh2|Ht1 Ht2].
  - (* the whole block *)
    split; [intros; lia|]. split; [intros; lia|]. intros _.
    destruct (block_facts st' fl' l1 csize true l2 G') as (B1 & B2 & B3 & B4 & _ & B6 & _).
    rewrite Efb, <- Ebp in B1, B2, B3, B4, B6.
    rewrite B4, Q3. repeat split; try reflexivity; assumption.
  - (* allocation at the head *)
    split; [|split; intros; lia]. intros _ _.
    destruct (block_facts st' fl' l1 asize true ((csize - asize, false) :: l2) G')
      as (B1 & B2 & B3 & _).
    rewrite Efb, <- Ebp in B1, B2, B3.
    destruct (block_facts st' fl' (l1 ++ [(asize, true)]) (csize - asize) false l2
                (good_snoc _ _ _ _ _ _ G')) as (D1 & D2 & D3 & _ & D5 & _).
    rewrite ?total_snoc, ?Efb in D1, D2, D3, D5. rewrite last_alloc_snoc in D3.
    replace (first_bp st + (total l1 + asize)) with (bp + asize) in D1, D2, D3, D5 by lia.
    destruct (D5 eq_refl) as (D5a & D5b). rewrite Q3.
    repeat split; try reflexivity; assumption.
  - (* allocation at the tail *)
    split; [intros; lia|]. split; [|intros; lia]. intros _ _.
    destruct (block_facts st' fl' l1 (csize - asize) false ((asize, true) :: l2) G')
      as (B1 & B2 & B3 & B4 & B5 & _).
    rewrite Efb, <- Ebp in B1, B2, B3, B4, B5.
    destruct (B5 eq_refl) as (B5a & B5b).
    destruct (block_facts st' fl' (l1 ++ [(csize - asize, false)]) asize true l2
                (good_snoc _ _ _ _ _ _ G')) as (D1 & D2 & D3 & D4 & _ & D6 & D7).
    rewrite ?total_snoc, ?Efb in D1, D2, D3, D4, D6, D7. rewrite last_alloc_snoc in D3.
    replace (first_bp st + (total l1 + (csize - asize))) with (bp + (csize - asize))
      in D1, D2, D3, D4, D6, D7 by lia.
    rewrite D4, B4, Q3. repeat split; try reflexivity; assumption.
Qed.

Lemma init_block_listed : In 4112 (members heap1 13).
Proof. vm_compute. left. reflexivity. Qed.

Lemma init_block_size : GET_SIZE (heap heap1) (HDRP 4112) = 4096.
Proof. vm_compute. reflexivity. Qed.

Lemma visits_128_13 : visits 128 13.
Proof. exists (UpTo num13). split; [unfold cascade; cbn; tauto|reflexivity]. Qed.

Lemma place_splits_at_128 :
  exists st' r, place heap1 4112 128 = Ok (st', r) /\ placed_in_memory heap1 4112 128 st' r.
Proof.
  apply (place_splits_or_hands_out heap1 4112 128 13 heap1_valid init_block_listed visits_128_13).
  - rewrite init_block_size. lia.
  - reflexivity.
Defined.

(* ================================================================= *)
(** * [place] and the free lists *)

Lemma addrs_split : forall bs p b, In b (addrs p bs) ->
  exists l1 s a l2, bs = l1 ++ (s, a) :: l2 /\ b = p + total l1.
Proof.
  induction bs as [|[s a] r IH]; intros p b H; [contradiction|].
  cbn [addrs] in H. destruct H as [<-|H].
  - exists [], s, a, r. split; [reflexivity|cbn; lia].
  - destruct (IH _ _ H) as (l1 & s' & a' & l2 & -> & ->).
    exists ((s, a) :: l1), s', a', l2. split; [reflexivity|cbn [total]; lia].
Qed.

(** Two heaps that describe the same block sequence carry the same tags. *)
Lemma same_tags : forall st st' bs,
  shape st bs -> shape st' bs -> same_arena st st' ->
  forall b, In b (heap_blocks st) -> GET (heap st') (HDRP b) = GET (heap st) (HDRP b).
Proof.
  intros st st' bs H H' (E1 & E2 & E3 & E4) b Hb.
  assert (Efb : first_bp st' = first_bp st) by (unfold first_bp; now rewrite E1).
  rewrite (heap_blocks_shape _ _ H) in Hb. destruct Hb as [<-|Hb].
  - rewrite (sh_hlp _ _ H). unfold_consts.
    replace (mem_start st + 8 - 4) with (mem_start st + 4) by lia.
    rewrite (sh_pro _ _ H). rewrite <- E1. apply (sh_pro _ _ H').
  - apply in_app_iff in Hb. destruct Hb as [Hb|[<-|[]]].
    + destruct (addrs_split _ _ _ Hb) as (l1 & s & a & l2 & -> & ->).
      destruct (block_hdr _ _ _ _ _ H) as (A & _).
      destruct (block_hdr _ _ _ _ _ H') as (A' & _). rewrite Efb in A'.
      rewrite A, A'. reflexivity.
    + unfold_consts. rewrite (sh_epi _ _ H). rewrite <- E2. apply (sh_epi _ _ H').
Qed.

Lemma members_of_lists : forall st bs fl skip c,
  geom st bs -> lists_ok st bs fl skip -> members st c = fl c.
Proof.
  intros st bs fl skip c Hg Hl. unfold members. apply list_of_flist.
  - apply (lo_chain _ _ _ _ Hl).
  - apply (listed_length st bs fl skip Hg Hl).
Qed.

(** Which list holds [bp] once [place] is done. *)
Lemma placed_membership : forall st' bs' fl' l1 cs l2 asize r c,
  good st' bs' fl' -> sizes_ok l1 -> sizes_ok l2 -> 16 <= asize <= cs ->
  placed l1 cs l2 asize (first_bp st' + total l1) bs' r ->
  (In (first_bp st' + total l1) (members st' c) <->
   16 <= cs - asize /\ 120 <= asize /\ c = class_of (cs - asize)).
Proof.
  intros st' bs' fl' l1 cs l2 asize r c G Z1 Z2 Has P.
  pose proof G as (Hsh & _ & Hl). pose proof (shape_sizes _ _ Hsh) as Hsz.
  set (bp := first_bp st' + total l1) in *.
  rewrite (members_fl st' bs' fl' c G).
  assert (Hno : forall s, In (bp, s) (allocs (first_bp st') bs') -> ~ In bp (fl' c)).
  { intros s Ha Hin. destruct (lo_sound _ _ _ _ Hl _ _ Hin) as (_ & s' & Hs' & _).
    exact (frees_not_alloc _ _ _ _ _ Hsz Hs' Ha). }
  inversion P as [Hw E1 E2|Hh1 Hh2 E1 E2|Ht1 Ht2 E1 E2]; subst bs'.
  - split; [|intros; lia]. intros Hin. exfalso. apply (Hno cs); [|exact Hin].
    apply in_allocs_cut. right. left. cbn. auto.
  - split; [|intros; lia]. intros Hin. exfalso. apply (Hno asize); [|exact Hin].
    apply in_allocs_cut. right. left. cbn. auto.
  - assert (Hf : In (bp, cs - asize)
                    (frees (first_bp st') (l1 ++ (cs - asize, false) :: (asize, true) :: l2))).
    { apply in_frees_cut. right. left. cbn. auto. }
    split.
    + intros Hin. destruct (lo_sound _ _ _ _ Hl _ _ Hin) as (_ & s' & Hs' & Hc).
      rewrite (frees_fun _ _ _ _ _ Hsz Hs' Hf) in Hc. auto.
    + intros (_ & _ & ->). apply (lo_complete _ _ _ _ Hl); [exact Hf|intros []].
Qed.

(** Whether the cascade entered with [asize] tries list [c]. *)
Lemma visits_dec : forall asize c, visits asize c \/ ~ visits asize c.
Proof.
  intros asize c. unfold visits.
  destruct (existsb (fun cg => Nat.eqb (fst cg) c && passes (snd cg) asize) cascade) eqn:E.
  - left. apply existsb_exists in E. destruct E as ([c' g] & Hin & H). cbn [fst snd] in H.
    apply andb_prop in H. destruct H as [H1 H2]. apply Nat.eqb_eq in H1. subst c'. eauto.
  - right. intros (g & Hin & Hp).
    assert (Ht : existsb (fun cg => Nat.eqb (fst cg) c && passes (snd cg) asize) cascade = true).
    { apply existsb_exists. exists (c, g). split; [exact Hin|]. cbn [fst snd].
      rewrite Nat.eqb_refl, Hp. reflexivity. }
    congruence.
Qed.

(** Only the singleton lists are passed over by a request that their block
    could serve. *)
Lemma miss_sizes : forall asize cs, asize <= cs -> ~ visits asize (class_of cs) ->
  (cs = 64 \/ cs = 112) /\ asize < cs.
Proof.
  intros asize cs Hle Hn.
  assert (Hne : asize <> cs) by (intros ->; apply Hn; apply class_of_visits).
  split; [|lia].
  destruct (Z.eq_dec cs 64); [now left|]. destruct (Z.eq_dec cs 112); [now right|].
  exfalso. apply Hn. apply visits_le; unfold num04, num05; lia.
Qed.

Lemma residual_class : forall asize cs, (cs = 64 \/ cs = 112) ->
  16 <= asize < cs -> asize mod 8 = 0 -> class_of (cs - asize) <> class_of cs.
Proof.
  intros asize cs Hcs Has Ha8.
  pose proof (Z.div_mod asize 8 ltac:(lia)) as E. rewrite Ha8, Z.add_0_r in E.
  assert (Hk : 2 <= asize / 8 <= 13) by lia.
  assert (Hc : asize / 8 = 2 \/ asize / 8 = 3 \/ asize / 8 = 4 \/ asize / 8 = 5 \/
               asize / 8 = 6 \/ asize / 8 = 7 \/ asize / 8 = 8 \/ asize / 8 = 9 \/
               asize / 8 = 10 \/ asize / 8 = 11 \/ asize / 8 = 12 \/ asize / 8 = 13) by lia.
  destruct Hcs as [-> | ->];
    repeat (destruct Hc as [Hc|Hc]; [rewrite Hc in E; subst asize; first [lia|vm_compute; discriminate]|]);
    rewrite Hc in E; subst asize; first [lia|vm_compute; discriminate].
Qed.

(** [deletex] entered with a size whose cascade tries no list that holds
    [bp] finds nothing and changes nothing. *)
Lemma deletex_from_miss : forall st bs fl bp nextk asize cs,
  geom st bs -> lists_ok st bs fl [] -> bp <> 0 ->
  (forall c g, In (c, g) cs -> passes g asize = true -> ~ In bp (fl c)) ->
  deletex_from cs st bp nextk asize = Ok st.
Proof.
  intros st bs fl bp nextk asize cs Hg Hl Hbp.
  induction cs as [|[c g] rest IH]; intros H; [reflexivity|].
  cbn [deletex_from]. destruct (passes g asize) eqn:E.
  - assert (Hn : ~ In bp (fl c)) by (apply (H c g); [now left|exact E]).
    pose proof (lo_chain _ _ _ _ Hl c) as Hc.
    destruct (Z.eqb_spec (lhead st c) bp) as [Eh|Eh].
    + exfalso. destruct (flist_head _ _ _ Hc) as [[E0 _]|[_ (r & Er)]]; [congruence|].
      apply Hn. rewrite Er, Eh. now left.
    + rewrite (unlink_miss _ bp nextk _ _ _ Hc Hn Hbp (listed_length st bs fl [] Hg Hl c)).
      cbn [bind]. apply IH. intros c' g' Hin. apply H. now right.
  - apply IH. intros c' g' Hin. apply H. now right.
Qed.

(** [place] after a [deletex] that found nothing: the block is handed out
    at [bp] while [bp] stays where it was on its list. *)
Lemma place_without_unlink : forall st l1 cs l2 fl asize,
  good st (l1 ++ (cs, false) :: l2) fl ->
  16 <= asize < cs -> asize mod 8 = 0 -> asize < 120 ->
  class_of (cs - asize) <> class_of cs ->
  deletex st (first_bp st + total l1) asize = Ok st ->
  exists st', place st (first_bp st + total l1) asize = Ok (st', first_bp st + total l1) /\
    GET_ALLOC (heap st') (HDRP (first_bp st + total l1)) = 1 /\
    forall c', In (first_bp st + total l1) (members st' c') <-> c' = class_of cs.
Proof.
  intros st l1 cs l2 fl asize G Has Ha8 H120 Hcl Hdel.
  pose proof G as (Hsh & _ & Hl). pose proof (shape_geom _ _ Hsh) as Hg.
  pose proof (shape_sizes _ _ Hsh) as Hsz.
  destruct (shape_cut _ _ _ _ _ Hsh)
    as (S1 & S2 & S3 & S4 & C1 & C2 & C3 & C4 & C5 & C6 & C7 & Z1 & Z2).
  set (bp := first_bp st + total l1) in *.
  destruct (fields_of_GET _ _ _ _ _ S2 ltac:(lia) C2 C3) as (F1 & F2 & _).
  assert (Hfree : In (bp, cs) (frees (first_bp st) (l1 ++ (cs, false) :: l2))).
  { apply in_frees_cut. right. left. cbn. auto. }
  pose proof (free_block_facts _ _ Hg _ _ Hfree) as (B1 & B2 & B3 & B4 & B5 & B6 & B7 & B8).
  assert (Hin : forall c', In bp (fl c') <-> c' = class_of cs).
  { intros c'. split.
    - intros H. destruct (lo_sound _ _ _ _ Hl _ _ H) as (_ & s & Hs & <-).
      f_equal. exact (frees_fun _ _ _ _ _ Hsz Hs Hfree).
    - intros ->. apply (lo_complete _ _ _ _ Hl); [exact Hfree|intros []]. }
  assert (Hkeep : forall m',
            (forall q s, In (q, s) (frees (first_bp st) (l1 ++ (cs, false) :: l2)) ->
                         forall x, q <= x < q + 8 -> m' x = heap st x) ->
            forall c', flist m' (lhead st c') (fl c')).
  { intros m' Hlk c'. apply (flist_frame (heap st)); [apply (lo_chain _ _ _ _ Hl)|].
    intros q Hq. destruct (lo_sound _ _ _ _ Hl _ _ Hq) as (_ & s & Hs & _).
    apply GETL_ext. exact (Hlk q s Hs). }
  unfold place. rewrite Hdel. cbn [bind]. unfold_consts. rewrite F1, F2.
  rewrite (wrap64_small (cs - asize)) by lia. change (2 * 8) with 16.
  destruct (Z.leb_spec 16 (cs - asize)) as [Hsp|Hsp].
  - destruct (Z.ltb_spec asize 120) as [_|]; [|lia].
    assert (Has' : 16 <= asize <= cs) by lia.
    pose proof (place_head_links st l1 cs l2 asize Hsh Has' Ha8 Hsp) as K.
    cbv zeta in K. fold bp in K. unfold_consts. destruct K as (Ex & Eh & Hlk).
    rewrite !Ex in Eh, Hlk. rewrite !Ex.
    match goal with |- context [set_heap st ?M] => set (m3 := M) in * end.
    eexists. split; [reflexivity|]. unfold insertx. cbn [heap lhead set_heap set_lhead].
    set (h := lhead st (class_of (cs - asize))).
    split.
    + unfold GET_ALLOC. rewrite GET_PUTL_other by lia. exact Eh.
    + intros c'. rewrite <- Hin. unfold members. cbn [heap lhead set_heap set_lhead].
      change (fuel_of _) with (fuel_of st).
      destruct (Nat.eqb_spec c' (class_of (cs - asize))) as [->|Hne].
      * assert (Hno : ~ In (bp + asize) (fl (class_of (cs - asize)))).
        { intros H. destruct (lo_sound _ _ _ _ Hl _ _ H) as (_ & s & Hs & _).
          destruct (frees_position _ _ _ _ _ _ _ Z1 Z2 Hs) as [P|[P|P]]; fold bp in P; lia. }
        rewrite (list_of_flist _ (bp + asize :: fl (class_of (cs - asize)))).
        -- split; [intros [E|H]; [lia|exact H]|intros H; now right].
        -- apply flist_cons_PUTL.
           ++ exact (Hkeep m3 Hlk _).
           ++ exact Hno.
           ++ exact (listed_aligned st _ fl [] Hg Hl _).
           ++ rewrite Z.add_mod, B5, Ha8 by lia. reflexivity.
           ++ lia.
           ++ exact (head_range st _ fl [] Hg Hl _).
        -- exact (listed_room st _ fl [] Hg Hl _).
      * rewrite (list_of_flist _ (fl c')); [reflexivity| |].
        -- apply Hkeep. intros q s Hq x Hx.
           rewrite PUTL_outside; [exact (Hlk q s Hq x Hx)|].
           destruct (frees_position _ _ _ _ _ _ _ Z1 Z2 Hq) as [P|[P|P]]; fold bp in P; lia.
        -- exact (listed_length st _ fl [] Hg Hl _).
  - assert (Has' : 16 <= asize <= cs) by lia.
    pose proof (place_whole_links st l1 cs l2 Hsh) as K.
    cbv zeta in K. fold bp in K. unfold_consts. destruct K as (Eh & Hlk).
    eexists. split; [reflexivity|]. split; [exact Eh|].
    intros c'. rewrite <- Hin. unfold members. cbn [lhead set_heap].
    change (fuel_of _) with (fuel_of st).
    rewrite (list_of_flist _ (fl c')); [reflexivity| |].
    + apply Hkeep. exact Hlk.
    + exact (listed_length st _ fl [] Hg Hl _).
Qed.

(** X15.  [place] unlinks [bp] by [deletex (bp, asize)], entered with the
    request size and not with the stored size of the block.  On a listed
    free block of a well-formed heap (arena of less than 2^32 bytes), for an
    8-aligned request [16 <= asize <= csize]: [deletex (bp, asize)] returns;
    it leaves [bp] on a list exactly when the cascade entered with [asize]
    passes the list of [bp] over, and it rewrites no tag; [place] returns,
    and afterwards [bp] is on the lists it was on after that [deletex] and,
    when the split left the residual at the head ([csize - asize >= 16] and
    [asize >= 120]), on the list of the residual's class.  So a request
    smaller than the block of a singleton list (4 or 5) is handed the block,
    with the allocated bit set, while the block stays on its list. *)
Theorem place_unlinks_with_request_size : forall st bp asize c,
  valid_heap st -> In bp (members st c) ->
  16 <= asize <= GET_SIZE (heap st) (HDRP bp) -> asize mod 8 = 0 ->
  exists st1 st' r,
    deletex st bp asize = Ok st1 /\
    (forall c', In bp (members st1 c') <-> c' = c /\ ~ visits asize c) /\
    (forall b, In b (heap_blocks st) ->
               GET (heap st1) (HDRP b) = GET (heap st) (HDRP b)) /\
    place st bp asize = Ok (st', r) /\
    (forall c', In bp (members st' c') <->
       In bp (members st1 c') \/
       (16 <= GET_SIZE (heap st) (HDRP bp) - asize /\ 120 <= asize /\
        c' = class_of (GET_SIZE (heap st) (HDRP bp) - asize))) /\
    (~ visits asize c ->
       (c = 4%nat \/ c = 5%nat) /\ asize < GET_SIZE (heap st) (HDRP bp) /\
       r = bp /\ GET_ALLOC (heap st') (HDRP bp) = 1).
Proof.
  intros st bp asize c Hv Hin Has Ha8.
  destruct (visits_dec asize c) as [Hvis|Hvis].
  - destruct (place_listed st bp asize c Hv Hin Hvis Has Ha8)
      as (l1 & l2 & fl & st' & r & bs' & fl' & G & Ebp & P1 & G' & Har & P).
    set (cs := GET_SIZE (heap st) (HDRP bp)) in *.
    pose proof G as (Hsh & _ & Hl). pose proof (shape_geom _ _ Hsh) as Hg.
    pose proof (shape_sizes _ _ Hsh) as Hsz. apply sizes_ok_app in Hsz.
    destruct Hsz as [Z1 Z2]. apply sizes_ok_cons in Z2. destruct Z2 as [_ Z2].
    assert (Hfree : In (bp, cs) (frees (first_bp st) (l1 ++ (cs, false) :: l2))).
    { apply in_frees_cut. right. left. cbn. auto. }
    assert (Hc : c = class_of cs).
    { destruct (listed_block st _ fl c bp G Hin) as (l1' & l2' & _ & _ & Ec). exact Ec. }
    pose proof Hvis as Hvis'. rewrite Hc in Hvis'.
    destruct (deletex_from_ok st _ fl [] Hg Hl asize bp cs cascade Hfree ltac:(intros [])
                cascade_nodup Hvis') as (st1 & D1 & D2 & D3 & D4 & _).
    assert (Hout : forall c', ~ In bp (members st1 c')).
    { intros c' Hc'.
      rewrite (members_of_lists st1 _ _ _ c' (geom_same_arena _ _ _ Hg D4) D3) in Hc'.
      destruct (lo_sound _ _ _ _ D3 _ _ Hc') as (Hn & _). apply Hn. now left. }
    exists st1, st', r. split; [exact D1|].
    split; [intros c'; split; [intros H; destruct (Hout c' H)|intros [_ H]; contradiction]|].
    split; [apply (same_tags st st1 _ Hsh (D2 Hsh) D4)|].
    split; [exact P1|]. split; [|intros H; contradiction].
    intros c'.
    assert (Efb : first_bp st' = first_bp st).
    { destruct Har as (E & _). unfold first_bp. rewrite E. reflexivity. }
    rewrite Ebp, <- Efb. rewrite Ebp, <- Efb in P.
    rewrite (placed_membership st' bs' fl' l1 cs l2 asize r c' G' Z1 Z2 Has P).
    split; [intros H; now right|intros [H|H]; [|exact H]].
    exfalso. rewrite Efb, <- Ebp in H. exact (Hout c' H).
  - destruct Hv as (bs & fl & G).
    destruct (listed_block st bs fl c bp G Hin) as (l1 & l2 & -> & Ebp & Ec).
    set (cs := GET_SIZE (heap st) (HDRP bp)) in *.
    pose proof G as (Hsh & _ & Hl). pose proof (shape_geom _ _ Hsh) as Hg.
    pose proof Hvis as Hvis'. rewrite Ec in Hvis'.
    destruct (miss_sizes asize cs ltac:(lia) Hvis') as (Hcs & Hlt).
    assert (Hfree : In (bp, cs) (frees (first_bp st) (l1 ++ (cs, false) :: l2))).
    { rewrite Ebp. apply in_frees_cut. right. left. cbn. auto. }
    pose proof (free_block_facts _ _ Hg _ _ Hfree) as (_ & _ & _ & _ & _ & B6 & _).
    assert (Hfl : In bp (fl c)) by (rewrite <- (members_fl st _ fl c G); exact Hin).
    assert (Hdel : deletex st bp asize = Ok st).
    { unfold deletex. apply (deletex_from_miss st _ fl bp _ asize cascade Hg Hl ltac:(lia)).
      intros c' g Hc' Hp Hb.
      rewrite (listed_unique st _ fl [] Hg Hl c' c bp Hb Hfl) in Hc'.
      apply Hvis. exists g. split; assumption. }
    assert (Has' : 16 <= asize < cs) by lia.
    assert (H120 : asize < 120) by (destruct Hcs; lia).
    pose proof Hdel as Hdel'. rewrite Ebp in Hdel'.
    destruct (place_without_unlink st l1 cs l2 fl asize G Has' Ha8 H120
                (residual_class asize cs Hcs Has' Ha8) Hdel') as (st' & P1 & P2 & P3).
    rewrite <- Ebp in P1, P2, P3.
    assert (Hmem : forall c', In bp (members st c') <-> c' = c).
    { intros c'. rewrite (members_fl st _ fl c' G). split.
      - intros Hb. exact (listed_unique st _ fl [] Hg Hl c' c bp Hb Hfl).
      - intros ->. exact Hfl. }
    exists st, st', bp. split; [exact Hdel|].
    split; [intros c'; rewrite Hmem; tauto|].
    split; [intros b _; reflexivity|].
    split; [exact P1|]. split.
    + intros c'. rewrite P3, Hmem, <- Ec. split; [intros H; now left|].
      intros [H|(_ & H & _)]; [exact H|lia].
    + intros _. split; [|split; [exact Hlt|split; [reflexivity|exact P2]]].
      rewrite Ec. destruct Hcs as [E|E]; rewrite E; [left|right]; reflexivity.
Qed.

(** Two runs.  On the heap of [mm_init], a request of 128 bytes for the
    block of list 13: the cascade reaches the list and [bp] comes back on
    list 13 as the head residual.  On the fragmented heap, a request of 24
    bytes for the 64-byte block of list 4: the cascade entered with 24
    passes list 4 over, and [place] hands 4112 out, with the allocated bit
    set, while 4112 is still the member of list 4. *)
Lemma place_unlinks_with_request_size_on_heaps :
  (visits 128 13 /\
   exists st1 st' r,
     deletex heap1 4112 128 = Ok st1 /\
     (forall c', In 4112 (members st1 c') <-> c' = 13%nat /\ ~ visits 128 13) /\
     (forall b, In b (heap_blocks heap1) ->
                GET (heap st1) (HDRP b) = GET (heap heap1) (HDRP b)) /\
     place heap1 4112 128 = Ok (st', r) /\
     (forall c', In 4112 (members st' c') <->
        In 4112 (members st1 c') \/
        (16 <= GET_SIZE (heap heap1) (HDRP 4112) - 128 /\ 120 <= 128 /\
         c' = class_of (GET_SIZE (heap heap1) (HDRP 4112) - 128))) /\
     (~ visits 128 13 ->
        (13%nat = 4%nat \/ 13%nat = 5%nat) /\ 128 < GET_SIZE (heap heap1) (HDRP 4112) /\
        r = 4112 /\ GET_ALLOC (heap st') (HDRP 4112) = 1)) /\
  (~ visits 24 4 /\ members heap3 4 = [4112] /\
   GET_SIZE (heap heap3) (HDRP 4112) = 64 /\
   value_of (place heap3 4112 24) = 4112 /\
   GET_ALLOC (heap (state_of (place heap3 4112 24))) (HDRP 4112) = 1 /\
   members (state_of (place heap3 4112 24)) 4 = [4112] /\
   exists st1 st' r,
     deletex heap3 4112 24 = Ok st1 /\
     (forall c', In 4112 (members st1 c') <-> c' = 4%nat /\ ~ visits 24 4) /\
     (forall b, In b (heap_blocks heap3) ->
                GET (heap st1) (HDRP b) = GET (heap heap3) (HDRP b)) /\
     place heap3 4112 24 = Ok (st', r) /\
     (forall c', In 4112 (members st' c') <->
        In 4112 (members st1 c') \/
        (16 <= GET_SIZE (heap heap3) (HDRP 4112) - 24 /\ 120 <= 24 /\
         c' = class_of (GET_SIZE (heap heap3) (HDRP 4112) - 24))) /\
     (~ visits 24 4 ->
        (4%nat = 4%nat \/ 4%nat = 5%nat) /\ 24 < GET_SIZE (heap heap3) (HDRP 4112) /\
        r = 4112 /\ GET_ALLOC (heap st') (HDRP 4112) = 1)).
Proof.
  split.
  - split; [exact visits_128_13|].
    apply (place_unlinks_with_request_size heap1 4112 128 13
             heap1_valid init_block_listed).
    + rewrite init_block_size. lia.
    + reflexivity.
  - assert (Hsize : GET_SIZE (heap heap3) (HDRP 4112) = 64) by (vm_compute; reflexivity).
    assert (Hin : In 4112 (members heap3 4)) by (vm_compute; tauto).
    split.
    { intros (g & Hc & Hp). unfold cascade in Hc. cbn [In] in Hc.
      repeat (destruct Hc as [Hc|Hc];
              [try discriminate Hc; inversion Hc; subst g; vm_compute in Hp; discriminate Hp|]).
      contradiction. }
    split; [vm_compute; reflexivity|]. split; [exact Hsize|].
    split; [vm_compute; reflexivity|]. split; [vm_compute; reflexivity|].
    split; [vm_compute; reflexivity|].
    apply (place_unlinks_with_request_size heap3 4112 24 4 heap3_valid Hin).
    + rewrite Hsize. lia.
    + reflexivity.
Defined.


(* ================================================================= *)
(** * Initialization and extension *)

Lemma single_member : forall (l : list Z) a,
  NoDup l -> (forall x, In x l -> x = a) -> In a l -> l = [a].
Proof.
  intros l a Hnd Hall Hin. destruct l as [|x r]; [contradiction|].
  rewrite (Hall x (or_introl eq_refl)) in *. f_equal.
  destruct r as [|y r']; [reflexivity|]. exfalso.
  apply NoDup_cons_iff in Hnd. destruct Hnd as [Hn _]. apply Hn.
  rewrite (Hall y (or_intror (or_introl eq_refl))). now left.
Qed.

(** The lists of a heap that consists of one free block. *)
Lemma lists_of_single_block : forall st fl s c,
  good st [(s, false)] fl ->
  members st c = if Nat.eqb c (class_of s) then [first_bp st] else [].
Proof.
  intros st fl s c G. pose proof G as (_ & _ & Hl). rewrite (members_fl st _ fl c G).
  assert (Hall : forall k x, In x (fl k) -> x = first_bp st /\ k = class_of s).
  { intros k x Hx. destruct (lo_sound _ _ _ _ Hl _ _ Hx) as (_ & s' & Hs' & Hc).
    cbn [frees] in Hs'. destruct Hs' as [E|[]]. inversion E; subst. auto. }
  destruct (Nat.eqb_spec c (class_of s)) as [->|Hne].
  - apply single_member.
    + apply (lo_nodup _ _ _ _ Hl).
    + intros x Hx. apply (Hall _ _ Hx).
    + apply (lo_complete _ _ _ _ Hl); [cbn [frees]; now left|intros []].
  - destruct (fl c) as [|x r] eqn:E; [reflexivity|]. exfalso. apply Hne.
    apply (Hall c x). rewrite E. now left.
Qed.

(** X1.  [mm_init] on a provider that has handed out nothing and can supply
    16 + 4096 bytes returns 0 and leaves a heap that satisfies the
    invariants, whatever the list heads held before: the prologue at
    [lo + 8], one free block of 4096 bytes at [lo + 16] that is the only
    member of list 13, every other list empty, and the epilogue at the end. *)
Theorem mm_init_builds_heap : forall st,
  uninitialized st -> mem_start st + 16 + CHUNKSIZE <= mem_max_addr st ->
  exists st', mm_init st = Ok (st', 0) /\ valid_heap st' /\
    heap_listp st' = mem_start st + 8 /\
    heap_blocks st' =
      [mem_start st + 8; mem_start st + 16; mem_start st + 16 + CHUNKSIZE] /\
    GET_SIZE (heap st') (HDRP (mem_start st + 16)) = CHUNKSIZE /\
    GET_ALLOC (heap st') (HDRP (mem_start st + 16)) = 0 /\
    (forall c, members st' c = if Nat.eqb c 13 then [mem_start st + 16] else []).
Proof.
  intros st Hu Hroom. rewrite (mm_init_uninit _ Hu). destruct Hu as (_ & _ & Har).
  destruct (mm_init_ok (heap st) _ _ Har Hroom) as (st' & fl & I1 & I2 & I3 & I4).
  exists st'. split; [exact I1|]. split; [exists [(CHUNKSIZE, false)], fl; exact I2|].
  pose proof I2 as (Hsh & _).
  assert (Efb : first_bp st' = mem_start st + 16) by (unfold first_bp; rewrite I3; reflexivity).
  split; [rewrite (sh_hlp _ _ Hsh), I3; reflexivity|].
  split.
  - rewrite (heap_blocks_shape _ _ Hsh), (sh_hlp _ _ Hsh), <- (sh_end _ _ Hsh), Efb, I3.
    cbn [addrs app total]. rewrite Z.add_0_r. reflexivity.
  - destruct (block_facts st' fl [] CHUNKSIZE false [] I2) as (B1 & B2 & _).
    cbn [total] in B1, B2. rewrite Efb, Z.add_0_r in B1, B2.
    split; [exact B1|]. split; [exact B2|].
    intros c. rewrite (lists_of_single_block st' fl CHUNKSIZE c I2), Efb. reflexivity.
Qed.

Lemma mm_init_builds_heap_on_arena0 :
  exists st', mm_init arena0 = Ok (st', 0) /\ valid_heap st' /\
    heap_listp st' = mem_start arena0 + 8 /\
    heap_blocks st' =
      [mem_start arena0 + 8; mem_start arena0 + 16; mem_start arena0 + 16 + CHUNKSIZE] /\
    GET_SIZE (heap st') (HDRP (mem_start arena0 + 16)) = CHUNKSIZE /\
    GET_ALLOC (heap st') (HDRP (mem_start arena0 + 16)) = 0 /\
    (forall c, members st' c = if Nat.eqb c 13 then [mem_start arena0 + 16] else []).
Proof.
  apply (mm_init_builds_heap arena0 arena0_uninitialized).
  vm_compute. discriminate.
Defined.

(** A provider whose arena is too small for the first chunk. *)
Definition tiny_arena : state := fresh (fun _ => 0) 4096 4200.

Lemma tiny_arena_uninitialized : uninitialized tiny_arena.
Proof.
  unfold uninitialized, arena_ok, tiny_arena, fresh.
  cbn [heap_listp mem_brk mem_start mem_max_addr]. repeat split; try reflexivity; lia.
Qed.

(** X2.  [mm_init] returns -1 when the provider cannot supply the four
    words of the frame and the first chunk of 4096 bytes. *)
Theorem mm_init_reports_exhaustion : forall st,
  uninitialized st -> mem_max_addr st < mem_start st + 16 + CHUNKSIZE ->
  exists st', mm_init st = Ok (st', -1).
Proof.
  intros st Hu Hfull. rewrite (mm_init_uninit _ Hu). destruct Hu as (_ & _ & Har).
  set (lo := mem_start st) in *. set (max := mem_max_addr st) in *.
  unfold CHUNKSIZE in Hfull. pose proof Har as (A1 & A2 & A3 & A4).
  unfold mm_init, mem_sbrk. cbn [mem_brk mem_max_addr clear_lists fresh].
  unfold_consts.
  destruct (Z.leb_spec (lo + 4 * 4) max) as [Hfit|Hno].
  - destruct (Z.eqb_spec lo SIZE_MAX) as [E|_]; [eexists; reflexivity|].
    rewrite extend_heap_fail; [cbn; eexists; reflexivity|].
    assert (Hes : ext_size (4096 / 4) = 4096) by (apply (ext_size_even 4096); [lia|reflexivity]).
    rewrite Hes. cbn [mem_brk mem_max_addr set_heap_listp set_heap]. lia.
  - cbn [Z.eqb SIZE_MAX]. eexists. reflexivity.
Qed.

Lemma mm_init_reports_exhaustion_on_tiny_arena :
  exists st', mm_init tiny_arena = Ok (st', -1).
Proof.
  apply (mm_init_reports_exhaustion tiny_arena tiny_arena_uninitialized).
  vm_compute. reflexivity.
Defined.

Lemma ext_size_rounds : forall words, 0 <= words < 2305843009213693952 ->
  ext_size words = 4 * (words + words mod 2).
Proof.
  intros words H. unfold ext_size, WSIZE.
  pose proof (Z.mod_pos_bound words 2 ltac:(lia)) as B.
  destruct (Z.eqb_spec (words mod 2) 0) as [E|E]; cbn [negb].
  - rewrite E, wrap64_small by lia. lia.
  - assert (E1 : words mod 2 = 1) by lia. rewrite E1, wrap64_small by lia. lia.
Qed.

(** X3.  [extend_heap words] with [0 <= words < 2^61] (so that the byte
    count does not wrap) and a byte count of at least 16 (3 words or more),
    on a well-formed heap, whose arena spans less than 2^32 bytes
    ([valid_heap]), asks
    the provider for [words] rounded up to an even count, times 4, bytes.
    When the provider refuses it returns NULL and changes nothing.  When
    the provider grants them, the break moves by that amount, the heap
    satisfies the invariants again, and the result is a free block on the
    list of its class, of at least the size asked for (more when the last
    block was free and has been merged with the new one). *)
Theorem extend_heap_adds_free_block : forall st words,
  valid_heap st -> 0 <= words < 2305843009213693952 -> 16 <= ext_size words ->
  ext_size words = 4 * (words + words mod 2) /\
  (mem_max_addr st < mem_brk st + ext_size words -> extend_heap st words = Ok (st, 0)) /\
  (mem_brk st + ext_size words <= mem_max_addr st ->
   exists st' r, extend_heap st words = Ok (st', r) /\ valid_heap st' /\
     mem_brk st' = mem_brk st + ext_size words /\
     mem_start st' = mem_start st /\
     GET_ALLOC (heap st') (HDRP r) = 0 /\
     ext_size words <= GET_SIZE (heap st') (HDRP r) /\
     In r (members st' (class_of (GET_SIZE (heap st') (HDRP r))))).
Proof.
  intros st words (bs & fl & G) Hw Hmin.
  split; [exact (ext_size_rounds words Hw)|]. split; [apply extend_heap_fail|].
  intros Hroom.
  destruct (extend_heap_ok st bs fl words G Hmin (ext_size_mod8 words) Hroom)
    as (st' & r & bs' & fl' & Q1 & Q2 & Q3 & Q4 & lA & s' & lB & Q5 & Q6 & Q7).
  exists st', r. split; [exact Q1|]. split; [exists bs', fl'; exact Q2|].
  destruct Q3 as (E1 & E2 & E3 & E4). cbn [grow mem_start mem_brk] in E1, E2.
  split; [exact E2|]. split; [exact E1|].
  subst bs'. destruct (block_facts st' fl' lA s' false lB Q2) as (B1 & B2 & _ & _ & B5 & _).
  assert (Efb : first_bp st' = first_bp st) by (unfold first_bp; rewrite E1; reflexivity).
  rewrite Efb, <- Q6 in B1, B2, B5. destruct (B5 eq_refl) as (_ & B5b).
  rewrite B1. repeat split; assumption.
Qed.

Lemma extend_heap_adds_free_block_to_heap2 :
  ext_size 1023 = 4 * (1023 + 1023 mod 2) /\
  (mem_max_addr heap2 < mem_brk heap2 + ext_size 1023 -> extend_heap heap2 1023 = Ok (heap2, 0)) /\
  (mem_brk heap2 + ext_size 1023 <= mem_max_addr heap2 ->
   exists st' r, extend_heap heap2 1023 = Ok (st', r) /\ valid_heap st' /\
     mem_brk st' = mem_brk heap2 + ext_size 1023 /\
     mem_start st' = mem_start heap2 /\
     GET_ALLOC (heap st') (HDRP r) = 0 /\
     ext_size 1023 <= GET_SIZE (heap st') (HDRP r) /\
     In r (members st' (class_of (GET_SIZE (heap st') (HDRP r))))).
Proof.
  apply (extend_heap_adds_free_block heap2 1023 heap2_valid).
  - lia.
  - vm_compute. discriminate.
Defined.

(** X4.  [malloc] and [free] on a provider that was never initialized
    ([heap_listp] still 0) run [mm_init] first: with room for the first
    chunk, they behave as the same call on the heap that [mm_init] builds.
    [free (NULL)] returns before that and changes nothing. *)
Theorem entry_points_initialize_first : forall st,
  uninitialized st -> mem_start st + 16 + CHUNKSIZE <= mem_max_addr st ->
  exists st1, mm_init st = Ok (st1, 0) /\ valid_heap st1 /\
    (forall size, malloc st size = malloc st1 size) /\
    (forall p, p <> 0 -> free st p = free st1 p) /\
    free st 0 = Ok st.
Proof.
  intros st Hu Hroom.
  assert (Hb : exists st1, mm_init st = Ok (st1, 0)).
  { rewrite (mm_init_uninit _ Hu). pose proof Hu as (_ & _ & Har).
    destruct (mm_init_ok (heap st) _ _ Har Hroom) as (st1 & fl & I1 & _).
    exists st1. exact I1. }
  destruct Hb as (st1 & I1).
  destruct (mm_init_good st st1 Hu I1) as (bs & fl & G & _).
  pose proof G as (Hsh & _). destruct Hu as (Hz & _).
  assert (Hens : ensure_init st = Ok st1).
  { unfold ensure_init. rewrite Hz. cbn [Z.eqb]. rewrite I1. reflexivity. }
  exists st1. split; [exact I1|]. split; [exists bs, fl; exact G|].
  split; [|split; [|reflexivity]].
  - intros size. unfold malloc. rewrite Hens, (ensure_init_done _ _ Hsh). reflexivity.
  - intros p Hp. unfold free. destruct (Z.eqb_spec p 0); [contradiction|].
    rewrite Hens, (ensure_init_done _ _ Hsh). reflexivity.
Qed.

Lemma entry_points_initialize_arena0 :
  exists st1, mm_init arena0 = Ok (st1, 0) /\ valid_heap st1 /\
    (forall size, malloc arena0 size = malloc st1 size) /\
    (forall p, p <> 0 -> free arena0 p = free st1 p) /\
    free arena0 0 = Ok arena0.
Proof.
  apply (entry_points_initialize_first arena0 arena0_uninitialized).
  vm_compute. discriminate.
Defined.

(* ================================================================= *)
(** * Live blocks *)


(** X5.  In a state reached from a successful initialization, on a provider
    whose arena starts at a positive 8-aligned address, ends below 2^64 and
    spans less than 2^32 bytes, by calls of [malloc], [free], [realloc] and
    [extend_heap] with requests of at most [max_request] (2^64 - 12) bytes,
    [free] and [realloc] being given NULL or a live pointer and
    [extend_heap] being asked for at least 16 bytes:
    every pointer handed out and not yet released is 8-byte aligned, heads a
    block with the allocated bit set that lies inside the heap and offers at
    least 12 payload bytes (stored size at least 16), and the blocks of two
    different live pointers do not overlap. *)
Theorem live_blocks_are_apart : forall st L p q,
  reachable max_request st L -> In p L -> In q L ->
  p mod 8 = 0 /\ GET_ALLOC (heap st) (HDRP p) = 1 /\
  16 <= GET_SIZE (heap st) (HDRP p) /\
  mem_heap_lo st + 16 <= p /\ p + GET_SIZE (heap st) (HDRP p) <= mem_heap_hi st /\
  (p = q \/ p + GET_SIZE (heap st) (HDRP p) <= q \/ q + GET_SIZE (heap st) (HDRP q) <= p).
Proof.
  intros st L p q H Hp Hq. destruct (reachable_inv _ _ H) as (bs & fl & G & HL).
  pose proof G as (Hsh & _). pose proof (shape_geom _ _ Hsh) as Hg.
  destruct (HL p Hp) as (sp & Hsp). destruct (HL q Hq) as (sq & Hsq).
  destruct (alloc_hdr _ _ _ _ Hsh Hsp) as (Fp & Ap).
  destruct (alloc_hdr _ _ _ _ Hsh Hsq) as (Fq & _).
  pose proof (alloc_block_facts _ _ Hg _ _ Hsp) as (B1 & B2 & B3 & B4 & B5 & _).
  rewrite Fp, Fq. unfold mem_heap_lo, mem_heap_hi. unfold first_bp in B1.
  repeat split; try assumption; try lia.
  destruct (Z.eq_dec p q) as [E|Hne]; [now left|right].
  exact (allocs_apart _ _ _ _ _ _ (shape_sizes _ _ Hsh) Hsp Hsq Hne).
Qed.

Lemma heap2_live : In (value_of hist_b) live2.
Proof. vm_compute. left. reflexivity. Qed.

(** The state of the history after its two allocations. *)
Lemma hist_b_reachable :
  reachable max_request (state_of hist_b)
    (add_live (value_of hist_b) (add_live (value_of hist_a) [])).
Proof.
  assert (Ha : is_ok hist_a = true) by (vm_compute; reflexivity).
  assert (Hb : is_ok hist_b = true) by (vm_compute; reflexivity).
  exact (reach_malloc max_request (state_of hist_a) (add_live (value_of hist_a) []) 200
           (state_of hist_b) (value_of hist_b)
           (reach_malloc max_request heap1 [] 100 (state_of hist_a) (value_of hist_a)
              (heap1_reachable max_request) (small_request 100 ltac:(lia)) (run_eq hist_a Ha))
           (small_request 200 ltac:(lia)) (run_eq hist_b Hb)).
Qed.

Lemma hist_a_is_live :
  In (value_of hist_a) (add_live (value_of hist_b) (add_live (value_of hist_a) [])).
Proof. vm_compute. right. left. reflexivity. Qed.

Lemma hist_b_is_live :
  In (value_of hist_b) (add_live (value_of hist_b) (add_live (value_of hist_a) [])).
Proof. vm_compute. left. reflexivity. Qed.

Lemma live_blocks_are_apart_after_two_mallocs :
  value_of hist_a mod 8 = 0 /\
  GET_ALLOC (heap (state_of hist_b)) (HDRP (value_of hist_a)) = 1 /\
  16 <= GET_SIZE (heap (state_of hist_b)) (HDRP (value_of hist_a)) /\
  mem_heap_lo (state_of hist_b) + 16 <= value_of hist_a /\
  value_of hist_a + GET_SIZE (heap (state_of hist_b)) (HDRP (value_of hist_a))
    <= mem_heap_hi (state_of hist_b) /\
  (value_of hist_a = value_of hist_b \/
   value_of hist_a + GET_SIZE (heap (state_of hist_b)) (HDRP (value_of hist_a))
     <= value_of hist_b \/
   value_of hist_b + GET_SIZE (heap (state_of hist_b)) (HDRP (value_of hist_b))
     <= value_of hist_a).
Proof.
  exact (live_blocks_are_apart (state_of hist_b) _ (value_of hist_a) (value_of hist_b)
           hist_b_reachable hist_a_is_live hist_b_is_live).
Defined.

(** X6.  [free] of a live pointer returns, leaves a heap that satisfies the
    invariants and in which no two adjacent blocks are free, does not move
    the break, and keeps every other live block allocated with its size. *)
Theorem free_releases_live_block : forall st L p,
  reachable max_request st L -> In p L ->
  exists st', free st p = Ok st' /\ valid_heap st' /\ I5 st' = true /\
    mem_brk st' = mem_brk st /\
    (forall q, In q L -> q <> p ->
       GET_ALLOC (heap st') (HDRP q) = 1 /\
       GET_SIZE (heap st') (HDRP q) = GET_SIZE (heap st) (HDRP q)).
Proof.
  intros st L p H Hp. destruct (reachable_inv _ _ H) as (bs & fl & G & HL).
  destruct (HL p Hp) as (s & Hs).
  destruct (free_live st bs fl p s G Hs) as (st' & bs' & fl' & F1 & F2 & F3 & F4).
  exists st'. split; [exact F1|]. split; [exists bs', fl'; exact F2|].
  split; [exact (on_walk_good st' bs' fl' _ F2 (not_both_free_rule (heap st')))|].
  pose proof F3 as (E1 & E2 & _). split; [exact E2|].
  intros q Hq Hne. destruct (HL q Hq) as (sq & Hsq).
  pose proof G as (Hsh & _). pose proof F2 as (Hsh' & _).
  assert (Hsq' : In (q, sq) (allocs (first_bp st') bs')).
  { rewrite (grown_first_bp _ _ (same_arena_grown _ _ F3)). apply F4. split; assumption. }
  destruct (alloc_hdr _ _ _ _ Hsh Hsq) as (A1 & _).
  destruct (alloc_hdr _ _ _ _ Hsh' Hsq') as (A1' & A2'). rewrite A1, A1'. split; auto.
Qed.

Lemma free_releases_first_of_two :
  exists st', free (state_of hist_b) (value_of hist_a) = Ok st' /\ valid_heap st' /\
    I5 st' = true /\ mem_brk st' = mem_brk (state_of hist_b) /\
    (forall q, In q (add_live (value_of hist_b) (add_live (value_of hist_a) [])) ->
       q <> value_of hist_a ->
       GET_ALLOC (heap st') (HDRP q) = 1 /\
       GET_SIZE (heap st') (HDRP q) = GET_SIZE (heap (state_of hist_b)) (HDRP q)).
Proof.
  exact (free_releases_live_block (state_of hist_b) _ (value_of hist_a)
           hist_b_reachable hist_a_is_live).
Defined.

(* ================================================================= *)
(** * [deletex] and [insertx] on a listed block *)

(** X7.  On a well-formed heap, whose arena spans less than 2^32 bytes
    ([valid_heap]), [deletex] called on a
    listed block with its stored size removes the block from its list and
    leaves the order of the rest and every other list as they were;
    [insertx] of the block with the same size then puts it at the head of
    the same list, and the heap satisfies the invariants again. *)
Theorem deletex_then_insertx_moves_to_front : forall st q c,
  valid_heap st -> In q (members st c) ->
  exists st1, deletex st q (GET_SIZE (heap st) (HDRP q)) = Ok st1 /\
    (forall k, members st1 k =
               if Nat.eqb k c then remove Z.eq_dec q (members st c) else members st k) /\
    (forall k, members (insertx st1 q (GET_SIZE (heap st) (HDRP q))) k =
               if Nat.eqb k c then q :: remove Z.eq_dec q (members st c)
               else members st k) /\
    valid_heap (insertx st1 q (GET_SIZE (heap st) (HDRP q))).
Proof.
  intros st q c (bs & fl & G) Hin.
  destruct (listed_block st bs fl c q G Hin) as (l1 & l2 & Ebs & Eq & Ec).
  set (s := GET_SIZE (heap st) (HDRP q)) in *.
  pose proof G as (Hsh & Hadj & Hl). pose proof (shape_geom _ _ Hsh) as Hg.
  assert (Hfree : In (q, s) (frees (first_bp st) bs)).
  { rewrite Ebs, Eq. apply in_frees_cut. right. left. cbn. auto. }
  destruct (deletex_from_ok st bs fl [] Hg Hl s q s cascade Hfree ltac:(intros [])
              cascade_nodup (class_of_visits s)) as (st1 & D1 & D2 & D3 & D4 & _).
  pose proof (geom_same_arena _ _ _ Hg D4) as Hg1.
  assert (Efb : first_bp st1 = first_bp st).
  { destruct D4 as (E & _). unfold first_bp. rewrite E. reflexivity. }
  assert (Hfree1 : In (q, s) (frees (first_bp st1) bs)) by (rewrite Efb; exact Hfree).
  destruct (insertx_ok st1 bs _ [q] Hg1 D3 q s Hfree1 (or_introl eq_refl))
    as (I1 & I2 & _).
  rewrite remove_single in I1.
  exists st1. split; [exact D1|]. split; [|split].
  - intros k. rewrite (members_of_lists st1 bs _ _ k Hg1 D3). unfold fl_del.
    rewrite <- Ec. rewrite !(members_fl st bs fl _ G). reflexivity.
  - intros k.
    rewrite (members_of_lists _ bs _ _ k (geom_same_arena _ _ _ Hg1 I2) I1).
    unfold fl_add, fl_del. rewrite <- Ec, !(members_fl st bs fl _ G).
    destruct (Nat.eqb_spec k c) as [->|Hne]; [rewrite Nat.eqb_refl; reflexivity|reflexivity].
  - exists bs, (fl_add (fl_del fl (class_of s) q) (class_of s) q).
    split; [apply shape_insertx; [exact (D2 Hsh)|exact Hfree1]|]. split; [exact Hadj|exact I1].
Qed.

(** On the fragmented heap, where list 6 holds 4320 and then 4360 and lists
    4, 5 and 13 hold one block each: the removal of 4360 has to walk past
    the head of its list. *)
Lemma deletex_then_insertx_on_heap3 :
  (members heap3 4 = [4112] /\ members heap3 5 = [4192] /\
   members heap3 6 = [4320; 4360] /\ members heap3 13 = [4480]) /\
  exists st1, deletex heap3 4360 (GET_SIZE (heap heap3) (HDRP 4360)) = Ok st1 /\
    (forall k, members st1 k =
               if Nat.eqb k 6 then remove Z.eq_dec 4360 (members heap3 6)
               else members heap3 k) /\
    (forall k, members (insertx st1 4360 (GET_SIZE (heap heap3) (HDRP 4360))) k =
               if Nat.eqb k 6 then 4360 :: remove Z.eq_dec 4360 (members heap3 6)
               else members heap3 k) /\
    valid_heap (insertx st1 4360 (GET_SIZE (heap heap3) (HDRP 4360))).
Proof.
  split; [vm_compute; repeat split; reflexivity|].
  assert (Hin : In 4360 (members heap3 6)) by (vm_compute; tauto).
  exact (deletex_then_insertx_moves_to_front heap3 4360 6 heap3_valid Hin).
Defined.

(* ================================================================= *)
(** * The checker: [aligned], [in_heap], [mm_checkheap] *)

(** [in_heap]: [p <= mem_heap_hi() && p >= mem_heap_lo()]. *)
Definition in_heap (st : state) (p : Z) : bool :=
  (p <=? mem_heap_hi st) && (mem_heap_lo st <=? p).

(** [aligned]: [(size_t)ALIGN(p) == (size_t)p]. *)
Definition aligned (p : Z) : bool := ALIGN p =? p.

(** [mm_checkheap] either runs to its end or leaves through [exit(0)] after
    printing a message.  Of what it prints, the model keeps the message of
    an exit and the number of [Block Size Out Of Range Error!] lines, the
    one complaint that does not end the run. *)
Inductive verdict : Type :=
| Completed (range_messages : nat)
| Aborted (msg : string).

(** The walk over the blocks.  [cnt] and [mark] change only under
    [if (lineno)]. *)
Fixpoint check_blocks (fuel : nat) (st : state) (lineno bp mark cnt : Z)
  : result (string + Z) :=
  match fuel with
  | O => Err Diverges
  | S f =>
      let m := heap st in
      if bp =? mem_heap_hi st then Ok (inr cnt)
      else if negb (aligned bp) then Ok (inl "Aligned Error!"%string)
      else if GET_SIZE m (HDRP bp) =? 0 then Ok (inr cnt)
      else if negb (lineno =? 0) then
        if negb (GET_ALLOC m (HDRP bp) =? 0) then
          check_blocks f st lineno (NEXT_BLKP m bp) 1 cnt
        else if mark =? 0 then Ok (inl "Consecutive Free Blocks Error!"%string)
        else if negb (GET m (HDRP bp) =? GET m (FTRP m bp))
             then Ok (inl "Header And Footer Match Error!"%string)
        else check_blocks f st lineno (NEXT_BLKP m bp) 0 (cnt + 1)
      else check_blocks f st lineno (NEXT_BLKP m bp) mark cnt
  end.

(** The size test of each list: lists 1 to 14 complain about a size above
    their bound, list 15 about a size of at most [num14]. *)
Inductive range_test : Type :=
| Above (b : Z)
| NotAbove (b : Z).

Definition out_of_range (t : range_test) (s : Z) : bool :=
  match t with
  | Above b => s >? b
  | NotAbove b => s <=? b
  end.

Definition list_checks : list (nat * range_test) :=
  [ (1%nat, Above num01); (2%nat, Above num02); (3%nat, Above num03);
    (4%nat, Above num04); (5%nat, Above num05); (6%nat, Above num06);
    (7%nat, Above num07); (8%nat, Above num08); (9%nat, Above num09);
    (10%nat, Above num10); (11%nat, Above num11); (12%nat, Above num12);
    (13%nat, Above num13); (14%nat, Above num14); (15%nat, NotAbove num14) ].

(** The walk over one list: [cnt1] counts every member. *)
Fixpoint check_list (fuel : nat) (st : state) (t : range_test)
         (startx cnt1 : Z) (warn : nat) : result (string + (Z * nat)) :=
  match fuel with
  | O => Err Diverges
  | S f =>
      if startx =? 0 then Ok (inr (cnt1, warn))
      else if negb (in_heap st startx) then Ok (inl "Block Out Of Range Error!"%string)
      else check_list f st t (GETL (heap st) startx) (cnt1 + 1)
             (if out_of_range t (GET_SIZE (heap st) (HDRP startx)) then S warn else warn)
  end.

Fixpoint check_lists (cs : list (nat * range_test)) (st : state)
         (cnt1 : Z) (warn : nat) : result (string + (Z * nat)) :=
  match cs with
  | [] => Ok (inr (cnt1, warn))
  | (c, t) :: rest =>
      r <- check_list (fuel_of st) st t (lhead st c) cnt1 warn ;;
      match r with
      | inl msg => Ok (inl msg)
      | inr (cnt1', warn') => check_lists rest st cnt1' warn'
      end
  end.

Definition mm_checkheap (st : state) (lineno : Z) : result verdict :=
  let m := heap st in
  let bp := heap_listp st in
  if GET m (HDRP bp) =? 0
  then Ok (Aborted "Epilogue And Prologue Blocks Error!")
  else if negb (GET_SIZE m (HDRP bp) =? DSIZE)
  then Ok (Aborted "Epilogue And Prologue Size Error!")
  else if GET_ALLOC m (HDRP bp) =? 0
  then Ok (Aborted "Epilogue And Prologue Header Allocated Error!")
  else
    r <- check_blocks (fuel_of st) st lineno bp 1 0 ;;
    match r with
    | inl msg => Ok (Aborted msg)
    | inr cnt =>
        r1 <- check_lists list_checks st 0 0%nat ;;
        match r1 with
        | inl msg => Ok (Aborted msg)
        | inr (cnt1, warn) =>
            if negb (cnt =? cnt1)
            then Ok (Aborted "Free Blocks Numbers Match Error!")
            else Ok (Completed warn)
        end
    end.

Lemma land_align_mask : forall w, 0 <= w < 18446744073709551616 ->
  Z.land w (2 ^ 64 - 8) = w - w mod 8.
Proof.
  intros w Hw. change (2 ^ 64 - 8) with 18446744073709551608.
  assert (Hsum : Z.land w 18446744073709551608 + Z.land w 7 = w).
  { rewrite Z.add_nocarry_lxor, Z.lxor_lor.
    - rewrite <- Z.land_lor_distr_r. change (Z.lor 18446744073709551608 7) with (Z.ones 64).
      rewrite Z.land_ones by lia. apply Z.mod_small. pow2. lia.
    - rewrite (Z.land_comm w 7), Z.land_assoc, <- (Z.land_assoc w 18446744073709551608 7).
      change (Z.land 18446744073709551608 7) with 0. now rewrite Z.land_0_r, Z.land_0_l.
    - rewrite (Z.land_comm w 7), Z.land_assoc, <- (Z.land_assoc w 18446744073709551608 7).
      change (Z.land 18446744073709551608 7) with 0. now rewrite Z.land_0_r, Z.land_0_l. }
  rewrite land_low3 in Hsum. lia.
Qed.

(** X8.  For an address [p] (a [size_t]), [aligned p] holds exactly when
    [p] is a multiple of 8; near the top of the address space, where
    [p + 7] wraps, it is false. *)
Theorem aligned_iff_multiple_of_8 : forall p, 0 <= p < 18446744073709551616 ->
  (aligned p = true <-> p mod 8 = 0).
Proof.
  intros p Hp. unfold aligned, ALIGN, wrap64. pow2.
  pose proof (Z.div_mod p 8 ltac:(lia)) as Ep.
  pose proof (Z.mod_pos_bound p 8 ltac:(lia)) as Bp.
  destruct (Z_lt_le_dec (p + 7) 18446744073709551616) as [Hs|Hw].
  - rewrite (Z.mod_small (p + 7)) by lia.
    change (18446744073709551616 - 8) with (2 ^ 64 - 8).
    rewrite land_align_mask by lia.
    pose proof (Z.div_mod (p + 7) 8 ltac:(lia)) as E7.
    pose proof (Z.mod_pos_bound (p + 7) 8 ltac:(lia)) as B7.
    rewrite Z.eqb_eq. split; intros H; lia.
  - assert (Ew : (p + 7) mod 18446744073709551616 = p + 7 - 18446744073709551616).
    { symmetry. apply (Z.mod_unique _ _ 1); lia. }
    rewrite Ew. change (18446744073709551616 - 8) with (2 ^ 64 - 8).
    rewrite land_align_mask by lia.
    pose proof (Z.mod_pos_bound (p + 7 - 18446744073709551616) 8 ltac:(lia)) as B7.
    rewrite Z.eqb_eq. split; intros H; lia.
Qed.

Lemma aligned_iff_multiple_of_8_at_4112 : aligned 4112 = true <-> 4112 mod 8 = 0.
Proof. apply (aligned_iff_multiple_of_8 4112). lia. Defined.

Lemma aligned_block : forall p, 0 <= p < 18446744073709551616 -> p mod 8 = 0 ->
  aligned p = true.
Proof.
  intros p Hp H8. unfold aligned, ALIGN, wrap64. pow2.
  pose proof (Z.div_mod p 8 ltac:(lia)) as Ep.
  rewrite (Z.mod_small (p + 7)) by lia.
  change (18446744073709551616 - 8) with (2 ^ 64 - 8).
  rewrite land_align_mask by lia.
  pose proof (Z.div_mod (p + 7) 8 ltac:(lia)) as E7.
  pose proof (Z.mod_pos_bound (p + 7) 8 ltac:(lia)) as B7.
  rewrite Z.eqb_eq. lia.
Qed.

(** The block walk of the checker over a well-formed tail: no exit, and
    with [lineno <> 0] one count per free block. *)
Lemma check_blocks_tail : forall st lineno bs p pa mark cnt fuel,
  tail_ok (heap st) p pa bs (mem_brk st) ->
  mem_brk st - p < 4294967296 -> mem_brk st < 18446744073709551616 ->
  0 < p -> p mod 8 = 0 ->
  adj_ok ((0, pa) :: bs) -> (lineno <> 0 -> mark = b2z1 pa) ->
  (length bs < fuel)%nat ->
  check_blocks fuel st lineno p mark cnt =
  Ok (inr (cnt + (if lineno =? 0 then 0 else Z.of_nat (length (frees p bs))))).
Proof.
  intros st lineno. induction bs as [|[s a] r IH];
    intros p pa mark cnt fuel HT Hlt Hmax Hp Hp8 Hadj Hmark Hf.
  - destruct HT as (_ & T2 & _). cbn [total] in T2.
    destruct fuel as [|f]; [cbn in Hf; lia|]. cbn [check_blocks].
    unfold mem_heap_hi. destruct (Z.eqb_spec p (mem_brk st)) as [_|Hne]; [|lia].
    cbn [frees length]. destruct (lineno =? 0); do 2 f_equal; cbn; lia.
  - pose proof HT as (T1 & T2 & T3).
    pose proof (seg_ok_sizes _ _ _ _ T1) as Hsz. apply sizes_ok_cons in Hsz.
    destruct Hsz as [[S1 S2] Zr]. pose proof (sizes_ok_total _ Zr) as Ht.
    cbn [total] in T2. destruct T1 as (_ & _ & C & D & E).
    destruct (fields_of_GET _ _ _ _ _ C ltac:(lia) S2 ltac:(pow2; lia)) as (F1 & F2 & F3).
    destruct fuel as [|f]; [cbn in Hf; lia|]. cbn [check_blocks].
    unfold mem_heap_hi. destruct (Z.eqb_spec p (mem_brk st)) as [Heq|_]; [lia|].
    rewrite aligned_block by (assumption || lia). cbn [negb].
    unfold NEXT_BLKP, FTRP. unfold_consts. rewrite F1, F3.
    destruct (Z.eqb_spec s 0) as [|_]; [lia|].
    assert (Hp8' : (p + s) mod 8 = 0).
    { pose proof (Z.div_mod p 8 ltac:(lia)) as E1. pose proof (Z.div_mod s 8 ltac:(lia)) as E2.
      replace (p + s) with ((p / 8 + s / 8) * 8) by lia. apply Z.mod_mul. lia. }
    assert (HT' : tail_ok (heap st) (p + s) a r (mem_brk st)).
    { repeat split; [exact E|lia|exact T3]. }
    assert (Hadj' : adj_ok ((0, a) :: r)).
    { cbn in Hadj. destruct Hadj as [_ Hadj]. destruct r as [|[s2 a2] r2]; [exact I|].
      cbn in Hadj |- *. exact Hadj. }
    assert (Hlen' : (length r < f)%nat) by (cbn [length] in Hf; lia).
    assert (Hlt' : mem_brk st - (p + s) < 4294967296) by lia.
    assert (Hp' : 0 < p + s) by lia.
    destruct (Z.eqb_spec lineno 0) as [Hl0|Hl0]; cbn [negb].
    + rewrite (IH (p + s) a mark cnt f HT' Hlt' Hmax Hp' Hp8' Hadj'
                 ltac:(intros Hc; contradiction) Hlen').
      subst lineno. reflexivity.
    + destruct a; cbn [b2z1 Z.eqb negb].
      * rewrite (IH (p + s) true 1 cnt f HT' Hlt' Hmax Hp' Hp8' Hadj'
                   ltac:(intros _; reflexivity) Hlen').
        destruct (Z.eqb_spec lineno 0); [contradiction|]. cbn [frees]. reflexivity.
      * assert (Hpa : pa = true) by (cbn in Hadj; destruct Hadj as [[Hx|Hx] _]; congruence).
        rewrite (Hmark Hl0), Hpa. cbn [b2z1 Z.eqb].
        rewrite C, (D eq_refl), Z.eqb_refl. cbn [negb].
        rewrite (IH (p + s) false 0 (cnt + 1) f HT' Hlt' Hmax Hp' Hp8' Hadj'
                   ltac:(intros _; reflexivity) Hlen').
        destruct (Z.eqb_spec lineno 0); [contradiction|]. cbn [frees length].
        do 2 f_equal. lia.
Qed.

(** The whole block walk, from the prologue. *)
Lemma check_blocks_good : forall st bs fl lineno,
  good st bs fl ->
  check_blocks (fuel_of st) st lineno (heap_listp st) 1 0 =
  Ok (inr (if lineno =? 0 then 0 else Z.of_nat (length (frees (first_bp st) bs)))).
Proof.
  intros st bs fl lineno (Hsh & Hadj & _).
  pose proof (shape_tail _ _ Hsh) as HT. pose proof (shape_sizes _ _ Hsh) as Hsz.
  pose proof (sizes_ok_length _ Hsz) as Hlen. pose proof (sizes_ok_total _ Hsz) as Ht.
  pose proof (sh_pro _ _ Hsh) as Hp.
  destruct (fields_of_GET _ _ _ _ _ Hp ltac:(lia) eq_refl ltac:(pow2; lia)) as (F1 & _ & F3).
  destruct Hsh. unfold first_bp in *. unfold fuel_of. rewrite sh_hlp0.
  cbn [check_blocks]. unfold mem_heap_hi.
  destruct (Z.eqb_spec (mem_start st + 8) (mem_brk st)) as [Heq|_]; [lia|].
  assert (Hal : (mem_start st + 8) mod 8 = 0).
  { pose proof (Z.div_mod (mem_start st) 8 ltac:(lia)) as E1.
    replace (mem_start st + 8) with ((mem_start st / 8 + 1) * 8) by lia. apply Z.mod_mul. lia. }
  assert (Hal2 : (mem_start st + 16) mod 8 = 0).
  { pose proof (Z.div_mod (mem_start st) 8 ltac:(lia)) as E1.
    replace (mem_start st + 16) with ((mem_start st / 8 + 2) * 8) by lia. apply Z.mod_mul. lia. }
  rewrite aligned_block by (assumption || lia). cbn [negb].
  unfold NEXT_BLKP. unfold_consts.
  replace (mem_start st + 8 - 4) with (mem_start st + 4) by lia. rewrite F1, F3.
  cbn [Z.eqb negb]. replace (mem_start st + 8 + 8) with (mem_start st + 16) by lia.
  assert (Hadj' : adj_ok ((0, true) :: bs)).
  { destruct bs as [|[s a] r]; [exact I|]. split; [now left|exact Hadj]. }
  assert (Hlen' : (length bs < Z.to_nat (mem_brk st - mem_start st))%nat) by lia.
  assert (Hlt' : mem_brk st - (mem_start st + 16) < 4294967296) by lia.
  assert (Hmax' : mem_brk st < 18446744073709551616) by lia.
  assert (Hp' : 0 < mem_start st + 16) by lia.
  destruct (Z.eqb_spec lineno 0) as [Hl0|Hl0]; cbn [negb].
  - rewrite (check_blocks_tail st lineno bs (mem_start st + 16) true 1 0 _
               HT Hlt' Hmax' Hp' Hal2 Hadj' ltac:(intros _; reflexivity) Hlen').
    subst lineno. reflexivity.
  - rewrite (check_blocks_tail st lineno bs (mem_start st + 16) true 1 0 _
               HT Hlt' Hmax' Hp' Hal2 Hadj' ltac:(intros _; reflexivity) Hlen').
    destruct (Z.eqb_spec lineno 0); [contradiction|]. reflexivity.
Qed.

Lemma check_list_flist : forall st t ps h cnt1 warn fuel,
  flist (heap st) h ps ->
  (forall q, In q ps ->
     in_heap st q = true /\ out_of_range t (GET_SIZE (heap st) (HDRP q)) = false) ->
  (length ps < fuel)%nat ->
  check_list fuel st t h cnt1 warn = Ok (inr (cnt1 + Z.of_nat (length ps), warn)).
Proof.
  intros st t. induction ps as [|p r IH]; intros h cnt1 warn fuel Hfl Hall Hf.
  - cbn in Hfl. subst h. destruct fuel as [|f]; [cbn in Hf; lia|]. cbn [check_list Z.eqb length].
    do 3 f_equal. cbn. lia.
  - destruct Hfl as (-> & Hnz & Hfl). destruct fuel as [|f]; [cbn in Hf; lia|].
    cbn [check_list]. destruct (Z.eqb_spec p 0); [contradiction|].
    destruct (Hall p (or_introl eq_refl)) as (Hin & Hout). rewrite Hin, Hout. cbn [negb].
    rewrite (IH _ (cnt1 + 1) warn f Hfl); [|intros q Hq; apply Hall; now right|cbn [length] in Hf; lia].
    cbn [length]. do 3 f_equal. lia.
Qed.

(** The class that [insertx] gives each band of sizes. *)
Lemma class_of_band : forall s,
  (s <= 12 /\ class_of s = 1%nat) \/ (12 < s <= 16 /\ class_of s = 2%nat) \/
  (16 < s <= 20 /\ class_of s = 3%nat) \/ (s = 64 /\ class_of s = 4%nat) \/
  (s = 112 /\ class_of s = 5%nat) \/
  (20 < s <= 120 /\ s <> 64 /\ s <> 112 /\ class_of s = 6%nat) \/
  (120 < s <= 256 /\ class_of s = 7%nat) \/ (256 < s <= 448 /\ class_of s = 8%nat) \/
  (448 < s <= 512 /\ class_of s = 9%nat) \/ (512 < s <= 1024 /\ class_of s = 10%nat) \/
  (1024 < s <= 2048 /\ class_of s = 11%nat) \/ (2048 < s <= 3072 /\ class_of s = 12%nat) \/
  (3072 < s <= 4096 /\ class_of s = 13%nat) \/ (4096 < s <= 8192 /\ class_of s = 14%nat) \/
  (8192 < s /\ class_of s = 15%nat).
Proof.
  intros s. unfold class_of, cascade.
  unfold num01, num02, num03, num04, num05, num06, num07, num08, num09, num10,
         num11, num12, num13, num14.
  cbn [class_from passes].
  pose proof (size_bands s) as B.
  repeat (destruct B as [B|B]; [decide_cmp; lia|]).
  decide_cmp; lia.
Qed.

(** The checker's size test of a list accepts the sizes of its class. *)
Lemma class_in_range : forall c t s,
  In (c, t) list_checks -> class_of s = c -> out_of_range t s = false.
Proof.
  intros c t s Hin Hc. unfold list_checks in Hin.
  unfold num01, num02, num03, num04, num05, num06, num07, num08, num09, num10,
         num11, num12, num13, num14 in Hin.
  pose proof (class_of_band s) as B. rewrite Hc in B. cbn [In] in Hin.
  repeat (destruct Hin as [Hin|Hin];
          [inversion Hin; subst c t; cbn [out_of_range];
           first [apply Z.leb_gt; lia | apply Z.gtb_ltb; lia | idtac]|]);
    try contradiction.
  all: rewrite Z.gtb_ltb; apply Z.ltb_ge; lia.
Qed.

Lemma check_lists_good : forall st bs fl, good st bs fl ->
  forall cs, incl cs list_checks -> forall cnt1 warn,
  check_lists cs st cnt1 warn =
  Ok (inr (cnt1 + Z.of_nat (length (concat (map (fun ct => fl (fst ct)) cs))), warn)).
Proof.
  intros st bs fl G. pose proof G as (Hsh & _ & Hl). pose proof (shape_geom _ _ Hsh) as Hg.
  induction cs as [|[c t] rest IH]; intros Hincl cnt1 warn.
  - cbn. do 3 f_equal. lia.
  - cbn [check_lists map concat fst].
    rewrite (check_list_flist st t (fl c)).
    + cbn [bind]. rewrite IH by (intros x Hx; apply Hincl; now right).
      rewrite length_app. do 3 f_equal. lia.
    + apply (lo_chain _ _ _ _ Hl).
    + intros q Hq. pose proof (listed_facts st bs fl [] Hg Hl c q Hq) as F.
      destruct (lo_sound _ _ _ _ Hl _ _ Hq) as (_ & s & Hs & Hc).
      destruct (free_hdr _ _ _ _ Hsh Hs) as (Fs & _). rewrite Fs. split.
      * unfold in_heap, mem_heap_hi, mem_heap_lo. unfold first_bp in F.
        apply andb_true_intro. split; apply Z.leb_le; lia.
      * apply (class_in_range c t s); [apply Hincl; now left|exact Hc].
    + apply (listed_length st bs fl [] Hg Hl).
Qed.

Lemma frees_nodup : forall bs p, sizes_ok bs -> NoDup (map fst (frees p bs)).
Proof.
  induction bs as [|[s a] r IH]; intros p Hsz; [constructor|].
  apply sizes_ok_cons in Hsz. destruct Hsz as [[S1 S2] Zr]. cbn [frees].
  destruct a; [apply IH; exact Zr|]. cbn [map fst]. constructor; [|apply IH; exact Zr].
  intros Hin. apply in_map_iff in Hin. destruct Hin as ([q s'] & E & Hq). cbn in E. subst q.
  apply frees_range in Hq; [lia|exact Zr].
Qed.

Lemma nodup_concat : forall (f : nat -> list Z) cs,
  NoDup cs -> (forall c, NoDup (f c)) ->
  (forall c c' x, In x (f c) -> In x (f c') -> c = c') ->
  NoDup (concat (map f cs)).
Proof.
  intros f cs Hcs Hf Hdis. induction Hcs as [|c r Hc Hr IH]; [constructor|].
  cbn [map concat]. apply NoDup_app.
  - apply Hf.
  - exact IH.
  - intros x Hx Hin. apply in_concat in Hin. destruct Hin as (l & Hl & Hxl).
    apply in_map_iff in Hl. destruct Hl as (c' & <- & Hc').
    rewrite (Hdis c c' x Hx Hxl) in Hc. contradiction.
Qed.

(** The lists together hold as many blocks as the heap has free blocks. *)
Lemma listed_count : forall st bs fl, good st bs fl ->
  length (concat (map (fun ct => fl (fst ct)) list_checks)) =
  length (frees (first_bp st) bs).
Proof.
  intros st bs fl (Hsh & _ & Hl). pose proof (shape_geom _ _ Hsh) as Hg.
  pose proof (shape_sizes _ _ Hsh) as Hsz.
  rewrite <- (map_map fst fl). change (map fst list_checks) with (seq 1 15).
  rewrite <- (length_map fst (frees (first_bp st) bs)).
  apply Nat.le_antisymm; apply NoDup_incl_length.
  - apply nodup_concat.
    + apply seq_NoDup.
    + intros c. apply (lo_nodup _ _ _ _ Hl).
    + intros c c' x. apply (listed_unique st bs fl [] Hg Hl).
  - intros x Hx. apply in_concat in Hx. destruct Hx as (l & Hl' & Hxl).
    apply in_map_iff in Hl'. destruct Hl' as (c & <- & _).
    destruct (lo_sound _ _ _ _ Hl _ _ Hxl) as (_ & s & Hs & _).
    apply in_map_iff. exists (x, s). split; [reflexivity|exact Hs].
  - apply frees_nodup. exact Hsz.
  - intros x Hx. apply in_map_iff in Hx. destruct Hx as ([q s] & E & Hq). cbn in E. subst q.
    apply in_concat. exists (fl (class_of s)). split.
    + apply in_map. apply in_seq. pose proof (class_of_range s). lia.
    + apply (lo_complete _ _ _ _ Hl); [exact Hq|intros []].
Qed.

Lemma heads_all_null : forall st bs fl cs, lists_ok st bs fl [] ->
  forallb (fun c => lhead st c =? 0) cs = (length (concat (map fl cs)) =? 0)%nat.
Proof.
  intros st bs fl cs Hl. induction cs as [|c r IH]; [reflexivity|].
  cbn [forallb map concat]. rewrite length_app, IH.
  pose proof (lo_chain _ _ _ _ Hl c) as Hc. destruct (fl c) as [|p ps].
  - cbn in Hc. rewrite Hc. reflexivity.
  - destruct Hc as (-> & Hnz & _). destruct (Z.eqb_spec p 0); [contradiction|]. reflexivity.
Qed.

Lemma checker_prologue : forall st bs, shape st bs ->
  GET (heap st) (HDRP (heap_listp st)) <> 0 /\
  GET_SIZE (heap st) (HDRP (heap_listp st)) = DSIZE /\
  GET_ALLOC (heap st) (HDRP (heap_listp st)) = 1.
Proof.
  intros st bs H. rewrite (sh_hlp _ _ H). unfold_consts.
  replace (mem_start st + 8 - 4) with (mem_start st + 4) by lia.
  pose proof (sh_pro _ _ H) as Hp.
  destruct (fields_of_GET _ _ _ _ _ Hp ltac:(lia) eq_refl ltac:(pow2; lia)) as (F1 & _ & F3).
  rewrite Hp. repeat split; try assumption. cbn. discriminate.
Qed.

(** X9.  Called with a non-zero [lineno] on a heap that satisfies the
    invariants, [mm_checkheap] runs to its end: no test exits, the count of
    free blocks of the block walk equals the count of list members, and no
    list member is reported as out of the size range of its list. *)
Theorem checker_accepts_valid_heap : forall st lineno,
  valid_heap st -> lineno <> 0 -> mm_checkheap st lineno = Ok (Completed 0).
Proof.
  intros st lineno (bs & fl & G) Hl0. pose proof G as (Hsh & _).
  destruct (checker_prologue _ _ Hsh) as (P1 & P2 & P3).
  unfold mm_checkheap. destruct (Z.eqb_spec (GET (heap st) (HDRP (heap_listp st))) 0);
    [contradiction|].
  rewrite P2, P3, Z.eqb_refl. cbn [negb Z.eqb].
  rewrite (check_blocks_good st bs fl lineno G). cbn [bind].
  rewrite (check_lists_good st bs fl G list_checks (incl_refl _)). cbn [bind].
  rewrite (listed_count st bs fl G).
  destruct (Z.eqb_spec lineno 0); [contradiction|].
  rewrite Z.add_0_l, Z.eqb_refl. reflexivity.
Qed.

Lemma checker_accepts_heap2 : mm_checkheap heap2 1 = Ok (Completed 0).
Proof. apply (checker_accepts_valid_heap heap2 1 heap2_valid). discriminate. Defined.

(** X10.  Called with [lineno = 0] on a heap that satisfies the invariants,
    [mm_checkheap] counts no free block in the block walk (the count is kept
    under [if (lineno)]) but every list member: it runs to its end only when
    all fifteen lists are empty, and otherwise leaves through the exit of
    the count comparison. *)
Theorem silent_checker_rejects_free_blocks : forall st,
  valid_heap st ->
  mm_checkheap st 0 =
  Ok (if forallb (fun c => lhead st c =? 0) (seq 1 15)
      then Completed 0
      else Aborted "Free Blocks Numbers Match Error!").
Proof.
  intros st (bs & fl & G). pose proof G as (Hsh & _ & Hl).
  destruct (checker_prologue _ _ Hsh) as (P1 & P2 & P3).
  unfold mm_checkheap. destruct (Z.eqb_spec (GET (heap st) (HDRP (heap_listp st))) 0);
    [contradiction|].
  rewrite P2, P3, Z.eqb_refl. cbn [negb Z.eqb].
  rewrite (check_blocks_good st bs fl 0 G). cbn [bind Z.eqb].
  rewrite (check_lists_good st bs fl G list_checks (incl_refl _)). cbn [bind].
  rewrite (heads_all_null st bs fl (seq 1 15) Hl).
  rewrite <- (map_map fst fl). change (map fst list_checks) with (seq 1 15).
  destruct (length (concat (map fl (seq 1 15)))) as [|k]; reflexivity.
Qed.

Lemma silent_checker_rejects_heap1 :
  mm_checkheap heap1 0 = Ok (Aborted "Free Blocks Numbers Match Error!").
Proof.
  pose proof (silent_checker_rejects_free_blocks heap1 heap1_valid) as H.
  assert (E : forallb (fun c => lhead heap1 c =? 0) (seq 1 15) = false)
    by (vm_compute; reflexivity).
  rewrite E in H. exact H.
Defined.

(* ================================================================= *)
(** * Payload contents across calls *)

(** The end of the payload of the block at [q]: the address of the header
    of the block that follows. *)
Definition payload_end (m : mem) (q : Z) : Z := q + GET_SIZE m (HDRP q) - WSIZE.

(** [m'] holds the same bytes as [m] in the payload of every pointer of [L]. *)
Definition payloads_kept (L : list Z) (m m' : mem) : Prop :=
  forall q, In q L -> forall x, q <= x < payload_end m q -> m' x = m x.

Lemma payload_end_alloc : forall st bs q s,
  shape st bs -> In (q, s) (allocs (first_bp st) bs) ->
  payload_end (heap st) q = q + s - 4.
Proof.
  intros st bs q s Hsh Hin. destruct (alloc_hdr _ _ _ _ Hsh Hin) as (E & _).
  unfold payload_end. rewrite E. reflexivity.
Qed.

(** [malloc] on a heap with the live pointers [L]. *)
Lemma malloc_live : forall st L size,
  inv st L -> 0 < size <= max_request ->
  exists st' r, malloc st size = Ok (st', r) /\
    ((r = 0 /\ st' = st) \/
     (exists bs' fl' sz, good st' bs' fl' /\ grown st st' /\ size + 4 <= sz /\
        In (r, sz) (allocs (first_bp st') bs') /\ ~ In r L /\
        forall q, In q L -> exists s,
          In (q, s) (allocs (first_bp st') bs') /\
          payload_end (heap st) q = q + s - 4 /\
          forall x, q <= x < q + s - 4 -> heap st' x = heap st x)).
Proof.
  intros st L size (bs & fl & G & HL) Hsz.
  destruct (adjust_facts size Hsz) as (A1 & A2 & A3 & A4 & A5).
  destruct (malloc_frame_ok st bs fl size G Hsz) as (st' & r & M1 & M2).
  exists st', r. split; [exact M1|].
  destruct M2 as [M2|(bs' & fl' & sz & G' & Hg & Hsz' & Hfresh & Hal & Hk)];
    [left; exact M2|right].
  exists bs', fl', sz. rewrite (grown_first_bp _ _ Hg). pose proof G as (Hsh & _).
  split; [exact G'|]. split; [exact Hg|]. split; [lia|].
  split; [apply Hal; left; split; reflexivity|].
  split.
  { intros Hr. destruct (HL r Hr) as (s & Hs). exact (Hfresh s Hs). }
  intros q Hq. destruct (HL q Hq) as (s & Hs). exists s.
  split; [apply Hal; now right|].
  split; [exact (payload_end_alloc _ _ _ _ Hsh Hs)|].
  intros x Hx. exact (Hk q s Hs x Hx).
Qed.

(** X16.  [malloc] of [1 <= size <= 2^64 - 12] bytes on a well-formed
    heap, whose arena spans less than 2^32 bytes, with the live pointers [L]
    ([inv]): it returns NULL
    and leaves the state as it was, or it returns an 8-byte aligned
    pointer that is not in [L], whose payload lies inside the heap, holds
    at least [size] bytes and overlaps no payload of [L]; every live block
    keeps its size, and no byte of a live payload is changed. *)
Theorem malloc_keeps_live_payloads : forall st L size,
  inv st L -> 0 < size <= max_request ->
  exists st' r, malloc st size = Ok (st', r) /\
    ((r = 0 /\ st' = st) \/
     (r <> 0 /\ r mod 8 = 0 /\ ~ In r L /\ inv st' (r :: L) /\
      mem_heap_lo st' + 16 <= r /\ r + size <= payload_end (heap st') r /\
      payload_end (heap st') r < mem_brk st' /\
      (forall q, In q L ->
         (payload_end (heap st) q < r \/ payload_end (heap st') r < q) /\
         payload_end (heap st') q = payload_end (heap st) q) /\
      payloads_kept L (heap st) (heap st'))).
Proof.
  intros st L size Hinv Hsz.
  destruct (malloc_live st L size Hinv Hsz) as (st' & r & M1 & M2).
  exists st', r. split; [exact M1|].
  destruct M2 as [M2|(bs' & fl' & sz & G' & Hg & Hsz' & Hr & HnL & Hq)];
    [left; exact M2|right].
  pose proof G' as (Hsh' & _).
  pose proof (alloc_block_facts _ _ (shape_geom _ _ Hsh') _ _ Hr)
    as (B1 & B2 & B3 & B4 & B5 & B6 & B7 & B8).
  pose proof (payload_end_alloc _ _ _ _ Hsh' Hr) as Epe.
  split; [lia|]. split; [exact B5|]. split; [exact HnL|].
  split.
  { pose proof (inv_malloc st L size st' r Hinv ltac:(lia) M1) as Hi. unfold add_live in Hi.
    destruct (Z.eqb_spec r 0); [lia|exact Hi]. }
  split; [unfold mem_heap_lo; unfold first_bp in B1; lia|].
  rewrite Epe. split; [lia|]. split; [lia|].
  split.
  - intros q HqL. destruct (Hq q HqL) as (s & Hs & Es & _).
    assert (Hne : q <> r) by (intros ->; contradiction).
    pose proof (allocs_apart _ _ _ _ _ _ (shape_sizes _ _ Hsh') Hs Hr Hne) as Hap.
    pose proof (allocs_range _ _ _ _ (shape_sizes _ _ Hsh') Hs) as Rq.
    rewrite Es, (payload_end_alloc _ _ _ _ Hsh' Hs). split; [lia|reflexivity].
  - intros q HqL x Hx. destruct (Hq q HqL) as (s & Hs & Es & Hk).
    apply Hk. rewrite Es in Hx. exact Hx.
Qed.

Lemma malloc_keeps_live_payloads_at_50 :
  exists st' r, malloc (state_of hist_b) 50 = Ok (st', r) /\
    ((r = 0 /\ st' = state_of hist_b) \/
     (r <> 0 /\ r mod 8 = 0 /\
      ~ In r (add_live (value_of hist_b) (add_live (value_of hist_a) [])) /\
      inv st' (r :: add_live (value_of hist_b) (add_live (value_of hist_a) [])) /\
      mem_heap_lo st' + 16 <= r /\ r + 50 <= payload_end (heap st') r /\
      payload_end (heap st') r < mem_brk st' /\
      (forall q, In q (add_live (value_of hist_b) (add_live (value_of hist_a) [])) ->
         (payload_end (heap (state_of hist_b)) q < r \/ payload_end (heap st') r < q) /\
         payload_end (heap st') q = payload_end (heap (state_of hist_b)) q) /\
      payloads_kept (add_live (value_of hist_b) (add_live (value_of hist_a) []))
        (heap (state_of hist_b)) (heap st'))).
Proof.
  apply (malloc_keeps_live_payloads (state_of hist_b) _ 50
           (reachable_inv _ _ hist_b_reachable)).
  pose proof (small_request 50 ltac:(lia)). lia.
Defined.

(** X17.  [free] of a live pointer changes no byte of the payload of any
    other live pointer, and the remaining pointers are the live pointers of
    the heap it leaves. *)
Theorem free_keeps_other_payloads : forall st L p,
  inv st L -> In p L ->
  exists st', free st p = Ok st' /\ inv st' (del_live p L) /\
    payloads_kept (del_live p L) (heap st) (heap st').
Proof.
  intros st L p Hinv Hp. pose proof Hinv as (bs & fl & G & HL).
  destruct (HL p Hp) as (s & Hs). pose proof G as (Hsh & _).
  destruct (free_live_frame st bs fl p s G Hs) as (st' & bs' & fl' & F1 & F2 & F3 & F4 & F5).
  exists st'. split; [exact F1|].
  split; [exact (inv_free _ _ _ _ Hinv (or_intror Hp) F1)|].
  intros q Hq x Hx. apply in_remove in Hq. destruct Hq as [Hq Hne].
  destruct (HL q Hq) as (s0 & Hs0).
  rewrite (payload_end_alloc _ _ _ _ Hsh Hs0) in Hx.
  apply (F5 q s0); [|exact Hx]. apply F4. split; assumption.
Qed.

Lemma free_keeps_other_payloads_after_two_mallocs :
  exists st', free (state_of hist_b) (value_of hist_a) = Ok st' /\
    inv st' (del_live (value_of hist_a)
               (add_live (value_of hist_b) (add_live (value_of hist_a) []))) /\
    payloads_kept (del_live (value_of hist_a)
                     (add_live (value_of hist_b) (add_live (value_of hist_a) [])))
      (heap (state_of hist_b)) (heap st').
Proof.
  exact (free_keeps_other_payloads (state_of hist_b) _ (value_of hist_a)
           (reachable_inv _ _ hist_b_reachable) hist_a_is_live).
Defined.


(** X19.  [calloc] asks [malloc] for [nmemb * size] reduced modulo 2^64
    and passes the result to [memset] without testing it.  On a well-formed
    heap, whose arena spans less than 2^32 bytes ([inv]), for a product
    between 1 and 2^64 - 12: when [malloc] finds no room the NULL pointer
    reaches [memset], which writes outside the provider's arena; otherwise
    the pointer returned heads a live block whose first [nmemb * size mod
    2^64] payload bytes are 0, the heap satisfies the invariants, and no
    byte of another live payload is changed. *)
Theorem calloc_zeroes_or_faults : forall st L nmemb size,
  inv st L -> 0 < wrap64 (nmemb * size) <= max_request ->
  (malloc st (wrap64 (nmemb * size)) = Ok (st, 0) /\
   calloc st nmemb size = Err SegFault) \/
  (exists st' r, calloc st nmemb size = Ok (st', r) /\
     r <> 0 /\ r mod 8 = 0 /\ ~ In r L /\ inv st' (r :: L) /\
     r + wrap64 (nmemb * size) <= payload_end (heap st') r /\
     (forall i, 0 <= i < wrap64 (nmemb * size) -> heap st' (r + i) = 0) /\
     payloads_kept L (heap st) (heap st')).
Proof.
  intros st L nmemb size Hinv Hb. set (bytes := wrap64 (nmemb * size)) in *.
  pose proof Hinv as (bs & fl & G & HL). pose proof G as (Hsh & _).
  destruct (malloc_live st L bytes Hinv Hb) as (st1 & r & M1 & M2).
  unfold calloc. fold bytes. rewrite M1. cbn [bind].
  destruct M2 as [(-> & ->)|(bs1 & fl1 & sz & G1 & Hg & Hsz & Hr & HnL & Hq)].
  - left. split; [reflexivity|]. unfold memset, in_arena.
    destruct (Z.eqb_spec bytes 0); [lia|]. pose proof (sh_lo _ _ Hsh).
    destruct (Z.leb_spec (mem_start st) 0); [lia|]. reflexivity.
  - right. pose proof G1 as (Hsh1 & _).
    pose proof (alloc_block_facts _ _ (shape_geom _ _ Hsh1) _ _ Hr)
      as (B1 & B2 & B3 & B4 & B5 & B6 & B7 & B8).
    pose proof (sh_brk _ _ Hsh1) as Hbrk.
    assert (Hms : memset st1 r 0 bytes =
                  Ok (set_heap st1 (fill_bytes (Z.to_nat bytes) (heap st1) r 0))).
    { unfold memset, in_arena. destruct (Z.eqb_spec bytes 0); [lia|].
      unfold first_bp in B1.
      destruct (Z.leb_spec (mem_start st1) r); [|lia].
      destruct (Z.leb_spec (r + bytes) (mem_max_addr st1)); [|lia]. reflexivity. }
    rewrite Hms. cbn [bind].
    set (st2 := set_heap st1 (fill_bytes (Z.to_nat bytes) (heap st1) r 0)).
    assert (Hout : forall x, x < r \/ r + bytes <= x -> heap st2 x = heap st1 x).
    { intros x Hx. unfold st2. cbn [heap set_heap]. apply fill_bytes_outside.
      rewrite Z2Nat.id by lia. exact Hx. }
    assert (G2 : good st2 bs1 fl1).
    { apply (payload_write_good st1 bs1 fl1 _ r sz r (r + bytes) G1 Hr); [|lia|lia].
      intros x Hx. apply Hout. exact Hx. }
    pose proof G2 as (Hsh2 & _).
    exists st2, r. split; [reflexivity|].
    split; [lia|]. split; [exact B5|]. split; [exact HnL|].
    split.
    { exists bs1, fl1. split; [exact G2|]. change (first_bp st2) with (first_bp st1).
      intros q [<-|HqL]; [exists sz; exact Hr|].
      destruct (Hq q HqL) as (s & Hs & _). exists s. exact Hs. }
    split.
    { rewrite (payload_end_alloc st2 bs1 r sz Hsh2 Hr). lia. }
    split.
    { intros i Hi. unfold st2. cbn [heap set_heap].
      rewrite fill_bytes_inside by (rewrite Z2Nat.id by lia; exact Hi). reflexivity. }
    intros q HqL x Hx. destruct (Hq q HqL) as (s & Hs & Es & Hk).
    rewrite Es in Hx.
    assert (Hne : q <> r) by (intros ->; contradiction).
    pose proof (allocs_apart _ _ _ _ _ _ (shape_sizes _ _ Hsh1) Hs Hr Hne) as Hap.
    rewrite Hout by lia. exact (Hk x Hx).
Qed.

Lemma calloc_zeroes_ten_by_ten :
  (malloc (state_of hist_b) (wrap64 (10 * 10)) = Ok (state_of hist_b, 0) /\
   calloc (state_of hist_b) 10 10 = Err SegFault) \/
  (exists st' r, calloc (state_of hist_b) 10 10 = Ok (st', r) /\
     r <> 0 /\ r mod 8 = 0 /\
     ~ In r (add_live (value_of hist_b) (add_live (value_of hist_a) [])) /\
     inv st' (r :: add_live (value_of hist_b) (add_live (value_of hist_a) [])) /\
     r + wrap64 (10 * 10) <= payload_end (heap st') r /\
     (forall i, 0 <= i < wrap64 (10 * 10) -> heap st' (r + i) = 0) /\
     payloads_kept (add_live (value_of hist_b) (add_live (value_of hist_a) []))
       (heap (state_of hist_b)) (heap st')).
Proof.
  apply (calloc_zeroes_or_faults (state_of hist_b) _ 10 10
           (reachable_inv _ _ hist_b_reachable)).
  vm_compute. split; [reflexivity|discriminate].
Defined.

(* ================================================================= *)
(** * When [malloc] fails and when it grows the heap *)

Lemma placed_result : forall l1 cs l2 asize bp bs' r,
  16 <= asize <= cs -> placed l1 cs l2 asize bp bs' r -> bp <= r < bp + cs.
Proof. intros l1 cs l2 asize bp bs' r H P. destruct P; lia. Qed.

(** X20.  [malloc] of [1 <= size <= 2^64 - 12] bytes on a heap that
    satisfies the invariants, with [bp] the answer of [find_fit] for the
    adjusted size: when [bp] is a block the break stays where it is and the
    pointer returned lies in that block; when [bp] is NULL the heap is
    extended by exactly [MAX asize CHUNKSIZE] bytes.  The call returns NULL
    exactly when [find_fit] found nothing and the provider cannot supply
    these bytes, and then the state is unchanged. *)
Theorem malloc_fails_only_without_room : forall st size,
  valid_heap st -> 0 < size <= max_request ->
  exists st' r bp, malloc st size = Ok (st', r) /\ find_fit st (adjust size) = Ok bp /\
    (r = 0 <-> bp = 0 /\ mem_max_addr st < mem_brk st + MAX (adjust size) CHUNKSIZE) /\
    (r = 0 -> st' = st) /\
    (bp <> 0 -> mem_brk st' = mem_brk st /\
                bp <= r < bp + GET_SIZE (heap st) (HDRP bp)) /\
    (bp = 0 -> r <> 0 -> mem_brk st' = mem_brk st + MAX (adjust size) CHUNKSIZE).
Proof.
  intros st size (bs & fl & Hsh & Hadj & Hl) Hsz.
  destruct (adjust_facts size Hsz) as (A1 & A2 & A3 & A4 & A5).
  pose proof (sh_lo _ _ Hsh) as Hlo.
  unfold malloc. rewrite (ensure_init_done _ _ Hsh). cbn [bind].
  destruct (Z.leb_spec size 0); [lia|].
  destruct (find_fit_ok st bs fl (adjust size) Hsh Hl) as (bp & Hf & Hr).
  rewrite Hf. cbn [bind].
  destruct Hr as [(-> & Hno)|(s & Hin & Hle & Hv)].
  - cbn [Z.eqb negb].
    destruct (MAX_chunk (adjust size) A1 A2) as (M1 & M2 & M3 & M4).
    assert (Hes : ext_size (MAX (adjust size) CHUNKSIZE / WSIZE) = MAX (adjust size) CHUNKSIZE).
    { apply ext_size_even; [|assumption]. destruct M4 as [-> | ->]; lia. }
    destruct (Z_lt_le_dec (mem_max_addr st) (mem_brk st + MAX (adjust size) CHUNKSIZE))
      as [Hfull|Hroom].
    + rewrite extend_heap_fail by (rewrite Hes; assumption). cbn [bind Z.eqb].
      exists st, 0, 0. split; [reflexivity|]. split; [reflexivity|].
      split; [split; [intros _; split; [reflexivity|exact Hfull]|reflexivity]|].
      split; [reflexivity|]. split; [intros E; contradiction|intros _ E; contradiction].
    + destruct (extend_heap_ok st bs fl (MAX (adjust size) CHUNKSIZE / WSIZE)
                  (conj Hsh (conj Hadj Hl))) as
        (st2 & r2 & bs2 & fl2 & Q1 & Q2 & Q3 & Q4 & lA & s' & lB & Q5 & Q6 & Q7);
        [rewrite Hes; lia|rewrite Hes; assumption|rewrite Hes; assumption|].
      rewrite Q1. cbn [bind]. rewrite Hes in Q7, Q3.
      destruct Q2 as (Hsh2 & Hadj2 & Hl2). subst bs2.
      destruct Q3 as (E1 & E2 & E3 & E4).
      cbn [grow mem_start mem_brk mem_max_addr heap_listp] in E1, E2, E3, E4.
      assert (Hfb : first_bp st2 = first_bp st).
      { unfold first_bp. rewrite E1. reflexivity. }
      pose proof (shape_sizes _ _ Hsh2) as Z0. apply sizes_ok_app in Z0.
      pose proof (sizes_ok_total _ (proj1 Z0)) as Ht.
      assert (Hr2 : r2 <> 0) by (unfold first_bp in Q6; lia).
      destruct (Z.eqb_spec r2 0); [contradiction|].
      destruct (place_ok st2 lA s' lB fl2 (adjust size) Hsh2 Hl2)
        as (st3 & r3 & bs3 & fl3 & P1 & P2 & P3 & P4 & P5);
        [lia|assumption|apply visits_le; unfold num04, num05; lia|].
      rewrite Hfb in P1, P5. rewrite <- Q6 in P1, P5. rewrite P1.
      assert (Has : 16 <= adjust size <= s') by lia.
      pose proof (placed_result _ _ _ _ _ _ _ Has P5) as Hr3.
      destruct P4 as (F1 & F2 & F3 & F4).
      assert (Hne : r3 <> 0) by (unfold first_bp in Q6; lia).
      exists st3, r3, 0. split; [reflexivity|]. split; [reflexivity|].
      split; [split; [intros E; contradiction|intros [_ E]; lia]|].
      split; [intros E; contradiction|].
      split; [intros E; contradiction|]. intros _ _. rewrite F2, E2. reflexivity.
  - assert (Hb : 0 < bp).
    { pose proof (free_block_facts _ _ (shape_geom _ _ Hsh) _ _ Hin). lia. }
    destruct (Z.eqb_spec bp 0); [lia|]. cbn [negb].
    destruct (free_hdr _ _ _ _ Hsh Hin) as (Es & _).
    apply frees_split in Hin. destruct Hin as (l1 & l2 & -> & ->).
    destruct (place_ok st l1 s l2 fl (adjust size) Hsh Hl)
      as (st3 & r3 & bs3 & fl3 & P1 & P2 & P3 & P4 & P5); [lia|assumption|assumption|].
    rewrite P1.
    pose proof (placed_result _ _ _ _ _ _ _ (conj A1 Hle) P5) as Hr3.
    destruct P4 as (F1 & F2 & F3 & F4).
    exists st3, r3, (first_bp st + total l1). split; [reflexivity|]. split; [reflexivity|].
    split; [split; [intros E; lia|intros [E _]; lia]|].
    split; [intros E; lia|].
    split; [intros _; rewrite Es; split; [exact F2|exact Hr3]|intros E; lia].
Qed.

Lemma malloc_fails_only_without_room_at_5000 :
  exists st' r bp, malloc heap2 5000 = Ok (st', r) /\ find_fit heap2 (adjust 5000) = Ok bp /\
    (r = 0 <-> bp = 0 /\ mem_max_addr heap2 < mem_brk heap2 + MAX (adjust 5000) CHUNKSIZE) /\
    (r = 0 -> st' = heap2) /\
    (bp <> 0 -> mem_brk st' = mem_brk heap2 /\
                bp <= r < bp + GET_SIZE (heap heap2) (HDRP bp)) /\
    (bp = 0 -> r <> 0 -> mem_brk st' = mem_brk heap2 + MAX (adjust 5000) CHUNKSIZE).
Proof.
  apply (malloc_fails_only_without_room heap2 5000 heap2_valid).
  pose proof (small_request 5000 ltac:(lia)). lia.
Defined.

(* ================================================================= *)
(** * What [free] merges *)

(** At most one free block: none when [k = 0]. *)
Definition free_run (k : Z) : list block := if k =? 0 then [] else [(k, false)].

(** The lists without the free block of size [k] at [q], when there is one. *)
Definition del_run (k q : Z) (fl : nat -> list Z) : nat -> list Z :=
  if k =? 0 then fl else fl_del fl (class_of k) q.

Lemma free_run_pos : forall k, 16 <= k -> free_run k = [(k, false)].
Proof. intros k H. unfold free_run. destruct (Z.eqb_spec k 0); [lia|reflexivity]. Qed.

Lemma del_run_pos : forall k q fl, 16 <= k -> del_run k q fl = fl_del fl (class_of k) q.
Proof. intros k q fl H. unfold del_run. destruct (Z.eqb_spec k 0); [lia|reflexivity]. Qed.

(** [coalesce] with the block sequence and the lists it leaves. *)
Lemma coalesce_exact : forall st l1 s l2 fl,
  let bp := first_bp st + total l1 in
  let bs := l1 ++ (s, false) :: l2 in
  shape st bs -> lists_ok st bs fl [bp] -> adj_ok (l1 ++ (s, true) :: l2) ->
  exists st' fl' lA a b lB sz r,
    coalesce st bp = Ok (st', r) /\
    l1 = lA ++ free_run a /\ l2 = free_run b ++ lB /\
    (a = 0 \/ 16 <= a) /\ (b = 0 \/ 16 <= b) /\
    last_alloc true lA = true /\ starts_allocated lB /\
    sz = a + s + b /\ r = bp - a /\
    shape st' (lA ++ (sz, false) :: lB) /\
    lists_ok st' (lA ++ (sz, false) :: lB) fl' [] /\
    adj_ok (lA ++ (sz, false) :: lB) /\ same_arena st st' /\
    forall c, fl' c =
      fl_add (del_run b (bp + s) (del_run a r fl)) (class_of sz) r c.
Proof.
  intros st l1 s l2 fl bp bs Hsh Hl Hadj.
  destruct (adj_around_alloc _ _ _ Hadj) as [Ha1 Ha2].
  pose proof (shape_sizes _ _ Hsh) as Hsz.
  destruct (prev_cases l1 Ha1) as [HA|(lA & k & E1 & HA & HaA)];
    destruct (next_cases l2 Ha2) as [HB|(k2 & lB & E2 & HB & HaB)].
  - destruct (coalesce_case1 st l1 l2 fl s HA HB Hsh Hl) as (K1 & K2 & K3 & _).
    exists (insertx st bp s), (fl_add fl (class_of s) bp), l1, 0, 0, l2, s, bp.
    split; [exact K1|]. split; [symmetry; apply app_nil_r|]. split; [reflexivity|].
    split; [now left|]. split; [now left|]. split; [exact HA|]. split; [exact HB|].
    split; [lia|]. split; [lia|]. split; [exact K2|]. split; [exact K3|].
    split; [apply adj_ok_free_mid; assumption|]. split; [repeat split|].
    intros c. reflexivity.
  - subst l2.
    assert (Hk2 : 16 <= k2).
    { apply sizes_ok_app in Hsz. destruct Hsz as [_ Hsz]. apply sizes_ok_cons in Hsz.
      destruct Hsz as [_ Hsz]. apply sizes_ok_cons in Hsz. lia. }
    destruct (coalesce_case2 st l1 lB fl s HA k2 Hsh Hl)
      as (st' & fl' & K1 & K2 & K3 & K4 & _ & K6).
    exists st', fl', l1, 0, k2, lB, (s + k2), bp.
    split; [exact K1|]. split; [symmetry; apply app_nil_r|].
    split; [rewrite free_run_pos by exact Hk2; reflexivity|].
    split; [now left|]. split; [now right|]. split; [exact HA|]. split; [exact HB|].
    split; [lia|]. split; [lia|]. split; [exact K2|]. split; [exact K3|].
    split; [apply adj_ok_free_mid; assumption|]. split; [exact K4|].
    intros c. rewrite (del_run_pos k2) by exact Hk2. exact (K6 c).
  - subst l1. unfold bs in *. rewrite <- app_assoc in Hsh, Hl, Hsz.
    cbn [app] in Hsh, Hl, Hsz.
    assert (Hk : 16 <= k).
    { apply sizes_ok_app in Hsz. destruct Hsz as [_ Hsz]. apply sizes_ok_cons in Hsz. lia. }
    assert (Ebp : bp = first_bp st + total lA + k).
    { unfold bp. rewrite total_app. cbn [total]. lia. }
    rewrite Ebp in *.
    destruct (coalesce_case3 st lA l2 fl s HA HB k Hsh Hl)
      as (st' & fl' & K1 & K2 & K3 & K4 & _ & K6).
    exists st', fl', lA, k, 0, l2, (s + k), (first_bp st + total lA).
    split; [exact K1|].
    split; [rewrite free_run_pos by exact Hk; reflexivity|]. split; [reflexivity|].
    split; [now right|]. split; [now left|]. split; [exact HA|]. split; [exact HB|].
    split; [lia|]. split; [lia|]. split; [exact K2|]. split; [exact K3|].
    split; [apply adj_ok_free_mid; assumption|]. split; [exact K4|].
    intros c. rewrite (del_run_pos k) by exact Hk. exact (K6 c).
  - subst l1 l2. unfold bs in *. rewrite <- app_assoc in Hsh, Hl, Hsz.
    cbn [app] in Hsh, Hl, Hsz.
    assert (Hk : 16 <= k /\ 16 <= k2).
    { apply sizes_ok_app in Hsz. destruct Hsz as [_ Hsz]. apply sizes_ok_cons in Hsz.
      destruct Hsz as [[? ?] Hsz]. apply sizes_ok_cons in Hsz.
      destruct Hsz as [_ Hsz]. apply sizes_ok_cons in Hsz. lia. }
    destruct Hk as [Hk Hk2].
    assert (Ebp : bp = first_bp st + total lA + k).
    { unfold bp. rewrite total_app. cbn [total]. lia. }
    rewrite Ebp in *.
    destruct (coalesce_case4 st lA lB fl s HA k k2 Hsh Hl)
      as (st' & fl' & K1 & K2 & K3 & K4 & _ & K6).
    exists st', fl', lA, k, k2, lB, (s + (k + k2)), (first_bp st + total lA).
    split; [exact K1|].
    split; [rewrite free_run_pos by exact Hk; reflexivity|].
    split; [rewrite free_run_pos by exact Hk2; reflexivity|].
    split; [now right|]. split; [now right|]. split; [exact HA|]. split; [exact HB|].
    split; [lia|]. split; [lia|]. split; [exact K2|]. split; [exact K3|].
    split; [apply adj_ok_free_mid; assumption|]. split; [exact K4|].
    intros c. rewrite !del_run_pos by assumption. exact (K6 c).
Qed.

(** [free] with the block sequence and the lists it leaves. *)
Lemma free_exact : forall st l1 s l2 fl,
  good st (l1 ++ (s, true) :: l2) fl ->
  exists st' fl' lA a b lB sz r,
    free st (first_bp st + total l1) = Ok st' /\
    l1 = lA ++ free_run a /\ l2 = free_run b ++ lB /\
    (a = 0 \/ 16 <= a) /\ (b = 0 \/ 16 <= b) /\
    last_alloc true lA = true /\ starts_allocated lB /\
    sz = a + s + b /\ r = first_bp st + total l1 - a /\
    good st' (lA ++ (sz, false) :: lB) fl' /\ same_arena st st' /\
    forall c, fl' c =
      fl_add (del_run b (first_bp st + total l1 + s) (del_run a r fl)) (class_of sz) r c.
Proof.
  intros st l1 s l2 fl (Hsh & Hadj & Hl).
  set (ptr := first_bp st + total l1).
  destruct (shape_cut _ _ _ _ _ Hsh)
    as (S1 & S2 & S3 & S4 & C1 & C2 & C3 & C4 & C5 & C6 & C7 & Z1 & Z2).
  fold ptr in S2, S3, S4, C6.
  destruct (fields_of_GET _ _ _ _ _ S2 ltac:(lia) C2 C3) as (F1 & F2 & _).
  pose proof (free_prepare st l1 s l2 fl Hsh Hl) as K. cbv zeta in K. fold ptr in K.
  destruct K as (K1 & K2 & _).
  rewrite free_unfold.
  - cbv zeta. unfold_consts. rewrite F1, F2.
    destruct (coalesce_exact _ l1 s l2 fl K1 K2 Hadj)
      as (st' & fl' & lA & a & b & lB & sz & r & Q1 & Q2 & Q3 & Q4 & Q5 & Q6 & Q7 & Q8 &
          Q9 & Q10 & Q11 & Q12 & Q13 & Q14).
    change (first_bp (set_heap st _)) with (first_bp st) in Q1, Q9, Q14. fold ptr in Q1, Q9, Q14.
    rewrite Q1. cbn [bind].
    exists st', fl', lA, a, b, lB, sz, r. split; [reflexivity|].
    split; [exact Q2|]. split; [exact Q3|]. split; [exact Q4|]. split; [exact Q5|].
    split; [exact Q6|]. split; [exact Q7|]. split; [exact Q8|]. split; [exact Q9|].
    split; [split; [exact Q10|split; [exact Q12|exact Q11]]|].
    split; [exact Q13|exact Q14].
  - unfold ptr, first_bp. pose proof (sh_lo _ _ Hsh). lia.
  - rewrite (sh_hlp _ _ Hsh). pose proof (sh_lo _ _ Hsh). lia.
Qed.

(** The sizes [coalesce] reads for the neighbours of [bp]: the stored size
    of the block before it when the prev-allocated bit of [bp] is clear,
    and of the block after it when that block's allocated bit is clear;
    0 for an allocated neighbour. *)
Definition prev_free_size (m : mem) (bp : Z) : Z :=
  if PREVX m (HDRP bp) =? 4 then 0 else GET_SIZE m (HDRP (PREV_BLKP m bp)).

Definition next_free_size (m : mem) (bp : Z) : Z :=
  if GET_ALLOC m (HDRP (NEXT_BLKP m bp)) =? 0
  then GET_SIZE m (HDRP (NEXT_BLKP m bp)) else 0.

Lemma neighbour_sizes : forall st lA a s b lB,
  shape st ((lA ++ free_run a) ++ (s, true) :: free_run b ++ lB) ->
  (a = 0 \/ 16 <= a) -> (b = 0 \/ 16 <= b) ->
  last_alloc true lA = true -> starts_allocated lB ->
  let p := first_bp st + total (lA ++ free_run a) in
  GET_SIZE (heap st) (HDRP p) = s /\
  prev_free_size (heap st) p = a /\ next_free_size (heap st) p = b.
Proof.
  intros st lA a s b lB Hsh Ha Hb HA HB p.
  destruct (block_hdr _ _ _ _ _ Hsh) as (_ & F1 & _ & F3). fold p in F1, F3.
  destruct (shape_cut _ _ _ _ _ Hsh)
    as (_ & _ & _ & S4 & C1 & C2 & C3 & C4 & C5 & C6 & C7 & Z1 & Z2).
  fold p in S4, C6.
  split; [exact F1|]. split.
  - unfold prev_free_size. rewrite F3. destruct Ha as [->|Ha].
    + cbn [free_run Z.eqb]. rewrite app_nil_r, HA. reflexivity.
    + rewrite free_run_pos in * by exact Ha. rewrite last_alloc_snoc. cbn [b2z4 Z.eqb].
      rewrite <- app_assoc in Hsh. cbn [app] in Hsh.
      destruct (shape_cut _ _ _ _ _ Hsh)
        as (_ & T2 & T3 & _ & D1 & D2 & D3 & _).
      specialize (T3 eq_refl).
      assert (Ep : p = first_bp st + total lA + a).
      { unfold p. rewrite ?free_run_pos by exact Ha. rewrite total_snoc. lia. }
      destruct (fields_of_GET _ _ _ _ _ T2 ltac:(lia) D2 D3) as (G1 & _ & _).
      destruct (fields_of_GET _ _ _ _ _ T3 ltac:(lia) D2 D3) as (G2 & _ & _).
      unfold PREV_BLKP. unfold_consts.
      replace (p - 8) with (first_bp st + total lA + a - 8) by lia. rewrite G2.
      replace (p - a - 4) with (first_bp st + total lA - 4) by lia. exact G1.
  - unfold next_free_size, NEXT_BLKP. unfold_consts. rewrite F1.
    assert (Hspan : mem_brk st - (p + s) < 4294967296).
    { unfold p, first_bp in *. lia. }
    destruct Hb as [->|Hb].
    + cbn [free_run Z.eqb app] in S4.
      rewrite (tail_alloc_head _ _ _ _ _ S4 Hspan HB). reflexivity.
    + rewrite free_run_pos in S4 by exact Hb. cbn [app] in S4.
      destruct (tail_free_head _ _ _ _ _ _ S4 Hspan) as (_ & _ & N3 & N4 & _).
      rewrite N4, N3. reflexivity.
Qed.

Lemma del_run_remove : forall (F : list (Z * Z)) (fl : nat -> list Z) k q,
  (forall c x, In x (fl c) -> exists s', In (x, s') F /\ class_of s' = c) ->
  (forall s1 s2, In (q, s1) F -> In (q, s2) F -> s1 = s2) ->
  (k = 0 -> forall s', ~ In (q, s') F) -> (k <> 0 -> In (q, k) F) ->
  forall c, del_run k q fl c = remove Z.eq_dec q (fl c).
Proof.
  intros F fl k q Hs Hf H0 H1 c. unfold del_run. destruct (Z.eqb_spec k 0) as [E|E].
  - symmetry. apply remove_notin. intros Hin. destruct (Hs c q Hin) as (s' & Hq & _).
    exact (H0 E s' Hq).
  - unfold fl_del. destruct (Nat.eqb_spec c (class_of k)) as [->|Hc]; [reflexivity|].
    symmetry. apply remove_notin. intros Hin. destruct (Hs c q Hin) as (s' & Hq & Hcl).
    apply Hc. rewrite <- Hcl. f_equal. exact (Hf s' k Hq (H1 E)).
Qed.

(** The lists after the two neighbours of an allocated block are taken off. *)
Lemma neighbours_removed : forall st lA a s b lB fl,
  good st ((lA ++ free_run a) ++ (s, true) :: free_run b ++ lB) fl ->
  (a = 0 \/ 16 <= a) -> (b = 0 \/ 16 <= b) -> starts_allocated lB ->
  let p := first_bp st + total (lA ++ free_run a) in
  forall c, del_run b (p + s) (del_run a (p - a) fl) c =
            remove Z.eq_dec (p + s) (remove Z.eq_dec (p - a) (fl c)).
Proof.
  intros st lA a s b lB fl (Hsh & _ & Hl) Ha Hb HB p c.
  set (bs := (lA ++ free_run a) ++ (s, true) :: free_run b ++ lB) in *.
  pose proof (shape_sizes _ _ Hsh) as Hsz.
  assert (Z0 : sizes_ok (lA ++ free_run a) /\ 16 <= s /\ sizes_ok (free_run b ++ lB)).
  { unfold bs in Hsz. apply sizes_ok_app in Hsz. destruct Hsz as [Z1 Z2].
    apply sizes_ok_cons in Z2. tauto. }
  destruct Z0 as (Z1 & Hs16 & Z2).
  assert (Hsound : forall c x, In x (fl c) ->
            exists s', In (x, s') (frees (first_bp st) bs) /\ class_of s' = c).
  { intros c0 x Hx. exact (proj2 (lo_sound _ _ _ _ Hl c0 x Hx)). }
  assert (Hfun : forall q s1 s2, In (q, s1) (frees (first_bp st) bs) ->
            In (q, s2) (frees (first_bp st) bs) -> s1 = s2).
  { intros q s1 s2. apply frees_fun. exact Hsz. }
  assert (Hp : In (p, s) (allocs (first_bp st) bs)).
  { unfold bs. apply in_allocs_cut. right. left. cbn [fst snd]. auto. }
  assert (E1 : forall c0, del_run a (p - a) fl c0 = remove Z.eq_dec (p - a) (fl c0)).
  { apply (del_run_remove (frees (first_bp st) bs)); [exact Hsound|apply Hfun| |].
    - intros -> s' Hq. replace (p - 0) with p in Hq by lia.
      exact (frees_not_alloc _ _ _ _ _ Hsz Hq Hp).
    - intros Hne. assert (Ha16 : 16 <= a) by lia.
      unfold bs, p. rewrite free_run_pos by exact Ha16. rewrite <- app_assoc. cbn [app].
      apply in_frees_cut. right. left. cbn [fst snd]. rewrite total_snoc.
      repeat split. lia. }
  rewrite <- E1.
  apply (del_run_remove (frees (first_bp st) bs)).
  - intros c0 x Hx. rewrite E1 in Hx. apply in_remove in Hx. apply Hsound. tauto.
  - apply Hfun.
  - intros -> s' Hq. cbn [free_run Z.eqb app] in *.
    destruct (frees_position _ _ _ _ _ _ _ Z1 Z2 Hq) as [P|[P|P]]; fold p in P.
    + lia.
    + destruct P as (_ & _ & P). discriminate.
    + destruct P as [_ P]. destruct lB as [|[s2 a2] r2]; [contradiction|].
      cbn in HB. subst a2. cbn [frees] in P.
      apply sizes_ok_cons in Z2. destruct Z2 as [[Z3 _] Z4].
      apply frees_range in P; [lia|assumption].
  - intros Hne. assert (Hb16 : 16 <= b) by lia.
    unfold bs. rewrite (free_run_pos b) by exact Hb16. cbn [app].
    change ((lA ++ free_run a) ++ (s, true) :: (b, false) :: lB)
      with ((lA ++ free_run a) ++ (s, true) :: ((b, false) :: lB)).
    apply in_frees_cut. right. right. cbn [fst frees]. fold p. now left.
Qed.

(** X21.  [free] of a live pointer [p] with stored size [s], where [a] and
    [b] are the stored sizes of the block before and the block after [p]
    when these are free and 0 when they are allocated: the heap holds one
    free block of [a + s + b] bytes at [p - a], with header and footer
    [PACK (a + s + b) 4 0]; this block is the first member of the list of
    its size class, the two neighbours are on no list any more, and the
    other members of every list are those of before, in their order. *)
Theorem free_merges_free_neighbours : forall st L p,
  inv st L -> In p L ->
  exists st', free st p = Ok st' /\
    let s := GET_SIZE (heap st) (HDRP p) in
    let a := prev_free_size (heap st) p in
    let b := next_free_size (heap st) p in
    GET (heap st') (HDRP (p - a)) = PACK (a + s + b) 4 0 /\
    GET (heap st') (FTRP (heap st') (p - a)) = PACK (a + s + b) 4 0 /\
    forall c, members st' c =
      (if Nat.eqb c (class_of (a + s + b)) then [p - a] else []) ++
      remove Z.eq_dec (p + s) (remove Z.eq_dec (p - a) (members st c)).
Proof.
  intros st L p (bs & fl & G & HL) Hp. destruct (HL p Hp) as (s & Hs).
  apply allocs_split in Hs. destruct Hs as (l1 & l2 & -> & ->).
  destruct (free_exact st l1 s l2 fl G)
    as (st' & fl' & lA & a & b & lB & sz & r & Q1 & -> & -> & Ha & Hb & HA & HB &
        Esz & Er & G' & Har & Hfl).
  pose proof G as (Hsh & _). pose proof G' as (Hsh' & _).
  destruct (neighbour_sizes st lA a s b lB Hsh Ha Hb HA HB) as (Es & Ea & Eb).
  pose proof (neighbours_removed st lA a s b lB fl G Ha Hb HB) as Hrm. cbv zeta in Hrm.
  set (p := first_bp st + total (lA ++ free_run a)) in *.
  exists st'. split; [exact Q1|]. cbv zeta. rewrite Es, Ea, Eb, <- Esz, <- Er.
  assert (Efb : first_bp st' = first_bp st).
  { unfold first_bp. destruct Har as (E & _). rewrite E. reflexivity. }
  assert (Er' : r = first_bp st' + total lA).
  { rewrite Efb, Er. unfold p. rewrite total_app. destruct Ha as [->|Ha].
    - cbn. lia.
    - rewrite free_run_pos by exact Ha. cbn [total]. lia. }
  destruct (shape_cut _ _ _ _ _ Hsh')
    as (_ & T2 & T3 & _ & D1 & D2 & D3 & _).
  rewrite <- Er', HA in T2, T3. specialize (T3 eq_refl).
  destruct (fields_of_GET _ _ _ _ _ T2 ltac:(lia) D2 D3) as (G1 & _ & _).
  rewrite (PACK_40 sz ltac:(lia) D2).
  split; [exact T2|].
  split; [unfold FTRP; unfold_consts; rewrite G1; exact T3|].
  intros c. rewrite (members_fl st' _ fl' c G'), (members_fl st _ fl c G).
  rewrite Hfl. unfold fl_add. rewrite <- Er, <- Hrm in *.
  destruct (Nat.eqb_spec c (class_of sz)) as [->|Hc]; reflexivity.
Qed.

Lemma free_merges_free_neighbours_in_heap2 :
  exists st', free heap2 (value_of hist_b) = Ok st' /\
    let s := GET_SIZE (heap heap2) (HDRP (value_of hist_b)) in
    let a := prev_free_size (heap heap2) (value_of hist_b) in
    let b := next_free_size (heap heap2) (value_of hist_b) in
    GET (heap st') (HDRP (value_of hist_b - a)) = PACK (a + s + b) 4 0 /\
    GET (heap st') (FTRP (heap st') (value_of hist_b - a)) = PACK (a + s + b) 4 0 /\
    forall c, members st' c =
      (if Nat.eqb c (class_of (a + s + b)) then [value_of hist_b - a] else []) ++
      remove Z.eq_dec (value_of hist_b + s)
        (remove Z.eq_dec (value_of hist_b - a) (members heap2 c)).
Proof.
  exact (free_merges_free_neighbours heap2 live2 (value_of hist_b)
           (reachable_inv _ _ heap2_reachable) heap2_live).
Defined.

(* ================================================================= *)
(** * [realloc]: the copy and the release *)

(** X18.  [realloc] of a live pointer [p] to [1 <= size <= 2^64 - 12]
    bytes, on a well-formed heap (arena of less than 2^32 bytes): it returns
    NULL and leaves the state as it was, or it returns a pointer different
    from [p] and from every live pointer, whose payload holds at least
    [size] bytes and starts with the first [min size n] bytes of the old
    payload, [n] being the payload length of [p].  The old block is
    released: with [s] its stored size, [p] lies in a free block that starts
    at [p - a], holds [a + s + b] bytes ([a] and [b] the bytes of the free
    neighbours merged with it), carries the header [PACK (a + s + b) 4 0]
    and is the first member of the list of its class.  No byte of the
    payload of another live pointer is changed. *)
Theorem realloc_moves_payload : forall st L p size,
  inv st L -> In p L -> 0 < size <= max_request ->
  exists st' r, realloc st p size = Ok (st', r) /\
    ((r = 0 /\ st' = st) \/
     (r <> 0 /\ r <> p /\ ~ In r L /\ inv st' (r :: del_live p L) /\
      r + size <= payload_end (heap st') r /\
      (forall i, 0 <= i < Z.min size (payload_end (heap st) p - p) ->
         heap st' (r + i) = byte_at (heap st) (p + i)) /\
      payloads_kept (del_live p L) (heap st) (heap st') /\
      (exists a b, 0 <= a /\ 0 <= b /\
         GET (heap st') (HDRP (p - a)) =
           PACK (a + GET_SIZE (heap st) (HDRP p) + b) 4 0 /\
         exists rest,
           members st' (class_of (a + GET_SIZE (heap st) (HDRP p) + b)) =
             (p - a) :: rest))).
Proof.
  intros st L p size Hinv Hp Hsz. pose proof Hinv as (bs & fl & G & HL).
  destruct (HL p Hp) as (s & Hs). pose proof G as (Hsh & _).
  destruct (adjust_facts size Hsz) as (A1 & A2 & A3 & A4 & A5).
  destruct (realloc_frame_ok st bs fl p s size G Hs Hsz) as (st' & r & R1 & R2).
  exists st', r. split; [exact R1|].
  destruct R2 as [R2|(st1 & st2 & bs' & fl' & sz & M1 & Hr0 & Hrp & _ & _ & Hfree & G' & Hg &
                      Hsz' & Hal & Hcopy & Hk & bs2 & fl2 & G2 & Hp2)];
    [left; exact R2|right].
  pose proof G' as (Hsh' & _). pose proof (grown_first_bp _ _ Hg) as Hfb.
  assert (Hr : In (r, sz) (allocs (first_bp st') bs')).
  { rewrite Hfb. apply Hal. split; [exact Hrp|]. left. split; reflexivity. }
  assert (HnL : ~ In r L).
  { intros HrL. destruct (malloc_live st L size Hinv Hsz) as (sx & rx & Mx & Hx).
    rewrite M1 in Mx. injection Mx as <- <-.
    destruct Hx as [(Hx & _)|(_ & _ & _ & _ & _ & _ & _ & Hx & _)]; [lia|contradiction]. }
  split; [exact Hr0|]. split; [exact Hrp|]. split; [exact HnL|].
  split.
  { pose proof (inv_realloc st L p size st' r Hinv (or_intror Hp) ltac:(lia) R1) as Hi.
    destruct (Z.eqb_spec size 0); [lia|]. destruct (Z.eqb_spec r 0); [lia|exact Hi]. }
  rewrite (payload_end_alloc _ _ _ _ Hsh' Hr), (payload_end_alloc _ _ _ _ Hsh Hs).
  split; [lia|].
  split.
  { intros i Hi. apply Hcopy. replace (p + s - 4 - p) with (s - 4) in Hi by lia. exact Hi. }
  split.
  { intros q Hq x Hx. apply in_remove in Hq. destruct Hq as [Hq Hne].
    destruct (HL q Hq) as (s0 & Hs0).
    rewrite (payload_end_alloc _ _ _ _ Hsh Hs0) in Hx.
    exact (Hk q s0 Hs0 Hne x Hx). }
  destruct (alloc_hdr _ _ _ _ Hsh Hs) as (Es & _). rewrite Es.
  apply allocs_split in Hp2. destruct Hp2 as (l1 & l2 & -> & Ep).
  destruct (free_exact st2 l1 s l2 fl2 G2)
    as (st'' & fl'' & lA & a & b & lB & sz2 & r2 & Q1 & El1 & _ & Ha & Hb & HA & _ &
        Esz & Er & G'' & Har & Hfl).
  rewrite <- Ep in Q1, Er, Hfl. rewrite Hfree in Q1. injection Q1 as <-.
  pose proof G'' as (Hsh'' & _).
  assert (Efb2 : first_bp st' = first_bp st2).
  { unfold first_bp. destruct Har as (E & _). rewrite E. reflexivity. }
  assert (Er' : r2 = first_bp st' + total lA).
  { rewrite Efb2, Er, Ep, El1, total_app. destruct Ha as [->|Ha].
    - cbn. lia.
    - rewrite free_run_pos by exact Ha. cbn [total]. lia. }
  destruct (shape_cut _ _ _ _ _ Hsh'')
    as (_ & T2 & _ & _ & D1 & D2 & D3 & _).
  rewrite <- Er', HA in T2.
  exists a, b. split; [lia|]. split; [lia|]. rewrite <- Esz, <- Er.
  rewrite (PACK_40 sz2 ltac:(lia) D2). split; [exact T2|].
  rewrite (members_fl st' _ fl'' _ G''), Hfl. unfold fl_add. rewrite Nat.eqb_refl.
  eexists. reflexivity.
Qed.

Lemma realloc_moves_payload_to_300 :
  exists st' r, realloc (state_of hist_b) (value_of hist_a) 300 = Ok (st', r) /\
    ((r = 0 /\ st' = state_of hist_b) \/
     (r <> 0 /\ r <> value_of hist_a /\
      ~ In r (add_live (value_of hist_b) (add_live (value_of hist_a) [])) /\
      inv st' (r :: del_live (value_of hist_a)
                      (add_live (value_of hist_b) (add_live (value_of hist_a) []))) /\
      r + 300 <= payload_end (heap st') r /\
      (forall i, 0 <= i < Z.min 300 (payload_end (heap (state_of hist_b)) (value_of hist_a)
                                     - value_of hist_a) ->
         heap st' (r + i) = byte_at (heap (state_of hist_b)) (value_of hist_a + i)) /\
      payloads_kept (del_live (value_of hist_a)
                       (add_live (value_of hist_b) (add_live (value_of hist_a) [])))
        (heap (state_of hist_b)) (heap st') /\
      (exists a b, 0 <= a /\ 0 <= b /\
         GET (heap st') (HDRP (value_of hist_a - a)) =
           PACK (a + GET_SIZE (heap (state_of hist_b)) (HDRP (value_of hist_a)) + b) 4 0 /\
         exists rest,
           members st' (class_of (a + GET_SIZE (heap (state_of hist_b))
                                        (HDRP (value_of hist_a)) + b)) =
             (value_of hist_a - a) :: rest))).
Proof.
  apply (realloc_moves_payload (state_of hist_b) _ (value_of hist_a) 300
           (reachable_inv _ _ hist_b_reachable) hist_a_is_live).
  pose proof (small_request 300 ltac:(lia)). lia.
Defined.
